(* ===== verification/_CoqProject ===== *)
-Q . S2P
Prelude.v
PyStr.v
PyData.v
Base16.v
Sha256.v
Files.v
Csv.v
Json.v
JsonText.v
Rpc.v
Batch.v
Bech32.v
Validators.v
Ledger.v
Trace.v
SourceAudit.v
SourceSummary.v
Closure.v
Shard1.v
Undelegation.v
Staking.v
ClaimsDiff.v
RevertLeak.v
NonIssuance.v
Interval.v
Blacklist.v
FlowRecords.v
FlowTrace.v
Flow.v
Creation.v
StateDiff.v
PendingCheck.v
ReceiptMap.v
Manifests.v
SourceManifest.v
ResultSets.v
Regex.v
PublicChecks.v
EvmTest.v
Labels.v
Package.v
Release.v
Timestamps.v
Policy.v
Reconcile.v
Pipeline.v
Handover.v
Snapshots.v
