(* ===== verification/Prelude.v ===== *)
(** * Verification of the Harmony supply audit

    The repository audits the native supply of the Harmony blockchain at a cutoff block: Go tools
    read node databases into tables, and the Python scripts under src/toolkit/scripts/ merge the
    tables, classify cross-shard receipts, reconcile totals, and derive which amounts are not
    issued on a new chain.  The scripts under src/scripts/ package the results, write manifests over
    results and sources, and check both before publication.  This development models the Python
    scripts and proves what their reports claim.

    ** Layers shared by the scripts
    - Prelude.v (this file): exceptions and the error monad [result], sums, dicts of integers,
      sorting, the order of strings, automation ([inv_ok], [bool_facts], the hint databases [py]
      and [sums]).
    - PyStr.v, PyData.v, Base16.v: Python's strings, integers and hexadecimal bytes; JSON values with the
      accessors that raise as Python does; CSV rows; [dumps]; hexadecimal texts and their bytes.
    - Sha256.v: SHA-256 and the streaming interface [Digest] against which the chunked
      [file_sha256] of every script is proved.
    - Files.v: the world of files with at most one pending I/O fault, programs over it ([IO]),
      a weakest precondition [wp], and the publication patterns (write [.partial], sync, rename).
    - Csv.v, Json.v: the csv module's reader and writer (reading what was written gives the
      records back) and json.loads, whose fuel is proved enough.
    - Rpc.v: the JSON-RPC retry loop over a transport that is a parameter; Batch.v: batched calls, whose answers may come
      in any order.
    - Bech32.v: the address codecs that the scripts carry; Validators.v: the paging loop over the validators' pages.

    ** Scripts
    - Ledger.v: supply/actual-supply-ledger.py, the four-way merge into the table of claims.
    - Trace.v, SourceAudit.v: forensics/cx-source-audit.py, the verdict on one replayed source
      transaction and the audit of all selected receipts; SourceSummary.v:
      forensics/summarize-cx-source-audit.py, the summary of its output.
    - Closure.v: verify/historical-closure.py and verify/reconstruct-cutoff-formula.py.
    - Shard1.v: forensics/historical-shard1-balance.py.
    - Undelegation.v: forensics/undelegation-mint-reconcile.py; Staking.v and ClaimsDiff.v: forensics/historical-staking-rpc.py
      and historical-claims-diff.py, two snapshots of the claims and their difference.
    - RevertLeak.v, NonIssuance.v: addresses/build-revert-leak-retention.py and
      addresses/build-non-issuance-audit.py.
    - Interval.v: cutoff/canonical-interval-audit.py, the chain of blocks of an interval; Creation.v, StateDiff.v and PendingCheck.v:
      cutoff/verify-created-accounts.py, verify-state-diff-rpc.py and verify-pending-receipts.py.
    - Blacklist.v: addresses/blacklisted-address-audit.py.
    - FlowRecords.v, FlowTrace.v, Flow.v: forensics/historical-exploit-flow-export.py, the records it keeps, the traversal of its traces and
      the export.
    - ReceiptMap.v: forensics/map-cx-receipt-destinations.py.
    - Timestamps.v, Policy.v: verify/migration-policy-reconciliation.py with its report.
    - Reconcile.v: verify/verify-reconciliation.py, which runs Closure.v again.
    - JsonText.v, Pipeline.v, Handover.v, Snapshots.v: what one script writes and another reads back.  JsonText.v shows that json.loads
      returns what json.dumps wrote; Pipeline.v that the export of RevertLeak.v passes NonIssuance.v; Handover.v that the report PendingCheck.v
      verified is accepted by Ledger.v; Snapshots.v that ClaimsDiff.v compares what two runs of Staking.v wrote.
    - Manifests.v: the lines of a manifest and the paths they name; SourceManifest.v: scripts/update-source-manifest.py and
      verify-source-manifest.py; ResultSets.v: scripts/update-result-index.py, update-results-manifest.py and verify-results.py.
    - Labels.v, Package.v: scripts/package-results.py, what it does to a value and to the files; Release.v: a packaged set and its manifest
      as the verifier of ResultSets.v sees them.
    - Regex.v, PublicChecks.v: Python's regular expressions, and scripts/check-numerical-embargo.py, check-public-package.py and
      verify-provenance.py.
    - EvmTest.v: scripts/test-cx-constructor-evm.py, which runs Trace.v on the trace of a Go test.
    In each file a record is the state of a function's loop, a [_step] is the body of that loop,
    and [main] (or the function's own name) composes them in the order of the source; the state
    is threaded by [foldM] where the body only raises and by [fold_io] where it reads or writes.
    Definitions keep the source's names; the doc comment of a definition quotes the expression
    it stands for where the name does not say.

    ** What the theorems show
    - Refinement: the cursor-based merge writes the table and totals of a reference that knows no
      cursors ([merge_refines]); the walk over a trace is the count over a tree of calls
      ([inspect_trace_counts]), and through it a verdict is a property of the tree
      ([rollback_leak_iff]).
    - Conservation: totals in every report are the sums over the rows they summarize
      ([merge_conserves], [audit_conserves], [summary_conserves], [undelegation_conserves],
      [retention_conserves], [non_issuance_totals], [closure_changes]).
    - Rules: the withheld amount ([withheld_rule]), no amount left out twice ([no_double_issue]),
      the derived balance and its composition ([shard1_balance], [shard1_composes]), residuals and
      the formula ([closure_residuals], [reconstruct_formula]).
    - Round trips: addresses, ABI input, and exported tables read back ([to_bech32_roundtrip],
      [retention_export], [non_issuance_output]); an address with one wrong character is refused
      ([decode_detects_substitution]).
    - Files and errors: what is left behind at every point of failure ([merge_atomic],
      [main_output], [undelegation_report], [summary_write_atomic]), and evidence that is
      authenticated, used, and never overrides a replay; and that well-formed inputs succeed ([merge_complete]).
    - Termination: fuel is never used up ([merge_terminates], [interval_terminates], [undelegation_terminates],
      [loads_fuel]).
    - Verifiers: what a passing run has established of the figures under the keys of the files it read ([policy_conserves],
      [initial_stage_sound], [reconciliation_closes], [non_issuance_verified], [state_diff_verified], [pending_receipts_checked],
      [blacklist_totals]).
    - Chains: an interval that was audited is one chain of blocks, reported as the sums and tables
      over its blocks, whatever the chunk size ([interval_chain], [interval_report],
      [chunk_size_irrelevant], [interval_error]).
    - Searches: the block an account was created in and the end of the search ([creation_block], [creation_terminates]).
    - Flows: the edges are the transfers of the successful calls of a trace ([walk_edges]), a recipient is not credited with more than it
      received or holds, by the node's own answers ([distribution_bounds]), and the exported tables agree ([flow_well_formed], [flow_tables_agree]).
    - Node data: the answers of a batch are matched by their ids ([batch_order_irrelevant]), the claims read from the node's pages
      ([staking_snapshot], [staking_terminates]), their differences ([claims_compared]) and the destinations of receipts
      ([receipts_mapped]).
    - Composition: the files that one script leaves are accepted by the next
      ([leak_export_accepted], [snapshots_compared], [verified_report_accepted]).
    - Publication: the source manifest that was generated is accepted and what a verification has established
      ([source_manifest_verified], [source_manifest_sound]); the same for the results, from the packaging script through the manifest to
      the verifier ([release_verified], [index_written], [results_sound]); packaged values lose machine paths and keep their numbers
      ([packaged_value_safe]).
    - Checks before publication, as equivalences with what they look for ([embargo_passes], [hygiene_passes], [provenance_passes]), over a
      matcher of regular expressions that is proved equal to the matching relation ([search_spec]); and the test of the repeated call in a
      constructor ([constructor_test_passes]).

    ** Bounds and fuel
    Python's integers are unbounded and are [Z]; there is no machine width except in SHA-256
    (32-bit words) and in Bech32 (30-bit checksums).  The merge loop's fuel is the number of rows
    and receipt keys left, the trace walk's the depth of the trace plus one, the JSON parser's
    twice the length of the text plus one: each is proved enough.  The paging loop of
    Validators.v ends when the node sends an empty page, so its fuel is a parameter; a node that serves a finite list ends it
    ([scan_listed]).  A bisection over blocks has log2 rounds (Creation.v) and a transaction history at most the source's own limit of 1000
    pages (FlowRecords.v).

    ** Parameters
    The node ([transport], a function of the attempt, the URL and the payload), the clock ([time]), the working directory and links
    ([resolve], [relpath], [is_symlink], [is_directory]), git's listing of the publishable files ([ls_files], a function of the files), the Go
    toolchain ([go_test]), and command line parsing (each script's [args] record).

    ** Not modelled
    - Text is ASCII bytes; JSON numbers are integers; no [int] text has more than 4300 digits.
    - A CSV row longer than its header keeps no extra cells, no cell exceeds the csv module's
      field limit, and the writer quotes a field with a carriage return (as Python does from
      3.13 on).
    - Directories exist, paths are already normalised, and at most one I/O operation fails in a
      run.  JSON objects have distinct keys.
    - What is printed on the standard output, the verdict of Reconcile.v apart.  Which of several failing incidents is reported.
    - The Go programs: they read the node's database through Harmony's packages, which are not in
      the repository.
    - datetime.fromisoformat is that of Python 3.10 (later versions accept more texts), applied
      to texts that end in +00:00.  Which of several failing stages or contract groups is
      reported.
    - Python's recursion limit.
    - Directories as such: a directory's entries are what the paths of the files below it say, and creating one is no operation.
    - Case folding, white space and word characters of a pattern, and the boundaries of lines, outside ASCII.
    - The shell scripts, which only call the tools.
 *)
From stdpp Require Export base gmap strings list fin_maps numbers sorting.
From Stdlib Require Export ZArith Lia.

Open Scope Z_scope.

(** ** Python exceptions and the error monad

    A Python function that may raise is a function into [result].  The constructor is the
    exception's class; its argument is the fixed part of the message (or, for a [KeyError], the
    missing key), so that two different guards are told apart. *)
Inductive exn :=
  | ValueError (msg : string)
  | KeyError (key : string)
  | TypeError
  | AttributeError
  | IndexError
  | RuntimeError (msg : string)
  | AssertionError (msg : string)
  | StopIteration
  | FileExistsError (path : string)
  | FileNotFoundError (path : string)
  | OSError (msg : string)
  | OutOfFuel.

#[export] Instance exn_eq_dec : EqDecision exn.
Proof. solve_decision. Defined.

Inductive result (A : Type) :=
  | Ok (a : A)
  | Err (e : exn).
Arguments Ok {A} a.
Arguments Err {A} e.

#[export] Instance result_eq_dec {A} `{EqDecision A} : EqDecision (result A).
Proof. solve_decision. Defined.

#[export] Instance result_ret : MRet result := @Ok.
#[export] Instance result_bind : MBind result := λ A B f m,
  match m with Ok a => f a | Err e => Err e end.
#[export] Instance result_fmap : FMap result := λ A B f m,
  match m with Ok a => Ok (f a) | Err e => Err e end.

(** [if c: raise e] *)
Definition raise_when (c : bool) (e : exn) : result unit :=
  if c then Err e else Ok tt.

(** A lookup that raises [e] when nothing is found. *)
Definition of_option {A} (o : option A) (e : exn) : result A :=
  match o with Some a => Ok a | None => Err e end.

(** [for x in l: s = f(s, x)], where the body may raise. *)
Fixpoint foldM {S A} (f : S → A → result S) (s : S) (l : list A) : result S :=
  match l with
  | [] => Ok s
  | x :: l => s' ← f s x; foldM f s' l
  end.

(** [[f(x) for x in l]], where [f] may raise. *)
Fixpoint mapR {A B} (f : A → result B) (l : list A) : result (list B) :=
  match l with
  | [] => Ok []
  | x :: l => y ← f x; ys ← mapR f l; Ok (y :: ys)
  end.

(** Examples: the value of a program that returns. *)
Definition get {A} (d : A) (r : result A) : A := match r with Ok a => a | Err _ => d end.
Definition is_ok {A} (r : result A) : bool := match r with Ok _ => true | Err _ => false end.

(** ** Sums *)
Definition zsum (l : list Z) : Z := foldr Z.add 0 l.

Definition sum_by {A} (f : A → Z) (l : list A) : Z := zsum (f <$> l).

(** The sum of the values of a dict. *)
Definition msum {K} `{Countable K} (m : gmap K Z) : Z := map_fold (λ _ v acc, v + acc) 0 m.

(** [d[k] += v] on a [defaultdict(int)] or [Counter], or [d[k] = d.get(k, 0) + v] on a dict. *)
Definition madd {K} `{Countable K} (k : K) (v : Z) (m : gmap K Z) : gmap K Z :=
  <[k := default 0 (m !! k) + v]> m.

(** [d[k]] on a [Counter]: an absent key counts 0. *)
Definition mget {K} `{Countable K} (m : gmap K Z) (k : K) : Z := default 0 (m !! k).

(** ** Sorting, Python's [sorted]: stable *)
Fixpoint insert_by {A} (le : A → A → bool) (x : A) (l : list A) : list A :=
  match l with
  | [] => [x]
  | y :: l' => if le x y then x :: l else y :: insert_by le x l'
  end.

Definition sort_by {A} (le : A → A → bool) (l : list A) : list A := foldr (insert_by le) [] l.

(** ** Order of strings: Python compares [str] by code point *)
Definition str_ltb (a b : string) : bool :=
  match String.compare a b with Lt => true | _ => false end.

Definition str_leb (a b : string) : bool := String.leb a b.

Definition str_lt (a b : string) : Prop := str_ltb a b = true.

(** ** Automation *)
Create HintDb py discriminated.
Create Rewrite HintDb sums.

(** The error monad: what a bind that returned, or that raised, says of its parts. *)
Lemma bind_Ok {A B} (m : result A) (f : A → result B) b :
  (m ≫= f) = Ok b ↔ ∃ a, m = Ok a ∧ f a = Ok b.
Proof. destruct m; simpl; split; [eauto|by intros (? & [= ->] & ?)|done|by intros (? & ? & ?)]. Qed.

Lemma fmap_Ok {A B} (m : result A) (f : A → B) b :
  (f <$> m) = Ok b ↔ ∃ a, m = Ok a ∧ f a = b.
Proof.
  destruct m; simpl; split; [intros [= <-]; eauto|by intros (? & [= ->] & ->)|done|by intros (? & ? & ?)].
Qed.

Lemma get_Ok {A} (d : A) (r : result A) : is_ok r = true → r = Ok (get d r).
Proof. by destruct r. Qed.

Lemma raise_when_Ok c e u : raise_when c e = Ok u ↔ c = false.
Proof. by destruct c, u. Qed.

Lemma raise_when_Err c e e' : raise_when c e = Err e' ↔ c = true ∧ e = e'.
Proof. destruct c; simpl; split; [by intros [= ->]|by intros [_ ->]|done|by intros [? _]]. Qed.

Lemma of_option_Ok {A} (o : option A) e a : of_option o e = Ok a ↔ o = Some a.
Proof. destruct o; simpl; split; congruence. Qed.

(** [inv_ok H] splits a hypothesis that a monadic program returned into one equation for
    each of its calls, and turns each guard it passed into the negated condition. *)
Ltac inv_ok_step H :=
  lazymatch type of H with
  | Ok _ = Ok _ => injection H as H
  | Err _ = Ok _ => discriminate H
  | (_ ≫= _) = Ok _ =>
      let a := fresh "v" in
      let H1 := fresh "E" in
      apply bind_Ok in H as (a & H1 & H); inv_ok_step H1; inv_ok_step H
  | (_ <$> _) = Ok _ =>
      let a := fresh "v" in
      let H1 := fresh "E" in
      apply fmap_Ok in H as (a & H1 & H); inv_ok_step H1
  | raise_when _ _ = Ok _ => apply raise_when_Ok in H
  | of_option _ _ = Ok _ => apply of_option_Ok in H
  | _ => idtac
  end.
Ltac inv_ok H := cbn beta in H; inv_ok_step H.

(** The propositions behind the boolean tests of the context. *)
Ltac bool_facts :=
  repeat match goal with
  | H : (_ || _) = false |- _ => apply orb_false_iff in H as [? ?]
  | H : (_ && _) = true |- _ => apply andb_true_iff in H as [? ?]
  | H : negb _ = false |- _ => apply negb_false_iff in H
  | H : negb _ = true |- _ => apply negb_true_iff in H
  | H : bool_decide _ = true |- _ => apply bool_decide_eq_true in H
  | H : bool_decide _ = false |- _ => apply bool_decide_eq_false in H
  | H : (_ =? _)%Z = true |- _ => apply Z.eqb_eq in H
  | H : (_ =? _)%Z = false |- _ => apply Z.eqb_neq in H
  | H : (_ <? _)%Z = true |- _ => apply Z.ltb_lt in H
  | H : (_ <? _)%Z = false |- _ => apply Z.ltb_ge in H
  | H : (_ <=? _)%Z = true |- _ => apply Z.leb_le in H
  | H : (_ <=? _)%Z = false |- _ => apply Z.leb_gt in H
  | H : (_ =? _)%nat = true |- _ => apply Nat.eqb_eq in H
  | H : (_ =? _)%nat = false |- _ => apply Nat.eqb_neq in H
  | H : (_ <? _)%nat = true |- _ => apply Nat.ltb_lt in H
  | H : (_ <? _)%nat = false |- _ => apply Nat.ltb_ge in H
  end.

(** Case split on the first test or match of the goal. *)
Ltac split_match :=
  match goal with
  | |- context [match ?x with _ => _ end] => destruct x eqn:?
  end.

(** ** Loops *)
Section loops.
Context {S A : Type} (f : S → A → result S).

Lemma foldM_app s l1 l2 : foldM f s (l1 ++ l2) = (s' ← foldM f s l1; foldM f s' l2).
Proof.
  revert s. induction l1 as [|x l1 IH]; intros s; simpl; [done|].
  destruct (f s x); simpl; [apply IH|done].
Qed.

(** A loop that returned keeps an invariant indexed by the items it has consumed. *)
Lemma foldM_ind (P : list A → S → Prop) s0 l s :
  P [] s0 →
  (∀ pre x s1 s2, P pre s1 → x ∈ l → f s1 x = Ok s2 → P (pre ++ [x]) s2) →
  foldM f s0 l = Ok s → P l s.
Proof.
  intros H0 Hstep.
  enough (∀ suf pre s1, pre ++ suf = l → P pre s1 → foldM f s1 suf = Ok s → P l s) as H.
  { intros. by apply (H l [] s0). }
  induction suf as [|x suf IH]; intros pre s1 Hl HP Hf; simpl in Hf.
  - rewrite app_nil_r in Hl. subst. by injection Hf as <-.
  - inv_ok Hf. apply (IH (pre ++ [x]) v); [by rewrite <-app_assoc| |done].
    eapply Hstep; [done| |done]. rewrite <-Hl. set_solver.
Qed.

(** The same, where the step also knows what is left to do. *)
Lemma foldM_ind_split (P : list A → S → Prop) s0 l s :
  P [] s0 →
  (∀ pre x post s1 s2, l = pre ++ x :: post → P pre s1 → f s1 x = Ok s2 → P (pre ++ [x]) s2) →
  foldM f s0 l = Ok s → P l s.
Proof.
  intros H0 Hstep.
  enough (∀ suf pre s1, pre ++ suf = l → P pre s1 → foldM f s1 suf = Ok s → P l s) as H by (intros; by apply (H l [] s0)).
  induction suf as [|x suf IH]; intros pre s1 Hl HP Hf; simpl in Hf.
  - rewrite app_nil_r in Hl. subst. by injection Hf as <-.
  - inv_ok Hf. apply (IH (pre ++ [x]) v); [by rewrite <-app_assoc| |done]. by eapply Hstep.
Qed.

Lemma foldM_inv (P : S → Prop) s0 l s :
  P s0 → (∀ x s1 s2, P s1 → x ∈ l → f s1 x = Ok s2 → P s2) → foldM f s0 l = Ok s → P s.
Proof. intros ??. apply (foldM_ind (λ _, P)); eauto. Qed.

(** A loop whose body never raises on the states it reaches returns. *)
Lemma foldM_total (P : S → Prop) s0 l :
  P s0 → (∀ x s1, P s1 → x ∈ l → ∃ s2, f s1 x = Ok s2 ∧ P s2) →
  ∃ s, foldM f s0 l = Ok s ∧ P s.
Proof.
  revert s0. induction l as [|x l IH]; intros s0 H0 Hstep; simpl; [eauto|].
  destruct (Hstep x s0) as (s2 & -> & H2); [done|set_solver|]; simpl.
  apply IH; [done|]. intros; apply Hstep; set_solver.
Qed.

(** Each item was accepted in the state it met. *)
Lemma foldM_Ok_elem s0 l s x :
  foldM f s0 l = Ok s → x ∈ l → ∃ s1 s2, f s1 x = Ok s2.
Proof.
  revert s0. induction l as [|y l IH]; intros s0 Hf Hx; [set_solver|].
  simpl in Hf. inv_ok Hf. apply elem_of_cons in Hx as [->|Hx]; eauto.
Qed.
End loops.

(** ** Termination: a program whose loops have fuel never runs out of it *)
Definition returns {A} (r : result A) : Prop := r ≠ Err OutOfFuel.

Lemma returns_Ok {A} (a : A) : returns (Ok a).
Proof. done. Qed.
Lemma returns_Err {A} e : e ≠ OutOfFuel → returns (Err e : result A).
Proof. unfold returns. congruence. Qed.
Lemma returns_bind {A B} (m : result A) (f : A → result B) :
  returns m → (∀ a, m = Ok a → returns (f a)) → returns (m ≫= f).
Proof. unfold returns. destruct m; simpl; [auto|]. intros H _ [= ->]. done. Qed.
Lemma returns_fmap {A B} (m : result A) (f : A → B) : returns m → returns (f <$> m).
Proof. unfold returns. destruct m; simpl; congruence. Qed.
Lemma returns_raise_when c e : e ≠ OutOfFuel → returns (raise_when c e).
Proof. unfold returns. destruct c; simpl; congruence. Qed.
Lemma returns_of_option {A} (o : option A) e : e ≠ OutOfFuel → returns (of_option o e).
Proof. unfold returns. destruct o; simpl; congruence. Qed.
Lemma returns_foldM {S A} (f : S → A → result S) s l :
  (∀ s x, x ∈ l → returns (f s x)) → returns (foldM f s l).
Proof.
  revert s. induction l as [|x l IH]; intros s H; simpl; [done|].
  apply returns_bind; [apply H; set_solver|]. intros. apply IH. intros. apply H. set_solver.
Qed.
Lemma returns_mapR {A B} (f : A → result B) l : (∀ x, x ∈ l → returns (f x)) → returns (mapR f l).
Proof.
  induction l as [|x l IH]; intros H; simpl; [done|].
  apply returns_bind; [apply H; set_solver|]. intros ? _.
  apply returns_bind; [|done]. apply IH. intros. apply H. set_solver.
Qed.
#[export] Hint Resolve returns_Ok returns_Err returns_bind returns_fmap returns_raise_when returns_of_option
  returns_foldM returns_mapR : py.
#[export] Hint Extern 1 (_ ≠ OutOfFuel) => discriminate : py.

Lemma mapR_Ok {A B} (f : A → result B) l k :
  mapR f l = Ok k ↔ Forall2 (λ x y, f x = Ok y) l k.
Proof.
  revert k. induction l as [|x l IH]; intros k; simpl.
  - split; [intros [= <-]; constructor|by inversion 1].
  - split.
    + intros H. inv_ok H. subst k. constructor; [done|]. by apply IH.
    + inversion 1 as [|? y ? k' Hx Hl]; subst. rewrite Hx. simpl.
      apply IH in Hl. by rewrite Hl.
Qed.

Lemma mapR_cons_Ok {A B} (f : A → result B) x l k :
  mapR f (x :: l) = Ok k ↔ ∃ y ys, k = y :: ys ∧ f x = Ok y ∧ mapR f l = Ok ys.
Proof.
  simpl. split; [intros H; inv_ok H; subst k; eauto|]. by intros (y & ys & -> & -> & ->).
Qed.

(** A loop whose body is a fallible reading of the item and a total update of the state. *)
Lemma foldM_mapR {S A B} (f : S → A → result S) (g : A → result B) (h : S → B → S) s l :
  (∀ s x, f s x = (y ← g x; Ok (h s y))) → foldM f s l = (ys ← mapR g l; Ok (foldl h s ys)).
Proof.
  intros Hf. revert s. induction l as [|x l IH]; intros s; simpl; [done|]. rewrite Hf.
  destruct (g x) as [y|]; simpl; [|done]. rewrite IH. by destruct (mapR g l).
Qed.

Lemma mapR_app {A B} (f : A → result B) l1 l2 :
  mapR f (l1 ++ l2) = (k1 ← mapR f l1; k2 ← mapR f l2; Ok (k1 ++ k2)).
Proof.
  induction l1 as [|x l1 IH]; simpl; [by destruct (mapR f l2)|].
  destruct (f x); simpl; [|done]. rewrite IH. destruct (mapR f l1); simpl; [|done]. by destruct (mapR f l2).
Qed.

Lemma mapR_length {A B} (f : A → result B) l k : mapR f l = Ok k → length k = length l.
Proof. intros H%mapR_Ok%Forall2_length. done. Qed.

Lemma mapR_ext {A B} (f g : A → result B) l : (∀ x, x ∈ l → f x = g x) → mapR f l = mapR g l.
Proof.
  induction l as [|x l IH]; intros H; simpl; [done|].
  rewrite (H x), IH; [done| |set_solver]. intros. apply H. set_solver.
Qed.

(** ** Sums *)
Lemma zsum_app l1 l2 : zsum (l1 ++ l2) = zsum l1 + zsum l2.
Proof. induction l1; simpl in *; lia. Qed.

Lemma zsum_Permutation l1 l2 : l1 ≡ₚ l2 → zsum l1 = zsum l2.
Proof. induction 1; simpl in *; lia. Qed.

Lemma zsum_nonneg l : Forall (λ x, 0 ≤ x) l → 0 ≤ zsum l.
Proof. induction 1; simpl in *; lia. Qed.

#[export] Instance zsum_proper : Proper ((≡ₚ) ==> (=)) zsum.
Proof. intros l1 l2. apply zsum_Permutation. Qed.

Section sum_by.
Context {A : Type}.
Implicit Types (f g : A → Z) (l : list A).

Lemma sum_by_nil f : sum_by f [] = 0.
Proof. done. Qed.
Lemma sum_by_cons f x l : sum_by f (x :: l) = f x + sum_by f l.
Proof. done. Qed.
Lemma sum_by_app f l1 l2 : sum_by f (l1 ++ l2) = sum_by f l1 + sum_by f l2.
Proof. unfold sum_by. by rewrite fmap_app, zsum_app. Qed.
Lemma sum_by_snoc f l x : sum_by f (l ++ [x]) = sum_by f l + f x.
Proof. rewrite sum_by_app, sum_by_cons, sum_by_nil. lia. Qed.
Lemma sum_by_Permutation f l1 l2 : l1 ≡ₚ l2 → sum_by f l1 = sum_by f l2.
Proof. intros H. unfold sum_by. by rewrite H. Qed.
Lemma sum_by_ext f g l : (∀ x, x ∈ l → f x = g x) → sum_by f l = sum_by g l.
Proof.
  induction l as [|x l IH]; intros H; [done|].
  rewrite !sum_by_cons, (H x), IH; [done| |set_solver]. intros. apply H. set_solver.
Qed.
Lemma sum_by_add f g l : sum_by (λ x, f x + g x) l = sum_by f l + sum_by g l.
Proof. induction l as [|x l IH]; rewrite ?sum_by_cons, ?sum_by_nil; lia. Qed.
Lemma sum_by_nonneg f l : (∀ x, x ∈ l → 0 ≤ f x) → 0 ≤ sum_by f l.
Proof.
  intros H. apply zsum_nonneg, Forall_fmap, Forall_forall. intros x Hx. by apply H.
Qed.
Lemma sum_by_le f g l : (∀ x, x ∈ l → f x ≤ g x) → sum_by f l ≤ sum_by g l.
Proof.
  induction l as [|x l IH]; intros H; [done|]. rewrite !sum_by_cons.
  assert (f x ≤ g x) by (apply H; set_solver).
  assert (sum_by f l ≤ sum_by g l) by (apply IH; intros; apply H; set_solver). lia.
Qed.
Lemma sum_by_fmap {B} (h : B → A) f (l : list B) : sum_by f (h <$> l) = sum_by (f ∘ h) l.
Proof. unfold sum_by. by rewrite <-list_fmap_compose. Qed.
Lemma sum_by_filter_split (P : A → Prop) `{∀ x, Decision (P x)} f l :
  sum_by f l = sum_by f (filter P l) + sum_by f (filter (λ x, ¬ P x) l).
Proof.
  induction l as [|x l IH]; [done|].
  rewrite sum_by_cons, !filter_cons.
  repeat case_decide; rewrite ?sum_by_cons; try tauto; lia.
Qed.
End sum_by.
#[export] Hint Rewrite @sum_by_nil @sum_by_cons @sum_by_snoc @sum_by_app : sums.

(** ** Dicts of integers *)
Section counters.
Context {K : Type} `{Countable K}.
Implicit Types (m : gmap K Z) (k : K) (v : Z).

Lemma msum_empty : msum (∅ : gmap K Z) = 0.
Proof. apply map_fold_empty. Qed.

Lemma msum_insert_None m k v : m !! k = None → msum (<[k := v]> m) = v + msum m.
Proof.
  intros Hk. unfold msum. rewrite map_fold_insert_L; [done| |done]. intros. lia.
Qed.

Lemma msum_delete m k : msum m = mget m k + msum (delete k m).
Proof.
  unfold mget. destruct (m !! k) as [x|] eqn:Hk; simpl.
  - rewrite <-(insert_delete_id m k x) at 1 by done.
    rewrite msum_insert_None by apply lookup_delete_eq. done.
  - by rewrite delete_id.
Qed.

Lemma msum_insert m k v : msum (<[k := v]> m) = msum m - mget m k + v.
Proof.
  rewrite (msum_delete (<[k:=v]> m) k), (msum_delete m k). unfold mget.
  rewrite lookup_insert_eq, delete_insert_eq. simpl. lia.
Qed.

Lemma msum_madd m k v : msum (madd k v m) = msum m + v.
Proof. unfold madd. rewrite msum_insert. unfold mget. lia. Qed.

Lemma mget_madd m k v k' : mget (madd k v m) k' = mget m k' + (if decide (k = k') then v else 0).
Proof.
  unfold mget, madd. case_decide as Hk; subst.
  - by rewrite lookup_insert_eq.
  - rewrite lookup_insert_ne by done. lia.
Qed.

Lemma mget_empty k : mget (∅ : gmap K Z) k = 0.
Proof. unfold mget. by rewrite lookup_empty. Qed.

Lemma dom_madd m k v : dom (madd k v m) = {[k]} ∪ dom m.
Proof. unfold madd. by rewrite dom_insert_L. Qed.

Lemma msum_map_to_list m : msum m = sum_by snd (map_to_list m).
Proof.
  unfold msum. rewrite map_fold_foldr.
  induction (map_to_list m) as [|[k v] l IH]; simpl; [done|]. by rewrite sum_by_cons, IH.
Qed.

(** A dict with known keys. *)
Lemma msum_keys m (ks : list K) : NoDup ks → dom m = list_to_set ks → msum m = sum_by (mget m) ks.
Proof.
  intros Hnd. revert m. induction Hnd as [|k ks Hk Hnd IH]; intros m Hd; simpl in Hd.
  - apply dom_empty_inv_L in Hd as ->. by rewrite msum_empty.
  - rewrite sum_by_cons, (msum_delete m k), (IH (delete k m)).
    + f_equal. apply sum_by_ext. intros x Hx. unfold mget.
      by rewrite lookup_delete_ne by (by intros ->).
    + rewrite dom_delete_L, Hd. apply leibniz_equiv. set_solver.
Qed.

(** A dict whose keys are among some. *)
Lemma msum_keys_sub m (ks : list K) : NoDup ks → dom m ⊆ list_to_set ks → msum m = sum_by (mget m) ks.
Proof.
  intros Hnd. revert m. induction Hnd as [|k ks Hk Hnd IH]; intros m Hd.
  - assert (m = ∅) as -> by (apply dom_empty_inv_L; set_solver). by rewrite msum_empty.
  - rewrite sum_by_cons, (msum_delete m k), (IH (delete k m)).
    + f_equal. apply sum_by_ext. intros x Hx. unfold mget.
      by rewrite lookup_delete_ne by (by intros ->).
    + rewrite dom_delete_L. set_solver.
Qed.

(** A field summed over a dict of records, where [d] is the value of an absent key. *)
Lemma msum_fmap_insert {B} (f : B → Z) (d : B) (b : gmap K B) k (x : B) :
  f d = 0 → msum (f <$> <[k := x]> b) = msum (f <$> b) - f (default d (b !! k)) + f x.
Proof.
  intros Hf. rewrite fmap_insert, msum_insert. unfold mget. rewrite lookup_fmap.
  destruct (b !! k); simpl; [done|]. by rewrite Hf.
Qed.

Lemma msum_fmap_union_with {B} (f : B → Z) (g : B → B → B) (b1 b2 : gmap K B) :
  (∀ x y, f (g x y) = f x + f y) →
  msum (f <$> union_with (λ x y, Some (g x y)) b1 b2) = msum (f <$> b1) + msum (f <$> b2).
Proof.
  intros Hg. set (ks := elements (dom b1 ∪ dom b2)).
  assert (Hnd : NoDup ks) by apply NoDup_elements.
  assert (Hks : (list_to_set ks : gset K) = dom b1 ∪ dom b2) by apply list_to_set_elements_L.
  rewrite !(msum_keys_sub _ ks) by (try done; intros x Hx; rewrite Hks, elem_of_union, !elem_of_dom;
    apply elem_of_dom in Hx; rewrite lookup_fmap, ?lookup_union_with in Hx;
    destruct (b1 !! x), (b2 !! x); simpl in Hx; eauto; by destruct Hx).
  rewrite <-sum_by_add. apply sum_by_ext. intros x _. unfold mget. rewrite !lookup_fmap, lookup_union_with.
  destruct (b1 !! x), (b2 !! x); simpl; rewrite ?Hg; lia.
Qed.

(** Accumulating a list into a dict: the dict's sum is the list's, and each entry is the
    sum over the items with its key. *)
Context {A : Type} (key : A → K) (val : A → Z).

Definition tally (m : gmap K Z) (l : list A) : gmap K Z :=
  foldl (λ m x, madd (key x) (val x) m) m l.

Lemma tally_snoc m l x : tally m (l ++ [x]) = madd (key x) (val x) (tally m l).
Proof. unfold tally. by rewrite foldl_app. Qed.

Lemma msum_tally m l : msum (tally m l) = msum m + sum_by val l.
Proof.
  unfold tally. revert m. induction l as [|x l IH]; intros m; simpl.
  - rewrite sum_by_nil. lia.
  - rewrite IH, msum_madd, sum_by_cons. lia.
Qed.

Lemma mget_tally m l k :
  mget (tally m l) k = mget m k + sum_by val (filter (λ x, key x = k) l).
Proof.
  unfold tally. revert m. induction l as [|x l IH]; intros m; simpl.
  - rewrite filter_nil, sum_by_nil. lia.
  - rewrite IH, mget_madd, filter_cons.
    destruct (decide (key x = k)); rewrite ?sum_by_cons; lia.
Qed.
End counters.
#[export] Hint Rewrite @msum_empty @msum_madd @mget_madd @mget_empty : sums.

Lemma dom_tally {A K} `{Countable K} (key : A → K) (val : A → Z) l : dom (tally key val ∅ l) = list_to_set (key <$> l).
Proof.
  induction l as [|x l IH] using rev_ind; [done|]. rewrite tally_snoc, dom_madd, IH, fmap_app, list_to_set_app_L. set_solver.
Qed.

Lemma sum_by_zero {A} (l : list A) : sum_by (λ _, 0) l = 0.
Proof. induction l as [|x l IH]; [done|by rewrite sum_by_cons]. Qed.

Lemma sum_indicator {A} `{EqDecision A} (x : A) v l : NoDup l → x ∈ l → sum_by (λ y, if decide (y = x) then v else 0) l = v.
Proof.
  intros Hnd Hx. induction Hnd as [|y l Hy Hnd IH]; [by apply not_elem_of_nil in Hx|]. rewrite sum_by_cons.
  destruct (decide (y = x)) as [->|Hne].
  - rewrite (sum_by_ext _ (λ _, 0)); [rewrite sum_by_zero; lia|]. intros z Hz. rewrite decide_False; [done|]. by intros ->.
  - rewrite IH; [lia|]. by apply elem_of_cons in Hx as [->|].
Qed.

Lemma sum_ones {A} (l : list A) : sum_by (λ _, 1) l = Z.of_nat (length l).
Proof. induction l as [|x l IH]; [done|]. rewrite sum_by_cons, IH. simpl length. lia. Qed.

(** As many members as entries: no entry is repeated. *)
Section sizes.
Context {A : Type} `{Countable A}.

Lemma size_list_to_set_le (l : list A) : (size (list_to_set l : gset A) ≤ length l)%nat.
Proof.
  induction l as [|x l IH]; [done|]; simpl.
  destruct (decide (x ∈ (list_to_set l : gset A))) as [Hx|Hx].
  - rewrite subseteq_union_1_L; [lia|]. by apply singleton_subseteq_l.
  - rewrite size_union, size_singleton; [lia|]. by apply disjoint_singleton_l.
Qed.

Lemma size_NoDup (l : list A) : length l = size (list_to_set l : gset A) → NoDup l.
Proof.
  intros Hs. induction l as [|x l IH]; [constructor|]. simpl in Hs.
  destruct (decide (x ∈ (list_to_set l : gset A))) as [Hx|Hx].
  - rewrite subseteq_union_1_L in Hs by (by apply singleton_subseteq_l).
    pose proof (size_list_to_set_le l). lia.
  - rewrite size_union, size_singleton in Hs by (by apply disjoint_singleton_l).
    constructor; [|apply IH; lia]. by rewrite elem_of_list_to_set in Hx.
Qed.
End sizes.

Lemma foldM_concat {S A} (f : S → A → result S) s ls : foldM f s (mjoin ls) = foldM (foldM f) s ls.
Proof.
  revert s. induction ls as [|l ls IH]; intros s; [done|]. cbn [mjoin list_join foldM]. rewrite foldM_app.
  destruct (foldM f s l); [apply IH|done].
Qed.

Lemma foldM_fmap {S A B} (f : S → B → result S) (g : A → B) s l : foldM f s (g <$> l) = foldM (λ s x, f s (g x)) s l.
Proof.
  revert s. induction l as [|x l IH]; intros s; [done|]. cbn [fmap list_fmap foldM]. destruct (f s (g x)); [apply IH|done].
Qed.

Lemma foldM_weaken {S A} (f g : S → A → result S) s l s' :
  (∀ s x s', x ∈ l → f s x = Ok s' → g s x = Ok s') → foldM f s l = Ok s' → foldM g s l = Ok s'.
Proof.
  revert s. induction l as [|x l IH]; intros s Hfg; [done|]. cbn [foldM]. intros H. apply bind_Ok in H as (s1 & H1 & H).
  rewrite (Hfg _ _ s1) by (done || by left). apply IH; [|done]. intros. apply Hfg; [by right|done].
Qed.

Lemma mapR_values {A B} (f : A → result B) (g : A → B) l k : (∀ x y, f x = Ok y → y = g x) → mapR f l = Ok k → k = g <$> l.
Proof.
  intros Hf H%mapR_Ok. induction H as [|x y l k Hx _ IH]; [done|]. rewrite fmap_cons, <-IH. f_equal. by apply Hf.
Qed.

Lemma keep_one {A} (P : A → Prop) `{∀ x, Decision (P x)} x : filter P [x] = if decide (P x) then [x] else [].
Proof. done. Qed.

Lemma NoDup_snoc {A} (l : list A) x : NoDup l → x ∉ l → NoDup (l ++ [x]).
Proof.
  intros Hl Hx. apply NoDup_app. split_and!; [done| |apply NoDup_singleton].
  intros y Hy Hy'. apply list_elem_of_singleton in Hy' as ->. done.
Qed.

(** A dict filled by assignments with distinct keys is the tally of the values. *)
Lemma foldl_insert_tally {K A} `{Countable K} (key : A → K) (val : A → Z) (m : gmap K Z) l :
  NoDup (key <$> l) → (∀ x, x ∈ l → m !! key x = None) →
  foldl (λ m x, <[key x := val x]> m) m l = tally key val m l.
Proof.
  revert m. induction l as [|x l IH]; intros m Hd Hm; [done|]. rewrite fmap_cons in Hd.
  apply NoDup_cons in Hd as [Hx Hd]. simpl. unfold madd. rewrite (Hm x) by (by left). simpl.
  apply IH; [done|]. intros y Hy. rewrite lookup_insert_ne; [apply Hm; by right|].
  intros E. apply Hx. rewrite E. by apply list_elem_of_fmap_2.
Qed.

(** ** Sorting *)
Section sort_by.
Context {A : Type} (le : A → A → bool).

Lemma insert_by_Permutation x l : insert_by le x l ≡ₚ x :: l.
Proof.
  induction l as [|y l IH]; simpl; [done|]. case_match; [done|].
  rewrite IH. by constructor.
Qed.

Lemma sort_by_Permutation l : sort_by le l ≡ₚ l.
Proof. induction l as [|x l IH]; simpl; [done|]. by rewrite insert_by_Permutation, IH. Qed.

Context (le_total : ∀ x y, le x y = true ∨ le y x = true)
        (le_trans : ∀ x y z, le x y = true → le y z = true → le x z = true).

Lemma insert_by_sorted x l :
  StronglySorted (λ a b, le a b = true) l → StronglySorted (λ a b, le a b = true) (insert_by le x l).
Proof.
  induction 1 as [|y l Hl IH Hy]; simpl; [repeat constructor|].
  destruct (le x y) eqn:Hxy.
  - constructor; [by constructor|]. constructor; [done|].
    eapply Forall_impl; [done|]. eauto.
  - constructor; [done|]. rewrite insert_by_Permutation. constructor; [|done].
    destruct (le_total x y); congruence.
Qed.

Lemma sort_by_sorted l : StronglySorted (λ a b, le a b = true) (sort_by le l).
Proof. induction l; simpl; [constructor|]. by apply insert_by_sorted. Qed.
End sort_by.

Lemma StronglySorted_weaken {A} (P Q : A → A → Prop) l :
  (∀ x y, P x y → Q x y) → StronglySorted P l → StronglySorted Q l.
Proof. intros HPQ. induction 1; constructor; [done|]. eapply Forall_impl; eauto. Qed.

(** ** Order of strings *)
Lemma string_compare_refl a : String.compare a a = Eq.
Proof.
  induction a as [|c a IH]; simpl; [done|]. unfold Ascii.compare. by rewrite N.compare_refl.
Qed.

Lemma str_lt_irrefl a : ¬ str_lt a a.
Proof. unfold str_lt, str_ltb. by rewrite string_compare_refl. Qed.

Lemma str_lt_le a b : str_lt a b → (a ≤ b)%string.
Proof.
  unfold str_lt, str_ltb, String.le, String.leb. by destruct (String.compare a b).
Qed.

Lemma str_lt_spec a b : str_lt a b ↔ (a ≤ b)%string ∧ a ≠ b.
Proof.
  split.
  - intros H. split; [by apply str_lt_le|]. intros ->. by apply str_lt_irrefl in H.
  - intros [Hle Hne]. unfold str_lt, str_ltb. unfold String.le, String.leb in Hle.
    destruct (String.compare a b) eqn:E; [|done|done].
    by apply String.compare_eq_iff in E.
Qed.

#[export] Instance str_lt_strict : StrictOrder str_lt.
Proof.
  split.
  - intros a. apply str_lt_irrefl.
  - intros a b c [H1 H1']%str_lt_spec [H2 H2']%str_lt_spec. apply str_lt_spec.
    split; [by trans b|]. intros ->. apply H1'. by apply (anti_symm String.le).
Qed.

Lemma str_lt_total a b : str_lt a b ∨ a = b ∨ str_lt b a.
Proof.
  destruct (decide (a = b)) as [|Hne]; [tauto|].
  destruct (total String.le a b); [left|right; right]; apply str_lt_spec; done.
Qed.

Lemma str_leb_ltb a b : str_leb a b = negb (str_ltb b a).
Proof.
  unfold str_leb, str_ltb, String.leb. rewrite String.compare_antisym.
  by destruct (String.compare b a).
Qed.

Lemma str_leb_total a b : str_leb a b = true ∨ str_leb b a = true.
Proof. apply String.leb_total. Qed.

Lemma str_leb_trans a b c : str_leb a b = true → str_leb b c = true → str_leb a c = true.
Proof.
  intros H1 H2. apply Is_true_true, (transitivity (R:=String.le) (y:=b)); by apply Is_true_true.
Qed.

Lemma str_leb_true a b : str_leb a b = true ↔ str_lt a b ∨ a = b.
Proof.
  rewrite str_leb_ltb, negb_true_iff. split.
  - intros H. destruct (str_lt_total a b) as [|[|Hl]]; [tauto..|]. unfold str_lt in Hl. congruence.
  - intros [H| ->]; [|apply not_true_is_false, str_lt_irrefl].
    apply not_true_is_false. intros H'. apply (irreflexivity str_lt a). by trans b.
Qed.

(** Sorting distinct strings gives a strictly increasing list. *)
Lemma sort_by_str_sorted l : NoDup l → StronglySorted str_lt (sort_by str_leb l).
Proof.
  intros Hnd. pose proof (sort_by_sorted str_leb str_leb_total str_leb_trans l) as Hs.
  rewrite <-(sort_by_Permutation str_leb l) in Hnd.
  induction Hs as [|x k Hk IH Hx]; [constructor|].
  apply NoDup_cons in Hnd as [Hin Hnd]. constructor; [by apply IH|].
  rewrite Forall_forall in *. intros y Hy. specialize (Hx y Hy).
  apply str_leb_true in Hx as [?| ->]; done.
Qed.

(** Sorting by a key, and the keys sorted. *)
Lemma fmap_sort_by {A B} (f : A → B) (le : B → B → bool) l :
  f <$> sort_by (λ x y, le (f x) (f y)) l = sort_by le (f <$> l).
Proof.
  assert (Hi : ∀ x l, f <$> insert_by (λ x y, le (f x) (f y)) x l = insert_by le (f x) (f <$> l)).
  { intros x k. induction k as [|y k IH]; simpl; [done|]. destruct (le (f x) (f y)); simpl; [done|]. by f_equal. }
  induction l as [|x l IH]; simpl; [done|]. by rewrite Hi, IH.
Qed.

Lemma sorted_NoDup l : StronglySorted str_lt l → NoDup l.
Proof.
  induction 1 as [|x l Hl IH Hx]; constructor; [|done]. intros Hin. rewrite Forall_forall in Hx.
  apply (str_lt_irrefl x), Hx, Hin.
Qed.
