(* ===== verification/PyStr.v ===== *)
(** * Python strings and integers

    The part of Python's [str], [int] and [bytes] the audit scripts use, on ASCII text:
    [lower], [strip], slices, [rfind], [int(s)], [str(n)], the fixed-width ONE rendering
    ([f"{n // 10**18}.{n % 10**18:018d}"]), [bytes.hex], [bytes.fromhex] and
    [int.from_bytes(b, "big")].  Python integers are unbounded, so they are [Z]; [//] and [%]
    are [Z.div] and [Z.modulo] (both round towards minus infinity). *)
From Stdlib Require Export Ascii.
From S2P Require Import Prelude.

Definition code (c : ascii) : Z := Z.of_N (N_of_ascii c).

Fixpoint all_chars (p : ascii → bool) (s : string) : bool :=
  match s with
  | EmptyString => true
  | String c s => p c && all_chars p s
  end.

(** ** Case, slices and search *)
Definition lower_char (c : ascii) : ascii :=
  if (65 <=? code c) && (code c <=? 90) then ascii_of_N (Z.to_N (code c + 32)) else c.

(** [s.lower()] *)
Fixpoint lower (s : string) : string :=
  match s with
  | EmptyString => EmptyString
  | String c s => String (lower_char c) (lower s)
  end.

(** [s.upper()] *)
Definition upper_char (c : ascii) : ascii :=
  if (97 <=? code c) && (code c <=? 122) then ascii_of_N (Z.to_N (code c - 32)) else c.

Fixpoint upper (s : string) : string :=
  match s with
  | EmptyString => EmptyString
  | String c s => String (upper_char c) (upper s)
  end.

(** [s[n:]] and [s[:n]] for [n >= 0] *)
Fixpoint str_drop (n : nat) (s : string) : string :=
  match n, s with
  | O, _ => s
  | S n, String _ s => str_drop n s
  | S _, EmptyString => EmptyString
  end.

Fixpoint str_take (n : nat) (s : string) : string :=
  match n, s with
  | O, _ => EmptyString
  | S n, String c s => String c (str_take n s)
  | S _, EmptyString => EmptyString
  end.

(** [s.endswith(p)] *)
Definition endswith (p s : string) : bool := bool_decide (str_drop (String.length s - String.length p) s = p).

(** [s.startswith(p)] *)
Definition startswith (p s : string) : bool := String.prefix p s.

(** [s.rfind(c)]: the last position of a character, [None] for Python's -1. *)
Fixpoint rfind (c : ascii) (s : string) : option nat :=
  match s with
  | EmptyString => None
  | String d s =>
      match rfind c s with
      | Some n => Some (S n)
      | None => if decide (d = c) then Some 0%nat else None
      end
  end.

(** [s.index(c)] *)
Fixpoint index_of (c : ascii) (s : string) : option Z :=
  match s with
  | EmptyString => None
  | String d s => if decide (d = c) then Some 0 else Z.succ <$> index_of c s
  end.

(** [s[i]] for a position within the string *)
Fixpoint char_at (s : string) (i : nat) : option ascii :=
  match s, i with
  | EmptyString, _ => None
  | String c _, O => Some c
  | String _ s, S i => char_at s i
  end.

(** [c in s] for a one-character or longer [sub]: substring test. *)
Fixpoint contains (sub s : string) : bool :=
  String.prefix sub s ||
  match s with
  | EmptyString => false
  | String _ s => contains sub s
  end.

(** [s.split(c)] for a one-character separator *)
Fixpoint split_on (c : ascii) (s : string) : list string :=
  match s with
  | EmptyString => [EmptyString]
  | String d s =>
      if decide (d = c) then EmptyString :: split_on c s
      else match split_on c s with
           | t :: ts => String d t :: ts
           | [] => [String d EmptyString]
           end
  end.

(** ** White space: what [int] skips and what [strip] removes on ASCII text *)
Definition int_space (c : ascii) : bool :=
  ((9 <=? code c) && (code c <=? 13)) || (code c =? 32).

Definition str_space (c : ascii) : bool :=
  int_space c || ((28 <=? code c) && (code c <=? 31)).

Fixpoint lstrip_by (sp : ascii → bool) (s : string) : string :=
  match s with
  | EmptyString => EmptyString
  | String c s' => if sp c then lstrip_by sp s' else s
  end.

Fixpoint rstrip_by (sp : ascii → bool) (s : string) : string :=
  match s with
  | EmptyString => EmptyString
  | String c s =>
      match rstrip_by sp s with
      | EmptyString => if sp c then EmptyString else String c EmptyString
      | t => String c t
      end
  end.

Definition strip_by (sp : ascii → bool) (s : string) : string := rstrip_by sp (lstrip_by sp s).

(** [s.strip()] *)
Definition strip : string → string := strip_by str_space.

(** ** Decimal integers *)
Definition digit_val (c : ascii) : option Z :=
  if (48 <=? code c) && (code c <=? 57) then Some (code c - 48) else None.

Definition digit_char (d : Z) : ascii := ascii_of_N (Z.to_N (48 + d)).

(** The digits of an [int] literal: single underscores may stand between two digits. *)
Fixpoint int_digits (s : string) (acc : Z) (prev_digit : bool) : option Z :=
  match s with
  | EmptyString => if prev_digit then Some acc else None
  | String c s =>
      match digit_val c with
      | Some d => int_digits s (10 * acc + d) true
      | None => if decide (c = "_"%char) then if prev_digit then int_digits s acc false else None
                else None
      end
  end.

(** [int(s)]; [None] where Python raises [ValueError]. *)
Definition py_int (s : string) : option Z :=
  match strip_by int_space s with
  | String c t =>
      if decide (c = "+"%char) then int_digits t 0 false
      else if decide (c = "-"%char) then Z.opp <$> int_digits t 0 false
      else int_digits (String c t) 0 false
  | EmptyString => None
  end.

Definition int_str (s : string) : result Z :=
  of_option (py_int s) (ValueError "invalid literal for int()").

Fixpoint nat_digits (fuel : nat) (n : Z) (acc : string) : string :=
  match fuel with
  | O => acc
  | S fuel =>
      let acc := String (digit_char (n mod 10)) acc in
      if n <? 10 then acc else nat_digits fuel (n / 10) acc
  end.

(** The digits of a non-negative integer; [log2 n + 1] steps are enough. *)
Definition dec (n : Z) : string := nat_digits (S (Z.to_nat (Z.log2 n))) n EmptyString.

(** [str(n)] *)
Definition str_of_Z (n : Z) : string := if n <? 0 then String "-" (dec (- n)) else dec n.

Fixpoint zeros (n : nat) (s : string) : string :=
  match n with O => s | S n => String "0" (zeros n s) end.

(** [f"{n:0{w}d}"] for [n >= 0] *)
Definition zpad (w : nat) (n : Z) : string := zeros (w - String.length (dec n)) (dec n).

(** ** ONE amounts *)
Definition ATTO : Z := 10 ^ 18.

(** [f"{atto // 10**18}.{atto % 10**18:018d}"] *)
Definition one (atto : Z) : string :=
  (str_of_Z (atto / ATTO) +:+ "." +:+ zpad 18 (atto mod ATTO)).

(** The variant that renders the sign apart. *)
Definition display_one (value : Z) : string :=
  let sign := if value <? 0 then "-" else "" in
  let value := Z.abs value in
  (sign +:+ str_of_Z (value / ATTO) +:+ "." +:+ zpad 18 (value mod ATTO)).

(** ** Bytes: a byte is an integer in [0, 256) *)
Definition hex_char (d : Z) : ascii :=
  ascii_of_N (Z.to_N (if d <? 10 then 48 + d else 87 + d)).

Definition hex_val (c : ascii) : option Z :=
  if (48 <=? code c) && (code c <=? 57) then Some (code c - 48)
  else if (97 <=? code c) && (code c <=? 102) then Some (code c - 87)
  else if (65 <=? code c) && (code c <=? 70) then Some (code c - 55)
  else None.

(** [b.hex()] *)
Fixpoint hex (b : list Z) : string :=
  match b with
  | [] => EmptyString
  | x :: b => String (hex_char (x / 16)) (String (hex_char (x mod 16)) (hex b))
  end.

(** [bytes.fromhex(s)]: white space is skipped between bytes only. *)
Fixpoint fromhex (s : string) : option (list Z) :=
  match s with
  | EmptyString => Some []
  | String a s1 =>
      if int_space a then fromhex s1 else
      match s1 with
      | EmptyString => None
      | String b s2 =>
          h ← hex_val a; l ← hex_val b; rest ← fromhex s2; Some (16 * h + l :: rest)
      end
  end.

(** Big-endian value of a list of [b]-bit groups; [int.from_bytes(l, "big")] is [be_val 8 l]. *)
Definition be_val (b : Z) (l : list Z) : Z := foldl (λ acc x, 2 ^ b * acc + x) 0 l.

(** [[0-9a-f]{n}], whole string *)
Definition lower_hex_char (c : ascii) : bool :=
  ((48 <=? code c) && (code c <=? 57)) || ((97 <=? code c) && (code c <=? 102)).

Definition lower_hex (n : nat) (s : string) : bool :=
  (String.length s =? n)%nat && all_chars lower_hex_char s.

(** ** Characters *)
Ltac by_chars := intros [[] [] [] [] [] [] [] []]; vm_compute; (reflexivity || congruence || tauto).

Lemma lower_char_idem c : lower_char (lower_char c) = lower_char c.
Proof. revert c. by_chars. Qed.

Lemma lower_idem s : lower (lower s) = lower s.
Proof. induction s as [|c s IH]; simpl; [done|]. by rewrite lower_char_idem, IH. Qed.

Lemma str_app_cons c s t : String c s +:+ t = String c (s +:+ t).
Proof. done. Qed.

Lemma str_app_nil_l s : EmptyString +:+ s = s.
Proof. done. Qed.
Create Rewrite HintDb strs.
#[export] Hint Rewrite str_app_cons str_app_nil_l : strs.

Lemma lower_app s t : lower (s +:+ t) = lower s +:+ lower t.
Proof. induction s as [|c s IH]; [done|]. rewrite str_app_cons. simpl. by rewrite IH. Qed.

Lemma startswith_spec p s : startswith p s = true ↔ ∃ t, s = p +:+ t.
Proof.
  unfold startswith. revert s. induction p as [|c p IH]; intros s; simpl.
  - split; [eauto|]. by destruct s.
  - destruct s as [|d s]; [split; [done|intros [t Ht]; done]|].
    simpl. destruct (ascii_dec c d) as [->|Hne].
    + split.
      * intros [t ->]%IH. by exists t.
      * intros [t Ht]. rewrite str_app_cons in Ht. apply IH. exists t. congruence.
    + split; [done|]. intros [t Ht]. rewrite str_app_cons in Ht. congruence.
Qed.

Lemma startswith_app p s : startswith p (p +:+ s) = true.
Proof. unfold startswith. induction p as [|c p IH]; [by destruct s|]. rewrite str_app_cons. cbn [String.prefix]. by destruct (ascii_dec c c). Qed.

Lemma str_drop_app p s : str_drop (String.length p) (p +:+ s) = s.
Proof. induction p as [|c p IH]; [done|]. by rewrite str_app_cons. Qed.

Lemma rfind_app c s t : rfind c t = None →
  rfind c (s +:+ t) = rfind c s.
Proof.
  intros Ht. induction s as [|d s IH]; [done|]. rewrite str_app_cons. simpl. by rewrite IH.
Qed.

Lemma no_rfind c s : index_of c s = None → rfind c s = None.
Proof.
  induction s as [|d s IH]; [done|]. cbn [index_of rfind]. case_decide as Hd; [done|]. destruct (index_of c s); [done|]. intros _. by rewrite IH.
Qed.

Lemma not_absolute n : index_of "/" n = None → startswith "/" n = false.
Proof. destruct n as [|c n]; [done|]. cbn [index_of]. case_decide as Hc; [done|]. intros _. unfold startswith. cbn [String.prefix]. destruct (ascii_dec "/" c); congruence. Qed.

Lemma rfind_last c a n : rfind c n = None → rfind c (a +:+ String c n) = Some (String.length a).
Proof.
  intros Hn. induction a as [|d a IH]; [rewrite str_app_nil_l; cbn [rfind]; by rewrite Hn, decide_True|].
  rewrite str_app_cons. cbn [rfind String.length]. by rewrite IH.
Qed.

Lemma length_lower s : String.length (lower s) = String.length s.
Proof. induction s as [|c s IH]; simpl; [done|]. by rewrite IH. Qed.

Lemma length_str_app s t : String.length (s +:+ t) = (String.length s + String.length t)%nat.
Proof. induction s as [|c s IH]; [done|]. rewrite str_app_cons. simpl. by rewrite IH. Qed.

Lemma str_app_nil_r s : s +:+ EmptyString = s.
Proof. induction s as [|c s IH]; [done|]. by rewrite str_app_cons, IH. Qed.

Lemma str_app_assoc s t u : s +:+ (t +:+ u) = (s +:+ t) +:+ u.
Proof. induction s as [|c s IH]; [done|]. by rewrite !str_app_cons, IH. Qed.

Lemma str_app_inj_l s1 s2 t1 t2 :
  String.length s1 = String.length s2 → s1 +:+ t1 = s2 +:+ t2 → s1 = s2 ∧ t1 = t2.
Proof.
  revert s2. induction s1 as [|c s1 IH]; intros [|d s2] Hl H; simpl in *; try done.
  rewrite !str_app_cons in H.
  injection H as -> H. injection Hl as Hl. by destruct (IH s2 Hl H) as [-> ->].
Qed.

Lemma str_app_inj_r s1 s2 t1 t2 :
  String.length t1 = String.length t2 → s1 +:+ t1 = s2 +:+ t2 → s1 = s2 ∧ t1 = t2.
Proof.
  intros Hl H. apply str_app_inj_l; [|done].
  apply (f_equal String.length) in H. rewrite !length_str_app in H. lia.
Qed.

Lemma digit_ind (P : Z → Prop) d :
  P 0 → P 1 → P 2 → P 3 → P 4 → P 5 → P 6 → P 7 → P 8 → P 9 → 0 ≤ d < 10 → P d.
Proof.
  intros. assert (d = 0 ∨ d = 1 ∨ d = 2 ∨ d = 3 ∨ d = 4 ∨ d = 5 ∨ d = 6 ∨ d = 7 ∨ d = 8 ∨ d = 9)
    as Hd by lia.
  repeat destruct Hd as [->|Hd]; by subst.
Qed.

Lemma digit_val_char d : 0 ≤ d < 10 → digit_val (digit_char d) = Some d.
Proof. apply (digit_ind (λ d, digit_val (digit_char d) = Some d)); reflexivity. Qed.

Definition is_digit (c : ascii) : bool := bool_decide (is_Some (digit_val c)).

Lemma is_digit_char d : 0 ≤ d < 10 → is_digit (digit_char d) = true.
Proof. intros Hd. unfold is_digit. by rewrite digit_val_char. Qed.

(** ** Printing and parsing decimal integers *)
Lemma nat_digits_parse fuel n :
  0 ≤ n < 2 ^ Z.of_nat fuel → (0 < fuel)%nat →
  ∃ k, 0 ≤ k ∧ n < 10 ^ k ∧
    ∀ s acc prev, int_digits (nat_digits fuel n s) acc prev = int_digits s (acc * 10 ^ k + n) true.
Proof.
  revert n. induction fuel as [|fuel IH]; intros n Hn Hf; [lia|].
  assert (Hd : 0 ≤ n mod 10 < 10) by (apply Z.mod_pos_bound; lia).
  cbn [nat_digits]. destruct (n <? 10) eqn:Hlt.
  - exists 1. split_and!; [lia|lia|]. intros s acc prev. simpl.
    rewrite digit_val_char by done. f_equal. rewrite Z.mod_small; lia.
  - assert (Hq : 0 ≤ n / 10 < 2 ^ Z.of_nat fuel).
    { rewrite Nat2Z.inj_succ, Z.pow_succ_r in Hn by lia. split; [apply Z.div_pos; lia|].
      apply Z.div_lt_upper_bound; lia. }
    destruct (IH (n / 10) Hq) as (k & Hk & Hnk & Hp).
    { destruct fuel; [|lia]. change (2 ^ Z.of_nat 0) with 1 in Hq.
      assert (1 <= n / 10)%Z by (apply Z.div_le_lower_bound; lia). lia. }
    assert (Hn10 : n = 10 * (n / 10) + n mod 10) by (apply Z.div_mod; lia).
    exists (Z.succ k). rewrite Z.pow_succ_r by lia. split_and!; [lia|lia|].
    intros s acc prev. rewrite Hp. simpl. rewrite digit_val_char by done. f_equal. lia.
Qed.

Lemma dec_fuel n : 0 ≤ n → n < 2 ^ Z.of_nat (S (Z.to_nat (Z.log2 n))).
Proof.
  intros Hn. rewrite Nat2Z.inj_succ, Z2Nat.id by apply Z.log2_nonneg.
  destruct (decide (n = 0)) as [->|]; [done|]. apply Z.log2_spec; lia.
Qed.

Lemma int_digits_dec n prev : 0 ≤ n → int_digits (dec n) 0 prev = Some n.
Proof.
  intros Hn. destruct (nat_digits_parse (S (Z.to_nat (Z.log2 n))) n) as (k & Hk & _ & Hp).
  { split; [done|]. by apply dec_fuel. } { lia. }
  unfold dec. rewrite Hp. done.
Qed.

Lemma int_digits_zeros w s : int_digits (zeros w s) 0 true = int_digits s 0 true.
Proof. induction w; [done|]. exact IHw. Qed.

Lemma int_digits_zpad w n : 0 ≤ n → int_digits (zpad w n) 0 false = Some n.
Proof.
  intros Hn. unfold zpad. destruct (w - String.length (dec n))%nat as [|k]; simpl.
  - by apply int_digits_dec.
  - change (int_digits (zeros k (dec n)) 0 true = Some n).
    by rewrite int_digits_zeros, int_digits_dec.
Qed.

Lemma nat_digits_chars fuel n s :
  0 ≤ n → all_chars is_digit s = true → all_chars is_digit (nat_digits fuel n s) = true.
Proof.
  revert n s. induction fuel as [|fuel IH]; intros n s Hn Hs; simpl; [done|].
  assert (Hd : 0 ≤ n mod 10 < 10) by (apply Z.mod_pos_bound; lia).
  case_match; [|apply IH; [apply Z.div_pos; lia|]]; simpl; by rewrite is_digit_char.
Qed.

Lemma dec_chars n : 0 ≤ n → all_chars is_digit (dec n) = true.
Proof. intros. by apply nat_digits_chars. Qed.

Lemma nat_digits_nonempty fuel n s : (0 < fuel)%nat → nat_digits fuel n s ≠ EmptyString.
Proof.
  destruct fuel as [|fuel]; [lia|]. intros _. cbn [nat_digits]. generalize (digit_char (n mod 10)).
  intros c. destruct (n <? 10); [done|]. generalize (n / 10) as m. revert c s.
  induction fuel as [|fuel IH]; intros c s m; simpl; [done|].
  case_match; [done|]. apply IH.
Qed.

Lemma zpad_chars w n : 0 ≤ n → all_chars is_digit (zpad w n) = true.
Proof.
  intros Hn. unfold zpad. generalize (w - String.length (dec n))%nat as k.
  induction k as [|k IH]; simpl; [by apply dec_chars|]. exact IH.
Qed.

(** A digit is neither white space, nor a sign, nor a separator. *)
Lemma is_digit_not_space c : is_digit c = true → int_space c = false.
Proof. revert c. by_chars. Qed.

Lemma is_digit_sign c : is_digit c = true → c ≠ "+"%char ∧ c ≠ "-"%char ∧ c ≠ "."%char.
Proof. revert c. intros [[] [] [] [] [] [] [] []]; vm_compute; intros; done. Qed.

Lemma strip_by_id sp s :
  all_chars (λ c, negb (sp c)) s = true → strip_by sp s = s.
Proof.
  intros Hs. unfold strip_by.
  assert (Hl : lstrip_by sp s = s).
  { destruct s as [|c s]; [done|]. simpl in *. by destruct (sp c). }
  rewrite Hl. clear Hl. induction s as [|c s IH]; simpl in *; [done|].
  apply andb_true_iff in Hs as [Hc Hs]. rewrite (IH Hs).
  destruct s; [|done]. by destruct (sp c).
Qed.

Lemma all_chars_impl (p q : ascii → bool) s :
  (∀ c, p c = true → q c = true) → all_chars p s = true → all_chars q s = true.
Proof.
  intros Hpq. induction s as [|c s IH]; simpl; [done|].
  rewrite !andb_true_iff. intros [? ?]. auto.
Qed.

Lemma py_int_digits s :
  s ≠ EmptyString → all_chars is_digit s = true → py_int s = int_digits s 0 false.
Proof.
  intros Hne Hs. unfold py_int. rewrite strip_by_id.
  - destruct s as [|c s]; [done|]. simpl in Hs. apply andb_true_iff in Hs as [Hc _].
    destruct (is_digit_sign c Hc) as (? & ? & _). by rewrite !decide_False by done.
  - eapply all_chars_impl; [|done]. intros c Hc. by rewrite is_digit_not_space.
Qed.

Lemma py_int_dec n : 0 ≤ n → py_int (dec n) = Some n.
Proof.
  intros Hn. rewrite py_int_digits; [by apply int_digits_dec| |by apply dec_chars].
  apply nat_digits_nonempty. lia.
Qed.

(** [int(str(n)) == n] *)
Lemma py_int_str_of_Z n : py_int (str_of_Z n) = Some n.
Proof.
  unfold str_of_Z. destruct (n <? 0) eqn:Hn; [|apply py_int_dec; lia].
  assert (H : py_int (String "-" (dec (- n))) = Z.opp <$> int_digits (dec (- n)) 0 false).
  { unfold py_int. rewrite strip_by_id; [done|]. cbn [all_chars].
    apply andb_true_iff. split; [done|]. eapply all_chars_impl; [|apply dec_chars; lia].
    intros c Hc. by rewrite is_digit_not_space. }
  rewrite H, int_digits_dec by lia. simpl. f_equal. lia.
Qed.

Lemma str_of_Z_inj n m : str_of_Z n = str_of_Z m → n = m.
Proof. intros H%(f_equal py_int). rewrite !py_int_str_of_Z in H. congruence. Qed.

Lemma int_str_of_Z n : int_str (str_of_Z n) = Ok n.
Proof. unfold int_str. by rewrite py_int_str_of_Z. Qed.
#[export] Hint Rewrite py_int_str_of_Z int_str_of_Z : sums.

(** ** Widths *)
Lemma length_nat_digits fuel n s w :
  0 ≤ n < 10 ^ Z.of_nat w → (0 < w)%nat →
  (String.length (nat_digits fuel n s) ≤ w + String.length s)%nat.
Proof.
  revert n s w. induction fuel as [|fuel IH]; intros n s w Hn Hw; simpl; [lia|].
  destruct (n <? 10) eqn:Hlt; simpl; [lia|].
  destruct w as [|[|w]]; [lia|simpl in Hn; lia|].
  assert (Hq : 0 ≤ n / 10 < 10 ^ Z.of_nat (S w)).
  { rewrite Nat2Z.inj_succ, Z.pow_succ_r in Hn by lia. split; [apply Z.div_pos; lia|].
    apply Z.div_lt_upper_bound; lia. }
  specialize (IH (n / 10) (String (digit_char (n mod 10)) s) (S w) Hq). simpl in IH. lia.
Qed.

Lemma length_zeros w s : String.length (zeros w s) = (w + String.length s)%nat.
Proof. induction w; simpl; lia. Qed.

Lemma length_zpad w n :
  0 ≤ n < 10 ^ Z.of_nat w → (0 < w)%nat → String.length (zpad w n) = w.
Proof.
  intros Hn Hw. unfold zpad. rewrite length_zeros.
  pose proof (length_nat_digits (S (Z.to_nat (Z.log2 n))) n EmptyString w Hn Hw) as H.
  fold (dec n) in H. simpl in H. lia.
Qed.

Lemma atto_mod z : 0 ≤ z mod ATTO < 10 ^ Z.of_nat 18.
Proof. apply Z.mod_pos_bound. done. Qed.

Lemma length_frac z : String.length (zpad 18 (z mod ATTO)) = 18%nat.
Proof. apply length_zpad; [apply atto_mod|lia]. Qed.

Lemma py_int_frac z : py_int (zpad 18 (z mod ATTO)) = Some (z mod ATTO).
Proof.
  pose proof (atto_mod z). rewrite py_int_digits; [apply int_digits_zpad; lia| |apply zpad_chars; lia].
  intros H'. pose proof (length_frac z) as Hl. by rewrite H' in Hl.
Qed.

(** The rendering of an amount determines it. *)
Lemma one_inj a b : one a = one b → a = b.
Proof.
  unfold one. intros H. rewrite !str_app_assoc in H.
  apply str_app_inj_r in H as [H1 H2]; [|by rewrite !length_frac].
  apply str_app_inj_r in H1 as [H1 _]; [|done]. apply str_of_Z_inj in H1.
  apply (f_equal py_int) in H2. rewrite !py_int_frac in H2. injection H2 as H2.
  rewrite (Z.div_mod a ATTO), (Z.div_mod b ATTO) by done. congruence.
Qed.

Lemma display_one_nonneg a : 0 ≤ a → display_one a = one a.
Proof.
  intros Ha. unfold display_one, one. rewrite (proj2 (Z.ltb_ge a 0)), Z.abs_eq by lia. done.
Qed.

Lemma display_one_neg a : a < 0 → display_one a = String "-" (one (- a)).
Proof.
  intros Ha. unfold display_one, one. rewrite (proj2 (Z.ltb_lt a 0)), Z.abs_neq by lia. done.
Qed.

(** ** Bytes *)
Definition is_byte (x : Z) : Prop := 0 ≤ x < 256.

Lemma nibble_ind (P : Z → Prop) d :
  P 0 → P 1 → P 2 → P 3 → P 4 → P 5 → P 6 → P 7 → P 8 → P 9 →
  P 10 → P 11 → P 12 → P 13 → P 14 → P 15 → 0 ≤ d < 16 → P d.
Proof.
  intros. destruct (decide (d < 10)); [by apply digit_ind; try lia|].
  assert (d = 10 ∨ d = 11 ∨ d = 12 ∨ d = 13 ∨ d = 14 ∨ d = 15) as Hd by lia.
  repeat destruct Hd as [->|Hd]; by subst.
Qed.

Lemma hex_char_val d : 0 ≤ d < 16 → hex_val (hex_char d) = Some d ∧ int_space (hex_char d) = false
  ∧ lower_hex_char (hex_char d) = true.
Proof.
  apply (nibble_ind (λ d, hex_val (hex_char d) = Some d ∧ int_space (hex_char d) = false
  ∧ lower_hex_char (hex_char d) = true)); vm_compute; done.
Qed.

Lemma byte_nibbles x : is_byte x → 0 ≤ x / 16 < 16 ∧ 0 ≤ x mod 16 < 16 ∧ 16 * (x / 16) + x mod 16 = x.
Proof.
  intros Hx. unfold is_byte in Hx. split_and!; try apply Z.mod_pos_bound; try lia.
  - apply Z.div_pos; lia.
  - apply Z.div_lt_upper_bound; lia.
  - symmetry. apply Z.div_mod. lia.
Qed.

(** [bytes.fromhex(b.hex()) == b] *)
Lemma fromhex_hex b : Forall is_byte b → fromhex (hex b) = Some b.
Proof.
  induction 1 as [|x b Hx _ IH]; [done|]. destruct (byte_nibbles x Hx) as (H1 & H2 & H3).
  destruct (hex_char_val _ H1) as (Hv1 & Hs1 & _), (hex_char_val _ H2) as (Hv2 & _).
  simpl. rewrite Hs1, Hv1, Hv2, IH. simpl. by rewrite H3.
Qed.

Lemma hex_inj a b : Forall is_byte a → Forall is_byte b → hex a = hex b → a = b.
Proof. intros Ha Hb H%(f_equal fromhex). rewrite !fromhex_hex in H by done. congruence. Qed.

Lemma length_hex b : String.length (hex b) = (2 * length b)%nat.
Proof. induction b as [|x b IH]; simpl in *; lia. Qed.

Lemma hex_lower_hex b : Forall is_byte b → lower_hex (2 * length b) (hex b) = true.
Proof.
  intros Hb. unfold lower_hex. rewrite length_hex, Nat.eqb_refl. simpl.
  induction Hb as [|x b Hx _ IH]; [done|]. destruct (byte_nibbles x Hx) as (H1 & H2 & _).
  simpl. by rewrite (proj2 (proj2 (hex_char_val _ H1))), (proj2 (proj2 (hex_char_val _ H2))), IH.
Qed.

Lemma lower_hex_char_lower c : lower_hex_char c = true → lower_char c = c.
Proof. revert c. by_chars. Qed.

Lemma lower_hex_lower s : all_chars lower_hex_char s = true → lower s = s.
Proof.
  induction s as [|c s IH]; simpl; [done|]. rewrite andb_true_iff. intros [Hc Hs].
  by rewrite lower_hex_char_lower, IH.
Qed.

Lemma fromhex_bytes_aux n s b :
  (String.length s ≤ n)%nat → fromhex s = Some b → Forall is_byte b.
Proof.
  assert (Hv : ∀ c v, hex_val c = Some v → 0 ≤ v < 16).
  { intros c v. unfold hex_val. repeat case_match; intros [= <-]; lia. }
  revert s b. induction n as [|n IH]; intros [|c s] b Hl H; simpl in *;
    try (injection H as <-; constructor); try lia.
  destruct (int_space c); [apply (IH s); [lia|done]|].
  destruct s as [|d s]; [done|]. simpl in *.
  destruct (hex_val c) as [h|] eqn:Hh; [|done]. destruct (hex_val d) as [l|] eqn:Hl'; [|done].
  destruct (fromhex s) as [r|] eqn:Hr; [|done]. simpl in H. injection H as <-.
  apply Hv in Hh, Hl'. constructor; [unfold is_byte; lia|]. apply (IH s); [lia|done].
Qed.

Lemma fromhex_bytes s b : fromhex s = Some b → Forall is_byte b.
Proof. by apply (fromhex_bytes_aux (String.length s)). Qed.

(** ** Positional values *)
Lemma be_val_snoc b l x : be_val b (l ++ [x]) = 2 ^ b * be_val b l + x.
Proof. unfold be_val. by rewrite foldl_app. Qed.

Lemma horner_bound B M v x : 0 ≤ x < B → 0 ≤ v < M → 0 ≤ B * v + x < B * M.
Proof. nia. Qed.

Lemma be_val_bound b l :
  0 ≤ b → Forall (λ x, 0 ≤ x < 2 ^ b) l → 0 ≤ be_val b l < 2 ^ (b * Z.of_nat (length l)).
Proof.
  intros Hb. induction l as [|x l IH] using rev_ind; intros Hl.
  - change (be_val b []) with 0. simpl. rewrite Z.mul_0_r. done.
  - apply Forall_app in Hl as [Hl Hx]. inversion_clear Hx. specialize (IH Hl).
    rewrite be_val_snoc, length_app. simpl.
    replace (b * Z.of_nat (length l + 1)) with (b + b * Z.of_nat (length l)) by lia.
    rewrite Z.pow_add_r by lia. by apply horner_bound.
Qed.

Lemma be_val_inj b l1 l2 :
  0 ≤ b → Forall (λ x, 0 ≤ x < 2 ^ b) l1 → Forall (λ x, 0 ≤ x < 2 ^ b) l2 →
  length l1 = length l2 → be_val b l1 = be_val b l2 → l1 = l2.
Proof.
  intros Hb. revert l2. induction l1 as [|x l1 IH] using rev_ind; intros l2 H1 H2 Hl H.
  - by destruct l2.
  - destruct l2 as [|y l2 _] using rev_ind; [rewrite length_app in Hl; simpl in Hl; lia|].
    rewrite !length_app in Hl. simpl in Hl. rewrite !be_val_snoc in H.
    apply Forall_app in H1 as [H1 Hx], H2 as [H2 Hy].
    inversion_clear Hx as [|?? Hx' _]. inversion_clear Hy as [|?? Hy' _].
    assert (be_val b l1 = be_val b l2 ∧ x = y) as [Hv ->].
    { apply Z.div_mod_unique with (b := 2 ^ b); [left; lia..|lia]. }
    f_equal. apply IH; [done|done|lia|done].
Qed.
