(* ===== verification/PyData.v ===== *)
(** * JSON values and CSV rows

    The data the audit scripts read: values decoded by [json.load], and rows produced by
    [csv.DictReader].  Each accessor raises what Python raises on a missing key ([KeyError]) or
    on a value of the wrong type ([TypeError] or [AttributeError]).

    A JSON number is an integer: no script computes with a float.  A JSON object is the list
    of its members in insertion order.  A CSV row maps column names to cells; a cell is
    [None] where the line was shorter than the header. *)
From S2P Require Import Prelude PyStr.

(** ** JSON *)
#[local] Set Warnings "-register-all".

Inductive json :=
  | JNull
  | JBool (b : bool)
  | JInt (n : Z)
  | JStr (s : string)
  | JArr (l : list json)
  | JObj (m : list (string * json)).

Fixpoint assoc {A} (k : string) (m : list (string * A)) : option A :=
  match m with
  | [] => None
  | (k', v) :: m => if decide (k' = k) then Some v else assoc k m
  end.

(** [v[k]] *)
Definition jget (k : string) (v : json) : result json :=
  match v with
  | JObj m => of_option (assoc k m) (KeyError k)
  | _ => Err TypeError
  end.

(** [v.get(k)]; an absent key gives [None]. *)
Definition jget_opt (k : string) (v : json) : result json :=
  match v with
  | JObj m => Ok (default JNull (assoc k m))
  | _ => Err AttributeError
  end.

(** [k in v] for an object *)
Definition jmem (k : string) (v : json) : bool :=
  match v with JObj m => bool_decide (is_Some (assoc k m)) | _ => false end.

(** [k in v] *)
Definition jin (k : string) (v : json) : result bool :=
  match v with
  | JObj m => Ok (bool_decide (is_Some (assoc k m)))
  | JArr l => Ok (existsb (λ x, match x with JStr s => bool_decide (s = k) | _ => false end) l)
  | JStr s => Ok (contains k s)
  | _ => Err TypeError
  end.

(** [bool(v)] *)
Definition truthy (v : json) : bool :=
  match v with
  | JNull => false
  | JBool b => b
  | JInt n => negb (n =? 0)
  | JStr s => negb (String.length s =? 0)%nat
  | JArr l => negb (length l =? 0)%nat
  | JObj m => negb (length m =? 0)%nat
  end.

(** [for x in v] *)
Fixpoint chars (s : string) : list string :=
  match s with EmptyString => [] | String c s => String c EmptyString :: chars s end.

Definition jiter (v : json) : result (list json) :=
  match v with
  | JArr l => Ok l
  | JObj m => Ok ((λ '(k, _), JStr k) <$> m)
  | JStr s => Ok (JStr <$> chars s)
  | _ => Err TypeError
  end.

(** [len(v)] *)
Definition jlen (v : json) : result Z :=
  match v with
  | JArr l => Ok (Z.of_nat (length l))
  | JObj m => Ok (Z.of_nat (length m))
  | JStr s => Ok (Z.of_nat (String.length s))
  | _ => Err TypeError
  end.

(** [v.get(k) or d] *)
Definition jget_or (k : string) (d v : json) : result json :=
  x ← jget_opt k v;
  Ok (if truthy x then x else d).

(** [for x in v.get(k) or []] *)
Definition jiter_or (k : string) (v : json) : result (list json) :=
  x ← jget_opt k v;
  if truthy x then jiter x else Ok [].

(** [int(v)] *)
Definition jint (v : json) : result Z :=
  match v with
  | JInt n => Ok n
  | JBool b => Ok (Z.b2z b)
  | JStr s => int_str s
  | _ => Err TypeError
  end.

Definition jget_int (k : string) (v : json) : result Z := x ← jget k v; jint x.

(** [v[k1][k2]...] *)
Fixpoint jpath (ks : list string) (v : json) : result json :=
  match ks with [] => Ok v | k :: ks => x ← jget k v; jpath ks x end.

Definition jpath_int (ks : list string) (v : json) : result Z := x ← jpath ks v; jint x.

(** [v.get(k, d)] *)
Definition jget_default (k : string) (d v : json) : result json :=
  match v with JObj m => Ok (default d (assoc k m)) | _ => Err AttributeError end.

(** [v.values()] *)
Definition jvalues (v : json) : result (list json) :=
  match v with JObj m => Ok (snd <$> m) | _ => Err AttributeError end.

(** [{f(x): g(x) for x in l}] for keys that are compared with strings only: another hashable key
    is never found. *)
Definition add_named {A} (m : gmap string A) (name : json) (v : A) : result (gmap string A) :=
  match name with
  | JStr s => Ok (<[s := v]> m)
  | JArr _ | JObj _ => Err TypeError
  | _ => Ok m
  end.

(** [c1 or c2 or ...] *)
Fixpoint orM (l : list (result bool)) : result bool :=
  match l with
  | [] => Ok false
  | c :: l => b ← c; if (b : bool) then Ok true else orM l
  end.

(** A value used as a [str] (a method of [str] is called on it). *)
Definition jstr (v : json) : result string :=
  match v with JStr s => Ok s | _ => Err AttributeError end.

Definition jget_str (k : string) (v : json) : result string := x ← jget k v; jstr x.

(** [v == n] and [v == s] *)
Definition jeq_int (v : json) (n : Z) : bool :=
  match v with JInt m => m =? n | JBool b => Z.b2z b =? n | _ => false end.

Definition jeq_str (v : json) (s : string) : bool :=
  match v with JStr t => bool_decide (t = s) | _ => false end.

(** ** [json.dumps(v, indent=2, sort_keys=True)] *)
Definition newline : string := String "010" EmptyString.
Definition dquote : ascii := "034".

Fixpoint escape (s : string) : string :=
  match s with
  | EmptyString => EmptyString
  | String c s =>
      (if decide (c = dquote) then String "\" (String dquote EmptyString)
       else if decide (c = "\"%char) then "\\"
       else if decide (c = "010"%char) then "\n"
       else if decide (c = "013"%char) then "\r"
       else if decide (c = "009"%char) then "\t"
       else if decide (c = "008"%char) then "\b"
       else if decide (c = "012"%char) then "\f"
       else if (code c <? 32) || (126 <? code c) then "\u00" +:+ hex [code c]
       else String c EmptyString) +:+ escape s
  end.

Definition quoted (s : string) : string :=
  String dquote (escape s) +:+ String dquote EmptyString.

Fixpoint indent (n : nat) : string :=
  match n with O => EmptyString | S n => "  " +:+ indent n end.

Fixpoint join (sep : string) (l : list string) : string :=
  match l with
  | [] => EmptyString
  | [s] => s
  | s :: l => s +:+ sep +:+ join sep l
  end.

Definition block (lvl : nat) (opening closing : string) (items : list string) : string :=
  opening +:+ newline +:+ indent (S lvl) +:+
  join ("," +:+ newline +:+ indent (S lvl)) items +:+
  newline +:+ indent lvl +:+ closing.

Fixpoint dumps_at (lvl : nat) (v : json) : string :=
  match v with
  | JNull => "null"
  | JBool b => if b then "true" else "false"
  | JInt n => str_of_Z n
  | JStr s => quoted s
  | JArr [] => "[]"
  | JArr l => block lvl "[" "]" (map (dumps_at (S lvl)) l)
  | JObj [] => "{}"
  | JObj m =>
      let members := map (λ kv, (kv.1, dumps_at (S lvl) kv.2)) m in
      let members := sort_by (λ a b, str_leb a.1 b.1) members in
      block lvl "{" "}" (map (λ kv, quoted kv.1 +:+ ": " +:+ kv.2) members)
  end.

Definition dumps : json → string := dumps_at 0.

(** [json.dumps(v, sort_keys=True, separators=(",", ":"))] *)
Fixpoint dumps_compact (v : json) : string :=
  match v with
  | JNull => "null"
  | JBool b => if b then "true" else "false"
  | JInt n => str_of_Z n
  | JStr s => quoted s
  | JArr l => "[" +:+ join "," (map dumps_compact l) +:+ "]"
  | JObj m =>
      let members := sort_by (λ a b, str_leb a.1 b.1) (map (λ kv, (kv.1, dumps_compact kv.2)) m) in
      "{" +:+ join "," (map (λ kv, quoted kv.1 +:+ ":" +:+ kv.2) members) +:+ "}"
  end.

(** ** [str(v)] and [v == w] *)
Fixpoint repr_chars (q : ascii) (s : string) : string :=
  match s with
  | EmptyString => EmptyString
  | String c s =>
      (if decide (c = q) then String "\" (String q EmptyString)
       else if decide (c = "\"%char) then "\\"
       else if decide (c = "010"%char) then "\n"
       else if decide (c = "013"%char) then "\r"
       else if decide (c = "009"%char) then "\t"
       else if (code c <? 32) || (126 <? code c) then "\x" +:+ hex [code c]
       else String c EmptyString) +:+ repr_chars q s
  end.

Definition squote : ascii := "039".

Definition repr_str (s : string) : string :=
  let has c := negb (all_chars (λ d, negb (bool_decide (d = c))) s) in
  let q := if has squote && negb (has dquote) then dquote else squote in
  String q (repr_chars q s) +:+ String q EmptyString.

Fixpoint py_repr (v : json) : string :=
  match v with
  | JNull => "None"
  | JBool b => if b then "True" else "False"
  | JInt n => str_of_Z n
  | JStr s => repr_str s
  | JArr l => "[" +:+ join ", " (map py_repr l) +:+ "]"
  | JObj m => "{" +:+ join ", " (map (λ kv, repr_str kv.1 +:+ ": " +:+ py_repr kv.2) m) +:+ "}"
  end.

Definition py_str (v : json) : string := match v with JStr s => s | _ => py_repr v end.

(** [str(v.get(k, ""))] *)
Definition jget_text (k : string) (v : json) : result string :=
  match v with
  | JObj m => Ok (match assoc k m with Some x => py_str x | None => EmptyString end)
  | _ => Err AttributeError
  end.

Fixpoint py_eq (v w : json) {struct v} : bool :=
  match v, w with
  | JNull, JNull => true
  | JBool a, JBool b => Bool.eqb a b
  | JBool a, JInt n | JInt n, JBool a => n =? Z.b2z a
  | JInt n, JInt m => n =? m
  | JStr s, JStr t => bool_decide (s = t)
  | JArr l, JArr k =>
      (fix go (l k : list json) : bool :=
         match l, k with
         | [], [] => true
         | x :: l, y :: k => py_eq x y && go l k
         | _, _ => false
         end) l k
  | JObj m, JObj m' =>
      (length m =? length m')%nat &&
      forallb (λ kv, match assoc kv.1 m' with Some y => py_eq kv.2 y | None => false end) m
  | _, _ => false
  end.

(** The nesting depth of a value: fuel for a recursion over its parts. *)
Fixpoint depth (v : json) : nat :=
  match v with
  | JArr l => S (foldr (λ x n, Nat.max (depth x) n) O l)
  | JObj m => S (foldr (λ kv n, Nat.max (depth kv.2) n) O m)
  | _ => O
  end.

(** ** CSV rows *)
Abbreviation row := (gmap string (option string)).

(** [row[k]], [row.get(k)] *)
Definition cell (r : row) (k : string) : result (option string) := of_option (r !! k) (KeyError k).

Definition cell_get (r : row) (k : string) : option string := default None (r !! k).

(** [row[k]] where a method of [str] is called on the cell. *)
Definition cell_str (r : row) (k : string) : result string :=
  c ← cell r k; of_option c AttributeError.

(** [int(row[k])] *)
Definition int_cell (c : option string) : result Z :=
  match c with Some s => int_str s | None => Err TypeError end.

Definition cell_int (r : row) (k : string) : result Z := c ← cell r k; int_cell c.

(** [bool(c)] and [str(c)] as the CSV writer renders it *)
Definition cell_truthy (c : option string) : bool :=
  match c with Some s => negb (String.length s =? 0)%nat | None => false end.

Definition cell_text (c : option string) : string := default EmptyString c.

(** A row given by its columns, for examples. *)
Definition mk_row (l : list (string * string)) : row := list_to_map ((λ '(k, v), (k, Some v)) <$> l).

(** [for name in names: if name in row and row[name] != "": return row[name]] *)
Fixpoint first_cell (r : row) (names : list string) : option (option string) :=
  match names with
  | [] => None
  | name :: names =>
      match r !! name with
      | Some c => if decide (c = Some EmptyString) then first_cell r names else Some c
      | None => first_cell r names
      end
  end.

(** The same search where a [None] cell is passed over as well. *)
Fixpoint first_text (r : row) (names : list string) : option string :=
  match names with
  | [] => None
  | name :: names =>
      match cell_get r name with
      | Some s => if decide (s = EmptyString) then first_text r names else Some s
      | None => first_text r names
      end
  end.

Definition expected_one_of (names : list string) : exn := KeyError (join ", " names).

(** The helpers of the scripts that look a column up under several names. *)
Definition row_text (r : row) (names : list string) : result (option string) :=
  of_option (first_cell r names) (expected_one_of names).

Definition row_integer (r : row) (names : list string) : result Z :=
  c ← of_option (first_cell r names) (expected_one_of names); int_cell c.

Definition required (r : row) (names : list string) : result string :=
  of_option (first_text r names) (expected_one_of names).

(** [x.lower()] on the result of [row_text] *)
Definition text_lower (c : option string) : result string := lower <$> of_option c AttributeError.

(** ** Lemmas *)
Lemma cell_int_Ok r k n :
  cell_int r k = Ok n ↔ ∃ s, r !! k = Some (Some s) ∧ py_int s = Some n.
Proof.
  unfold cell_int, cell. split.
  - destruct (r !! k) as [[s|]|]; [|done..]. simpl. unfold int_str.
    destruct (py_int s) eqn:E; [intros [= <-]; eauto|done].
  - intros (s & -> & Hs). simpl. unfold int_str. by rewrite Hs.
Qed.

Lemma cell_str_Ok r k s : cell_str r k = Ok s ↔ r !! k = Some (Some s).
Proof. unfold cell_str, cell. destruct (r !! k) as [[t|]|]; simpl; split; congruence. Qed.

Lemma jget_Ok k v x : jget k v = Ok x → ∃ m, v = JObj m ∧ assoc k m = Some x.
Proof. destruct v; try done. unfold jget. rewrite of_option_Ok. eauto. Qed.

Lemma first_cell_Some r names c :
  first_cell r names = Some c →
  ∃ name, name ∈ names ∧ r !! name = Some c ∧ c ≠ Some EmptyString.
Proof.
  induction names as [|name names IH]; simpl; [done|].
  destruct (r !! name) as [c'|] eqn:E; [case_decide|]; intros Hc.
  - destruct (IH Hc) as (? & ? & ? & ?). eexists; split_and!; [by right|done..].
  - injection Hc as ->. eexists; split_and!; [by left|done..].
  - destruct (IH Hc) as (? & ? & ? & ?). eexists; split_and!; [by right|done..].
Qed.

Lemma first_text_Some r names s :
  first_text r names = Some s →
  s ≠ EmptyString ∧ ∃ name, name ∈ names ∧ r !! name = Some (Some s).
Proof.
  induction names as [|name names IH]; simpl; [done|]. unfold cell_get.
  assert (Hrec : first_text r names = Some s →
    s ≠ EmptyString ∧ ∃ name', name' ∈ name :: names ∧ r !! name' = Some (Some s)).
  { intros (? & n & ? & ?)%IH. split; [done|]. exists n. split; [by right|done]. }
  destruct (r !! name) as [[t|]|] eqn:E; simpl; [case_decide|done|done]; [done|].
  intros [= ->]. split; [done|]. exists name. split; [by left|done].
Qed.

Lemma assoc_depth k m x : assoc k m = Some x → (depth x < depth (JObj m))%nat.
Proof.
  induction m as [|[k' v] m IH]; simpl in *; [done|]. case_decide.
  - intros [= ->]. lia.
  - intros ?%IH. lia.
Qed.

Lemma item_depth x l : x ∈ l → (depth x < depth (JArr l))%nat.
Proof. induction l as [|y l IH]; simpl in *; [set_solver|]. intros [->|?%IH]%elem_of_cons; lia. Qed.

(** The items of an iteration are less deep than the value. *)
Lemma jiter_depth v l x : jiter v = Ok l → x ∈ l → (depth x < depth v ∨ depth x = 0)%nat.
Proof.
  destruct v as [| | |s|l'|m]; simpl; try done; intros [= <-] Hx.
  - right. apply list_elem_of_fmap in Hx as (? & -> & _). done.
  - left. by apply item_depth.
  - right. apply list_elem_of_fmap in Hx as ([k ?] & -> & _). done.
Qed.

(** ** Termination of the accessors *)
(** [len(v)] and iteration. *)
Lemma chars_length s : length (chars s) = String.length s.
Proof. induction s; simpl; congruence. Qed.

Lemma jiter_jlen v l : jiter v = Ok l → jlen v = Ok (Z.of_nat (length l)).
Proof. destruct v; simpl; intros [=]; subst; rewrite ?length_fmap, ?chars_length; done. Qed.

Lemma jlen_jiter v n : jlen v = Ok n → ∃ l, jiter v = Ok l.
Proof. destruct v; simpl; intros [=]; eauto. Qed.

Lemma returns_int_str s : returns (int_str s).
Proof. unfold int_str. by destruct (py_int s). Qed.
Lemma returns_jget k v : returns (jget k v).
Proof. destruct v; try done. simpl. by apply returns_of_option. Qed.
Lemma returns_jget_opt k v : returns (jget_opt k v).
Proof. by destruct v. Qed.
Lemma returns_jiter v : returns (jiter v).
Proof. by destruct v. Qed.
Lemma returns_jint v : returns (jint v).
Proof. destruct v; try done. apply returns_int_str. Qed.
Lemma returns_jstr v : returns (jstr v).
Proof. by destruct v. Qed.
Lemma returns_int_cell c : returns (int_cell c).
Proof. destruct c; [apply returns_int_str|done]. Qed.
Lemma returns_cell r k : returns (cell r k).
Proof. by apply returns_of_option. Qed.
#[export] Hint Resolve returns_int_str returns_jget returns_jget_opt returns_jiter returns_jint
  returns_jstr returns_int_cell returns_cell : py.
Lemma returns_jiter_or k v : returns (jiter_or k v).
Proof. apply returns_bind; [auto with py|]. intros a _. case_match; auto with py. Qed.
Lemma returns_jget_int k v : returns (jget_int k v).
Proof. apply returns_bind; auto with py. Qed.
Lemma returns_jget_str k v : returns (jget_str k v).
Proof. apply returns_bind; auto with py. Qed.
Lemma returns_cell_str r k : returns (cell_str r k).
Proof. apply returns_bind; auto with py. Qed.
Lemma returns_cell_int r k : returns (cell_int r k).
Proof. apply returns_bind; auto with py. Qed.
#[export] Hint Resolve returns_jiter_or returns_jget_int returns_jget_str returns_cell_str
  returns_cell_int : py.
