(* ===== verification/Base16.v ===== *)
(** * Integers in base 16

    [int(s, 16)], with which the scripts read the quantities of an archive node, and [hex(n)], with
    which they name a block. *)
From S2P Require Import Prelude PyStr PyData.

(** The digits of a literal in base 16: single underscores may stand between two digits. *)
Fixpoint digits16 (s : string) (acc : Z) (prev_digit : bool) : option Z :=
  match s with
  | EmptyString => if prev_digit then Some acc else None
  | String c s =>
      match hex_val c with
      | Some d => digits16 s (16 * acc + d) true
      | None => if decide (c = "_"%char) then if prev_digit then digits16 s acc false else None else None
      end
  end.

(** An optional prefix, which one underscore may follow. *)
Definition literal16 (s : string) : option Z :=
  if startswith "0x" s || startswith "0X" s then
    let t := str_drop 2 s in digits16 (if startswith "_" t then str_drop 1 t else t) 0 false
  else digits16 s 0 false.

(** [int(s, 16)]; [None] where Python raises [ValueError]. *)
Definition py_int16 (s : string) : option Z :=
  match strip_by int_space s with
  | String c t =>
      if decide (c = "+"%char) then literal16 t
      else if decide (c = "-"%char) then Z.opp <$> literal16 t
      else literal16 (String c t)
  | EmptyString => None
  end.

(** [int(v, 16)] of a decoded value *)
Definition jint16 (v : json) : result Z :=
  match v with
  | JStr s => of_option (py_int16 s) (ValueError "invalid literal for int() with base 16")
  | _ => Err TypeError
  end.

Fixpoint nat_hex (fuel : nat) (n : Z) (acc : string) : string :=
  match fuel with
  | O => acc
  | S fuel =>
      let acc := String (hex_char (n mod 16)) acc in
      if n <? 16 then acc else nat_hex fuel (n / 16) acc
  end.

(** [hex(n)]; [log2 n + 1] steps are enough. *)
Definition hex_of (n : Z) : string :=
  if n <? 0 then "-0x" +:+ nat_hex (S (Z.to_nat (Z.log2 (- n)))) (- n) EmptyString
  else "0x" +:+ nat_hex (S (Z.to_nat (Z.log2 n))) n EmptyString.

(** ** Round trip *)
Definition hex_digit (c : ascii) : bool := bool_decide (is_Some (hex_val c)).

Lemma hex_digit_char d : 0 ≤ d < 16 → hex_val (hex_char d) = Some d ∧ hex_digit (hex_char d) = true.
Proof. intros Hd. destruct (hex_char_val d Hd) as [H _]. split; [done|]. unfold hex_digit. by rewrite H. Qed.

Lemma nat_hex_parse fuel n :
  0 ≤ n < 16 ^ Z.of_nat fuel → (0 < fuel)%nat →
  ∃ k, 0 ≤ k ∧ ∀ s acc prev, digits16 (nat_hex fuel n s) acc prev = digits16 s (acc * 16 ^ k + n) true.
Proof.
  revert n. induction fuel as [|fuel IH]; intros n Hn Hf; [lia|].
  assert (Hd : 0 ≤ n mod 16 < 16) by (apply Z.mod_pos_bound; lia).
  pose proof (Z.div_mod n 16). cbn [nat_hex]. destruct (n <? 16) eqn:Hlt; bool_facts.
  - exists 1. split; [lia|]. intros s acc prev. cbn [digits16].
    rewrite (proj1 (hex_digit_char _ Hd)), Z.mod_small by lia. f_equal. lia.
  - assert (Hq : 0 ≤ n / 16 < 16 ^ Z.of_nat fuel).
    { rewrite Nat2Z.inj_succ, Z.pow_succ_r in Hn by lia. split; [apply Z.div_pos; lia|]. apply Z.div_lt_upper_bound; lia. }
    destruct (IH (n / 16) Hq) as (k & Hk & Hp).
    { destruct fuel; [|lia]. change (16 ^ Z.of_nat 0) with 1 in Hq. lia. }
    exists (Z.succ k). split; [lia|]. intros s acc prev. rewrite Hp. cbn [digits16].
    rewrite (proj1 (hex_digit_char _ Hd)), Z.pow_succ_r by lia. f_equal. lia.
Qed.

Lemma nat_hex_chars fuel n s : 0 ≤ n → all_chars hex_digit s = true → all_chars hex_digit (nat_hex fuel n s) = true.
Proof.
  revert n s. induction fuel as [|fuel IH]; intros n s Hn Hs; cbn [nat_hex]; [done|].
  assert (Hd : 0 ≤ n mod 16 < 16) by (apply Z.mod_pos_bound; lia).
  assert (Hc : all_chars hex_digit (String (hex_char (n mod 16)) s) = true)
    by (cbn [all_chars]; by rewrite (proj2 (hex_digit_char _ Hd))).
  destruct (n <? 16); [done|]. apply IH; [apply Z.div_pos; lia|done].
Qed.

Lemma hex_digit_not_space c : hex_digit c = true → negb (int_space c) = true.
Proof. revert c. by_chars. Qed.

Lemma hex_fuel n : 0 ≤ n → n < 16 ^ Z.of_nat (S (Z.to_nat (Z.log2 n))).
Proof.
  intros Hn. pose proof (dec_fuel n Hn). pose proof (Z.pow_le_mono_l 2 16 (Z.of_nat (S (Z.to_nat (Z.log2 n))))). lia.
Qed.

Lemma literal_nat_hex n : 0 ≤ n → literal16 ("0x" +:+ nat_hex (S (Z.to_nat (Z.log2 n))) n EmptyString) = Some n.
Proof.
  intros Hn. set (t := nat_hex _ n EmptyString). unfold literal16.
  assert (startswith "0x" ("0x" +:+ t) = true) as -> by by destruct t. cbn [orb].
  change (str_drop 2 ("0x" +:+ t)) with t.
  assert (Ht : all_chars hex_digit t = true) by by apply nat_hex_chars.
  assert (startswith "_" t = false) as ->.
  { destruct t as [|c t']; [done|]. apply andb_true_iff in Ht as [Hc _]. revert Hc. clear. revert c. by_chars. }
  destruct (nat_hex_parse (S (Z.to_nat (Z.log2 n))) n) as (k & Hk & Hp); [split; [done|by apply hex_fuel]|lia|].
  unfold t. by rewrite Hp.
Qed.

(** [int(hex(n), 16) == n] *)
Lemma int16_hex_of n : py_int16 (hex_of n) = Some n.
Proof.
  assert (Hchars : ∀ m, 0 ≤ m → all_chars (λ c, negb (int_space c)) (nat_hex (S (Z.to_nat (Z.log2 m))) m EmptyString) = true).
  { intros m Hm. eapply all_chars_impl; [apply hex_digit_not_space|by apply nat_hex_chars]. }
  unfold hex_of, py_int16. destruct (n <? 0) eqn:Hn; bool_facts.
  - rewrite strip_by_id by (apply Hchars; lia).
    transitivity (Z.opp <$> literal16 ("0x" +:+ nat_hex (S (Z.to_nat (Z.log2 (- n)))) (- n) EmptyString)); [done|].
    rewrite literal_nat_hex by lia. simpl. f_equal. lia.
  - rewrite strip_by_id by (apply Hchars; lia).
    transitivity (literal16 ("0x" +:+ nat_hex (S (Z.to_nat (Z.log2 n))) n EmptyString)); [done|]. by apply literal_nat_hex.
Qed.

Lemma jint16_hex_of n : jint16 (JStr (hex_of n)) = Ok n.
Proof. unfold jint16. by rewrite int16_hex_of. Qed.
#[export] Hint Rewrite int16_hex_of jint16_hex_of : sums.

Lemma hex_of_inj n m : hex_of n = hex_of m → n = m.
Proof. intros H%(f_equal py_int16). rewrite !int16_hex_of in H. congruence. Qed.

Lemma returns_jint16 v : returns (jint16 v).
Proof. destruct v; simpl; auto with py. Qed.
#[export] Hint Resolve returns_jint16 : py.

Example hex_example : hex_of 93529888 = "0x5932720" ∧ hex_of 0 = "0x0" ∧ hex_of (-17) = "-0x11".
Proof. by vm_compute. Qed.

Example int16_example :
  py_int16 "0xDe0B6B3a7640000" = Some (10 ^ 18) ∧ py_int16 " -ff " = Some (-255) ∧ py_int16 "0x_1_0" = Some 16 ∧
  py_int16 "0x" = None ∧ py_int16 "1__0" = None ∧ py_int16 "" = None.
Proof. by vm_compute. Qed.
