(* ===== verification/Sha256.v ===== *)
(** * SHA-256

    Every report of the audit names its inputs by SHA-256.  [hashlib] is part of Python's
    standard library; this file holds its SHA-256 (FIPS 180-4) on byte strings, with 32-bit
    words as [Z] and the wrap-around written out, and the streaming interface
    ([hashlib.sha256()], [update], [hexdigest]) the scripts use to hash a file chunk by chunk.

    The interface is a class, [Digest]: its law says that updating with two chunks is updating
    with their concatenation.  The chunked loop of the scripts' [file_sha256] is proved against
    the interface, and [sha256_digest] is its instance. *)
From S2P Require Import Prelude PyStr.

(** ** Words *)
Definition mask32 : Z := Eval vm_compute in 2 ^ 32 - 1.
Definition w32 (x : Z) : Z := Z.land x mask32.

Lemma w32_mod x : w32 x = x mod 2 ^ 32.
Proof. unfold w32. change mask32 with (Z.ones 32). by apply Z.land_ones. Qed.

Definition rotr (n x : Z) : Z := Z.lor (Z.shiftr x n) (w32 (Z.shiftl x (32 - n))).
Definition not32 (x : Z) : Z := Z.lxor x mask32.

Definition small_sigma0 (x : Z) : Z := Z.lxor (Z.lxor (rotr 7 x) (rotr 18 x)) (Z.shiftr x 3).
Definition small_sigma1 (x : Z) : Z := Z.lxor (Z.lxor (rotr 17 x) (rotr 19 x)) (Z.shiftr x 10).
Definition big_sigma0 (x : Z) : Z := Z.lxor (Z.lxor (rotr 2 x) (rotr 13 x)) (rotr 22 x).
Definition big_sigma1 (x : Z) : Z := Z.lxor (Z.lxor (rotr 6 x) (rotr 11 x)) (rotr 25 x).
Definition choose (x y z : Z) : Z := Z.lxor (Z.land x y) (Z.land (not32 x) z).
Definition majority (x y z : Z) : Z := Z.lxor (Z.lxor (Z.land x y) (Z.land x z)) (Z.land y z).

(** The constants of the standard are the first 32 bits of the fractional parts of the cube roots
    of the first 64 primes, and of the square roots of the first eight. *)
Definition is_prime (n : nat) : bool := forallb (λ d, negb (n mod d =? 0)%nat) (seq 2 (n - 2)).

Definition primes : list Z := Z.of_nat <$> List.filter is_prime (seq 2 310).

(** The integer cube root, bit by bit from bit [n - 1]. *)
Fixpoint cube_root_from (n : nat) (x r : Z) : Z :=
  match n with
  | O => r
  | S n => let r' := r + 2 ^ Z.of_nat n in cube_root_from n x (if r' ^ 3 <=? x then r' else r)
  end.

Definition round_constants : list Z :=
  Eval vm_compute in (λ p, w32 (cube_root_from 36 (p * 2 ^ 96) 0)) <$> primes.

Definition initial_state : list Z :=
  Eval vm_compute in (λ p, w32 (Z.sqrt (p * 2 ^ 64))) <$> take 8 primes.

(** ** The compression function *)

(** The message schedule; [recent] holds the last sixteen words, the newest first. *)
Fixpoint schedule (n : nat) (recent : list Z) : list Z :=
  match n with
  | O => []
  | S n =>
      let at_ i := nth i recent 0 in
      let w := w32 (small_sigma1 (at_ 1%nat) + at_ 6%nat + small_sigma0 (at_ 14%nat) + at_ 15%nat) in
      w :: schedule n (w :: take 15 recent)
  end.

Definition round (s : list Z) (kw : Z * Z) : list Z :=
  match s with
  | [a; b; c; d; e; f; g; h] =>
      let t1 := w32 (h + big_sigma1 e + choose e f g + kw.1 + kw.2) in
      let t2 := w32 (big_sigma0 a + majority a b c) in
      [w32 (t1 + t2); a; b; c; w32 (d + t1); e; f; g]
  | _ => s
  end.

Definition compress (s block : list Z) : list Z :=
  let words := block ++ schedule 48 (rev block) in
  zip_with (λ x y, w32 (x + y)) s (foldl round s (zip round_constants words)).

(** ** Padding and the digest of a byte string *)
Definition be_bytes (n : nat) (x : Z) : list Z :=
  rev ((λ i, Z.land (Z.shiftr x (8 * Z.of_nat i)) 255) <$> seq 0 n).

Fixpoint words_of (b : list Z) : list Z :=
  match b with
  | x :: y :: z :: t :: b => (2 ^ 24 * x + 2 ^ 16 * y + 2 ^ 8 * z + t) :: words_of b
  | _ => []
  end.

Definition padded (b : list Z) : list Z :=
  let zeros := Z.to_nat ((55 - Z.of_nat (length b)) mod 64) in
  b ++ [128] ++ replicate zeros 0 ++ be_bytes 8 (8 * Z.of_nat (length b)).

Fixpoint compress_all (fuel : nat) (s ws : list Z) : list Z :=
  match fuel, ws with
  | S fuel, _ :: _ => compress_all fuel (compress s (take 16 ws)) (drop 16 ws)
  | _, _ => s
  end.

Definition bytes_of_string (s : string) : list Z := code <$> String.list_ascii_of_string s.

Definition sha256_bytes (b : list Z) : list Z :=
  let ws := words_of (padded b) in
  mjoin (be_bytes 4 <$> compress_all (length ws) initial_state ws).

(** [hashlib.sha256(data).hexdigest()] *)
Definition sha256 (data : string) : string := hex (sha256_bytes (bytes_of_string data)).

(** ** The streaming interface *)
Class Digest (D : Type) := {
  digest_new : D;
  digest_update : D → string → D;
  hexdigest : D → string;
  digest_update_app d a b : digest_update (digest_update d a) b = digest_update d (a +:+ b);
}.

(** A hash object holds the bytes it was given. *)
Definition sha256_state : Type := string.

#[export] Instance sha256_digest : Digest sha256_state := {
  digest_new := EmptyString : sha256_state;
  digest_update d a := String.append d a;
  hexdigest := sha256;
  digest_update_app d a b := eq_sym (str_app_assoc d a b);
}.

(** [for chunk in iter(lambda: source.read(n), b"")]: the chunks of a file of bytes. *)
Fixpoint read_chunks (fuel n : nat) (data : string) : list string :=
  match fuel, data with
  | S fuel, String _ _ => str_take n data :: read_chunks fuel n (str_drop n data)
  | _, _ => []
  end.

Definition hash_chunks `{Digest D} (chunks : list string) : string :=
  hexdigest (foldl digest_update digest_new chunks).

(** ** Lemmas *)
Lemma str_take_drop n s : str_take n s +:+ str_drop n s = s.
Proof.
  revert s. induction n as [|n IH]; intros [|c s]; try done. simpl.
  by rewrite str_app_cons, IH.
Qed.

Lemma length_str_drop n s : String.length (str_drop n s) = (String.length s - n)%nat.
Proof. revert s. induction n as [|n IH]; intros [|c s]; simpl; auto. Qed.

Lemma update_chunks `{Digest D} (d : D) chunks :
  foldl digest_update d chunks = match chunks with [] => d | _ => digest_update d (foldr String.append EmptyString chunks) end.
Proof.
  revert d. induction chunks as [|c chunks IH]; intros d; [done|].
  simpl. rewrite IH. destruct chunks as [|c' chunks]; simpl.
  - by rewrite str_app_nil_r.
  - by rewrite digest_update_app.
Qed.

(** With a positive chunk size and fuel for every byte, the chunks are the whole file. *)
Lemma read_chunks_all fuel n data :
  (0 < n)%nat → (String.length data ≤ fuel)%nat →
  foldr String.append EmptyString (read_chunks fuel n data) = data.
Proof.
  revert data. induction fuel as [|fuel IH]; intros data Hn Hf.
  - by destruct data; [|simpl in Hf; lia].
  - destruct data as [|c data]; [done|].
    change (read_chunks (S fuel) n (String c data))
      with (str_take n (String c data) :: read_chunks fuel n (str_drop n (String c data))).
    simpl foldr. rewrite IH; [apply str_take_drop|done|].
    rewrite length_str_drop. simpl in *. lia.
Qed.

(** Hashing a file chunk by chunk is hashing its contents. *)
Lemma hash_chunks_whole fuel n data :
  (0 < n)%nat → (String.length data ≤ fuel)%nat →
  hash_chunks (D := sha256_state) (read_chunks fuel n data) = sha256 data.
Proof.
  intros Hn Hf. unfold hash_chunks. rewrite update_chunks.
  pose proof (read_chunks_all fuel n data Hn Hf) as Hd.
  destruct (read_chunks fuel n data) as [|c cs]; simpl in *; by rewrite <-Hd.
Qed.

(** Fixed-width big-endian bytes. *)
Lemma be_bytes_S n x : be_bytes (S n) x = be_bytes n (Z.shiftr x 8) ++ [x mod 256].
Proof.
  unfold be_bytes. simpl. rewrite Z.shiftr_0_r. f_equal.
  - f_equal. rewrite <-(fmap_S_seq 0 n), <-list_fmap_compose. apply list_fmap_ext.
    intros _ i _. unfold compose. rewrite Z.shiftr_shiftr by lia. do 2 f_equal. lia.
  - f_equal. apply (Z.land_ones x 8). lia.
Qed.

Lemma length_be_bytes n x : length (be_bytes n x) = n.
Proof. unfold be_bytes. by rewrite length_rev, length_fmap, length_seq. Qed.

Lemma be_bytes_bytes n x : Forall is_byte (be_bytes n x).
Proof.
  revert x. induction n as [|n IH]; intros x; [constructor|]. rewrite be_bytes_S.
  apply Forall_app. split; [apply IH|]. constructor; [|constructor]. unfold is_byte.
  apply Z.mod_pos_bound. lia.
Qed.

Lemma be_val_be_bytes n x : 0 ≤ x < 2 ^ (8 * Z.of_nat n) → be_val 8 (be_bytes n x) = x.
Proof.
  revert x. induction n as [|n IH]; intros x Hx; [simpl in Hx; unfold be_val; simpl; lia|].
  rewrite be_bytes_S, be_val_snoc, IH.
  - rewrite Z.shiftr_div_pow2 by lia. change (2 ^ 8) with 256. pose proof (Z.div_mod x 256 ltac:(lia)). lia.
  - rewrite Z.shiftr_div_pow2 by lia. change (2 ^ 8) with 256. split; [apply Z.div_pos; lia|].
    apply Z.div_lt_upper_bound; [lia|].
    replace (8 * Z.of_nat (S n)) with (8 + 8 * Z.of_nat n) in Hx by lia.
    rewrite Z.pow_add_r in Hx by lia. lia.
Qed.

Example sha256_empty :
  sha256 EmptyString = "e3b0c44298fc1c149afbf4c8996fb92427ae41e4649b934ca495991b7852b855".
Proof. by vm_compute. Qed.

Example sha256_abc :
  sha256 "abc" = "ba7816bf8f01cfea414140de5dae2223b00361a396177a9cb410ff61f20015ad".
Proof. by vm_compute. Qed.

Example sha256_two_blocks :
  sha256 "abcdbcdecdefdefgefghfghighijhijkijkljklmklmnlmnomnopnopq"
  = "248d6a61d20638b8e5c026930c3e6039a33ce45964ff2167f6ecedd419db06c1".
Proof. by vm_compute. Qed.
