(* ===== verification/Files.v ===== *)
(** * Files and effects

    The scripts read whole files, refuse to overwrite, write a [.partial] file and rename it.
    A program with these effects is a function of the world, a map from paths to contents
    (byte strings), that returns a result (or a raised exception) and the world it leaves: an
    exception does not undo what was written before it.

    The world carries at most one pending I/O fault: the mutating operation it counts down to
    raises [OSError], and a failing write leaves a prefix of the text it was given.  A property
    stated for every world is thus a property of every point of failure.  Removal in a cleanup
    handler does not draw on the fault, so a handler runs to its end.  Every directory the
    paths name exists. *)
From S2P Require Import Prelude PyStr PyData Sha256.

Record world := World { files : gmap string string; fault : option (nat * nat) }.

Definition IO (A : Type) : Type := world → result A * world.

#[export] Instance io_ret : MRet IO := λ A a w, (Ok a, w).
#[export] Instance io_bind : MBind IO := λ A B f m w,
  match m w with
  | (Ok a, w') => f a w'
  | (Err e, w') => (Err e, w')
  end.

(** A computation without effects, and an exception. *)
Definition lift {A} (r : result A) : IO A := λ w, (r, w).
Definition throw {A} (e : exn) : IO A := lift (Err e).

(** [try: m  except BaseException: h; raise] *)
Definition on_exception {A} (m : IO A) (h : IO unit) : IO A := λ w,
  match m w with
  | (Ok a, w') => (Ok a, w')
  | (Err e, w') => match h w' with (Ok _, w'') => (Err e, w'') | (Err e', w'') => (Err e', w'') end
  end.

(** ** Operations *)
Definition set_files (f : gmap string string) (w : world) : world := World f (fault w).

(** Counts one mutating operation; the pending fault fires when its count is spent. *)
Definition tick (w : world) : option nat * world :=
  match fault w with
  | None => (None, w)
  | Some (O, k) => (Some k, World (files w) None)
  | Some (S n, k) => (None, World (files w) (Some (n, k)))
  end.

Definition io_error : exn := OSError "I/O".

(** [os.path.exists(p)] *)
Definition exists_ (p : string) : IO bool := λ w, (Ok (bool_decide (is_Some (files w !! p))), w).

(** [open(p).read()] *)
Definition read (p : string) : IO string := λ w,
  (of_option (files w !! p) (FileNotFoundError p), w).

(** [open(p, "x")] *)
Definition create (p : string) : IO unit := λ w,
  let '(f, w) := tick w in
  match f with
  | Some _ => (Err io_error, w)
  | None =>
      match files w !! p with
      | Some _ => (Err (FileExistsError p), w)
      | None => (Ok tt, set_files (<[p := EmptyString]> (files w)) w)
      end
  end.

(** [f.write(s)] on the file open at [p] *)
Definition write (p s : string) : IO unit := λ w,
  let '(f, w) := tick w in
  let old := default EmptyString (files w !! p) in
  match f with
  | Some k => (Err io_error, set_files (<[p := old +:+ str_take k s]> (files w)) w)
  | None => (Ok tt, set_files (<[p := old +:+ s]> (files w)) w)
  end.

(** [f.flush(); os.fsync(f.fileno())] *)
Definition sync : IO unit := λ w,
  let '(f, w) := tick w in
  match f with Some _ => (Err io_error, w) | None => (Ok tt, w) end.

(** [os.replace(a, b)] *)
Definition replace (a b : string) : IO unit := λ w,
  let '(f, w) := tick w in
  match f with
  | Some _ => (Err io_error, w)
  | None =>
      match files w !! a with
      | None => (Err (FileNotFoundError a), w)
      | Some s => (Ok tt, set_files (<[b := s]> (delete a (files w))) w)
      end
  end.

(** [try: os.remove(p)  except FileNotFoundError: pass] *)
Definition remove_quiet (p : string) : IO unit := λ w,
  (Ok tt, set_files (delete p (files w)) w).

(** [for path in paths: ...] over IO *)
Fixpoint for_io {A} (f : A → IO unit) (l : list A) : IO unit :=
  match l with
  | [] => mret tt
  | x :: l => f x ≫= λ _, for_io f l
  end.

(** [for x in l: s = f(s, x)] over IO *)
Fixpoint fold_io {S A} (f : S → A → IO S) (s : S) (l : list A) : IO S :=
  match l with
  | [] => mret s
  | x :: l => f s x ≫= λ s', fold_io f s' l
  end.

(** [[f(x) for x in l]] over IO *)
Fixpoint map_io {A B} (f : A → IO B) (l : list A) : IO (list B) :=
  match l with
  | [] => mret []
  | x :: l => y ← f x; ys ← map_io f l; mret (y :: ys)
  end.

(** ** Patterns the scripts share *)
Definition partial (p : string) : string := p +:+ ".partial".

(** [if os.path.exists(p) or os.path.exists(p + ".partial"): raise FileExistsError(p)] *)
Definition refuse_existing (p : string) : IO unit :=
  b1 ← exists_ p;
  b2 ← (if (b1 : bool) then mret true else exists_ (partial p));
  lift (raise_when b2 (FileExistsError p)).

(** [with open(p + ".partial", "x") as f: write; flush; fsync], then [os.replace] *)
Definition publish (p : string) (texts : list string) : IO unit :=
  create (partial p) ≫= λ _,
  for_io (write (partial p)) texts ≫= λ _,
  sync ≫= λ _,
  replace (partial p) p.

(** [with open(p, "x") as f: write], with neither partial file nor sync *)
Definition put_new (p : string) (texts : list string) : IO unit :=
  create p ≫= λ _,
  for_io (write p) texts.

(** [open(p, "w")], which empties a file that exists, and [Path(p).write_text(s)] *)
Definition truncate (p : string) : IO unit := λ w,
  let '(f, w) := tick w in
  match f with
  | Some _ => (Err io_error, w)
  | None => (Ok tt, set_files (<[p := EmptyString]> (files w)) w)
  end.

Definition write_text (p s : string) : IO unit := truncate p ≫= λ _, write p s.

(** The write of [p + ".partial"] without a sync, then [os.replace] *)
Definition put_over (p s : string) : IO unit :=
  write_text (partial p) s ≫= λ _, replace (partial p) p.

(** [if partial.exists(): raise FileExistsError(partial)], then the write; the file itself may exist. *)
Definition publish_over (p : string) (texts : list string) : IO unit :=
  b ← exists_ (partial p);
  lift (raise_when b (FileExistsError (partial p))) ≫= λ _,
  publish p texts.

(** [Path(p).parent] and [d / r] on normalised paths; the current directory is the empty path. *)
Definition parent (p : string) : string :=
  match rfind "/" p with
  | None => EmptyString
  | Some O => "/"
  | Some n => str_take n p
  end.

Definition path_join (d r : string) : string :=
  if startswith "/" r then r
  else match d with
       | EmptyString => r
       | "/" => "/" +:+ r
       | _ => d +:+ "/" +:+ r
       end.

(** [Path(args.output) if args.output else None] *)
Definition output_path (output : option string) : option string :=
  match output with Some EmptyString => None | o => o end.

(** [Path(p).name] *)
Definition file_name (p : string) : string :=
  match rfind "/" p with None => p | Some n => str_drop (S n) p end.

(** [parts[parts.index(name):]], if [name in parts] *)
Fixpoint from_part (name : string) (parts : list string) : option (list string) :=
  match parts with
  | [] => None
  | part :: rest => if decide (part = name) then Some parts else from_part name rest
  end.

(** [portable_source_name(path)]; [resolve] gives the parts of the resolved path, which depend on
    the working directory and on links. *)
Definition portable_source_name (resolve : string → list string) (path : string) : string :=
  let parts := resolve path in
  match from_part "harmony-migration" parts with
  | Some l => join "/" l
  | None =>
      match from_part "harmony-supply-audit" parts with
      | Some l => join "/" l
      | None =>
          match from_part "artifacts" parts with
          | Some l => join "/" l
          | None => file_name path
          end
      end
  end.

(** [file_sha256(path)] with chunks of [n] bytes *)
Definition file_sha256_at (n : nat) (p : string) : IO string :=
  data ← read p;
  mret (hash_chunks (D := sha256_state) (read_chunks (String.length data) n data)).

(** ** Lemmas *)

(** [wp m w Q]: running [m] in [w] ends in a result and a world that satisfy [Q]. *)
Definition wp {A} (m : IO A) (w : world) (Q : result A → world → Prop) : Prop :=
  Q (m w).1 (m w).2.

Lemma wp_eq {A} (m : IO A) w r w' : m w = (r, w') → wp m w (λ r1 w1, r1 = r ∧ w1 = w').
Proof. unfold wp. by intros ->. Qed.

Lemma wp_mono {A} (m : IO A) w (P Q : result A → world → Prop) :
  wp m w P → (∀ r w', P r w' → Q r w') → wp m w Q.
Proof. unfold wp. auto. Qed.

Lemma wp_ret {A} (a : A) w (Q : result A → world → Prop) : Q (Ok a) w → wp (mret a) w Q.
Proof. done. Qed.

Lemma wp_lift {A} (r : result A) w (Q : result A → world → Prop) : Q r w → wp (lift r) w Q.
Proof. done. Qed.

Lemma wp_bind {A B} (m : IO A) (f : A → IO B) w (Q : result B → world → Prop) :
  wp m w (λ r w', match r with Ok a => wp (f a) w' Q | Err e => Q (Err e) w' end) →
  wp (m ≫= f) w Q.
Proof.
  unfold wp, mbind, io_bind. by destruct (m w) as [[a|e] w'].
Qed.

Lemma wp_exists p w (Q : result bool → world → Prop) :
  Q (Ok (bool_decide (is_Some (files w !! p)))) w → wp (exists_ p) w Q.
Proof. done. Qed.

Lemma wp_read p w (Q : result string → world → Prop) :
  Q (of_option (files w !! p) (FileNotFoundError p)) w → wp (read p) w Q.
Proof. done. Qed.

(** A handler that cannot raise. *)
Lemma wp_on_exception {A} (m : IO A) (h : IO unit) w (Q : result A → world → Prop) :
  wp m w (λ r w', match r with
    | Ok a => Q (Ok a) w'
    | Err e => wp h w' (λ r' w'', r' = Ok tt ∧ Q (Err e) w'')
    end) →
  wp (on_exception m h) w Q.
Proof.
  unfold wp, on_exception. destruct (m w) as [[a|e] w']; simpl; [done|].
  destruct (h w') as [[[]|e'] w'']; simpl; by intros [? ?].
Qed.

Lemma tick_files w : files (tick w).2 = files w.
Proof. destruct w as [f [[[|n] k]|]]; done. Qed.

(** The exceptions of the file operations. *)
Definition file_error (e : exn) : Prop :=
  match e with OSError _ | FileExistsError _ | FileNotFoundError _ => True | _ => False end.

Lemma wp_create p w (Q : result unit → world → Prop) :
  (∀ e w', file_error e → files w' = files w → Q (Err e) w') →
  (∀ w', files w !! p = None → files w' = <[p := EmptyString]> (files w) → Q (Ok tt) w') →
  wp (create p) w Q.
Proof.
  intros He Ho. pose proof (tick_files w) as Ht. unfold wp, create.
  destruct (tick w) as [[k|] w'] eqn:E; simpl in *; [by apply He|].
  rewrite Ht. destruct (files w !! p) eqn:Hp; simpl; [by apply He|]. by apply Ho.
Qed.

Lemma wp_write p s w (Q : result unit → world → Prop) :
  (∀ e k w', file_error e →
     files w' = <[p := default EmptyString (files w !! p) +:+ str_take k s]> (files w) → Q (Err e) w') →
  (∀ w', files w' = <[p := default EmptyString (files w !! p) +:+ s]> (files w) → Q (Ok tt) w') →
  wp (write p s) w Q.
Proof.
  intros He Ho. pose proof (tick_files w) as Ht. unfold wp, write.
  destruct (tick w) as [[k|] w'] eqn:E; simpl in *; rewrite Ht; [by eapply He|by eapply Ho].
Qed.

Lemma wp_sync w (Q : result unit → world → Prop) :
  (∀ e w', file_error e → files w' = files w → Q (Err e) w') →
  (∀ w', files w' = files w → Q (Ok tt) w') → wp sync w Q.
Proof.
  intros He Ho. pose proof (tick_files w) as Ht. unfold wp, sync.
  destruct (tick w) as [[k|] w'] eqn:E; simpl in *; [by apply He|by apply Ho].
Qed.

Lemma wp_replace a b w (Q : result unit → world → Prop) :
  (∀ e w', file_error e → files w' = files w → Q (Err e) w') →
  (∀ s w', files w !! a = Some s → files w' = <[b := s]> (delete a (files w)) → Q (Ok tt) w') →
  wp (replace a b) w Q.
Proof.
  intros He Ho. pose proof (tick_files w) as Ht. unfold wp, replace.
  destruct (tick w) as [[k|] w'] eqn:E; simpl in *; [by apply He|].
  rewrite Ht. destruct (files w !! a) eqn:Hp; simpl; [by eapply Ho|by apply He].
Qed.

Lemma partial_neq p : partial p ≠ p.
Proof.
  intros H. apply (f_equal String.length) in H. unfold partial in H.
  rewrite length_str_app in H. simpl in H. lia.
Qed.

(** The chunk size does not matter: the digest is that of the contents. *)
Lemma file_sha256_at_read n p w :
  (0 < n)%nat →
  file_sha256_at n p w =
  (match files w !! p with Some s => Ok (sha256 s) | None => Err (FileNotFoundError p) end, w).
Proof.
  intros Hn. unfold file_sha256_at, mbind, io_bind, read.
  destruct (files w !! p) as [s|]; cbn [of_option]; [|done].
  by rewrite (hash_chunks_whole _ _ _ Hn) by done.
Qed.

(** [concat_texts ts] is what the writes of [ts] append. *)
Definition concat_texts (ts : list string) : string := foldr String.append EmptyString ts.

Lemma wp_writes p ts w old (Q : result unit → world → Prop) :
  files w !! p = Some old →
  (∀ e s w', file_error e → files w' = <[p := s]> (files w) → Q (Err e) w') →
  (∀ w', files w' = <[p := old +:+ concat_texts ts]> (files w) → Q (Ok tt) w') →
  wp (for_io (write p) ts) w Q.
Proof.
  revert w old Q. induction ts as [|t ts IH]; intros w old Q Hp He Ho; simpl.
  - apply wp_ret, Ho. by rewrite str_app_nil_r, insert_id.
  - apply wp_bind, wp_write; rewrite Hp; simpl.
    + intros e k w' Hfe Hw. by eapply He.
    + intros w' Hw. eapply (IH w' (old +:+ t)).
      * by rewrite Hw, lookup_insert_eq.
      * intros e s w'' Hfe H''. apply (He _ s); [done|]. by rewrite H'', Hw, insert_insert_eq.
      * intros w'' H''. apply Ho. by rewrite H'', Hw, insert_insert_eq, <-str_app_assoc.
Qed.

(** [publish]: on return the file holds exactly the text and the partial file is gone; if it
    raises, no path other than the partial file has changed. *)
Lemma wp_publish p ts w (Q : result unit → world → Prop) :
  (∀ e w', file_error e → delete (partial p) (files w') = delete (partial p) (files w) → Q (Err e) w') →
  (∀ w', files w !! partial p = None → files w' = <[p := concat_texts ts]> (files w) → Q (Ok tt) w') →
  wp (publish p ts) w Q.
Proof.
  intros He Ho. unfold publish. apply wp_bind, wp_create.
  { intros e w' Hfe Hw. apply He; [done|]. by rewrite Hw. }
  intros w1 Hp H1. apply wp_bind, (wp_writes _ _ _ EmptyString).
  { by rewrite H1, lookup_insert_eq. }
  { intros e s w2 Hfe H2. apply He; [done|]. by rewrite H2, H1, !delete_insert_eq. }
  intros w2 H2. rewrite str_app_nil_l, H1, insert_insert_eq in H2.
  apply wp_bind, wp_sync.
  { intros e w3 Hfe H3. apply He; [done|]. by rewrite H3, H2, delete_insert_eq. }
  intros w3 H3. apply wp_replace.
  - intros e w4 Hfe H4. apply He; [done|]. by rewrite H4, H3, H2, delete_insert_eq.
  - intros s w4 Hs H4. apply Ho; [done|]. rewrite H4. rewrite H3, H2 in *.
    rewrite lookup_insert_eq in Hs. injection Hs as <-.
    by rewrite delete_insert_eq, delete_id.
Qed.

Lemma wp_refuse_existing p w (Q : result unit → world → Prop) :
  Q (Err (FileExistsError p)) w →
  (files w !! p = None → files w !! partial p = None → Q (Ok tt) w) →
  wp (refuse_existing p) w Q.
Proof.
  intros He Ho. unfold refuse_existing. apply wp_bind, wp_exists.
  case_bool_decide as H1; simpl.
  - by apply wp_bind, wp_ret, wp_lift.
  - apply wp_bind, wp_exists. case_bool_decide as H2; apply wp_lift; [done|].
    apply Ho; by apply eq_None_not_Some.
Qed.

Lemma wp_remove_quiet p w (Q : result unit → world → Prop) :
  (∀ w', files w' = delete p (files w) → Q (Ok tt) w') → wp (remove_quiet p) w Q.
Proof. intros H. by apply H. Qed.

(** The two together: an existing file or partial file is refused before anything is written. *)
Definition publish_new (p : string) (texts : list string) : IO unit :=
  refuse_existing p ≫= λ _, publish p texts.

(** What a failed [publish] may have changed: the partial file, if it did not exist before. *)
Definition only_partial (p : string) (w w' : world) : Prop :=
  delete (partial p) (files w') = delete (partial p) (files w) ∧
  (is_Some (files w !! partial p) → files w' = files w).

Lemma wp_publish_new p ts w (Q : result unit → world → Prop) :
  (∀ e w', e ≠ OutOfFuel → only_partial p w w' → Q (Err e) w') →
  (∀ w', files w !! p = None → files w !! partial p = None →
     files w' = <[p := concat_texts ts]> (files w) → Q (Ok tt) w') →
  wp (publish_new p ts) w Q.
Proof.
  intros He Ho. unfold publish_new. apply wp_bind, wp_refuse_existing; [by apply He|].
  intros H1 H2. apply wp_publish.
  - intros e w' Hfe Hd. apply He; [by intros ->|]. split; [done|]. rewrite H2. by intros [].
  - intros w' _ Hw. by apply Ho.
Qed.

Lemma publish_new_Ok p ts w w' :
  publish_new p ts w = (Ok tt, w') →
  files w !! p = None ∧ files w !! partial p = None ∧ files w' = <[p := concat_texts ts]> (files w).
Proof.
  intros H. enough (wp (publish_new p ts) w (λ r w', r = Ok tt → files w !! p = None ∧
    files w !! partial p = None ∧ files w' = <[p := concat_texts ts]> (files w))) as Hwp.
  { unfold wp in Hwp. rewrite H in Hwp. by apply Hwp. }
  by apply wp_publish_new.
Qed.

Lemma publish_new_Err p ts w e w' : publish_new p ts w = (Err e, w') → only_partial p w w' ∧ e ≠ OutOfFuel.
Proof.
  intros H. enough (wp (publish_new p ts) w (λ r w', ∀ e, r = Err e → only_partial p w w' ∧ e ≠ OutOfFuel)) as Hwp.
  { unfold wp in Hwp. rewrite H in Hwp. by apply Hwp. }
  apply wp_publish_new; [|done]. intros e' w2 ? ? e2 [= <-]. by split.
Qed.

Lemma wp_publish_over p ts w (Q : result unit → world → Prop) :
  (∀ e w', e ≠ OutOfFuel → only_partial p w w' → Q (Err e) w') →
  (∀ w', files w !! partial p = None → files w' = <[p := concat_texts ts]> (files w) → Q (Ok tt) w') →
  wp (publish_over p ts) w Q.
Proof.
  intros He Ho. unfold publish_over. apply wp_bind, wp_exists. case_bool_decide as H2; apply wp_bind, wp_lift.
  { by apply He. }
  apply eq_None_not_Some in H2. apply wp_publish.
  - intros e w' Hfe Hd. apply He; [by intros ->|]. split; [done|]. rewrite H2. by intros [].
  - intros w' _ Hw. by apply Ho.
Qed.

Lemma publish_over_Ok p ts w w' :
  publish_over p ts w = (Ok tt, w') →
  files w !! partial p = None ∧ files w' = <[p := concat_texts ts]> (files w).
Proof.
  intros H. enough (wp (publish_over p ts) w (λ r w', r = Ok tt → files w !! partial p = None ∧
    files w' = <[p := concat_texts ts]> (files w))) as Hwp.
  { unfold wp in Hwp. rewrite H in Hwp. by apply Hwp. }
  by apply wp_publish_over.
Qed.

Lemma publish_over_Err p ts w e w' : publish_over p ts w = (Err e, w') → only_partial p w w' ∧ e ≠ OutOfFuel.
Proof.
  intros H. enough (wp (publish_over p ts) w (λ r w', ∀ e, r = Err e → only_partial p w w' ∧ e ≠ OutOfFuel)) as Hwp.
  { unfold wp in Hwp. rewrite H in Hwp. by apply Hwp. }
  apply wp_publish_over; [|done]. intros e' w2 ? ? e2 [= <-]. by split.
Qed.

(** ** Programs that only read *)
Definition reads_only {A} (m : IO A) : Prop := ∀ w, (m w).2 = w.

Lemma reads_only_ret {A} (a : A) : reads_only (mret a).
Proof. done. Qed.
Lemma reads_only_lift {A} (r : result A) : reads_only (lift r).
Proof. done. Qed.
Lemma reads_only_read p : reads_only (read p).
Proof. done. Qed.
Lemma reads_only_exists p : reads_only (exists_ p).
Proof. done. Qed.
Lemma reads_only_bind {A B} (m : IO A) (f : A → IO B) :
  reads_only m → (∀ a, reads_only (f a)) → reads_only (m ≫= f).
Proof.
  intros Hm Hf w. specialize (Hm w). unfold mbind, io_bind.
  destruct (m w) as [[a|e] w1]; simpl in *; subst; [apply Hf|done].
Qed.
Lemma reads_only_fold_io {S A} (f : S → A → IO S) s l :
  (∀ s x, reads_only (f s x)) → reads_only (fold_io f s l).
Proof.
  intros Hf. revert s. induction l as [|x l IH]; intros s; simpl; [done|].
  apply reads_only_bind; [done|]. intros; apply IH.
Qed.
Lemma reads_only_map_io {A B} (f : A → IO B) l : (∀ x, reads_only (f x)) → reads_only (map_io f l).
Proof.
  intros Hf. induction l as [|x l IH]; simpl; [done|].
  repeat (apply reads_only_bind; [done|intros ?]). done.
Qed.
Lemma reads_only_file_sha256_at n p : reads_only (file_sha256_at n p).
Proof. apply reads_only_bind; [done|]. intros; done. Qed.
#[export] Hint Resolve reads_only_ret reads_only_lift reads_only_read reads_only_exists reads_only_bind
  reads_only_fold_io reads_only_map_io reads_only_file_sha256_at : py.

Lemma reads_only_world {A} (m : IO A) w r w' : reads_only m → m w = (r, w') → w' = w.
Proof. intros Hm E. specialize (Hm w). by rewrite E in Hm. Qed.

(** A program of two steps that returned. *)
Lemma io_bind_Ok {A B} (m : IO A) (f : A → IO B) w b w' :
  (m ≫= f) w = (Ok b, w') → ∃ a w1, m w = (Ok a, w1) ∧ f a w1 = (Ok b, w').
Proof. unfold mbind, io_bind. destruct (m w) as [[a|e] w1]; [eauto|done]. Qed.

Lemma io_bind_eq {A B} (m : IO A) (f : A → IO B) w a w1 : m w = (Ok a, w1) → (m ≫= f) w = f a w1.
Proof. intros H. unfold mbind, io_bind. by rewrite H. Qed.

Lemma lift_bind_eq {A B} (r : result A) (f : A → IO B) w a : r = Ok a → (lift r ≫= f) w = f a w.
Proof. by intros ->. Qed.

Lemma guard_bind_eq {A} c e (f : unit → IO A) w : c = false → (lift (raise_when c e) ≫= f) w = f tt w.
Proof. by intros ->. Qed.

Lemma read_Ok p w s w' : read p w = (Ok s, w') → w' = w ∧ files w !! p = Some s.
Proof. unfold read. destruct (files w !! p); simpl; intros [=]; by subst. Qed.

Lemma lift_Ok {A} (r : result A) w a w' : lift r w = (Ok a, w') → w' = w ∧ r = Ok a.
Proof. unfold lift. by intros [= -> ->]. Qed.

Lemma mret_Ok {A} (x : A) w a w' : (mret x : IO A) w = (Ok a, w') → w' = w ∧ x = a.
Proof. by intros [= -> ->]. Qed.

Lemma fold_io_inv {S A} (f : S → A → IO S) (P : S → Prop) s l w s' w' :
  (∀ s x s' w', P s → f s x w = (Ok s', w') → w' = w ∧ P s') → P s →
  fold_io f s l w = (Ok s', w') → w' = w ∧ P s'.
Proof.
  intros Hf. revert s. induction l as [|x l IH]; intros s Hs H; simpl in H.
  - by apply mret_Ok in H as [-> <-].
  - apply io_bind_Ok in H as (s1 & w1 & H1 & H). apply Hf in H1 as [-> H1]; [|done]. by apply IH in H.
Qed.

(** The publication that refuses an existing file unless told to replace it. *)
Definition write_guarded (path : string) (texts : list string) (replace : bool) : IO unit :=
  b ← exists_ (partial path);
  lift (raise_when b (FileExistsError (partial path))) ≫= λ _,
  b ← exists_ path;
  lift (raise_when ((b : bool) && negb replace) (FileExistsError path)) ≫= λ _,
  publish path texts.

Lemma write_guarded_Ok p ts replace w w' :
  write_guarded p ts replace w = (Ok tt, w') →
  files w !! partial p = None ∧ (replace = false → files w !! p = None) ∧
  files w' = <[p := concat_texts ts]> (files w).
Proof.
  intros H. enough (wp (write_guarded p ts replace) w (λ r w', r = Ok tt → files w !! partial p = None ∧
    (replace = false → files w !! p = None) ∧ files w' = <[p := concat_texts ts]> (files w))) as Hwp.
  { unfold wp in Hwp. rewrite H in Hwp. by apply Hwp. }
  unfold write_guarded. apply wp_bind, wp_exists. case_bool_decide as H1; apply wp_bind, wp_lift; simpl; [done|].
  apply wp_bind, wp_exists. apply eq_None_not_Some in H1.
  destruct (bool_decide _ && negb replace) eqn:E; apply wp_bind, wp_lift; simpl; [done|].
  apply wp_publish; [done|]. intros w1 _ Hw _. split_and!; [done| |done]. intros ->.
  rewrite andb_true_r in E. apply bool_decide_eq_false in E. by apply eq_None_not_Some.
Qed.

(** Each operation when it returns. *)
Lemma wp_Ok {A} (m : IO A) w a w' (P : Prop) :
  m w = (Ok a, w') → wp m w (λ r w1, r = Ok a → w1 = w' → P) → P.
Proof. intros E H. unfold wp in H. rewrite E in H. by apply H. Qed.

Lemma create_Ok p w u w' :
  create p w = (Ok u, w') → files w !! p = None ∧ files w' = <[p := EmptyString]> (files w).
Proof. intros H. apply (wp_Ok _ _ _ _ _ H). apply wp_create; [done|]. by intros w1 H1 H2 _ <-. Qed.

Lemma write_Ok p s w u w' :
  write p s w = (Ok u, w') → files w' = <[p := default EmptyString (files w !! p) +:+ s]> (files w).
Proof. intros H. apply (wp_Ok _ _ _ _ _ H). apply wp_write; [done|]. by intros w1 H1 _ <-. Qed.

Lemma sync_Ok w u w' : sync w = (Ok u, w') → files w' = files w.
Proof. intros H. apply (wp_Ok _ _ _ _ _ H). apply wp_sync; [done|]. by intros w1 H1 _ <-. Qed.

Lemma replace_Ok a b w u w' :
  replace a b w = (Ok u, w') → ∃ s, files w !! a = Some s ∧ files w' = <[b := s]> (delete a (files w)).
Proof. intros H. apply (wp_Ok _ _ _ _ _ H). apply wp_replace; [done|]. intros s w1 H1 H2 _ <-. by exists s. Qed.

Lemma truncate_Ok p w u w' : truncate p w = (Ok u, w') → files w' = <[p := EmptyString]> (files w).
Proof.
  unfold truncate. pose proof (tick_files w) as Hf. destruct (tick w) as [[k|] w1]; [done|]. intros [= _ <-]. cbn [set_files files snd] in *. by rewrite Hf.
Qed.

Lemma put_over_Ok p s w u w' : put_over p s w = (Ok u, w') → files w' = <[p := s]> (delete (partial p) (files w)).
Proof.
  unfold put_over, write_text. intros H. apply io_bind_Ok in H as (u1 & w1 & H1 & H). apply io_bind_Ok in H1 as (u2 & w2 & H2%truncate_Ok & H1%write_Ok).
  rewrite H2, lookup_insert_eq, insert_insert_eq in H1. cbn [default] in H1. apply replace_Ok in H as (s' & Hs & H).
  rewrite H1, lookup_insert_eq in Hs. injection Hs as <-. by rewrite H, H1, delete_insert_eq, str_app_nil_l.
Qed.

Lemma publish_Ok p ts w u w' :
  publish p ts w = (Ok u, w') → files w !! partial p = None ∧ files w' = <[p := concat_texts ts]> (files w).
Proof. intros H. apply (wp_Ok _ _ _ _ _ H). apply wp_publish; [done|]. by intros w1 H1 H2 _ <-. Qed.

Lemma refuse_existing_Ok p w u w' :
  refuse_existing p w = (Ok u, w') → w' = w ∧ files w !! p = None ∧ files w !! partial p = None.
Proof.
  unfold refuse_existing. intros H. apply io_bind_Ok in H as (b & w1 & [= <- <-] & H). apply io_bind_Ok in H as (c & w1 & Hc & H).
  apply lift_Ok in H as [-> ->%raise_when_Ok]. case_bool_decide as H1; [by injection Hc|].
  injection Hc as H2 <-. apply bool_decide_eq_false in H2. split_and!; [done|by apply eq_None_not_Some..].
Qed.

Lemma on_exception_Ok {A} (m : IO A) h w a w' : on_exception m h w = (Ok a, w') → m w = (Ok a, w').
Proof. unfold on_exception. destruct (m w) as [[b|e] w1]; [done|]. by destruct (h w1) as [[]]. Qed.

Lemma concat_texts_app l k : concat_texts (l ++ k) = concat_texts l +:+ concat_texts k.
Proof. unfold concat_texts. induction l as [|s l IH]; simpl; [by rewrite str_app_nil_l|]. by rewrite IH, str_app_assoc. Qed.

(** ** Programs that only change some files *)
Lemma io_bind_Err {A B} (m : IO A) (f : A → IO B) w e w' :
  (m ≫= f) w = (Err e, w') → m w = (Err e, w') ∨ ∃ a w1, m w = (Ok a, w1) ∧ f a w1 = (Err e, w').
Proof. unfold mbind, io_bind. destruct (m w) as [[a|e1] w1]; [eauto|]. intros [= <- <-]. by left. Qed.

Definition confined {A} (ps : list string) (m : IO A) : Prop := ∀ w p, p ∉ ps → files (m w).2 !! p = files w !! p.

Lemma confined_wp {A} ps (m : IO A) :
  (∀ w, wp m w (λ _ w', ∀ p, p ∉ ps → files w' !! p = files w !! p)) → confined ps m.
Proof. intros H w. apply H. Qed.

Lemma confined_reads_only {A} ps (m : IO A) : reads_only m → confined ps m.
Proof. intros H w p _. by rewrite H. Qed.

Lemma confined_ret {A} ps (a : A) : confined ps (mret a).
Proof. done. Qed.
Lemma confined_lift {A} ps (r : result A) : confined ps (lift r).
Proof. done. Qed.

Lemma confined_bind {A B} ps (m : IO A) (f : A → IO B) :
  confined ps m → (∀ a, confined ps (f a)) → confined ps (m ≫= f).
Proof.
  intros Hm Hf w p Hp. specialize (Hm w p Hp). unfold mbind, io_bind. destruct (m w) as [[a|e] w1]; simpl in *; [|done].
  rewrite Hf; done.
Qed.

Lemma confined_fold_io {S A} ps (f : S → A → IO S) s l : (∀ s x, confined ps (f s x)) → confined ps (fold_io f s l).
Proof.
  intros Hf. revert s. induction l as [|x l IH]; intros s; simpl; [apply confined_ret|]. apply confined_bind; [done|]. intros; apply IH.
Qed.

Lemma confined_for_io {A} ps (f : A → IO unit) l : (∀ x, confined ps (f x)) → confined ps (for_io f l).
Proof. intros Hf. induction l as [|x l IH]; simpl; [apply confined_ret|]. by apply confined_bind. Qed.

Lemma confined_create ps p : p ∈ ps → confined ps (create p).
Proof.
  intros Hin. apply confined_wp. intros w. apply wp_create; intros; [congruence|].
  match goal with E : files _ = <[_ := _]> _ |- _ => rewrite E end. apply lookup_insert_ne. set_solver.
Qed.

Lemma confined_write ps p s : p ∈ ps → confined ps (write p s).
Proof.
  intros Hin. apply confined_wp. intros w. apply wp_write; intros;
    match goal with E : files _ = <[_ := _]> _ |- _ => rewrite E end; apply lookup_insert_ne; set_solver.
Qed.

Lemma confined_truncate ps p : p ∈ ps → confined ps (truncate p).
Proof.
  intros Hin w q Hq. unfold truncate. pose proof (tick_files w) as Hf. destruct (tick w) as [[k|] w1]; cbn [snd set_files files] in *; [by rewrite Hf|].
  rewrite Hf, lookup_insert_ne; [done|]. by intros ->.
Qed.

Lemma confined_sync ps : confined ps sync.
Proof. apply confined_wp. intros w. apply wp_sync; intros; congruence. Qed.

Lemma confined_publish p ts : confined [p; partial p] (publish p ts).
Proof.
  apply confined_wp. intros w. apply wp_publish.
  - intros e w' _ Hd q [? Hq]%not_elem_of_cons. apply (f_equal (.!! q)) in Hd. rewrite !lookup_delete_ne in Hd by set_solver. done.
  - intros w' _ -> q Hq. apply lookup_insert_ne. set_solver.
Qed.

Lemma confined_put_over p s : confined [p; partial p] (put_over p s).
Proof.
  unfold put_over, write_text. apply confined_bind; [apply confined_bind; [|intros _]|intros _].
  - apply confined_truncate. set_solver.
  - apply confined_write. set_solver.
  - apply confined_wp. intros w. apply wp_replace; [congruence|]. intros t w' _ -> q Hq.
    rewrite lookup_insert_ne, lookup_delete_ne; set_solver.
Qed.

(** What a failed [publish] leaves. *)
Lemma publish_Err p ts w e w' q : publish p ts w = (Err e, w') → q ≠ partial p → files w' !! q = files w !! q.
Proof.
  intros H Hq. assert (Hd : delete (partial p) (files w') = delete (partial p) (files w)).
  { enough (Hwp : wp (publish p ts) w (λ r w1, ∀ e', r = Err e' → delete (partial p) (files w1) = delete (partial p) (files w))).
    { unfold wp in Hwp. rewrite H in Hwp. by eapply Hwp. }
    apply wp_publish; [|done]. by intros. }
  apply (f_equal (.!! q)) in Hd. by rewrite !lookup_delete_ne in Hd by done.
Qed.
#[export] Hint Resolve confined_ret confined_lift confined_sync : py.

Lemma replace_Err a b w e w' : replace a b w = (Err e, w') → files w' = files w.
Proof.
  intros H. enough (Hwp : wp (replace a b) w (λ r w1, ∀ e', r = Err e' → files w1 = files w)).
  { unfold wp in Hwp. rewrite H in Hwp. by eapply Hwp. }
  apply wp_replace; [|done]. by intros.
Qed.

(** The cleanup of a handler. *)
Lemma remove_all ps w :
  ∃ w', for_io remove_quiet ps w = (Ok tt, w') ∧ ∀ p, files w' !! p = if decide (p ∈ ps) then None else files w !! p.
Proof.
  revert w. induction ps as [|q ps IH]; intros w; cbn [for_io]; [by exists w|].
  destruct (IH (set_files (delete q (files w)) w)) as (w' & Hw' & Hp). exists w'. split; [exact Hw'|].
  intros p. rewrite Hp. simpl. destruct (decide (p = q)) as [->|Hne].
  - rewrite lookup_delete_eq, (decide_True (P := q ∈ q :: ps)) by left. by case_decide.
  - rewrite lookup_delete_ne by done. destruct (decide (p ∈ ps)); [rewrite decide_True by (by right)|rewrite decide_False by set_solver]; done.
Qed.

(** ** Programs that do not run out of fuel *)
Definition io_returns {A} (m : IO A) : Prop := ∀ w, returns (m w).1.

Lemma io_returns_wp {A} (m : IO A) : (∀ w, wp m w (λ r _, returns r)) → io_returns m.
Proof. done. Qed.

Lemma file_error_returns {A} e : file_error e → returns (Err e : result A).
Proof. intros H. apply returns_Err. by intros ->. Qed.

Lemma io_returns_ret {A} (a : A) : io_returns (mret a).
Proof. done. Qed.
Lemma io_returns_lift {A} (r : result A) : returns r → io_returns (lift r).
Proof. intros H w. exact H. Qed.
Lemma io_returns_bind {A B} (m : IO A) (f : A → IO B) : io_returns m → (∀ a, io_returns (f a)) → io_returns (m ≫= f).
Proof.
  intros Hm Hf w. specialize (Hm w). unfold mbind, io_bind. destruct (m w) as [[a|e] w1]; simpl in *; [apply Hf|].
  intros [= ->]. by apply Hm.
Qed.
Lemma io_returns_fold_io {S A} (f : S → A → IO S) s l : (∀ s x, io_returns (f s x)) → io_returns (fold_io f s l).
Proof.
  intros Hf. revert s. induction l as [|x l IH]; intros s; simpl; [done|]. apply io_returns_bind; [done|]. intros; apply IH.
Qed.
Lemma io_returns_for_io {A} (f : A → IO unit) l : (∀ x, io_returns (f x)) → io_returns (for_io f l).
Proof. intros Hf. induction l as [|x l IH]; simpl; [done|]. by apply io_returns_bind. Qed.
Lemma io_returns_create p : io_returns (create p).
Proof. intros w. change (wp (create p) w (λ r _, returns r)). apply wp_create; intros; [by apply file_error_returns|done]. Qed.
Lemma io_returns_write p s : io_returns (write p s).
Proof. intros w. change (wp (write p s) w (λ r _, returns r)). apply wp_write; intros; [by apply file_error_returns|done]. Qed.
Lemma io_returns_sync : io_returns sync.
Proof. intros w. change (wp sync w (λ r _, returns r)). apply wp_sync; intros; [by apply file_error_returns|done]. Qed.
Lemma io_returns_replace a b : io_returns (replace a b).
Proof. intros w. change (wp (replace a b) w (λ r _, returns r)). apply wp_replace; intros; [by apply file_error_returns|done]. Qed.
Lemma io_returns_exists p : io_returns (exists_ p).
Proof. done. Qed.
Lemma io_returns_read p : io_returns (read p).
Proof. intros w. unfold read. simpl. by destruct (files w !! p). Qed.
#[export] Hint Resolve io_returns_ret io_returns_lift io_returns_create io_returns_write io_returns_sync io_returns_replace
  io_returns_exists io_returns_read returns_raise_when : py.

Lemma io_returns_publish p ts : io_returns (publish p ts).
Proof.
  unfold publish. repeat (apply io_returns_bind; [auto with py|intros ?]); auto with py. apply io_returns_for_io. auto with py.
Qed.
Lemma io_returns_refuse_existing p : io_returns (refuse_existing p).
Proof.
  unfold refuse_existing. apply io_returns_bind; [auto with py|intros b]. apply io_returns_bind; [by destruct b|intros c].
  apply io_returns_lift. by destruct c.
Qed.
Lemma io_returns_file_sha256_at n p : io_returns (file_sha256_at n p).
Proof. apply io_returns_bind; [auto with py|done]. Qed.
Lemma io_returns_on_exception {A} (m : IO A) h : io_returns m → io_returns h → io_returns (on_exception m h).
Proof.
  intros Hm Hh w. specialize (Hm w). unfold on_exception. destruct (m w) as [[a|e] w1]; [done|]. specialize (Hh w1).
  destruct (h w1) as [[u|e'] w2]; simpl in *; [done|]. intros [= ->]. by apply Hh.
Qed.
#[export] Hint Resolve io_returns_publish io_returns_refuse_existing io_returns_file_sha256_at : py.

(** [inv_io H] splits a run that returned into the runs of its parts. *)
Ltac inv_io H :=
  lazymatch type of H with
  | (_ ≫= _) _ = (Ok _, _) =>
      let a := fresh "v" in let w := fresh "w" in let E := fresh "R" in
      apply io_bind_Ok in H as (a & w & E & H); inv_io E; inv_io H
  | read _ _ = (Ok _, _) => let E := fresh "W" in apply read_Ok in H as [E H]; subst
  | lift _ _ = (Ok _, _) => let E := fresh "W" in apply lift_Ok in H as [E H]; subst
  | mret _ _ = (Ok _, _) => let E := fresh "W" in apply mret_Ok in H as [E H]; subst
  | _ => idtac
  end.

(** Refusing to overwrite any of some files. *)
Lemma for_io_reads_only {A} (f : A → IO unit) l w u w' :
  (∀ x w u w', f x w = (Ok u, w') → w' = w) → for_io f l w = (Ok u, w') → w' = w ∧ Forall (λ x, ∃ v, f x w = (Ok v, w)) l.
Proof.
  intros Hf. revert w. induction l as [|x l IH]; intros w H; cbn [for_io] in H; [by apply mret_Ok in H as [-> _]|].
  apply io_bind_Ok in H as (v & w1 & H1 & H). pose proof (Hf _ _ _ _ H1) as ->. apply IH in H as [-> H]. split; [done|].
  constructor; [by exists v|done].
Qed.

Lemma refuse_all_Ok ps w u w' :
  for_io refuse_existing ps w = (Ok u, w') → w' = w ∧ Forall (λ p, files w !! p = None ∧ files w !! partial p = None) ps.
Proof.
  intros H. apply for_io_reads_only in H as [-> H]; [|intros; by eapply refuse_existing_Ok]. split; [done|].
  eapply Forall_impl; [done|]. intros p [v Hv]. by apply refuse_existing_Ok in Hv as (_ & ? & ?).
Qed.

Lemma reads_only_refuse_all ps : reads_only (for_io refuse_existing ps).
Proof.
  induction ps as [|p ps IH]; cbn [for_io]; [done|]. apply reads_only_bind; [|done]. unfold refuse_existing.
  apply reads_only_bind; [auto with py|intros b]. apply reads_only_bind; [by destruct b|auto with py].
Qed.

(** Examples: a run that returns. *)
Lemma run_Ok {A} (m : IO A) w a : (m w).1 = Ok a → m w = (Ok a, (m w).2).
Proof. destruct (m w) as [r w']. simpl. by intros ->. Qed.

Lemma put_new_Ok p ts w u w' :
  put_new p ts w = (Ok u, w') → files w !! p = None ∧ files w' = <[p := concat_texts ts]> (files w).
Proof.
  unfold put_new. intros H. apply io_bind_Ok in H as (u1 & w1 & [Hn H1]%create_Ok & H). split; [done|].
  apply (wp_Ok _ _ _ _ _ H). apply (wp_writes p ts w1 EmptyString); [by rewrite H1, lookup_insert_eq|done|].
  intros w2 H2 _ <-. by rewrite H2, H1, insert_insert_eq, str_app_nil_l.
Qed.

Lemma confined_put_new p ts : confined [p] (put_new p ts).
Proof.
  unfold put_new. apply confined_bind; [apply confined_create; by left|intros _]. apply confined_for_io. intros x. apply confined_write. by left.
Qed.

Lemma writes_return p ts w : fault w = None → ∃ w', for_io (write p) ts w = (Ok tt, w') ∧ fault w' = None.
Proof.
  revert w. induction ts as [|t ts IH]; intros w Hw; [by exists w|]. cbn [for_io].
  assert (Ht : write p t w = (Ok tt, set_files (<[p := default EmptyString (files w !! p) +:+ t]> (files w)) w)) by (unfold write, tick; by rewrite Hw).
  rewrite (io_bind_eq _ _ _ _ _ Ht). by apply IH.
Qed.

(** Without a fault pending, a file that does not exist is written. *)
Lemma put_new_returns p ts w : fault w = None → files w !! p = None → ∃ w', put_new p ts w = (Ok tt, w').
Proof.
  intros Hw Hp. assert (Hc : create p w = (Ok tt, set_files (<[p := EmptyString]> (files w)) w)) by (unfold create, tick; by rewrite Hw, Hp).
  unfold put_new. rewrite (io_bind_eq _ _ _ _ _ Hc). destruct (writes_return p ts (set_files (<[p := EmptyString]> (files w)) w)) as (w' & Hw' & _); [done|].
  by exists w'.
Qed.
