(* ===== verification/Csv.v ===== *)
(** * The CSV layer

    [csv.reader], [csv.DictReader] and [csv.writer] of Python's standard library, in the
    default dialect with either line terminator, on files opened with [newline=""].  The reader
    is the state machine of CPython's [_csv] module run over the whole text: it needs no line
    splitting, because a line break that is not inside quotes always ends a record there.

    The development's files meet here: a table one script writes is read back by the next
    one, so [read_csv_write_csv] (reading what was written gives the records back, whatever
    the cells hold) is what lets a theorem about a writer feed a theorem about a reader. *)
From S2P Require Import Prelude PyStr PyData Files.

(** ** Reading *)
Inductive csv_state := StartRecord | StartField | InField | InQuoted | QuoteInQuoted.

#[export] Instance csv_state_eq_dec : EqDecision csv_state.
Proof. solve_decision. Defined.

Definition comma : ascii := ",".
Definition lf : ascii := "010".
Definition cr : ascii := "013".

Definition line_break (c : ascii) : bool := bool_decide (c = lf ∨ c = cr).

Definition add_char (s : string) (c : ascii) : string := s +:+ String c EmptyString.

(** [crlf]: the previous character was the carriage return that ended a record. *)
Fixpoint scan (st : csv_state) (crlf : bool) (field : string) (rec : list string) (s : string) :
    list (list string) :=
  match s with
  | EmptyString => match st with StartRecord => [] | _ => [rec ++ [field]] end
  | String c s =>
      match st with
      | InQuoted =>
          if decide (c = dquote) then scan QuoteInQuoted false field rec s
          else scan InQuoted false (add_char field c) rec s
      | _ =>
          if line_break c then
            if decide (st = StartRecord) then
              if crlf && bool_decide (c = lf) then scan StartRecord false EmptyString [] s
              else [] :: scan StartRecord (bool_decide (c = cr)) EmptyString [] s
            else (rec ++ [field]) :: scan StartRecord (bool_decide (c = cr)) EmptyString [] s
          else if decide (c = comma) then scan StartField false EmptyString (rec ++ [field]) s
          else if decide (c = dquote) then
            match st with
            | StartRecord | StartField => scan InQuoted false field rec s
            | QuoteInQuoted => scan InQuoted false (add_char field c) rec s
            | _ => scan InField false (add_char field c) rec s
            end
          else scan InField false (add_char field c) rec s
      end
  end.

(** [list(csv.reader(f))] *)
Definition read_csv (text : string) : list (list string) := scan StartRecord false EmptyString [] text.

(** [dict(zip(fieldnames, record))], with [None] for the columns a short record leaves out;
    of two columns with one name the later wins.  The cells a long record has beyond the header
    go under the key [None], which no script reads. *)
Definition dict_row (header record : list string) : row :=
  foldl (λ (r : row) kv, <[kv.1 := kv.2]> r) ∅
    (zip header ((Some <$> record) ++ replicate (length header - length record) None)).

(** [list(csv.DictReader(f))]: the first record is the header; blank lines are skipped. *)
Definition table_rows (records : list (list string)) : list row :=
  match records with
  | [] => []
  | header :: records => dict_row header <$> filter (λ r, r ≠ []) records
  end.

Definition dict_rows (text : string) : list row := table_rows (read_csv text).

(** ** Writing *)
Definition special (c : ascii) : bool := bool_decide (c = comma ∨ c = dquote) || line_break c.

Fixpoint double_quotes (s : string) : string :=
  match s with
  | EmptyString => EmptyString
  | String c s =>
      if decide (c = dquote) then String dquote (String dquote (double_quotes s))
      else String c (double_quotes s)
  end.

Definition in_quotes (s : string) : string :=
  String dquote (double_quotes s +:+ String dquote EmptyString).

Definition csv_field (s : string) : string :=
  if all_chars (λ c, negb (special c)) s then s else in_quotes s.

(** A record up to its line terminator: one empty cell is quoted, or it would read back as a
    blank line. *)
Definition csv_record (record : list string) : string :=
  match record with
  | [EmptyString] => in_quotes EmptyString
  | _ => join "," (csv_field <$> record)
  end.

(** [writer.writerow(record)] with [lineterminator="\n"], and with the default terminator. *)
Definition csv_line (record : list string) : string := csv_record record +:+ String lf EmptyString.
Definition csv_line_crlf (record : list string) : string := csv_record record +:+ String cr (String lf EmptyString).

(** A cell of a row of values: [None] is the empty cell, anything else its [str]. *)
Definition csv_value (v : json) : string := match v with JNull => EmptyString | _ => py_str v end.

Definition write_csv (records : list (list string)) : string :=
  foldr (λ r acc, csv_line r +:+ acc) EmptyString records.

Definition write_csv_crlf (records : list (list string)) : string :=
  foldr (λ r acc, csv_line_crlf r +:+ acc) EmptyString records.

(** ** Lemmas *)
Lemma add_char_app s c t : add_char s c +:+ t = s +:+ String c t.
Proof. unfold add_char. by rewrite <-str_app_assoc, str_app_cons, str_app_nil_l. Qed.

Lemma scan_doubled crlf s field rec rest :
  scan InQuoted crlf field rec (double_quotes s +:+ String dquote rest) =
  scan QuoteInQuoted false (field +:+ s) rec rest.
Proof.
  revert crlf field. induction s as [|c s IH]; intros crlf field; cbn [double_quotes].
  - by rewrite str_app_nil_l, str_app_nil_r.
  - case_decide as Hc; rewrite !str_app_cons; cbn [scan].
    + rewrite decide_True by done. cbn [scan].
      replace (line_break dquote) with false by done.
      rewrite decide_False by done. rewrite decide_True by done.
      rewrite IH, add_char_app. by subst.
    + rewrite decide_False by done. by rewrite IH, add_char_app.
Qed.

Lemma scan_in_quotes st crlf s rec rest :
  st = StartRecord ∨ st = StartField →
  scan st crlf EmptyString rec (in_quotes s +:+ rest) = scan QuoteInQuoted false s rec rest.
Proof.
  intros Hst. unfold in_quotes. rewrite str_app_cons, <-str_app_assoc, str_app_cons, str_app_nil_l.
  destruct Hst as [-> | ->]; cbn [scan]; replace (line_break dquote) with false by done;
    rewrite decide_False by done; rewrite decide_True by done; by rewrite scan_doubled, str_app_nil_l.
Qed.

Lemma special_false c :
  special c = false → line_break c = false ∧ c ≠ comma ∧ c ≠ dquote.
Proof. unfold special. intros H. bool_facts. tauto. Qed.

Lemma scan_plain crlf s field rec rest :
  all_chars (λ c, negb (special c)) s = true →
  scan InField crlf field rec (s +:+ rest) =
  scan InField (if s is EmptyString then crlf else false) (field +:+ s) rec rest.
Proof.
  revert crlf field. induction s as [|c s IH]; intros crlf field Hs.
  - by rewrite str_app_nil_l, str_app_nil_r.
  - simpl in Hs. bool_facts. apply special_false in H as (H1 & H2 & H3).
    rewrite str_app_cons. cbn [scan]. rewrite H1, !decide_False by done.
    rewrite IH by done. rewrite add_char_app. by destruct s.
Qed.

Lemma scan_field st s rec rest :
  st = StartRecord ∨ st = StartField →
  ∃ st', scan st false EmptyString rec (csv_field s +:+ rest) = scan st' false s rec rest ∧
         ((st' = st ∧ s = EmptyString) ∨ st' = InField ∨ st' = QuoteInQuoted).
Proof.
  intros Hst. unfold csv_field. destruct (all_chars _ s) eqn:Hs.
  - destruct s as [|c s].
    { exists st. rewrite str_app_nil_l. eauto. }
    exists InField. split; [|auto]. simpl in Hs. bool_facts.
    apply special_false in H as (H1 & H2 & H3). rewrite str_app_cons.
    destruct Hst as [-> | ->]; cbn [scan]; rewrite H1, !decide_False by done;
      rewrite scan_plain by done; rewrite add_char_app, str_app_nil_l; by destruct s.
  - exists QuoteInQuoted. split; [by apply scan_in_quotes|auto].
Qed.

Lemma scan_comma st s rec rest :
  st ≠ InQuoted →
  scan st false s rec (String comma rest) = scan StartField false EmptyString (rec ++ [s]) rest.
Proof. by destruct st. Qed.

Lemma scan_break st s rec c rest :
  line_break c = true → st ≠ InQuoted → st ≠ StartRecord →
  scan st false s rec (String c rest) = (rec ++ [s]) :: scan StartRecord (bool_decide (c = cr)) EmptyString [] rest.
Proof. intros Hc. destruct st; try done; cbn [scan]; by rewrite Hc, decide_False. Qed.

Lemma join_cons sep s l : l ≠ [] → join sep (s :: l) = s +:+ sep +:+ join sep l.
Proof. by destruct l. Qed.

(** The cells after the first: the reader is at the start of a field. *)
Lemma scan_fields record rec c rest :
  line_break c = true → record ≠ [] →
  scan StartField false EmptyString rec (join "," (csv_field <$> record) +:+ String c rest) =
  (rec ++ record) :: scan StartRecord (bool_decide (c = cr)) EmptyString [] rest.
Proof.
  intros Hc. revert rec. induction record as [|s record IH]; intros rec Hr; [done|].
  destruct record as [|s' record].
  - change (join "," (csv_field <$> [s])) with (csv_field s).
    destruct (scan_field StartField s rec (String c rest)) as (st' & -> & Hst'); [by right|].
    rewrite scan_break; [done|done|by destruct Hst' as [[-> ?]|[-> | ->]]..].
  - rewrite fmap_cons, join_cons by done. rewrite <-!str_app_assoc.
    edestruct (scan_field StartField s rec) as (st' & -> & Hst'); [by right|].
    rewrite str_app_cons, str_app_nil_l.
    rewrite scan_comma by (by destruct Hst' as [[-> ?]|[-> | ->]]).
    by rewrite IH, <-app_assoc.
Qed.

Lemma csv_record_cells record : record ≠ [] → record ≠ [EmptyString] → csv_record record = join "," (csv_field <$> record).
Proof. intros H1 H2. by destruct record as [|[|c s] [|s' record]]. Qed.

(** A record and the first character of its terminator. *)
Lemma scan_record record c rest :
  line_break c = true →
  scan StartRecord false EmptyString [] (csv_record record +:+ String c rest) =
  record :: scan StartRecord (bool_decide (c = cr)) EmptyString [] rest.
Proof.
  intros Hc. destruct (decide (record = [])) as [->|Hr].
  { unfold csv_record. cbn [fmap list_fmap join]. rewrite str_app_nil_l. cbn [scan]. by rewrite Hc. }
  destruct (decide (record = [EmptyString])) as [->|He].
  { unfold csv_record. rewrite scan_in_quotes by auto. by rewrite scan_break. }
  rewrite csv_record_cells by done. destruct record as [|s [|s' record]]; [done| |].
  - change (join "," (csv_field <$> [s])) with (csv_field s).
    destruct (scan_field StartRecord s [] (String c rest)) as (st' & -> & Hst'); [auto|].
    assert (s ≠ EmptyString) by congruence.
    rewrite scan_break; [done|done|by destruct Hst' as [[-> ?]|[-> | ->]]..].
  - rewrite fmap_cons, join_cons by done. rewrite <-!str_app_assoc.
    edestruct (scan_field StartRecord s []) as (st' & -> & Hst'); [by left|].
    rewrite str_app_cons, str_app_nil_l. change ","%char with comma.
    rewrite scan_comma by (by destruct Hst' as [[-> ?]|[-> | ->]]). by rewrite scan_fields.
Qed.

Lemma scan_line record rest :
  scan StartRecord false EmptyString [] (csv_line record +:+ rest) =
  record :: scan StartRecord false EmptyString [] rest.
Proof. unfold csv_line. by rewrite <-str_app_assoc, str_app_cons, str_app_nil_l, scan_record. Qed.

(** The line feed of a terminator of two characters ends no second record. *)
Lemma scan_line_crlf record rest :
  scan StartRecord false EmptyString [] (csv_line_crlf record +:+ rest) =
  record :: scan StartRecord false EmptyString [] rest.
Proof. unfold csv_line_crlf. by rewrite <-str_app_assoc, !str_app_cons, str_app_nil_l, scan_record. Qed.

Lemma scan_lines records rest :
  scan StartRecord false EmptyString [] (write_csv records +:+ rest) =
  records ++ scan StartRecord false EmptyString [] rest.
Proof.
  induction records as [|r records IH]; simpl; [by rewrite str_app_nil_l|].
  by rewrite <-str_app_assoc, scan_line, IH.
Qed.

(** Reading back what was written, whatever the cells hold. *)
Lemma read_csv_write_csv records : read_csv (write_csv records) = records.
Proof.
  unfold read_csv. rewrite <-(str_app_nil_r (write_csv records)), scan_lines. by rewrite app_nil_r.
Qed.

(** The line terminator is not part of what is read back. *)
Lemma read_csv_crlf records : read_csv (write_csv_crlf records) = read_csv (write_csv records).
Proof.
  rewrite read_csv_write_csv. unfold read_csv, write_csv_crlf.
  induction records as [|r records IH]; [done|]. cbn [foldr]. by rewrite scan_line_crlf, IH.
Qed.

Lemma dict_rows_crlf records : dict_rows (write_csv_crlf records) = dict_rows (write_csv records).
Proof. unfold dict_rows. by rewrite read_csv_crlf. Qed.

Lemma write_csv_inj a b : write_csv a = write_csv b → a = b.
Proof. intros H. by rewrite <-(read_csv_write_csv a), H, read_csv_write_csv. Qed.

Lemma write_csv_app a b : write_csv (a ++ b) = write_csv a +:+ write_csv b.
Proof.
  induction a as [|r a IH]; simpl; [by rewrite str_app_nil_l|]. by rewrite IH, str_app_assoc.
Qed.

(** A column of a row read from a table. *)
Lemma dict_row_fold (l : list (string * option string)) (r : row) k v :
  NoDup l.*1 → (k, v) ∈ l → foldl (λ (r : row) kv, <[kv.1 := kv.2]> r) r l !! k = Some v.
Proof.
  revert r. induction l as [|[k' v'] l IH]; intros r Hnd Hin; [set_solver|].
  simpl in *. apply NoDup_cons in Hnd as [Hk Hnd]. apply elem_of_cons in Hin as [[= -> ->]|Hin].
  - clear IH. revert r. induction l as [|[k2 v2] l IHl] using rev_ind; intros r; simpl.
    + by rewrite lookup_insert_eq.
    + rewrite foldl_app. simpl. rewrite fmap_app in Hk, Hnd. simpl in *.
      apply NoDup_app in Hnd as (? & _ & _).
      rewrite lookup_insert_ne; [|set_solver]. apply IHl; [set_solver|done].
  - by apply IH.
Qed.

Lemma dict_row_lookup header record i k s :
  NoDup header → length record = length header → header !! i = Some k → record !! i = Some s →
  dict_row header record !! k = Some (Some s).
Proof.
  intros Hnd Hlen Hk Hs. unfold dict_row. rewrite Hlen, Nat.sub_diag. simpl.
  rewrite app_nil_r. apply dict_row_fold.
  - rewrite fst_zip; [done|]. rewrite length_fmap. lia.
  - apply list_elem_of_lookup_2 with i, lookup_zip_with_Some. exists k, (Some s).
    split_and!; [done..|]. by rewrite list_lookup_fmap, Hs.
Qed.

Lemma dict_row_int header record i k v :
  NoDup header → length record = length header → header !! i = Some k → record !! i = Some (str_of_Z v) →
  cell_int (dict_row header record) k = Ok v.
Proof.
  intros Hnd Hlen Hk Hs. apply cell_int_Ok. exists (str_of_Z v). split; [|apply py_int_str_of_Z].
  by apply (dict_row_lookup header record i).
Qed.

(** A column of integers, 0 where a cell holds none. *)
Definition column (k : string) (r : row) : Z := get 0 (cell_int r k).

Lemma column_of header record i k v :
  NoDup header → length record = length header → header !! i = Some k → record !! i = Some (str_of_Z v) →
  column k (dict_row header record) = v.
Proof. intros ????. unfold column. by rewrite (dict_row_int header record i k v). Qed.

(** Writing a table line by line. *)
Lemma concat_csv_lines records : foldr String.append EmptyString (csv_line <$> records) = write_csv records.
Proof. induction records as [|r l IH]; [done|]. rewrite fmap_cons. simpl. by rewrite IH. Qed.

Lemma concat_csv_lines_crlf records : foldr String.append EmptyString (csv_line_crlf <$> records) = write_csv_crlf records.
Proof. induction records as [|r l IH]; [done|]. rewrite fmap_cons. simpl. by rewrite IH. Qed.

Lemma dict_rows_write_csv header records :
  Forall (λ r, r ≠ []) records →
  dict_rows (write_csv (header :: records)) = dict_row header <$> records.
Proof.
  intros Hr. unfold dict_rows. rewrite read_csv_write_csv. unfold table_rows.
  f_equal. induction Hr as [|r l Hr Hl IH]; [done|].
  rewrite filter_cons_True by done. by rewrite IH.
Qed.

(** The rows of some files, in order. *)
Definition rows_of (w : world) (paths : list string) (rows : list row) : Prop :=
  ∃ texts, mapR (λ p, (read p w).1) paths = Ok texts ∧ rows = mjoin (dict_rows <$> texts).
