(* ===== verification/Json.v ===== *)
(** * JSON text

    [json.loads] of Python's standard library, a recursive-descent parser with fuel: every
    recursive call has consumed a character, so a text's length is enough fuel
    ([loads_fuel]).  A number with a fraction or an exponent and a [\u] escape outside ASCII
    are refused with [ValueError]: no file the scripts exchange holds one.  [dumps] (in PyData)
    is the printer. *)
From S2P Require Import Prelude PyStr PyData Files.

Definition json_error : exn := ValueError "JSON".

Definition json_space (c : ascii) : bool :=
  bool_decide (c = " "%char ∨ c = "009"%char ∨ c = "010"%char ∨ c = "013"%char).

Fixpoint skip_space (s : string) : string :=
  match s with
  | String c s' => if json_space c then skip_space s' else s
  | EmptyString => EmptyString
  end.

(** The body of a string, after its opening quote. *)
Fixpoint scan_string (acc : string) (s : string) : result (string * string) :=
  match s with
  | EmptyString => Err json_error
  | String c s =>
      if decide (c = dquote) then Ok (acc, s)
      else if decide (c = "\"%char) then
        match s with
        | EmptyString => Err json_error
        | String e s =>
            let plain (c : ascii) (s : string) := scan_string (acc +:+ String c EmptyString) s in
            if decide (e = dquote) then plain dquote s
            else if decide (e = "\"%char) then plain "\"%char s
            else if decide (e = "/"%char) then plain "/"%char s
            else if decide (e = "b"%char) then plain "008"%char s
            else if decide (e = "f"%char) then plain "012"%char s
            else if decide (e = "n"%char) then plain "010"%char s
            else if decide (e = "r"%char) then plain "013"%char s
            else if decide (e = "t"%char) then plain "009"%char s
            else if decide (e = "u"%char) then
              match s with
              | String "0" (String "0" (String h (String l s))) =>
                  match hex_val h, hex_val l with
                  | Some x, Some y =>
                      if x <? 8 then plain (ascii_of_N (Z.to_N (16 * x + y))) s else Err json_error
                  | _, _ => Err json_error
                  end
              | _ => Err json_error
              end
            else Err json_error
        end
      else if code c <? 32 then Err json_error
      else scan_string (acc +:+ String c EmptyString) s
  end.

(** The digits of a number. *)
Fixpoint scan_digits (acc : Z) (s : string) : Z * string :=
  match s with
  | String c s' =>
      match digit_val c with Some d => scan_digits (10 * acc + d) s' | None => (acc, s) end
  | EmptyString => (acc, s)
  end.

Definition fraction_or_exponent (s : string) : bool :=
  match s with
  | String c _ => bool_decide (c = "."%char ∨ c = "e"%char ∨ c = "E"%char)
  | EmptyString => false
  end.

Definition scan_natural (s : string) : result (Z * string) :=
  match s with
  | String c s' =>
      match digit_val c with
      | Some d =>
          let '(n, rest) := if d =? 0 then (0, s') else scan_digits d s' in
          if fraction_or_exponent rest then Err json_error else Ok (n, rest)
      | None => Err json_error
      end
  | EmptyString => Err json_error
  end.

(** [d[k] = v] in an object under construction: a repeated key keeps its place. *)
Fixpoint assoc_set {A} (k : string) (v : A) (m : list (string * A)) : list (string * A) :=
  match m with
  | [] => [(k, v)]
  | (k', v') :: m => if decide (k' = k) then (k', v) :: m else (k', v') :: assoc_set k v m
  end.

(** [result[k] = v] *)
Definition jset (k : string) (v o : json) : result json :=
  match o with
  | JObj m => Ok (JObj (assoc_set k v m))
  | _ => Err TypeError
  end.

Fixpoint scan_value (fuel : nat) (s : string) {struct fuel} : result (json * string) :=
  match fuel with
  | O => Err OutOfFuel
  | S fuel =>
      if startswith "null" s then Ok (JNull, str_drop 4 s)
      else if startswith "true" s then Ok (JBool true, str_drop 4 s)
      else if startswith "false" s then Ok (JBool false, str_drop 5 s)
      else match s with
      | EmptyString => Err json_error
      | String c s' =>
          if decide (c = dquote) then '(t, rest) ← scan_string EmptyString s'; Ok (JStr t, rest)
          else if decide (c = "-"%char) then '(n, rest) ← scan_natural s'; Ok (JInt (- n), rest)
          else if decide (c = "["%char) then
            match skip_space s' with
            | String "]" rest => Ok (JArr [], rest)
            | s'' => '(l, rest) ← scan_items fuel s''; Ok (JArr l, rest)
            end
          else if decide (c = "{"%char) then
            match skip_space s' with
            | String "}" rest => Ok (JObj [], rest)
            | s'' => '(m, rest) ← scan_members fuel [] s''; Ok (JObj m, rest)
            end
          else '(n, rest) ← scan_natural s; Ok (JInt n, rest)
      end
  end
with scan_items (fuel : nat) (s : string) {struct fuel} : result (list json * string) :=
  match fuel with
  | O => Err OutOfFuel
  | S fuel =>
      '(v, rest) ← scan_value fuel s;
      match skip_space rest with
      | String "," rest => '(l, rest) ← scan_items fuel (skip_space rest); Ok (v :: l, rest)
      | String "]" rest => Ok ([v], rest)
      | _ => Err json_error
      end
  end
with scan_members (fuel : nat) (m : list (string * json)) (s : string) {struct fuel} :
    result (list (string * json) * string) :=
  match fuel with
  | O => Err OutOfFuel
  | S fuel =>
      match s with
      | String c s' =>
          if decide (c = dquote) then
            '(k, rest) ← scan_string EmptyString s';
            match skip_space rest with
            | String ":" rest =>
                '(v, rest) ← scan_value fuel (skip_space rest);
                match skip_space rest with
                | String "," rest => scan_members fuel (assoc_set k v m) (skip_space rest)
                | String "}" rest => Ok (assoc_set k v m, rest)
                | _ => Err json_error
                end
            | _ => Err json_error
            end
          else Err json_error
      | EmptyString => Err json_error
      end
  end.

(** [json.loads(text)] *)
Definition loads (text : string) : result json :=
  '(v, rest) ← scan_value (S (2 * String.length text)) (skip_space text);
  match skip_space rest with EmptyString => Ok v | _ => Err json_error end.

(** [json.load(open(p))] *)
Definition load_json (p : string) : IO json := text ← read p; lift (loads text).

(** ** The fuel is enough *)
Lemma skip_space_length s : (String.length (skip_space s) ≤ String.length s)%nat.
Proof. induction s as [|c s IH]; simpl; [done|]. case_match; simpl; lia. Qed.

Lemma scan_string_length_aux n acc s t rest :
  (String.length s ≤ n)%nat → scan_string acc s = Ok (t, rest) → (String.length rest < String.length s)%nat.
Proof.
  revert acc s. induction n as [|n IH]; intros acc s Hn H.
  { destruct s; [done|simpl in Hn; lia]. }
  destruct s as [|c s]; [done|]. simpl in Hn. cbn [scan_string] in H.
  repeat (case_match; simplify_eq/=; try lia);
    try (apply IH in H; [simpl; lia|simpl; lia]).
Qed.

Lemma scan_string_length acc s t rest :
  scan_string acc s = Ok (t, rest) → (String.length rest < String.length s)%nat.
Proof. by apply (scan_string_length_aux (String.length s)). Qed.

Lemma scan_digits_length acc s : (String.length (scan_digits acc s).2 ≤ String.length s)%nat.
Proof.
  revert acc. induction s as [|c s IH]; intros acc; simpl; [done|].
  case_match; [|done]. etrans; [apply IH|lia].
Qed.

Lemma scan_natural_length s n rest :
  scan_natural s = Ok (n, rest) → (String.length rest < String.length s)%nat.
Proof.
  destruct s as [|c s]; [done|]. cbn [scan_natural]. case_match; [|done].
  pose proof (scan_digits_length z s) as Hl.
  destruct (z =? 0); [|destruct (scan_digits z s)]; case_match; intros; simplify_eq/=; lia.
Qed.

Lemma startswith_drop p s :
  startswith p s = true → (String.length (str_drop (String.length p) s) + String.length p = String.length s)%nat.
Proof.
  unfold startswith. revert s. induction p as [|c p IH]; intros [|d s]; simpl; try done; try lia.
  case_match; [|done]. intros Hl%IH. lia.
Qed.

(** A call that returned consumed a character, and fuel beyond twice the text is never used up. *)
Definition consumes {A} (m : result (A * string)) (s : string) : Prop :=
  match m with
  | Ok (_, rest) => (String.length rest < String.length s)%nat
  | Err e => e ≠ OutOfFuel
  end.

Lemma scan_string_consumes acc s : consumes (scan_string acc s) s.
Proof.
  unfold consumes. destruct (scan_string acc s) as [[t rest]|e] eqn:E.
  - by eapply scan_string_length.
  - clear -E. intros ->. remember (String.length s) as n eqn:Hn.
    assert (String.length s ≤ n)%nat as Hle by lia. clear Hn.
    revert acc s Hle E. induction n as [|n IH]; intros acc s Hle E.
    { destruct s; [done|simpl in Hle; lia]. }
    destruct s as [|c s]; [done|]. simpl in Hle. cbn [scan_string] in E.
    repeat (case_match; simplify_eq/=; try lia);
      (eapply IH; [|exact E]; simpl; lia).
Qed.

Lemma scan_natural_consumes s : consumes (scan_natural s) s.
Proof.
  unfold consumes. destruct (scan_natural s) as [[t rest]|e] eqn:E.
  - by eapply scan_natural_length.
  - destruct s as [|c s]; simpl in E; repeat case_match; by simplify_eq.
Qed.

Lemma consumes_bind {A B} (m : result (A * string)) (f : A * string → result (B * string)) s s' :
  (String.length s ≤ String.length s')%nat →
  consumes m s → (∀ a rest, m = Ok (a, rest) → (String.length rest < String.length s)%nat → consumes (f (a, rest)) s') →
  consumes (m ≫= f) s'.
Proof. intros Hs Hm Hf. destruct m as [[a rest]|e]; simpl in *; [by apply Hf|done]. Qed.

Lemma scan_fuel fuel :
  (∀ s, (2 * String.length s < fuel)%nat → consumes (scan_value fuel s) s) ∧
  (∀ s, (2 * String.length s + 1 < fuel)%nat → consumes (scan_items fuel s) s) ∧
  (∀ m s, (2 * String.length s < fuel)%nat → consumes (scan_members fuel m s) s).
Proof.
  induction fuel as [|fuel (IHv & IHi & IHm)]; [split_and!; intros; lia|].
  split_and!.
  - intros s Hs. cbn [scan_value].
    destruct (startswith "null" s) eqn:E1.
    { apply startswith_drop in E1. change (String.length "null") with 4%nat in *.
      unfold consumes. change (String.length (str_drop 4 s) < String.length s)%nat. lia. }
    destruct (startswith "true" s) eqn:E2.
    { apply startswith_drop in E2. change (String.length "true") with 4%nat in *.
      unfold consumes. change (String.length (str_drop 4 s) < String.length s)%nat. lia. }
    destruct (startswith "false" s) eqn:E3.
    { apply startswith_drop in E3. change (String.length "false") with 5%nat in *.
      unfold consumes. change (String.length (str_drop 5 s) < String.length s)%nat. lia. }
    destruct s as [|c s]; [done|]. simpl in Hs. pose proof (skip_space_length s) as Hsk.
    repeat case_decide.
    + eapply (consumes_bind _ _ s); [simpl; lia|apply scan_string_consumes|]. simpl; intros; lia.
    + eapply (consumes_bind _ _ s); [simpl; lia|apply scan_natural_consumes|]. simpl; intros; lia.
    + assert (Hi : consumes ('(l, rest) ← scan_items fuel (skip_space s); Ok (JArr l, rest)) (String c s)).
      { eapply (consumes_bind _ _ (skip_space s)); [simpl; lia|apply IHi; lia|]. simpl; intros; lia. }
      destruct (skip_space s) as [|d rest] eqn:Es; [exact Hi|].
      simpl in Hsk. repeat (case_match; try exact Hi). unfold consumes. simpl. lia.
    + assert (Hi : consumes ('(l, rest) ← scan_members fuel [] (skip_space s); Ok (JObj l, rest)) (String c s)).
      { eapply (consumes_bind _ _ (skip_space s)); [simpl; lia|apply IHm; lia|]. simpl; intros; lia. }
      destruct (skip_space s) as [|d rest] eqn:Es; [exact Hi|].
      simpl in Hsk. repeat (case_match; try exact Hi). unfold consumes. simpl. lia.
    + eapply (consumes_bind _ _ (String c s)); [done|apply scan_natural_consumes|]. simpl; intros; lia.
  - intros s Hs. cbn [scan_items].
    eapply (consumes_bind _ _ s); [done|apply IHv; lia|]. intros v rest _ Hr.
    pose proof (skip_space_length rest) as Hk.
    destruct (skip_space rest) as [|d rest'] eqn:Es; [done|]. simpl in Hk.
    repeat (case_match; try done); try (unfold consumes; simpl; lia).
    pose proof (skip_space_length rest').
    eapply (consumes_bind _ _ (skip_space rest')); [lia|apply IHi; lia|]. simpl; intros; lia.
  - intros m s Hs. cbn [scan_members]. destruct s as [|c s]; [done|]. simpl in Hs.
    case_decide; [|done].
    eapply (consumes_bind _ _ s); [simpl; lia|apply scan_string_consumes|]. intros k rest _ Hr.
    pose proof (skip_space_length rest) as Hk.
    destruct (skip_space rest) as [|d rest'] eqn:Es; [done|]. simpl in Hk.
    repeat (case_match; try done).
    pose proof (skip_space_length rest').
    eapply (consumes_bind _ _ (skip_space rest')); [simpl; lia|apply IHv; lia|].
    intros v rest2 _ Hr2. pose proof (skip_space_length rest2) as Hk2.
    destruct (skip_space rest2) as [|d2 rest3] eqn:Es2; [done|]. simpl in Hk2.
    repeat (case_match; try done); try (unfold consumes; simpl; lia).
    pose proof (skip_space_length rest3).
    match goal with |- consumes (scan_members _ ?m' ?t) _ =>
      pose proof (IHm m' t) as Hm; destruct (scan_members fuel m' t) as [[? ?]|] end;
      simpl in *; [|apply Hm; lia].
    assert (String.length s0 < String.length (skip_space rest3))%nat by (apply Hm; lia). lia.
Qed.

(** The decoder always returns: a value, or one of its own errors. *)
Lemma loads_fuel text : loads text ≠ Err OutOfFuel.
Proof.
  unfold loads. destruct (scan_fuel (S (2 * String.length text))) as (Hv & _).
  pose proof (skip_space_length text).
  specialize (Hv (skip_space text)). 
  destruct (scan_value _ (skip_space text)) as [[v rest]|e]; simpl in *.
  - by destruct (skip_space rest).
  - intros [= ->]. apply Hv; [lia|done].
Qed.

Example loads_report :
  loads (dumps (JObj [("b", JArr [JInt (-12); JNull; JBool true]); ("a", JStr "x y")])) =
  Ok (JObj [("a", JStr "x y"); ("b", JArr [JInt (-12); JNull; JBool true])]).
Proof. by vm_compute. Qed.

(** ** Dicts *)
Section assoc_set.
Context {A : Type}.
Implicit Types (k : string) (v : A) (m : list (string * A)).

Lemma assoc_assoc_set k v m k' : assoc k' (assoc_set k v m) = if decide (k' = k) then Some v else assoc k' m.
Proof.
  induction m as [|[k1 v1] m IH]; cbn [assoc_set assoc]; [by case_decide as H; case_decide as H'; subst|].
  repeat (case_decide; subst; cbn [assoc]); try congruence; by rewrite ?IH.
Qed.

Lemma assoc_set_keys k v m : list_to_set (assoc_set k v m).*1 = ({[k]} ∪ list_to_set m.*1 : gset string).
Proof.
  induction m as [|[k1 v1] m IH]; cbn [assoc_set]; [done|]. case_decide as Hk.
  - subst. rewrite !fmap_cons, !list_to_set_cons. cbn [fst]. set_solver.
  - rewrite !fmap_cons, !list_to_set_cons, IH. set_solver.
Qed.

Lemma elem_of_assoc_set k v m x : x ∈ assoc_set k v m → x = (k, v) ∨ x ∈ m.
Proof.
  induction m as [|[k1 v1] m IH]; cbn [assoc_set]; [set_solver|]. case_decide as Hk; [set_solver|].
  intros [->|H]%elem_of_cons; [right; by left|]. apply IH in H as [?|?]; [by left|right; by right].
Qed.

Lemma assoc_set_elem k v m : (k, v) ∈ assoc_set k v m.
Proof. induction m as [|[k1 v1] m IH]; cbn [assoc_set]; [by left|]. case_decide as Hk; [subst; by left|by right]. Qed.

Lemma assoc_set_keeps k v m x : x ∈ m → x.1 ≠ k → x ∈ assoc_set k v m.
Proof.
  induction m as [|[k1 v1] m IH]; [by intros ?%not_elem_of_nil|]. intros [->|Hx]%elem_of_cons Hk; cbn [assoc_set].
  - rewrite decide_False; [by left|]. by intros ->.
  - case_decide; right; [done|by apply IH].
Qed.
Lemma assoc_set_NoDup k v m : NoDup m.*1 → NoDup (assoc_set k v m).*1.
Proof.
  induction m as [|[k1 v1] m IH]; cbn [assoc_set]; [by intros _; apply NoDup_singleton|]. rewrite fmap_cons. intros [Hk1 Hm]%NoDup_cons.
  case_decide as Hk; [by constructor|]. constructor; [|by apply IH]. cbn [fst] in *.
  rewrite <-(elem_of_list_to_set (C := gset string)), assoc_set_keys, elem_of_union, elem_of_singleton, elem_of_list_to_set. naive_solver.
Qed.
End assoc_set.

Lemma jset_get k v o o' k' : jset k v o = Ok o' → jget k' o' = if decide (k' = k) then Ok v else jget k' o.
Proof. destruct o as [| | | | |m]; try done. intros [= <-]. cbn [jget]. rewrite assoc_assoc_set. by case_decide. Qed.
