(* ===== verification/JsonText.v ===== *)
(** * JSON values read back

    The scripts hand JSON files to each other: one prints a report with [json.dump(...,
    indent=2, sort_keys=True)], the next reads it with [json.loads].  [loads_dumps] says that
    reading what was printed gives the value back with the members of its objects sorted, and
    [jget_canon] that a lookup does not see the difference.

    [json_ok] is what the round trip needs: ASCII text and distinct keys.  Fuel is handled by
    [reads]: some fuel, and any more, is enough; [scan_more] carries the result over to the
    fuel that [loads] uses. *)
From S2P Require Import Prelude PyStr PyData Files Json Sha256.

Definition is_ascii (s : string) : bool := all_chars (λ c, code c <? 128) s.

Fixpoint json_ok (v : json) : bool :=
  match v with
  | JStr s => is_ascii s
  | JArr l => forallb json_ok l
  | JObj m => bool_decide (NoDup (fst <$> m)) && forallb (λ kv, is_ascii kv.1 && json_ok kv.2) m
  | _ => true
  end.

(** The value with the members of its objects in order. *)
Fixpoint canon (v : json) : json :=
  match v with
  | JArr l => JArr (map canon l)
  | JObj m => JObj (sort_by (λ a b, str_leb a.1 b.1) (map (λ kv, (kv.1, canon kv.2)) m))
  | _ => v
  end.

Lemma json_ind' (P : json → Prop) :
  P JNull → (∀ b, P (JBool b)) → (∀ n, P (JInt n)) → (∀ s, P (JStr s)) →
  (∀ l, Forall P l → P (JArr l)) → (∀ m, Forall (λ kv, P kv.2) m → P (JObj m)) → ∀ v, P v.
Proof.
  intros H1 H2 H3 H4 H5 H6. fix IH 1. intros [|b|n|s|l|m]; [done|auto..| |].
  - apply H5. induction l; constructor; [apply IH|done].
  - apply H6. induction m as [|[k v] m]; constructor; [apply IH|done].
Qed.

(** ** Strings *)
Definition escape_char (c : ascii) : string :=
  if decide (c = dquote) then String "\" (String dquote EmptyString)
  else if decide (c = "\"%char) then "\\"
  else if decide (c = "010"%char) then "\n"
  else if decide (c = "013"%char) then "\r"
  else if decide (c = "009"%char) then "\t"
  else if decide (c = "008"%char) then "\b"
  else if decide (c = "012"%char) then "\f"
  else if (code c <? 32) || (126 <? code c) then "\u00" +:+ hex [code c]
  else String c EmptyString.

Lemma scan_escape_char c acc s :
  code c <? 128 = true → scan_string acc (escape_char c +:+ s) = scan_string (acc +:+ String c EmptyString) s.
Proof.
  destruct c as [[] [] [] [] [] [] [] []]; intros H; vm_compute in H; try discriminate H; clear H; reflexivity.
Qed.

Lemma scan_escaped s acc rest :
  is_ascii s = true → scan_string acc (escape s +:+ String dquote rest) = Ok (acc +:+ s, rest).
Proof.
  unfold is_ascii. revert acc. induction s as [|c s IH]; intros acc Hs.
  - simpl. by rewrite str_app_nil_r.
  - simpl in Hs. apply andb_true_iff in Hs as [Hc Hs]. change (escape (String c s)) with (escape_char c +:+ escape s).
    rewrite <-str_app_assoc, scan_escape_char, IH, <-str_app_assoc by done. done.
Qed.

(** ** Numbers *)

(** What may follow a value in printed text. *)
Definition stop (s : string) : Prop :=
  match s with EmptyString => True | String c _ => c = "010"%char ∨ c = ","%char end.

Lemma digits_read fuel n :
  0 ≤ n < 2 ^ Z.of_nat fuel → (0 < fuel)%nat →
  ∃ d t, 0 ≤ d < 10 ∧ (d = 0 → n = 0 ∧ t = EmptyString) ∧
    (∀ acc, nat_digits fuel n acc = String (digit_char d) (t +:+ acc)) ∧
    (∀ s, scan_digits d (t +:+ s) = scan_digits n s).
Proof.
  revert n. induction fuel as [|fuel IH]; intros n Hn Hf; [lia|].
  assert (Hd : 0 ≤ n mod 10 < 10) by (apply Z.mod_pos_bound; lia).
  cbn [nat_digits]. destruct (Z.ltb_spec n 10) as [Hlt|Hlt].
  - exists n, EmptyString. rewrite Z.mod_small by lia. split_and!; [lia..|done| |done]. done.
  - assert (Hq : 0 ≤ n / 10 < 2 ^ Z.of_nat fuel).
    { rewrite Nat2Z.inj_succ, Z.pow_succ_r in Hn by lia. split; [apply Z.div_pos; lia|].
      apply Z.div_lt_upper_bound; lia. }
    assert (1 <= n / 10) by (apply Z.div_le_lower_bound; lia).
    destruct (IH (n / 10) Hq) as (d & t & Hd' & H0 & Hn' & Hs).
    { destruct fuel; [|lia]. change (2 ^ Z.of_nat 0) with 1 in Hq. lia. }
    exists d, (t +:+ String (digit_char (n mod 10)) EmptyString). split_and!; [lia..| | |].
    + intros ->. destruct H0; [done|]. lia.
    + intros acc. by rewrite Hn', <-str_app_assoc.
    + intros s. rewrite <-str_app_assoc, Hs, str_app_cons. simpl. rewrite digit_val_char by done. f_equal.
      pose proof (Z.div_mod n 10). lia.
Qed.

Lemma stop_digits n s : stop s → scan_digits n s = (n, s).
Proof. destruct s as [|c s]; [done|]. intros [->| ->]; done. Qed.

Lemma scan_dec n s : 0 ≤ n → stop s → ∃ d t, 0 ≤ d < 10 ∧ dec n = String (digit_char d) t ∧ scan_natural (dec n +:+ s) = Ok (n, s).
Proof.
  intros Hn Hs. destruct (digits_read (S (Z.to_nat (Z.log2 n))) n) as (d & t & Hd & H0 & Hp & Hr);
    [split; [done|by apply dec_fuel]|lia|].
  exists d, t. unfold dec. rewrite Hp, str_app_nil_r. split_and!; [lia..|done|]. rewrite str_app_cons. cbn [scan_natural].
  rewrite digit_val_char by done.
  assert (Hf : fraction_or_exponent s = false) by (destruct s as [|c s]; [done|by destruct Hs as [->| ->]]).
  destruct (Z.eqb_spec d 0) as [->|Hne].
  - destruct H0 as [-> ->]; [done|]. by destruct s as [|c s]; [|destruct Hs as [->| ->]].
  - rewrite Hr, stop_digits by done. by rewrite Hf.
Qed.

(** ** Fuel *)

(** More fuel does not change a result. *)
Lemma scan_more fuel :
  (∀ fuel' s, (fuel ≤ fuel')%nat → scan_value fuel s ≠ Err OutOfFuel → scan_value fuel' s = scan_value fuel s) ∧
  (∀ fuel' s, (fuel ≤ fuel')%nat → scan_items fuel s ≠ Err OutOfFuel → scan_items fuel' s = scan_items fuel s) ∧
  (∀ fuel' m s, (fuel ≤ fuel')%nat → scan_members fuel m s ≠ Err OutOfFuel → scan_members fuel' m s = scan_members fuel m s).
Proof.
  assert (Hbind : ∀ A B (m m' : result A) (f f' : A → result B), (m ≠ Err OutOfFuel → m' = m) →
    (∀ a, m = Ok a → f a ≠ Err OutOfFuel → f' a = f a) → (m ≫= f) ≠ Err OutOfFuel → (m' ≫= f') = (m ≫= f)).
  { intros A B m m' f f' Hm Hf H. destruct m as [a|e]; simpl in *; [|rewrite Hm by congruence; done].
    rewrite Hm by done. simpl. by apply Hf. }
  induction fuel as [|fuel (IHv & IHi & IHm)]; [by split_and!|].
  split_and!; (intros [|fuel']; [lia|]).
  - intros s Hf H. cbn [scan_value] in *. assert (fuel ≤ fuel')%nat as Hle by lia.
    repeat (case_match; try done); (apply Hbind; [intros; eauto|done|done]).
  - intros s Hf H. cbn [scan_items] in *. assert (fuel ≤ fuel')%nat as Hle by lia.
    apply Hbind; [intros; eauto| |done]. intros [v rest] _ H'. cbn beta iota in *.
    repeat (case_match; try done); (apply Hbind; [intros; eauto|done|done]).
  - intros m s Hf H. cbn [scan_members] in *. assert (fuel ≤ fuel')%nat as Hle by lia.
    repeat (case_match; try done). apply Hbind; [done| |done]. intros [k rest] _ H'. cbn beta iota in *.
    repeat (case_match; try done). apply Hbind; [intros; eauto| |done]. intros [v rest2] _ H''. cbn beta iota in *.
    repeat (case_match; try done); eauto.
Qed.

(** Enough fuel reads [v] at the start of [s], and leaves [rest]. *)
Definition reads (v : json) (s rest : string) : Prop :=
  ∃ f0, ∀ f, (f0 ≤ f)%nat → scan_value f s = Ok (v, rest).

Lemma reads_loads v s rest : reads v s rest → skip_space s = s → skip_space rest = EmptyString → loads s = Ok v.
Proof.
  intros [f0 Hr] Hs Hrest. pose proof (loads_fuel s) as Hf. unfold loads in *. rewrite Hs in *.
  set (f := S (2 * String.length s)) in *. destruct (scan_more f) as (Hm & _).
  assert (Hne : scan_value f s ≠ Err OutOfFuel) by (intros E; by rewrite E in Hf).
  rewrite <-(Hm (f0 `max` f)%nat) by (done || lia). rewrite Hr by lia. simpl. by rewrite Hrest.
Qed.

(** ** Values *)

(** A text that is a value: it starts with neither a space nor the end of a list. *)
Record readable (v : json) (t : string) : Prop := {
  rd_opens : ∃ c t', t = String c t' ∧ json_space c = false ∧ c ≠ "]"%char;
  rd_reads : ∀ rest, stop rest → reads v (t +:+ rest) rest;
}.

Definition gap (lvl : nat) : string := newline +:+ indent lvl.

Lemma skip_gap lvl s : skip_space (gap lvl +:+ s) = skip_space s.
Proof. unfold gap. induction lvl as [|lvl IH]; [done|]. exact IH. Qed.

Lemma stop_gap lvl s : stop (gap lvl +:+ s).
Proof. by left. Qed.

Lemma skip_readable v t rest : readable v t → skip_space (t +:+ rest) = t +:+ rest.
Proof. intros [(c & t' & -> & Hc & _) _]. rewrite str_app_cons. simpl. by rewrite Hc. Qed.

Definition separator (lvl : nat) : string := "," +:+ gap lvl.

Lemma block_eq lvl o c items :
  block lvl o c items = o +:+ gap (S lvl) +:+ join (separator (S lvl)) items +:+ gap lvl +:+ c.
Proof. unfold block, gap, separator. by rewrite !str_app_assoc. Qed.

Lemma join_cons' sep s t l : join sep (s :: t :: l) = s +:+ sep +:+ join sep (t :: l).
Proof. done. Qed.

Section values.
Context {A : Type} (val : A → json) (txt : A → string).

Lemma items_read lvl lvl' (x : A) l rest :
  Forall (λ x, readable (val x) (txt x)) (x :: l) →
  ∃ f0, ∀ f, (f0 ≤ f)%nat →
    scan_items f (join (separator lvl) (map txt (x :: l)) +:+ gap lvl' +:+ String "]" rest) = Ok (map val (x :: l), rest).
Proof.
  revert x. induction l as [|y l IH]; intros x Hl; apply Forall_cons in Hl as [Hx Hl].
  - destruct (rd_reads _ _ Hx (gap lvl' +:+ String "]" rest) (stop_gap _ _)) as [f0 H0].
    exists (S f0). intros [|f] Hf; [lia|]. cbn [scan_items map join]. rewrite H0 by lia. cbn [mbind result_bind].
    by rewrite skip_gap.
  - destruct (IH y Hl) as [f1 H1].
    set (tail := join (separator lvl) (map txt (y :: l)) +:+ gap lvl' +:+ String "]" rest) in *.
    assert (Ht : join (separator lvl) (map txt (x :: y :: l)) +:+ gap lvl' +:+ String "]" rest =
      txt x +:+ String "," (gap lvl +:+ tail)).
    { unfold tail. cbn [map]. rewrite (join_cons' (separator lvl) (txt x) (txt y)). unfold separator.
      by rewrite <-!str_app_assoc. }
    rewrite Ht. destruct (rd_reads _ _ Hx (String "," (gap lvl +:+ tail)) (or_intror eq_refl)) as [f0 H0].
    exists (S (f0 `max` f1)). intros [|f] Hf; [lia|]. cbn [scan_items]. rewrite H0 by lia.
    apply Forall_cons in Hl as [Hy _].
    assert (Hs : skip_space (gap lvl +:+ tail) = tail).
    { rewrite skip_gap. unfold tail. destruct l; cbn [map join]; rewrite <-?str_app_assoc; by apply (skip_readable _ _ _ Hy). }
    transitivity ('(vs, rest) ← scan_items f (skip_space (gap lvl +:+ tail)); Ok (val x :: vs, rest)); [reflexivity|].
    rewrite Hs, H1 by lia. done.
Qed.

Lemma assoc_set_new (k : string) (v : json) m : k ∉ fst <$> m → assoc_set k v m = m ++ [(k, v)].
Proof.
  induction m as [|[k' v'] m IH]; intros Hk; [done|]. rewrite fmap_cons in Hk.
  apply not_elem_of_cons in Hk as [Hne Hk]. cbn [assoc_set]. rewrite decide_False by done. by rewrite IH.
Qed.

(** The text of a member of an object. *)
Definition member (kx : string * A) : string := quoted kx.1 +:+ ": " +:+ txt kx.2.

Lemma members_read lvl lvl' kx l m rest :
  Forall (λ kx, is_ascii kx.1 = true ∧ readable (val kx.2) (txt kx.2)) (kx :: l) →
  NoDup ((fst <$> m) ++ (fst <$> (kx :: l))) →
  ∃ f0, ∀ f, (f0 ≤ f)%nat →
    scan_members f m (join (separator lvl) (map member (kx :: l)) +:+ gap lvl' +:+ String "}" rest) =
    Ok (m ++ map (λ kx, (kx.1, val kx.2)) (kx :: l), rest).
Proof.
  revert kx m. induction l as [|ky l IH]; intros [k x] m Hl Hd; apply Forall_cons in Hl as [[Hk Hx] Hl].
  - assert (Ht : join (separator lvl) (map member [(k, x)]) +:+ gap lvl' +:+ String "}" rest =
      String dquote (escape k +:+ String dquote (": " +:+ txt x +:+ gap lvl' +:+ String "}" rest))).
    { unfold member, quoted. cbn [map join fst snd]. rewrite <-!str_app_assoc. done. }
    rewrite Ht. destruct (rd_reads _ _ Hx (gap lvl' +:+ String "}" rest) (stop_gap _ _)) as [f0 H0].
    exists (S f0). intros [|f] Hf; [lia|]. cbn [scan_members]. rewrite decide_True by done.
    rewrite scan_escaped by done. cbn [mbind result_bind].
    transitivity ('(v, rest) ← scan_value f (skip_space (txt x +:+ gap lvl' +:+ String "}" rest));
      match skip_space rest with
      | String "," rest => scan_members f (assoc_set k v m) (skip_space rest)
      | String "}" rest => Ok (assoc_set k v m, rest) | _ => Err json_error end); [reflexivity|].
    rewrite (skip_readable _ _ _ Hx), H0 by lia. cbn [mbind result_bind]. rewrite skip_gap.
    rewrite assoc_set_new; [done|]. simpl in Hd. apply NoDup_app in Hd as (_ & Hd & _).
    intros Hin. apply (Hd k Hin). by left.
  - set (tail := join (separator lvl) (map member (ky :: l)) +:+ gap lvl' +:+ String "}" rest).
    assert (Hnew : k ∉ fst <$> m).
    { apply NoDup_app in Hd as (_ & Hd & _). intros Hin. apply (Hd k Hin). by left. }
    destruct (IH ky (m ++ [(k, val x)]) Hl) as [f1 H1].
    { rewrite fmap_app, <-app_assoc. exact Hd. }
    assert (Ht : join (separator lvl) (map member ((k, x) :: ky :: l)) +:+ gap lvl' +:+ String "}" rest =
      String dquote (escape k +:+ String dquote (": " +:+ txt x +:+ String "," (gap lvl +:+ tail)))).
    { unfold tail. cbn [map]. rewrite (join_cons' (separator lvl) (member (k, x)) (member ky)).
      unfold member at 1, separator, quoted at 1. cbn [fst snd]. by rewrite <-!str_app_assoc. }
    rewrite Ht. destruct (rd_reads _ _ Hx (String "," (gap lvl +:+ tail)) (or_intror eq_refl)) as [f0 H0].
    assert (Hs : skip_space (gap lvl +:+ tail) = tail).
    { rewrite skip_gap. unfold tail. destruct l; cbn [map join]; unfold member, quoted; by rewrite <-?str_app_assoc. }
    exists (S (f0 `max` f1)). intros [|f] Hf; [lia|]. cbn [scan_members]. rewrite decide_True by done.
    rewrite scan_escaped by done. cbn [mbind result_bind].
    transitivity ('(v, rest) ← scan_value f (skip_space (txt x +:+ String "," (gap lvl +:+ tail)));
      match skip_space rest with
      | String "," rest => scan_members f (assoc_set k v m) (skip_space rest)
      | String "}" rest => Ok (assoc_set k v m, rest) | _ => Err json_error end); [reflexivity|].
    rewrite (skip_readable _ _ _ Hx), H0 by lia. cbn [mbind result_bind].
    transitivity (scan_members f (assoc_set k (val x) m) (skip_space (gap lvl +:+ tail))); [reflexivity|].
    rewrite Hs, assoc_set_new, H1 by (done || lia). by rewrite <-app_assoc.
Qed.
End values.

Lemma scan_array f c s pre :
  skip_space pre = String c s → c ≠ "]"%char →
  scan_value (S f) (String "[" pre) = ('(l, rest) ← scan_items f (String c s); Ok (JArr l, rest)).
Proof.
  intros Hs Hc. transitivity (match skip_space pre with
    | String "]" rest => Ok (JArr [], rest)
    | s'' => '(l, rest) ← scan_items f s''; Ok (JArr l, rest) end); [reflexivity|].
  rewrite Hs. destruct c as [[] [] [] [] [] [] [] []]; done.
Qed.

Lemma scan_object f s pre :
  skip_space pre = String dquote s →
  scan_value (S f) (String "{" pre) = ('(m, rest) ← scan_members f [] (String dquote s); Ok (JObj m, rest)).
Proof.
  intros Hs. transitivity (match skip_space pre with
    | String "}" rest => Ok (JObj [], rest)
    | s'' => '(m, rest) ← scan_members f [] s''; Ok (JObj m, rest) end); [reflexivity|].
  by rewrite Hs.
Qed.

Lemma readable_int n : readable (JInt n) (str_of_Z n).
Proof.
  unfold str_of_Z. destruct (Z.ltb_spec n 0) as [Hn|Hn].
  - split; [eexists _, _; split_and!; [reflexivity|done..]|]. intros rest Hr.
    destruct (scan_dec (- n) rest) as (d & t & _ & _ & Hs); [lia|done|]. exists 1%nat. intros [|f] Hf; [lia|].
    transitivity ('(n, rest) ← scan_natural (dec (- n) +:+ rest); Ok (JInt (- n), rest)); [reflexivity|].
    rewrite Hs. simpl. do 3 f_equal. lia.
  - split.
    + destruct (scan_dec n EmptyString) as (d & t & Hd & Ht & _); [lia|done|]. exists (digit_char d), t.
      split; [done|]. by apply (digit_ind (λ d, json_space (digit_char d) = false ∧ digit_char d ≠ "]"%char)).
    + intros rest Hr. destruct (scan_dec n rest) as (d & t & Hd & Ht & Hs); [lia|done|].
      exists 1%nat. intros [|f] Hf; [lia|].
      transitivity ('(n, rest) ← scan_natural (dec n +:+ rest); Ok (JInt n, rest)); [|by rewrite Hs].
      rewrite Ht. clear -Hd. revert Hd. by apply (digit_ind (λ d, scan_value (S f) (String (digit_char d) t +:+ rest) =
        ('(n, rest) ← scan_natural (String (digit_char d) t +:+ rest); Ok (JInt n, rest)))).
Qed.

Lemma readable_array {A} (val : A → json) (txt : A → string) lvl x l :
  Forall (λ x, readable (val x) (txt x)) (x :: l) →
  readable (JArr (map val (x :: l))) (block lvl "[" "]" (map txt (x :: l))).
Proof.
  intros Hl. rewrite block_eq. split; [by eexists _, _|]. intros rest _.
  destruct (items_read val txt (S lvl) lvl x l rest Hl) as [f0 H0].
  exists (S f0). intros [|f] Hf; [lia|]. specialize (H0 f ltac:(lia)).
  set (body := join (separator (S lvl)) (map txt (x :: l))) in *.
  assert (Hb : ∃ c s, body +:+ gap lvl +:+ String "]" rest = String c s ∧ json_space c = false ∧ c ≠ "]"%char).
  { apply Forall_cons in Hl as [Hx _]. destruct (rd_opens _ _ Hx) as (c & t & Ht & Hc).
    unfold body. cbn [map]. exists c. destruct l; cbn [map join]; rewrite Ht, ?str_app_cons; eauto. }
  destruct Hb as (c & t & Hb & Hsp & Hc).
  assert (Htext : ("[" +:+ gap (S lvl) +:+ body +:+ gap lvl +:+ "]") +:+ rest =
    String "[" (gap (S lvl) +:+ body +:+ gap lvl +:+ String "]" rest)) by (by rewrite <-!str_app_assoc).
  rewrite Htext, (scan_array f c t); [by rewrite <-Hb, H0| |done]. rewrite skip_gap, Hb. simpl. by rewrite Hsp.
Qed.

Lemma readable_object {A} (val : A → json) (txt : A → string) lvl kx l :
  Forall (λ kx, is_ascii kx.1 = true ∧ readable (val kx.2) (txt kx.2)) (kx :: l) → NoDup (fst <$> kx :: l) →
  readable (JObj (map (λ kx, (kx.1, val kx.2)) (kx :: l))) (block lvl "{" "}" (map (member txt) (kx :: l))).
Proof.
  intros Hl Hnd. rewrite block_eq.
  split; [by eexists _, _|]. intros rest _.
  destruct (members_read val txt (S lvl) lvl kx l [] rest Hl Hnd) as [f0 H0].
  exists (S f0). intros [|f] Hf; [lia|]. specialize (H0 f ltac:(lia)).
  set (body := join (separator (S lvl)) (map (member txt) (kx :: l))) in *.
  assert (Hb : ∃ s, body +:+ gap lvl +:+ String "}" rest = String dquote s).
  { unfold body. cbn [map]. destruct l; cbn [map join]; unfold member, quoted; rewrite !str_app_cons; eauto. }
  destruct Hb as (t & Hb).
  assert (Ht : ("{" +:+ gap (S lvl) +:+ body +:+ gap lvl +:+ "}") +:+ rest =
    String "{" (gap (S lvl) +:+ body +:+ gap lvl +:+ String "}" rest)) by (by rewrite <-!str_app_assoc).
  rewrite Ht, (scan_object f t); [by rewrite <-Hb, H0|]. by rewrite skip_gap, Hb.
Qed.

(** A printed value is read back. *)
Lemma dumps_readable v lvl : json_ok v = true → readable (canon v) (dumps_at lvl v).
Proof.
  revert lvl. induction v as [|b|n|s|l IH|m IH] using json_ind'; intros lvl Hv.
  - split; [by eexists _, _|]. intros rest _. exists 1%nat. intros [|f] Hf; [lia|by destruct rest].
  - destruct b; (split; [by eexists _, _|]; intros rest _; exists 1%nat; intros [|f] Hf; [lia|by destruct rest]).
  - apply readable_int.
  - split; [by eexists _, _|]. intros rest _. exists 1%nat. intros [|f] Hf; [lia|]. simpl in Hv.
    transitivity ('(t, rest) ← scan_string EmptyString (escape s +:+ String dquote rest); Ok (JStr t, rest));
      [|by rewrite scan_escaped].
    cbn [dumps_at]. unfold quoted. rewrite <-str_app_assoc. done.
  - destruct l as [|x l]; [split; [by eexists _, _|]; intros rest _; exists 1%nat; intros [|f] Hf; [lia|done]|].
    assert (Hl : Forall (λ x, readable (canon x) (dumps_at (S lvl) x)) (x :: l)).
    { apply Forall_forall. intros y Hy. rewrite Forall_forall in IH. apply (IH y Hy).
      cbn [json_ok] in Hv. rewrite forallb_forall in Hv. by apply Hv, list_elem_of_In. }
    cbn [dumps_at canon]. by apply (readable_array canon (dumps_at (S lvl))).
  - cbn [json_ok] in Hv. apply andb_true_iff in Hv as [Hd Hm]. apply bool_decide_eq_true in Hd.
    rewrite forallb_forall in Hm.
    destruct m as [|kv0 m0]; [split; [by eexists _, _|]; intros rest _; exists 1%nat; intros [|f] Hf; [lia|done]|].
    set (m := kv0 :: m0) in *. set (sorted := sort_by (λ a b, str_leb a.1 b.1) m).
    assert (Hp : sorted ≡ₚ m) by apply sort_by_Permutation.
    assert (Hcanon : canon (JObj m) = JObj (map (λ kv, (kv.1, canon kv.2)) sorted)).
    { cbn [canon]. f_equal. symmetry. apply (fmap_sort_by (λ kv : string * json, (kv.1, canon kv.2)) (λ a b, str_leb a.1 b.1)). }
    assert (Htext : dumps_at lvl (JObj m) =
      block lvl "{" "}" (map (member (dumps_at (S lvl))) sorted)).
    { change (dumps_at lvl (JObj m)) with (block lvl "{" "}" (map (λ kv, quoted kv.1 +:+ ": " +:+ kv.2)
        (sort_by (λ a b, str_leb a.1 b.1) (map (λ kv, (kv.1, dumps_at (S lvl) kv.2)) m)))). f_equal.
      rewrite <-(fmap_sort_by (λ kv : string * json, (kv.1, dumps_at (S lvl) kv.2)) (λ a b, str_leb a.1 b.1)).
      unfold sorted. by rewrite <-list_fmap_compose. }
    rewrite Hcanon, Htext.
    assert (Hl : Forall (λ kx, is_ascii kx.1 = true ∧ readable (canon kx.2) (dumps_at (S lvl) kx.2)) sorted).
    { rewrite Hp. apply Forall_forall. intros kv Hkv. rewrite Forall_forall in IH.
      specialize (Hm kv (proj1 (list_elem_of_In _ _) Hkv)). apply andb_true_iff in Hm as [Hk Hv]. split; [done|]. by apply IH. }
    assert (Hnd : NoDup (fst <$> sorted)) by (by rewrite Hp).
    clearbody sorted. destruct sorted as [|kx l]; [by apply Permutation_nil_l in Hp|].
    by apply (readable_object canon (dumps_at (S lvl))).
Qed.

(** [json.loads] of what [json.dump] printed, with the newline the scripts add. *)
Theorem loads_dumps v : json_ok v = true → loads (dumps v +:+ newline) = Ok (canon v).
Proof.
  intros Hv. pose proof (dumps_readable v 0 Hv) as Hr. apply (reads_loads _ _ newline); [|by apply (skip_readable _ _ _ Hr)|done].
  by apply (rd_reads _ _ Hr); left.
Qed.

Lemma assoc_elem {A} k (v : A) m : NoDup (fst <$> m) → (k, v) ∈ m → assoc k m = Some v.
Proof.
  induction m as [|[k' v'] m IH]; intros Hd Hin; [by apply not_elem_of_nil in Hin|]. rewrite fmap_cons in Hd.
  apply NoDup_cons in Hd as [Hn Hd]. simpl. apply elem_of_cons in Hin as [[= <- <-]|Hin]; [by rewrite decide_True|].
  rewrite decide_False; [by apply IH|]. intros ->. apply Hn. by apply (list_elem_of_fmap_2 fst) in Hin.
Qed.

Lemma assoc_Some {A} k (v : A) m : assoc k m = Some v → (k, v) ∈ m.
Proof.
  induction m as [|[k' v'] m IH]; [done|]. simpl. case_decide as Hk; [intros [= ->]; subst; by left|].
  intros H. right. by apply IH.
Qed.

(** A lookup does not see the order of the members. *)
Lemma jget_canon k v x : json_ok v = true → jget k v = Ok x → jget k (canon v) = Ok (canon x).
Proof.
  intros Hv (m & -> & Hx)%jget_Ok. cbn [json_ok] in Hv. apply andb_true_iff in Hv as [Hd _].
  apply bool_decide_eq_true in Hd. cbn [canon jget]. unfold jget.
  set (l := map _ m). assert (Hl : fst <$> l = fst <$> m) by (unfold l; rewrite <-(list_fmap_compose (λ kv, (kv.1, canon kv.2)) fst); done).
  rewrite (assoc_elem k (canon x)); [done| |].
  - by rewrite sort_by_Permutation, Hl.
  - rewrite sort_by_Permutation. apply assoc_Some in Hx. by apply (list_elem_of_fmap_2 (λ kv : string * json, (kv.1, canon kv.2))) in Hx.
Qed.

Lemma json_ok_jget k v x : json_ok v = true → jget k v = Ok x → json_ok x = true.
Proof.
  intros Hv (m & -> & Hx)%jget_Ok. cbn [json_ok] in Hv. apply andb_true_iff in Hv as [_ Hv]. rewrite forallb_forall in Hv.
  apply assoc_Some, list_elem_of_In, Hv, andb_true_iff in Hx. by destruct Hx.
Qed.

Lemma jget_jget_opt k v x : jget k v = Ok x → jget_opt k v = Ok x.
Proof. intros (m & -> & Hx)%jget_Ok. simpl. by rewrite Hx. Qed.

(** ** What the scripts print is ASCII *)
Lemma is_ascii_app s t : is_ascii (s +:+ t) = is_ascii s && is_ascii t.
Proof. unfold is_ascii. induction s as [|c s IH]; [done|]. rewrite str_app_cons. simpl. by rewrite IH, andb_assoc. Qed.

Lemma is_ascii_digits s : all_chars is_digit s = true → is_ascii s = true.
Proof.
  apply all_chars_impl. intros c Hc. apply Z.ltb_lt. unfold is_digit, digit_val in Hc. apply bool_decide_eq_true in Hc.
  destruct ((48 <=? code c) && (code c <=? 57)) eqn:E; [|by destruct Hc]. apply andb_true_iff in E as [_ E]. lia.
Qed.

Lemma is_ascii_str_of_Z n : is_ascii (str_of_Z n) = true.
Proof.
  unfold str_of_Z. destruct (Z.ltb_spec n 0).
  - change (is_ascii ("-" +:+ dec (- n)) = true). rewrite is_ascii_app, (is_ascii_digits (dec (- n))); [done|]. apply dec_chars. lia.
  - by apply is_ascii_digits, dec_chars.
Qed.

Lemma is_ascii_display_one n : is_ascii (display_one n) = true.
Proof.
  unfold display_one. rewrite !is_ascii_app, is_ascii_str_of_Z, (is_ascii_digits (zpad 18 _)).
  - by destruct (n <? 0).
  - apply zpad_chars. apply Z.mod_pos_bound. done.
Qed.

Lemma is_ascii_hex b : Forall is_byte b → is_ascii (hex b) = true.
Proof.
  intros Hb%hex_lower_hex. unfold lower_hex in Hb. apply andb_true_iff in Hb as [_ Hb]. revert Hb.
  apply all_chars_impl. intros c Hc. apply Z.ltb_lt. unfold lower_hex_char in Hc.
  repeat match goal with
  | H : (_ || _) = true |- _ => apply orb_true_iff in H as [H|H]
  | H : (_ && _) = true |- _ => apply andb_true_iff in H as [? ?]
  end; lia.
Qed.

Lemma is_ascii_sha256 s : is_ascii (sha256 s) = true.
Proof.
  apply is_ascii_hex. unfold sha256_bytes. apply Forall_join, Forall_fmap, Forall_forall. intros x _. apply be_bytes_bytes.
Qed.

Lemma json_ok_obj m :
  bool_decide (NoDup (fst <$> m)) = true → Forall (λ kv : string * json, is_ascii kv.1 && json_ok kv.2 = true) m →
  json_ok (JObj m) = true.
Proof.
  intros Hd Hm. cbn [json_ok]. rewrite Hd. simpl. apply forallb_forall. intros kv Hkv%list_elem_of_In.
  rewrite Forall_forall in Hm. by apply Hm.
Qed.

Lemma json_ok_strings l : Forall (λ s, is_ascii s = true) l → json_ok (JArr (JStr <$> l)) = true.
Proof.
  intros Hl. cbn [json_ok]. apply forallb_forall. intros x Hx%list_elem_of_In.
  apply list_elem_of_fmap in Hx as (s & -> & Hs). rewrite Forall_forall in Hl. by apply Hl.
Qed.

(** An object whose keys are written out, and the values left to check. *)
Ltac json_object :=
  apply json_ok_obj; [vm_compute; reflexivity|];
  repeat (apply Forall_cons; split; [cbn [fst snd]; apply andb_true_iff; split; [vm_compute; reflexivity|]|]);
  [..|constructor].
