(* ===== verification/Rpc.v ===== *)
(** * JSON-RPC with retries

    The scripts that talk to an archive node share one loop: up to five attempts, a response
    with an error is an exception, and a transport error or such an exception is retried.

    [transport] is the endpoint: the decoded response to a method and its parameters at each
    attempt, or the exception the request raises.  It is code outside the repository, so it is a
    parameter of every definition that uses it, and nothing is assumed of it. *)
From S2P Require Import Prelude PyStr PyData.

Section rpc.
Context (transport : nat → string → list json → result json).

(** [except (OSError, RuntimeError, urllib.error.HTTPError)] *)
Definition retryable (e : exn) : bool :=
  match e with
  | OSError _ | FileExistsError _ | FileNotFoundError _ | RuntimeError _ => true
  | _ => false
  end.

Definition rpc_once (attempt : nat) (method : string) (params : list json) : result json :=
  result ← transport attempt method params;
  error ← jget_opt "error" result;
  raise_when (truthy error) (RuntimeError "rpc error");;
  jget "result" result.

(** [for attempt in range(5)], from [attempt] with [remaining] attempts to come after it. *)
Fixpoint rpc_from (remaining attempt : nat) (method : string) (params : list json) : result json :=
  match rpc_once attempt method params with
  | Ok v => Ok v
  | Err e =>
      if retryable e then
        match remaining with
        | O => Err e
        | S remaining => rpc_from remaining (S attempt) method params
        end
      else Err e
  end.

Definition rpc (method : string) (params : list json) : result json := rpc_from 4 0 method params.
End rpc.

(** Which attempt's outcome a call has. *)
Lemma rpc_attempt transport method params :
  ∃ n, (n ≤ 4)%nat ∧ rpc transport method params = rpc_once transport n method params ∧
    (∀ i, (i < n)%nat → ∃ e, rpc_once transport i method params = Err e ∧ retryable e = true) ∧
    (n = 4%nat ∨ ∀ e, rpc_once transport n method params = Err e → retryable e = false).
Proof.
  assert (H : ∀ remaining attempt, ∃ n, (attempt ≤ n ≤ attempt + remaining)%nat ∧
    rpc_from transport remaining attempt method params = rpc_once transport n method params ∧
    (∀ i, (attempt ≤ i < n)%nat → ∃ e, rpc_once transport i method params = Err e ∧ retryable e = true) ∧
    (n = (attempt + remaining)%nat ∨ ∀ e, rpc_once transport n method params = Err e → retryable e = false)).
  { induction remaining as [|remaining IH]; intros attempt; cbn [rpc_from];
      destruct (rpc_once transport attempt method params) as [v|e] eqn:E.
    - exists attempt. split_and!; [lia|lia|by rewrite E|lia|left; lia].
    - exists attempt. destruct (retryable e); split_and!; try lia; try (by rewrite E); left; lia.
    - exists attempt. split_and!; [lia|lia|by rewrite E|lia|right; by rewrite E].
    - destruct (retryable e) eqn:Er.
      + destruct (IH (S attempt)) as (n & Hn & Heq & Hi & Hlast). exists n.
        split_and!; [lia|lia|done| |].
        * intros i Hle. destruct (decide (i = attempt)) as [->|]; [by exists e|]. apply Hi. lia.
        * destruct Hlast as [->|Hl]; [left; lia|by right].
      + exists attempt. split_and!; [lia|lia|by rewrite E|lia|right; rewrite E; by intros e' [= <-]]. }
  destruct (H 4%nat 0%nat) as (n & Hn & Heq & Hi & Hlast). exists n. split_and!; [lia|done| |done].
  intros i Hlt. apply Hi. lia.
Qed.

(** ** Termination of a call *)
Lemma returns_rpc transport method params :
  (∀ n m p, returns (transport n m p)) → returns (rpc transport method params).
Proof.
  intros Ht. destruct (rpc_attempt transport method params) as (n & _ & -> & _).
  unfold rpc_once. repeat (apply returns_bind; [auto with py|intros ? _]). auto with py.
Qed.

(** ** Theorem *)

(** An RPC call makes at most five attempts.  It returns
    what the first attempt that does not fail with a retryable error gives, and the fifth
    attempt's own outcome if all before it did; any other exception ends it at once. *)
Theorem rpc_retries transport method params :
  ∃ n, (n ≤ 4)%nat ∧ rpc transport method params = rpc_once transport n method params ∧
    (∀ i, (i < n)%nat → ∃ e, rpc_once transport i method params = Err e ∧ retryable e = true) ∧
    (n = 4%nat ∨ ∀ e, rpc_once transport n method params = Err e → retryable e = false).
Proof. apply rpc_attempt. Qed.
