(* ===== verification/Batch.v ===== *)
(** * Batches of JSON-RPC requests

    The scripts that send whole payloads to an archive node: the payload of one request and of a
    batch, the retry loop around the transport, and the table of the answers by their [id].

    [transport attempt url payload] is the decoded response to a payload at each attempt, or the
    exception that the request or the decoding raises.  It is code outside the repository. *)
From S2P Require Import Prelude PyStr PyData.

(** ** Payloads *)
Definition request (id : Z) (method : string) (params : list json) : json :=
  JObj [("jsonrpc", JStr "2.0"); ("id", JInt id); ("method", JStr method); ("params", JArr params)].

(** A batch: the [id] of a call is its position, counted from [start]. *)
Definition requests (start : Z) (calls : list (string * list json)) : json :=
  JArr (imap (λ i c, request (start + Z.of_nat i) c.1 c.2) calls).

(** ** Retries *)

(** [for attempt in range(...): try: return once(attempt)], from [attempt] with [remaining] attempts
    to come after it; an exception that is not caught, and the last one, ends the loop. *)
Fixpoint retry_from {A} (catches : exn → bool) (once : nat → result A) (remaining attempt : nat) : result A :=
  match once attempt with
  | Ok v => Ok v
  | Err e =>
      match remaining with
      | O => Err e
      | S remaining => if catches e then retry_from catches once remaining (S attempt) else Err e
      end
  end.

(** [range(n)] for [n >= 1] *)
Definition retry {A} (catches : exn → bool) (n : nat) (once : nat → result A) : result A := retry_from catches once (n - 1) 0.

(** [except (OSError, urllib.error.HTTPError)] *)
Definition os_error (e : exn) : bool :=
  match e with OSError _ | FileExistsError _ | FileNotFoundError _ => true | _ => false end.

(** [except Exception] *)
Definition any_exception (e : exn) : bool := match e with OutOfFuel => false | _ => true end.

(** [except Exception as error: last_error = error; ...], then [raise RuntimeError(...)] after the loop. *)
Definition retry_all {A} (n : nat) (msg : string) (once : nat → result A) : result A :=
  match retry any_exception n once with
  | Ok v => Ok v
  | Err e => Err (if any_exception e then RuntimeError msg else e)
  end.

(** ** Answers *)

(** What a JSON value is as the key of a dict: [True] and [1] are the same key. *)
Abbreviation id_key := (unit + (Z + string))%type.

Definition id_of (v : json) : result id_key :=
  match v with
  | JNull => Ok (inl tt)
  | JBool b => Ok (inr (inl (Z.b2z b)))
  | JInt n => Ok (inr (inl n))
  | JStr s => Ok (inr (inr s))
  | JArr _ | JObj _ => Err TypeError
  end.

Definition index_key (i : Z) : id_key := inr (inl i).

Definition answer_step (m : gmap id_key json) (item : json) : result (gmap id_key json) :=
  v ← jget "id" item;
  k ← id_of v;
  Ok (<[k := item]> m).

(** [{item["id"]: item for item in response}] *)
Definition by_id (response : json) : result (gmap id_key json) :=
  items ← jiter response;
  foldM answer_step ∅ items.

(** [by_id[index]] *)
Definition answer_at (m : gmap id_key json) (index : Z) : result json :=
  of_option (m !! index_key index) (KeyError "id").

(** [item = by_id[index]; if item.get("error"): raise RuntimeError(item["error"])] *)
Definition checked_answer (m : gmap id_key json) (index : Z) : result json :=
  item ← answer_at m index;
  error ← jget_opt "error" item;
  raise_when (truthy error) (RuntimeError "rpc error");;
  Ok item.

(** [if result.get("error"): raise RuntimeError(result["error"])], then [result["result"]] *)
Definition result_of (response : json) : result json :=
  error ← jget_opt "error" response;
  raise_when (truthy error) (RuntimeError "rpc error");;
  jget "result" response.

(** The values of all calls of a batch: [for index in range(len(calls)): ... values.append(item["result"])] *)
Definition results_of (m : gmap id_key json) (calls : list (string * list json)) : result (list json) :=
  mapR (λ i, item ← checked_answer m i; jget "result" item) (seqZ 0 (Z.of_nat (length calls))).

(** The chunks of a list: [for start in range(0, len(l), n): chunk = l[start:start + n]] for [n >= 1]. *)
Fixpoint chunks_from {A} (fuel : nat) (n : nat) (start : Z) (l : list A) : list (Z * list A) :=
  match fuel, l with
  | S fuel, _ :: _ => (start, take n l) :: chunks_from fuel n (start + Z.of_nat n) (drop n l)
  | _, _ => []
  end.

Definition chunks {A} (n : nat) (l : list A) : list (Z * list A) := chunks_from (length l) n 0 l.

(** ** Lemmas: retries *)
Lemma retry_from_Ok {A} catches (once : nat → result A) remaining attempt v :
  retry_from catches once remaining attempt = Ok v → ∃ n, (attempt ≤ n ≤ attempt + remaining)%nat ∧ once n = Ok v.
Proof.
  revert attempt. induction remaining as [|remaining IH]; intros attempt; cbn [retry_from]; destruct (once attempt) as [x|e] eqn:E;
    try (intros [= <-]; exists attempt; split; [lia|done]); [done|].
  destruct (catches e); [|done]. intros (n & Hn & Ho)%IH. exists n. split; [lia|done].
Qed.

(** What a call returns is what one of its attempts returned. *)
Lemma retry_Ok {A} catches n (once : nat → result A) v : retry catches n once = Ok v → ∃ i, (i ≤ n - 1)%nat ∧ once i = Ok v.
Proof. intros (i & Hi & Ho)%retry_from_Ok. exists i. split; [lia|done]. Qed.

Lemma retry_all_Ok {A} n msg (once : nat → result A) v : retry_all n msg once = Ok v → ∃ i, (i ≤ n - 1)%nat ∧ once i = Ok v.
Proof. unfold retry_all. destruct (retry _ _ _) as [x|e] eqn:E; [|done]. intros [= <-]. by eapply retry_Ok. Qed.

Lemma retry_first {A} catches n (once : nat → result A) v : once 0%nat = Ok v → retry catches n once = Ok v.
Proof. intros H. unfold retry. by destruct (n - 1)%nat; cbn [retry_from]; rewrite H. Qed.

Lemma retry_all_first {A} n msg (once : nat → result A) v : once 0%nat = Ok v → retry_all n msg once = Ok v.
Proof. intros H. unfold retry_all. by rewrite (retry_first _ _ _ v). Qed.

Lemma returns_retry_from {A} catches (once : nat → result A) remaining attempt :
  (∀ i, returns (once i)) → returns (retry_from catches once remaining attempt).
Proof.
  intros H. revert attempt. induction remaining as [|remaining IH]; intros attempt; cbn [retry_from];
    specialize (H attempt); destruct (once attempt) as [v|e]; try done.
  destruct (catches e); [apply IH|done].
Qed.

Lemma returns_retry {A} catches n (once : nat → result A) : (∀ i, returns (once i)) → returns (retry catches n once).
Proof. intros H. by apply returns_retry_from. Qed.

Lemma returns_retry_all {A} n msg (once : nat → result A) : (∀ i, returns (once i)) → returns (retry_all n msg once).
Proof.
  intros H. unfold retry_all. pose proof (returns_retry any_exception n once H) as Hr.
  destruct (retry _ _ _) as [v|[]]; by auto with py.
Qed.

(** ** Lemmas: answers *)
Lemma by_id_Ok response m :
  by_id response = Ok m → ∃ items, jiter response = Ok items ∧
  ∀ k item, m !! k = Some item → item ∈ items ∧ ∃ v, jget "id" item = Ok v ∧ id_of v = Ok k.
Proof.
  unfold by_id. intros H. apply bind_Ok in H as (items & Hi & H). exists items. split; [done|]. revert H.
  apply (foldM_ind _ (λ l m, ∀ k item, m !! k = Some item → item ∈ l ∧ ∃ v, jget "id" item = Ok v ∧ id_of v = Ok k)).
  - intros k item. by rewrite lookup_empty.
  - intros pre x s1 s2 IH _ Hs k item Hk. unfold answer_step in Hs. inv_ok Hs. subst s2.
    apply lookup_insert_Some in Hk as [[<- <-]|[_ Hk]]; [split; [set_solver|by exists v]|].
    destruct (IH k item Hk) as [? ?]. split; [set_solver|done].
Qed.

(** The answer that is taken for a call is an item of the response that carries its [id] and no error. *)
Lemma checked_answer_Ok response m index item :
  by_id response = Ok m → checked_answer m index = Ok item →
  ∃ items v e, jiter response = Ok items ∧ item ∈ items ∧ jget "id" item = Ok v ∧ id_of v = Ok (index_key index) ∧
             jget_opt "error" item = Ok e ∧ truthy e = false.
Proof.
  intros (items & Hi & Hm)%by_id_Ok H. unfold checked_answer, answer_at in H. inv_ok H. subst.
  destruct (Hm _ _ E) as (? & x & ? & ?). by exists items, x, v0.
Qed.

(** Answers with distinct numbers as their [id], in any order, are found by them. *)
Lemma by_id_distinct (items : list (Z * json)) :
  NoDup items.*1 → (∀ i item, (i, item) ∈ items → jget "id" item = Ok (JInt i)) →
  ∃ m, by_id (JArr items.*2) = Ok m ∧ ∀ i item, (i, item) ∈ items → m !! index_key i = Some item.
Proof.
  intros Hnd Hid. unfold by_id. cbn [jiter mbind result_bind].
  enough (Hgen : ∀ m0, ∃ m, foldM answer_step m0 items.*2 = Ok m ∧ (∀ i item, (i, item) ∈ items → m !! index_key i = Some item) ∧
    ∀ i, i ∉ items.*1 → m !! index_key i = m0 !! index_key i) by (destruct (Hgen ∅) as (m & H1 & H2 & _); by exists m).
  induction items as [|[i x] items IH]; intros m0; [exists m0; split_and!; [done|by intros ?? ?%not_elem_of_nil|done]|].
  rewrite !fmap_cons in *. apply NoDup_cons in Hnd as [Hi Hnd]. cbn [foldM fst snd] in *.
  assert (Hstep : answer_step m0 x = Ok (<[index_key i := x]> m0)) by (unfold answer_step; rewrite (Hid i x); [done|by left]).
  rewrite Hstep. cbn [mbind result_bind].
  destruct (IH Hnd (λ j y Hy, Hid j y (list_elem_of_further _ _ _ Hy)) (<[index_key i := x]> m0)) as (m & -> & H1 & H2).
  exists m. split; [done|]. split.
  - intros j y [[= -> ->]|Hy]%elem_of_cons; [|by apply H1]. rewrite H2 by done. apply lookup_insert_eq.
  - intros j Hj. rewrite H2 by set_solver. apply lookup_insert_ne. intros [= ->]. set_solver.
Qed.

Lemma returns_id_of v : returns (id_of v).
Proof. destruct v; simpl; auto with py. Qed.

Lemma returns_by_id response : returns (by_id response).
Proof.
  unfold by_id. apply returns_bind; [auto with py|intros items _]. apply returns_foldM. intros m item _. unfold answer_step.
  repeat (apply returns_bind; [first [apply returns_id_of | auto with py]|intros ? _]). auto with py.
Qed.

Lemma returns_checked_answer m index : returns (checked_answer m index).
Proof. unfold checked_answer, answer_at. repeat (apply returns_bind; [auto with py|intros ? _]). auto with py. Qed.

Lemma returns_result_of v : returns (result_of v).
Proof. unfold result_of. repeat (apply returns_bind; [auto with py|intros ? _]). auto with py. Qed.
#[export] Hint Resolve returns_retry returns_retry_all returns_id_of returns_by_id returns_checked_answer returns_result_of : py.

(** ** Lemmas: chunks *)
Lemma chunks_from_concat {A} fuel n start (l : list A) :
  (0 < n)%nat → (length l ≤ fuel)%nat → mjoin (snd <$> chunks_from fuel n start l) = l.
Proof.
  intros Hn. revert start l. induction fuel as [|fuel IH]; intros start l Hl; [destruct l; [done|simpl in Hl; lia]|].
  destruct l as [|x l]; [done|]. cbn [chunks_from]. rewrite fmap_cons. cbn [snd mjoin list_join].
  rewrite IH by (rewrite length_drop; simpl in *; lia). apply take_drop.
Qed.

(** The chunks of a list are the list. *)
Lemma chunks_concat {A} n (l : list A) : (0 < n)%nat → mjoin (snd <$> chunks n l) = l.
Proof. intros Hn. by apply chunks_from_concat. Qed.

Lemma chunks_from_short {A} fuel n start (l : list A) s c : (s, c) ∈ chunks_from fuel n start l → (length c ≤ n)%nat.
Proof.
  revert start l. induction fuel as [|fuel IH]; intros start l; [by destruct l; intros ?%not_elem_of_nil|].
  destruct l as [|x l]; [by intros ?%not_elem_of_nil|]. cbn [chunks_from]. intros [[= -> ->]|H]%elem_of_cons; [|by eapply IH].
  rewrite length_take. lia.
Qed.

(** A loop over the chunks that extends a list by the results of each is one pass over the list. *)
Lemma chunks_mapR {A B} n (l : list A) (f : Z * list A → result (list B)) (P : A → B → Prop) k :
  (0 < n)%nat → (∀ c y, f c = Ok y → Forall2 P c.2 y) → mapR f (chunks n l) = Ok k → Forall2 P l (mjoin k).
Proof.
  intros Hn Hf H%mapR_Ok. rewrite <-(chunks_concat n l Hn) at 1. induction H as [|c y cs k Hc _ IH]; [constructor|].
  rewrite fmap_cons. cbn [mjoin list_join]. apply Forall2_app; [by apply Hf|done].
Qed.

(** [enumerate(l)] *)
Lemma imap_pair_snd {A} (l : list A) : (imap pair l).*2 = l.
Proof. apply list_eq. intros i. rewrite list_lookup_fmap, list_lookup_imap. by destruct (l !! i). Qed.

Lemma imap_pair_at {A} (l : list A) pre i x post : imap pair l = pre ++ (i, x) :: post → l !! i = Some x.
Proof.
  intros H. assert (Hj : imap pair l !! length pre = Some (i, x)) by by rewrite H, list_lookup_middle.
  rewrite list_lookup_imap in Hj. destruct (l !! length pre) as [y|] eqn:E; [|done]. by injection Hj as <- ->.
Qed.

(** ** Lemmas: answers in any order *)

(** An item of a response that answers call [i] with [v]. *)
Definition answers_call (i : Z) (v item : json) : Prop :=
  jget "id" item = Ok (JInt i) ∧ (∃ e, jget_opt "error" item = Ok e ∧ truthy e = false) ∧ jget "result" item = Ok v.

(** The items [replies] answer the calls of a batch, one each, with what [f] says of them. *)
Definition replies_to (f : string → list json → json) (calls : list (string * list json)) (replies : list json) : Prop :=
  length replies = length calls ∧
  ∀ i method params, calls !! i = Some (method, params) → ∃ reply, replies !! i = Some reply ∧ answers_call (Z.of_nat i) (f method params) reply.

Lemma jget_opt_of name v x : jget name v = Ok x → jget_opt name v = Ok x.
Proof. unfold jget, jget_opt. destruct v; try done. destruct (assoc _ _); [|done]. by intros [= ->]. Qed.

(** Whatever order the replies come in, the table of the answers gives each call its own. *)
Lemma replies_found f calls items replies :
  items ≡ₚ replies → replies_to f calls replies →
  ∃ m, by_id (JArr items) = Ok m ∧
  ∀ i method params, calls !! i = Some (method, params) →
    ∃ item, checked_answer m (Z.of_nat i) = Ok item ∧ jget "result" item = Ok (f method params).
Proof.
  intros Hp [Hlen Hr]. set (keyed := imap (λ i r, (Z.of_nat i, r)) replies).
  assert (Hsnd : keyed.*2 = replies).
  { apply list_eq. intros i. unfold keyed. rewrite list_lookup_fmap, list_lookup_imap. by destruct (replies !! i). }
  assert (Hfst : keyed.*1 = seqZ 0 (Z.of_nat (length replies))).
  { apply list_eq. intros i. unfold keyed. rewrite list_lookup_fmap, list_lookup_imap. destruct (replies !! i) as [c|] eqn:E; simpl; symmetry.
    - apply lookup_seqZ. apply lookup_lt_Some in E. lia.
    - apply lookup_seqZ_ge. apply lookup_ge_None in E. lia. }
  rewrite <-Hsnd in Hp. apply Permutation_map_inv in Hp as (served & -> & Hp).
  assert (Hat : ∀ i r, replies !! i = Some r → (Z.of_nat i, r) ∈ served).
  { intros i r Hi. rewrite <-Hp. apply list_elem_of_lookup. exists i. unfold keyed. by rewrite list_lookup_imap, Hi. }
  destruct (by_id_distinct served) as (m & Hm & Hl).
  - rewrite <-Hp, Hfst. apply NoDup_seqZ.
  - intros z r Hin. rewrite <-Hp in Hin. apply list_elem_of_lookup in Hin as [i Hi]. unfold keyed in Hi. rewrite list_lookup_imap in Hi.
    destruct (replies !! i) as [r'|] eqn:Hri; [|done]. injection Hi as <- <-.
    assert (Hlt : (i < length calls)%nat) by (rewrite <-Hlen; by eapply lookup_lt_Some).
    apply lookup_lt_is_Some in Hlt as [[method params] Hc]. destruct (Hr i method params Hc) as (reply & Hy & Hid & _).
    rewrite Hri in Hy. by injection Hy as ->.
  - exists m. split; [exact Hm|]. intros i method params Hc. destruct (Hr i method params Hc) as (reply & Hy & _ & (e & He & Ht) & Hv).
    exists reply. split; [|done]. unfold checked_answer, answer_at. rewrite (Hl _ _ (Hat _ _ Hy)). simpl. rewrite He. simpl. by rewrite Ht.
Qed.

(** ** Nodes *)

(** A node at [url] whose answers to the calls of a batch, whenever it gives one, are those of [f]. *)
Definition speaks (transport : nat → string → json → result json) (url : string) (f : string → list json → json) : Prop :=
  ∀ attempt calls response m i method params item v,
    transport attempt url (requests 0 calls) = Ok response → by_id response = Ok m → calls !! i = Some (method, params) →
    checked_answer m (Z.of_nat i) = Ok item → jget "result" item = Ok v → v = f method params.

(** A node at [url] whose answers to the calls of a batch, wherever its numbers start, are those of [f]. *)
Definition tells (transport : nat → string → json → result json) (url : string) (f : string → list json → json) : Prop :=
  ∀ attempt start calls response m i method params item v,
    transport attempt url (requests start calls) = Ok response → by_id response = Ok m → calls !! i = Some (method, params) →
    checked_answer m (start + Z.of_nat i) = Ok item → jget_opt "result" item = Ok v → v = f method params.

(** A node at [url] whose answers are those of [f]: each item of its response to a batch that has the number of a call and no error
    carries what [f] says of this call as its result. *)
Definition gives (transport : nat → string → json → result json) (url : string) (f : string → list json → json) : Prop :=
  ∀ attempt calls response items item id i method params e v,
    transport attempt url (requests 0 calls) = Ok response → jiter response = Ok items → item ∈ items →
    jget "id" item = Ok id → id_of id = Ok (index_key (Z.of_nat i)) → calls !! i = Some (method, params) →
    jget_opt "error" item = Ok e → truthy e = false → jget_opt "result" item = Ok v → v = f method params.

Lemma gives_answer transport url f attempt calls response m i method params item v :
  gives transport url f → transport attempt url (requests 0 calls) = Ok response → by_id response = Ok m →
  calls !! i = Some (method, params) → checked_answer m (Z.of_nat i) = Ok item → jget_opt "result" item = Ok v → v = f method params.
Proof.
  intros Hf Hr Hm Hi Hit Hv. destruct (checked_answer_Ok _ _ _ _ Hm Hit) as (items & id & e & Hj & Hin & Hid & Hk & He & Ht).
  by eapply (Hf attempt calls response items item id i method params e v).
Qed.

Lemma tells_speaks transport url f : tells transport url f → speaks transport url f.
Proof.
  intros Hf attempt calls response m i method params item v Hr Hm Hi Hit Hv.
  apply (Hf attempt 0 calls response m i method params item v Hr Hm Hi); [by rewrite Z.add_0_l|].
  unfold jget_opt, jget in *. destruct item; try done. by destruct (assoc _ _).
Qed.

(** The values of a batch are the answers to its calls. *)
Lemma results_speak transport url f attempt calls response m values :
  speaks transport url f → transport attempt url (requests 0 calls) = Ok response → by_id response = Ok m →
  results_of m calls = Ok values → values = (λ c, f c.1 c.2) <$> calls.
Proof.
  intros Hf Hr Hm H%mapR_Ok. pose proof (Forall2_length _ _ _ H) as Hlen. rewrite length_seqZ in Hlen.
  apply list_eq_same_length with (length calls); [by rewrite length_fmap|lia|]. intros i v w Hi Hv Hw.
  apply list_lookup_fmap_Some in Hw as ([method params] & -> & Hc).
  assert (Hs : seqZ 0 (Z.of_nat (length calls)) !! i = Some (Z.of_nat i)) by (apply lookup_seqZ; lia).
  destruct (Forall2_lookup_l _ _ _ _ _ H Hs) as (x & Hx & Hit). rewrite Hv in Hx. injection Hx as <-.
  apply bind_Ok in Hit as (item & Hit & Hres). by eapply Hf.
Qed.

Lemma returns_results_of m calls : returns (results_of m calls).
Proof. apply returns_mapR. intros x _. apply returns_bind; [apply returns_checked_answer|auto with py]. Qed.

(** A node that answers each call of a batch in place with [f] speaks [f]. *)
Definition reply_with (f : string → list json → json) (payload : json) : result json :=
  method ← jget_str "method" payload;
  params ← jget "params" payload;
  id ← jget "id" payload;
  l ← jiter params;
  Ok (JObj [("id", id); ("result", f method l)]).

Definition answering (f : string → list json → json) (attempt : nat) (url : string) (payload : json) : result json :=
  match payload with
  | JArr calls => l ← mapR (reply_with f) calls; Ok (JArr l)
  | _ => reply_with f payload
  end.

Lemma answering_tells f url : tells (answering f) url f.
Proof.
  intros attempt start calls response m i method params item v Hr Hm Hi Hit Hv. unfold answering, requests in Hr.
  apply bind_Ok in Hr as (l & Hl%mapR_Ok & [= <-]). apply (checked_answer_Ok _ _ _ _ Hm) in Hit as (items & id & e & [= <-] & Hin & Hid & Hkey & _).
  apply list_elem_of_lookup in Hin as [j Hj]. destruct (Forall2_lookup_r _ _ _ _ _ Hl Hj) as (p & Hp & Hrep).
  rewrite list_lookup_imap in Hp. destruct (calls !! j) as [[mj pj]|] eqn:Hc; [|done]. injection Hp as <-.
  injection Hrep as <-. injection Hid as <-. injection Hkey as Hkey. injection Hv as <-.
  assert (i = j) as <- by lia. rewrite Hi in Hc. by injection Hc as <- <-.
Qed.

Lemma answering_speaks f url : speaks (answering f) url f.
Proof. apply tells_speaks, answering_tells. Qed.

Lemma returns_answering f n u p : returns (answering f n u p).
Proof.
  assert (Hr : ∀ q, returns (reply_with f q)) by (intros q; unfold reply_with; repeat (apply returns_bind; [auto with py|intros ? _]); auto with py).
  destruct p; try apply Hr. cbn [answering]. apply returns_bind; [apply returns_mapR; intros; apply Hr|auto with py].
Qed.
