(* ===== verification/Bech32.v ===== *)
(** * Bech32 addresses

    The Bech32 codec that the scripts carry: the checksum polynomial, the regrouping of bits, the
    decoders ([decode_address] of the forensic scripts, [decode_bech32] of the blacklist audit)
    and the encoder [to_bech32] of the non-issuance audit.

    Group values, checksums and accumulators are Python integers ([Z]); the accumulator of the
    regrouping loop is never masked, as in the source. *)
From S2P Require Import Prelude PyStr.

Definition CHARSET : string := "qpzry9x8gf2tvdw0s3jn54khce6mua7l".

Definition GENERATOR : list Z := [0x3B6A57B2; 0x26508E6D; 0x1EA119FA; 0x3D4233DD; 0x2A1462B3].

(** ** The checksum *)

(** [for index, generator in enumerate(generators): if (top >> index) & 1: checksum ^= generator] *)
Fixpoint mix (top index : Z) (generators : list Z) (checksum : Z) : Z :=
  match generators with
  | [] => checksum
  | generator :: generators =>
      mix top (index + 1) generators
        (if Z.land (Z.shiftr top index) 1 =? 0 then checksum else Z.lxor checksum generator)
  end.

Definition polymod_step (checksum value : Z) : Z :=
  let top := Z.shiftr checksum 25 in
  mix top 0 GENERATOR (Z.lxor (Z.shiftl (Z.land checksum 0x1FFFFFF) 5) value).

Definition polymod (values : list Z) : Z := foldl polymod_step 1 values.

Fixpoint codes (s : string) : list Z :=
  match s with EmptyString => [] | String c s => code c :: codes s end.

Definition hrp_expand (hrp : string) : list Z :=
  ((λ c, Z.shiftr c 5) <$> codes hrp) ++ [0] ++ ((λ c, Z.land c 31) <$> codes hrp).

(** ** Regrouping bits *)

(** [while bits >= to_bits: bits -= to_bits; output.append((accumulator >> bits) & maximum)];
    [bits] steps are enough since each takes [to_bits >= 1] away. *)
Fixpoint emit (fuel : nat) (to_bits accumulator bits : Z) (output : list Z) : Z * list Z :=
  if to_bits <=? bits then
    match fuel with
    | O => (bits, output)
    | S fuel =>
        let bits := bits - to_bits in
        emit fuel to_bits accumulator bits
          (output ++ [Z.land (Z.shiftr accumulator bits) (Z.shiftl 1 to_bits - 1)])
    end
  else (bits, output).

Record regroup_state := { accumulator : Z; bits : Z; output : list Z }.

Definition regroup_step (from_bits to_bits : Z) (s : regroup_state) (value : Z) : regroup_state :=
  let acc := Z.lor (Z.shiftl s.(accumulator) from_bits) value in
  let b := s.(bits) + from_bits in
  let '(b, out) := emit (Z.to_nat b) to_bits acc b s.(output) in
  {| accumulator := acc; bits := b; output := out |}.

Definition regroup (values : list Z) (from_bits to_bits : Z) : regroup_state :=
  foldl (regroup_step from_bits to_bits) {| accumulator := 0; bits := 0; output := [] |} values.

(** The decoders' [convert_bits]: the bits left over must be zero. *)
Definition convert_bits (values : list Z) (from_bits to_bits : Z) : result (list Z) :=
  let s := regroup values from_bits to_bits in
  _ ← raise_when
        (negb (s.(bits) =? 0) &&
         negb (Z.land (Z.shiftl s.(accumulator) (to_bits - s.(bits))) (Z.shiftl 1 to_bits - 1) =? 0))
        (ValueError "nonzero address padding");
  Ok s.(output).

(** The encoder's [convert_bits]: the bits left over are padded with zeros. *)
Definition convert_bits_pad (data : list Z) (from_bits to_bits : Z) : list Z :=
  let s := regroup data from_bits to_bits in
  if s.(bits) =? 0 then s.(output)
  else s.(output) ++
    [Z.land (Z.shiftl s.(accumulator) (to_bits - s.(bits))) (Z.shiftl 1 to_bits - 1)].

(** ** Decoders *)
Definition charset_index (c : ascii) : result Z :=
  of_option (index_of c CHARSET) (ValueError "substring not found").

Fixpoint charset_indices (s : string) : result (list Z) :=
  match s with
  | EmptyString => Ok []
  | String c s => d ← charset_index c; ds ← charset_indices s; Ok (d :: ds)
  end.

Definition drop_last6 (l : list Z) : list Z := take (length l - 6) l.

(** The [one1...] branch shared by the decoders of the forensic scripts. *)
Definition decode_one1 (value : string) : result string :=
  _ ← raise_when (negb (bool_decide (value = lower value)) || negb (startswith "one1" value))
        (ValueError "invalid Harmony address");
  separator ← of_option (rfind "1" value) (ValueError "invalid Harmony address");
  let hrp := str_take separator value in
  data ← charset_indices (str_drop (S separator) value);
  _ ← raise_when ((length data <? 6)%nat || negb (polymod (hrp_expand hrp ++ data) =? 1))
        (ValueError "invalid Harmony address checksum");
  decoded ← convert_bits (drop_last6 data) 5 8;
  _ ← raise_when (negb (length decoded =? 20)%nat) (ValueError "invalid Harmony address length");
  Ok ("0x" +:+ hex decoded).

(** [decode_address] of cx-source-audit.py; [None] is Python's [None]. *)
Definition decode_address (value : option string) : result string :=
  match value with
  | None => Ok EmptyString
  | Some value => if startswith "0x" value then Ok (lower value) else decode_one1 value
  end.

(** [decode_bech32] of blacklisted-address-audit.py: its own copy of the loop, with no length
    check before the checksum and a mask test on the padding. *)
Definition decode_bech32 (address : string) : result string :=
  _ ← raise_when (negb (bool_decide (address = lower address)) || negb (startswith "one1" address))
        (ValueError "invalid Harmony address");
  separator ← of_option (rfind "1" address) (ValueError "invalid Harmony address");
  let hrp := str_take separator address in
  data ← match charset_indices (str_drop (S separator) address) with
         | Ok data => Ok data
         | Err _ => Err (ValueError "invalid Harmony address character")
         end;
  _ ← raise_when (negb (polymod (hrp_expand hrp ++ data) =? 1))
        (ValueError "invalid Harmony address checksum");
  let s := regroup (drop_last6 data) 5 8 in
  _ ← raise_when
        (negb (s.(bits) =? 0) && negb (Z.land s.(accumulator) (Z.shiftl 1 s.(bits) - 1) =? 0))
        (ValueError "nonzero Harmony address padding");
  _ ← raise_when (negb (length s.(output) =? 20)%nat)
        (ValueError "Harmony address is not 20 bytes");
  Ok ("0x" +:+ hex s.(output)).

(** ** Encoder *)
Definition charset_char (d : Z) : result ascii :=
  of_option (char_at CHARSET (Z.to_nat d)) IndexError.

Fixpoint charset_string (data : list Z) : result string :=
  match data with
  | [] => Ok EmptyString
  | d :: data => c ← charset_char d; s ← charset_string data; Ok (String c s)
  end.

Definition checksum_digits (p : Z) : list Z :=
  (λ index, Z.land (Z.shiftr p (5 * (5 - index))) 31) <$> [0; 1; 2; 3; 4; 5].

(** [address.removeprefix("0x")] *)
Definition removeprefix_0x (s : string) : string :=
  if startswith "0x" s then str_drop 2 s else s.

Definition to_bech32 (address : string) : result string :=
  raw ← of_option (fromhex (removeprefix_0x address)) (ValueError "non-hexadecimal number");
  _ ← raise_when (negb (length raw =? 20)%nat) (ValueError "address is not 20 bytes");
  let data := convert_bits_pad raw 8 5 in
  let p := Z.lxor (polymod (hrp_expand "one" ++ data ++ replicate 6 0)) 1 in
  text ← charset_string (data ++ checksum_digits p);
  Ok ("one1" +:+ text).

(** ** Bits of machine words held in [Z] *)
Lemma high_bits n a i : 0 ≤ a < 2 ^ n → n ≤ i → Z.testbit a i = false.
Proof.
  intros Ha Hi. destruct (decide (0 ≤ n)); [|rewrite Z.pow_neg_r in Ha by lia; lia].
  rewrite <-(Z.mod_small a (2 ^ n)) by done. apply Z.mod_pow2_bits_high. lia.
Qed.

Lemma lxor_bound n a b : 0 ≤ n → 0 ≤ a < 2 ^ n → 0 ≤ b < 2 ^ n → 0 ≤ Z.lxor a b < 2 ^ n.
Proof.
  intros Hn Ha Hb. replace (Z.lxor a b) with (Z.lxor a b mod 2 ^ n); [apply Z.mod_pos_bound; lia|].
  apply Z.bits_inj'. intros i Hi. destruct (decide (i < n)).
  - by apply Z.mod_pow2_bits_low.
  - rewrite Z.mod_pow2_bits_high, Z.lxor_spec, !(high_bits n) by lia. done.
Qed.

Lemma mask_mod n a : 0 ≤ n → Z.land a (Z.shiftl 1 n - 1) = a mod 2 ^ n.
Proof.
  intros Hn. rewrite Z.shiftl_1_l. replace (2 ^ n - 1) with (Z.ones n).
  - by apply Z.land_ones.
  - rewrite Z.ones_equiv. lia.
Qed.

Lemma lor_low a n v : 0 ≤ n → 0 ≤ v < 2 ^ n → Z.lor (Z.shiftl a n) v = 2 ^ n * a + v.
Proof.
  intros Hn Hv. rewrite Z.shiftl_mul_pow2 by done.
  assert (Hd : Z.land (a * 2 ^ n) v = 0).
  { rewrite <-Z.shiftl_mul_pow2 by done. apply Z.bits_inj'. intros i Hi.
    rewrite Z.land_spec, Z.bits_0. destruct (decide (i < n)).
    - by rewrite Z.shiftl_spec_low by done.
    - by rewrite (high_bits n v), andb_false_r by lia. }
  rewrite <-Z.lxor_lor by done. rewrite <-Z.add_nocarry_lxor by done. lia.
Qed.

Lemma lxor_low a n v : 0 ≤ n → 0 ≤ v < 2 ^ n → Z.lxor (Z.shiftl a n) v = 2 ^ n * a + v.
Proof.
  intros Hn Hv. rewrite <-lor_low by done. symmetry. apply Z.bits_inj'. intros i Hi.
  rewrite Z.lor_spec, Z.lxor_spec. destruct (decide (i < n)).
  - rewrite Z.shiftl_spec_low by done. by destruct (Z.testbit v i).
  - rewrite (high_bits n v) by lia. by destruct (Z.testbit _ _).
Qed.

(** ** The checksum is linear over exclusive or *)

(** The feedback term of one step. *)
Definition feedback (top : Z) : Z := mix top 0 GENERATOR 0.

Lemma bit_test top i : 0 ≤ i → (Z.land (Z.shiftr top i) 1 =? 0) = negb (Z.testbit top i).
Proof.
  intros Hi. change 1 with (Z.ones 1) at 1. rewrite Z.land_ones by lia.
  change (2 ^ 1) with 2. rewrite <-Z.bit0_mod, Z.shiftr_spec by lia. by destruct (Z.testbit _ _).
Qed.

Lemma mix_spec top i gs c :
  0 ≤ i → mix top i gs c = Z.lxor c (mix top i gs 0).
Proof.
  revert i c. induction gs as [|g gs IH]; intros i c Hi; simpl; [by rewrite Z.lxor_0_r|].
  rewrite !bit_test by done. destruct (Z.testbit top i); simpl; [|apply IH; lia].
  rewrite (IH _ (Z.lxor c g)), (IH _ (Z.lxor 0 g)), Z.lxor_0_l by lia. apply Z.lxor_assoc.
Qed.

Lemma lxor_shuffle a b c d : Z.lxor (Z.lxor a b) (Z.lxor c d) = Z.lxor (Z.lxor a c) (Z.lxor b d).
Proof. rewrite <-!Z.lxor_assoc. f_equal. by rewrite !Z.lxor_assoc, (Z.lxor_comm b). Qed.

Lemma mix_lxor t1 t2 i gs :
  0 ≤ i → mix (Z.lxor t1 t2) i gs 0 = Z.lxor (mix t1 i gs 0) (mix t2 i gs 0).
Proof.
  revert i. induction gs as [|g gs IH]; intros i Hi; simpl; [done|].
  rewrite !bit_test, Z.lxor_spec by done.
  destruct (Z.testbit t1 i), (Z.testbit t2 i); simpl; rewrite ?Z.lxor_0_l;
    rewrite ?(λ t, mix_spec t (i + 1) gs g), IH by lia; try done.
  - by rewrite lxor_shuffle, Z.lxor_nilpotent, Z.lxor_0_l.
  - by rewrite Z.lxor_assoc.
  - by rewrite <-!Z.lxor_assoc, (Z.lxor_comm g).
Qed.

Lemma feedback_lxor t1 t2 : feedback (Z.lxor t1 t2) = Z.lxor (feedback t1) (feedback t2).
Proof. by apply mix_lxor. Qed.

Definition shift_in (c : Z) : Z := Z.shiftl (Z.land c 0x1FFFFFF) 5.

Lemma polymod_step_spec c v :
  polymod_step c v = Z.lxor (Z.lxor (shift_in c) v) (feedback (Z.shiftr c 25)).
Proof. apply mix_spec. lia. Qed.

Lemma shift_in_lxor c1 c2 : shift_in (Z.lxor c1 c2) = Z.lxor (shift_in c1) (shift_in c2).
Proof.
  unfold shift_in. rewrite <-Z.shiftl_lxor. f_equal. apply Z.bits_inj'. intros i Hi.
  rewrite !Z.land_spec, !Z.lxor_spec, !Z.land_spec.
  by destruct (Z.testbit c1 i), (Z.testbit c2 i), (Z.testbit _ i).
Qed.

Lemma polymod_step_lxor c1 c2 v1 v2 :
  polymod_step (Z.lxor c1 c2) (Z.lxor v1 v2) = Z.lxor (polymod_step c1 v1) (polymod_step c2 v2).
Proof.
  rewrite !polymod_step_spec, shift_in_lxor, Z.shiftr_lxor, feedback_lxor.
  by rewrite (lxor_shuffle (shift_in c1)), lxor_shuffle.
Qed.

Abbreviation run := (foldl polymod_step).

Lemma run_lxor c1 c2 l1 l2 :
  length l1 = length l2 →
  run (Z.lxor c1 c2) (zip_with Z.lxor l1 l2) = Z.lxor (run c1 l1) (run c2 l2).
Proof.
  revert c1 c2 l2. induction l1 as [|x l1 IH]; intros c1 c2 [|y l2] Hl; try done.
  simpl. rewrite polymod_step_lxor. apply IH. by injection Hl.
Qed.


(** Adding [l] to a message of zeros adds the remainder of [l] alone. *)
Lemma run_zeros_lxor c l : run c l = Z.lxor (run c (replicate (length l) 0)) (run 0 l).
Proof.
  rewrite <-run_lxor by apply length_replicate. rewrite Z.lxor_0_r. f_equal.
  induction l as [|x l IH]; simpl; [done|]. by rewrite Z.lxor_0_l, <-IH.
Qed.

(** ** Bounds *)
Definition is_group (b : Z) (x : Z) : Prop := 0 ≤ x < 2 ^ b.

Lemma mix_bound top i gs c :
  Forall (is_group 30) gs → is_group 30 c → is_group 30 (mix top i gs c).
Proof.
  intros Hgs. revert i c. induction Hgs as [|g gs Hg _ IH]; intros i c Hc; simpl; [done|].
  apply IH. case_match; [done|]. by apply lxor_bound.
Qed.

Lemma generator_bound : Forall (is_group 30) GENERATOR.
Proof. unfold is_group. repeat constructor; done. Qed.

Lemma shift_in_bound c : is_group 30 (shift_in c).
Proof.
  unfold shift_in, is_group. change 0x1FFFFFF with (Z.shiftl 1 25 - 1).
  rewrite mask_mod, Z.shiftl_mul_pow2 by lia.
  assert (0 ≤ c mod 2 ^ 25 < 2 ^ 25) by (apply Z.mod_pos_bound; lia).
  change (2 ^ 30) with (2 ^ 25 * 2 ^ 5). nia.
Qed.

Lemma polymod_step_bound c v : is_group 5 v → is_group 30 (polymod_step c v).
Proof.
  intros Hv. apply mix_bound; [apply generator_bound|]. apply lxor_bound; [lia|apply shift_in_bound|].
  unfold is_group in *. change (2 ^ 5) with 32 in Hv. change (2 ^ 30) with 1073741824. lia.
Qed.

Lemma run_bound c l : is_group 30 c → Forall (is_group 5) l → is_group 30 (run c l).
Proof.
  intros Hc Hl. revert c Hc. induction Hl as [|x l Hx _ IH]; intros c Hc; simpl; [done|].
  apply IH. by apply polymod_step_bound.
Qed.

(** Below 2^25 there is no feedback: a step appends one digit. *)
Lemma polymod_step_low c v : is_group 25 c → is_group 5 v → polymod_step c v = 2 ^ 5 * c + v.
Proof.
  unfold is_group. intros Hc Hv. rewrite polymod_step_spec.
  rewrite Z.shiftr_div_pow2, Z.div_small by done. change (feedback 0) with 0.
  rewrite Z.lxor_0_r. unfold shift_in. change 0x1FFFFFF with (Z.shiftl 1 25 - 1).
  rewrite mask_mod, Z.mod_small by done. by apply lxor_low.
Qed.

Lemma run_0_be_val l :
  (length l ≤ 6)%nat → Forall (is_group 5) l → run 0 l = be_val 5 l.
Proof.
  induction l as [|x l IH] using rev_ind; intros Hl Hd; [done|].
  apply Forall_app in Hd as [Hd Hx]. inversion_clear Hx as [|?? Hx' _].
  rewrite length_app in Hl. simpl in Hl.
  rewrite foldl_app, be_val_snoc. cbn [foldl]. rewrite IH by (done || lia).
  apply polymod_step_low; [|done].
  pose proof (be_val_bound 5 l) as Hb. destruct Hb as [Hb1 Hb2]; [lia|done|].
  split; [done|]. eapply Z.lt_le_trans; [done|]. apply Z.pow_le_mono_r; lia.
Qed.

(** ** The checksum digits *)
Lemma checksum_digits_group p : Forall (is_group 5) (checksum_digits p).
Proof.
  unfold checksum_digits. apply Forall_fmap, Forall_forall. intros i _. simpl.
  change 31 with (Z.shiftl 1 5 - 1). rewrite mask_mod by lia. apply Z.mod_pos_bound. lia.
Qed.

Lemma digit_5 p k k' :
  0 ≤ k → k' = k + 5 → 2 ^ 5 * Z.shiftr p k' + Z.land (Z.shiftr p k) 31 = Z.shiftr p k.
Proof.
  intros Hk ->. change 31 with (Z.shiftl 1 5 - 1). rewrite mask_mod by lia.
  rewrite <-Z.shiftr_shiftr, (Z.shiftr_div_pow2 _ 5) by lia.
  symmetry. apply Z.div_mod. lia.
Qed.

Lemma checksum_digits_val p : is_group 30 p → be_val 5 (checksum_digits p) = p.
Proof.
  intros Hp. unfold be_val, checksum_digits. cbn [fmap list_fmap foldl].
  replace (2 ^ 5 * 0 + Z.land (Z.shiftr p (5 * (5 - 0))) 31) with (Z.shiftr p 25).
  2:{ change (5 * (5 - 0)) with 25. rewrite <-(digit_5 p 25 30) at 1 by lia. f_equal.
      by rewrite (Z.shiftr_div_pow2 p 30), Z.div_small by done. }
  change (5 * (5 - 1)) with 20. change (5 * (5 - 2)) with 15. change (5 * (5 - 3)) with 10.
  change (5 * (5 - 4)) with 5. change (5 * (5 - 5)) with 0.
  rewrite (digit_5 p 20 25), (digit_5 p 15 20), (digit_5 p 10 15), (digit_5 p 5 10),
    (digit_5 p 0 5) by lia.
  apply Z.shiftr_0_r.
Qed.

(** A message has checksum 1 exactly when its last six digits are the encoder's. *)
Lemma polymod_checksum values chk :
  Forall (is_group 5) values → Forall (is_group 5) chk → length chk = 6%nat →
  polymod (values ++ chk) = 1 ↔ chk = checksum_digits (Z.lxor (polymod (values ++ replicate 6 0)) 1).
Proof.
  intros Hv Hc Hl. set (p := polymod (values ++ replicate 6 0)).
  assert (Hp : is_group 30 p).
  { apply run_bound; [done|]. apply Forall_app. split; [done|]. by repeat constructor. }
  assert (Hp1 : is_group 30 (Z.lxor p 1)) by (apply lxor_bound; [lia|done|done]).
  assert (Hpoly : polymod (values ++ chk) = Z.lxor p (be_val 5 chk)).
  { unfold p, polymod. rewrite !foldl_app, run_zeros_lxor, Hl. by rewrite run_0_be_val by (done || lia). }
  rewrite Hpoly. split.
  - intros H. apply (be_val_inj 5); [lia|done|apply checksum_digits_group|done|].
    rewrite checksum_digits_val by done. rewrite <-H, <-Z.lxor_assoc, Z.lxor_nilpotent.
    by rewrite Z.lxor_0_l.
  - intros ->. rewrite checksum_digits_val by done.
    by rewrite <-Z.lxor_assoc, Z.lxor_nilpotent, Z.lxor_0_l.
Qed.






(** ** Regrouping preserves the value *)
Section regroup.
Context (from to : Z) (Hfrom : 0 < from) (Hto : 0 < to).

(** What the loop knows after consuming [vs]. *)
Record regroup_inv (vs : list Z) (s : regroup_state) : Prop := {
  inv_acc : s.(accumulator) = be_val from vs;
  inv_bits : 0 ≤ s.(bits) < to;
  inv_count : from * Z.of_nat (length vs) = to * Z.of_nat (length s.(output)) + s.(bits);
  inv_groups : Forall (is_group to) s.(output);
  inv_out : be_val to s.(output) = Z.shiftr s.(accumulator) s.(bits);
}.

Lemma emit_spec fuel acc b out b' out' :
  0 ≤ b ≤ Z.of_nat fuel → Forall (is_group to) out → be_val to out = Z.shiftr acc b →
  emit fuel to acc b out = (b', out') →
  0 ≤ b' < to ∧ Forall (is_group to) out' ∧ be_val to out' = Z.shiftr acc b' ∧
  to * Z.of_nat (length out') + b' = to * Z.of_nat (length out) + b.
Proof.
  revert b out. induction fuel as [|fuel IH]; intros b out Hb Hg Hv; simpl.
  - destruct (to <=? b) eqn:E; [lia|]. intros [= <- <-]. split_and!; done || lia.
  - destruct (to <=? b) eqn:E; [|intros [= <- <-]; split_and!; done || lia].
    rewrite mask_mod by lia. intros H%IH.
    + destruct H as (? & ? & ? & H). split_and!; try done || lia.
      rewrite length_app in H. simpl in H. lia.
    + lia.
    + apply Forall_app. split; [done|]. constructor; [|done]. apply Z.mod_pos_bound. lia.
    + rewrite be_val_snoc, Hv.
      replace (Z.shiftr acc b) with (Z.shiftr (Z.shiftr acc (b - to)) to).
      * rewrite (Z.shiftr_div_pow2 _ to) by lia. symmetry. apply Z.div_mod. lia.
      * rewrite Z.shiftr_shiftr by lia. f_equal. lia.
Qed.

Lemma regroup_spec vs : Forall (is_group from) vs → regroup_inv vs (regroup vs from to).
Proof.
  induction vs as [|v vs IH] using rev_ind; intros Hvs.
  { split; simpl; done || lia. }
  apply Forall_app in Hvs as [Hvs Hv]. inversion_clear Hv as [|?? Hv' _].
  destruct (IH Hvs) as [Ha Hb Hc Hg Ho]. unfold regroup in *. rewrite foldl_app. cbn [foldl].
  set (s := foldl _ _ vs) in *. unfold regroup_step.
  rewrite (lor_low _ from) by done || lia.
  assert (Hv1 : be_val to s.(output) =
    Z.shiftr (2 ^ from * s.(accumulator) + v) (s.(bits) + from)).
  { rewrite Ho, (Z.add_comm s.(bits)), <-Z.shiftr_shiftr by lia. f_equal.
    rewrite (Z.shiftr_div_pow2 _ from), (Z.mul_comm (2 ^ from)), Z.div_add_l by lia.
    unfold is_group in Hv'. rewrite Z.div_small by done. lia. }
  destruct (emit _ to _ _ _) as [b' out'] eqn:He.
  apply emit_spec in He as (Hb' & Hg' & Ho' & Hl'); [|lia|done|done].
  split; simpl; try done.
  - by rewrite be_val_snoc, Ha.
  - rewrite length_app. simpl. lia.
Qed.

Lemma regroup_exact vs n :
  Forall (is_group from) vs → from * Z.of_nat (length vs) = to * Z.of_nat n →
  (regroup vs from to).(bits) = 0 ∧ length (regroup vs from to).(output) = n ∧
  Forall (is_group to) (regroup vs from to).(output) ∧
  be_val to (regroup vs from to).(output) = be_val from vs.
Proof.
  intros Hvs Hn. destruct (regroup_spec vs Hvs) as [Ha Hb Hc Hg Ho].
  assert (Hbits : (regroup vs from to).(bits) = 0).
  { rewrite Hn in Hc. assert ((to * Z.of_nat n) mod to = (regroup vs from to).(bits)) as H.
    - rewrite Hc, Z.add_comm, Z.mul_comm, Z.mod_add by lia. apply Z.mod_small. lia.
    - by rewrite Z.mul_comm, Z.mod_mul in H by lia. }
  split_and!; [done| |done|].
  - rewrite Hbits in Hc. apply Nat2Z.inj. nia.
  - by rewrite Ho, Hbits, Z.shiftr_0_r, Ha.
Qed.
End regroup.

Lemma convert_bits_exact from to vs n :
  0 < from → 0 < to → Forall (is_group from) vs →
  from * Z.of_nat (length vs) = to * Z.of_nat n →
  convert_bits vs from to = Ok (regroup vs from to).(output) ∧
  convert_bits_pad vs from to = (regroup vs from to).(output).
Proof.
  intros Hf Ht Hvs Hn. destruct (regroup_exact from to Hf Ht vs n Hvs Hn) as (Hb & _).
  unfold convert_bits, convert_bits_pad. by rewrite Hb.
Qed.

(** Bytes to five-bit groups and back. *)
Lemma regroup_roundtrip raw :
  Forall is_byte raw → length raw = 20%nat →
  length (regroup raw 8 5).(output) = 32%nat ∧
  Forall (is_group 5) (regroup raw 8 5).(output) ∧
  convert_bits (regroup raw 8 5).(output) 5 8 = Ok raw ∧
  convert_bits_pad raw 8 5 = (regroup raw 8 5).(output).
Proof.
  intros Hraw Hl.
  assert (Hr8 : Forall (is_group 8) raw) by exact Hraw.
  destruct (regroup_exact 8 5 ltac:(lia) ltac:(lia) raw 32 Hr8) as (_ & H1 & H2 & H3); [lia|].
  destruct (regroup_exact 5 8 ltac:(lia) ltac:(lia) (regroup raw 8 5).(output) 20 H2)
    as (_ & H4 & H5 & H6); [lia|].
  split_and!; [done|done| |].
  - destruct (convert_bits_exact 5 8 (regroup raw 8 5).(output) 20) as [-> _]; [lia..|done|lia|].
    f_equal. apply (be_val_inj 8); [lia|done|done|congruence|congruence].
  - by apply (convert_bits_exact 8 5 raw 32); [lia..|done|lia].
Qed.

(** ** Characters of the alphabet *)
Lemma charset_char_index c i : index_of c CHARSET = Some i → charset_char i = Ok c ∧ is_group 5 i.
Proof. revert c i. intros [[] [] [] [] [] [] [] []] i; vm_compute; intros [= <-]; split; done. Qed.

Lemma charset_index_char d c : charset_char d = Ok c → is_group 5 d →
  charset_index c = Ok d ∧ c ≠ "1"%char ∧ lower_char c = c.
Proof.
  intros Hc Hd.
  assert (Hall : forallb (λ t, match charset_char t with
    | Ok c => bool_decide (charset_index c = Ok t ∧ c ≠ "1"%char ∧ lower_char c = c)
    | Err _ => true end) (seqZ 0 32) = true) by (by vm_compute).
  rewrite forallb_forall in Hall. specialize (Hall d). rewrite Hc in Hall.
  apply (bool_decide_unpack _), Is_true_true, Hall, list_elem_of_In, elem_of_seqZ, Hd.
Qed.

Lemma charset_char_total d : is_group 5 d → ∃ c, charset_char d = Ok c.
Proof.
  intros Hd. assert (Hall : Forall (λ t, ∃ c, charset_char t = Ok c) (seqZ 0 32)).
  { repeat (apply Forall_cons; split; [vm_compute; eauto|]). constructor. }
  rewrite Forall_forall in Hall. apply Hall, elem_of_seqZ. exact Hd.
Qed.

Lemma charset_string_spec data :
  Forall (is_group 5) data →
  ∃ s, charset_string data = Ok s ∧ charset_indices s = Ok data ∧
       rfind "1" s = None ∧ lower s = s ∧ String.length s = length data.
Proof.
  induction 1 as [|d data Hd _ (s & Hs & Hi & Hr & Hlow & Hlen)]; [by exists EmptyString|].
  destruct (charset_char_total d Hd) as [c Hc].
  destruct (charset_index_char d c Hc Hd) as (Hci & Hne & Hcl).
  exists (String c s). simpl. rewrite Hc, Hs, Hci, Hi, Hr, Hlow, Hlen, Hcl. simpl.
  by rewrite decide_False.
Qed.

Lemma charset_indices_string s data :
  charset_indices s = Ok data →
  charset_string data = Ok s ∧ Forall (is_group 5) data ∧ length data = String.length s.
Proof.
  revert data. induction s as [|c s IH]; intros data H; simpl in H; inv_ok H; subst; [by repeat constructor|].
  destruct (IH _ E0) as (H1 & H2 & H3).
  unfold charset_index in E. rewrite of_option_Ok in E. apply charset_char_index in E as [Hc Hg].
  simpl. rewrite Hc, H1. simpl. split_and!; [done|by constructor|lia].
Qed.

(** ** The separator *)
Lemma rfind_one1 s : rfind "1" s = None → rfind "1" ("one1" +:+ s) = Some 3%nat.
Proof. intros H. rewrite !str_app_cons, str_app_nil_l. simpl. by rewrite H. Qed.

Lemma drop_last6_app l chk : length chk = 6%nat → drop_last6 (l ++ chk) = l.
Proof.
  intros H. unfold drop_last6. rewrite length_app, H.
  replace (length l + 6 - 6)%nat with (length l) by lia. apply take_app_length.
Qed.

(** ** What a decoder accepted *)
Lemma decode_one1_Ok s a :
  decode_one1 s = Ok a →
  ∃ sep data decoded,
    s = lower s ∧ startswith "one1" s = true ∧ rfind "1" s = Some sep ∧
    charset_indices (str_drop (S sep) s) = Ok data ∧ (6 ≤ length data)%nat ∧
    polymod (hrp_expand (str_take sep s) ++ data) = 1 ∧
    convert_bits (drop_last6 data) 5 8 = Ok decoded ∧ length decoded = 20%nat ∧
    a = "0x" +:+ hex decoded.
Proof.
  unfold decode_one1. intros H. inv_ok H. bool_facts. eexists _, _, _. split_and!; done.
Qed.


Lemma padding_test to acc b :
  0 ≤ b < to →
  (Z.land (Z.shiftl acc (to - b)) (Z.shiftl 1 to - 1) =? 0) = (Z.land acc (Z.shiftl 1 b - 1) =? 0).
Proof.
  intros Hb. rewrite !mask_mod, Z.shiftl_mul_pow2 by lia.
  replace (2 ^ to) with (2 ^ b * 2 ^ (to - b)) by (rewrite <-Z.pow_add_r by lia; f_equal; lia).
  rewrite Z.mul_mod_distr_r by lia. apply eq_true_iff_eq. rewrite !Z.eqb_eq.
  assert (0 < 2 ^ (to - b)) by lia. nia.
Qed.

Lemma drop_last6_groups data : Forall (is_group 5) data → Forall (is_group 5) (drop_last6 data).
Proof. apply Forall_take. Qed.

(** The two decoders' outcomes on the part after the checksum agree. *)
Lemma convert_bits_test data :
  Forall (is_group 5) data →
  convert_bits data 5 8 =
    (let r := regroup data 5 8 in
     if negb (r.(bits) =? 0) && negb (Z.land r.(accumulator) (Z.shiftl 1 r.(bits) - 1) =? 0)
     then Err (ValueError "nonzero address padding") else Ok r.(output)).
Proof.
  intros Hd. destruct (regroup_spec 5 8 ltac:(lia) ltac:(lia) data Hd) as [_ Hb _ _ _].
  unfold convert_bits. rewrite padding_test by lia. simpl. by destruct (_ && _).
Qed.

Lemma hrp_one_groups : Forall (is_group 5) (hrp_expand "one").
Proof. unfold is_group. vm_compute. repeat constructor; done. Qed.

Lemma charset_sep t : rfind "1" t = None →
  rfind "1" ("one1" +:+ t) = Some 3%nat ∧ str_take 3 ("one1" +:+ t) = "one" ∧
  str_drop 4 ("one1" +:+ t) = t.
Proof. intros H. split_and!; [by apply rfind_one1|done|done]. Qed.

Lemma removeprefix_app t : removeprefix_0x ("0x" +:+ t) = t.
Proof.
  unfold removeprefix_0x. by rewrite (proj2 (startswith_spec "0x" ("0x" +:+ t))) by eauto.
Qed.

Lemma to_bech32_hex raw :
  Forall is_byte raw → length raw = 20%nat →
  to_bech32 ("0x" +:+ hex raw) =
    (text ← charset_string ((regroup raw 8 5).(output) ++ checksum_digits
       (Z.lxor (polymod ((hrp_expand "one" ++ (regroup raw 8 5).(output)) ++ replicate 6 0)) 1));
     Ok ("one1" +:+ text)).
Proof.
  intros Hraw Hl. destruct (regroup_roundtrip raw Hraw Hl) as (_ & _ & _ & Hp).
  unfold to_bech32. rewrite removeprefix_app.
  rewrite fromhex_hex by done. cbn [of_option mbind result_bind]. rewrite Hl, Hp.
  change (negb (20 =? 20)%nat) with false. cbn [raise_when mbind result_bind].
  cbv zeta. by rewrite <-!app_assoc.
Qed.

(** C21 (roundtrip): every 20-byte address has a Bech32 encoding, and both decoders read it back. *)
Theorem to_bech32_roundtrip raw :
  Forall is_byte raw → length raw = 20%nat →
  ∃ s, to_bech32 ("0x" +:+ hex raw) = Ok s ∧
       decode_address (Some s) = Ok ("0x" +:+ hex raw) ∧
       decode_bech32 s = Ok ("0x" +:+ hex raw).
Proof.
  intros Hraw Hl. destruct (regroup_roundtrip raw Hraw Hl) as (Hlen & Hg & Hback & _).
  set (data := (regroup raw 8 5).(output)) in *.
  set (chk := checksum_digits (Z.lxor (polymod ((hrp_expand "one" ++ data) ++ replicate 6 0)) 1)).
  assert (Hc : Forall (is_group 5) chk) by apply checksum_digits_group.
  destruct (charset_string_spec (data ++ chk)) as (t & Ht & Hi & Hr & Hlow & Htl);
    [by apply Forall_app|].
  exists ("one1" +:+ t). rewrite to_bech32_hex by done. fold data chk. rewrite Ht. split; [done|].
  destruct (charset_sep t Hr) as (Hsep & Htake & Hdrop).
  assert (Hpoly : polymod (hrp_expand "one" ++ data ++ chk) = 1).
  { rewrite app_assoc. apply polymod_checksum; [|done|done|done].
    apply Forall_app. split; [apply hrp_one_groups|done]. }
  assert (Hlo : "one1" +:+ t = lower ("one1" +:+ t)) by (rewrite lower_app, Hlow; done).
  assert (Hst : startswith "one1" ("one1" +:+ t) = true) by (apply startswith_spec; eauto).
  assert (Hd6 : drop_last6 (data ++ chk) = data) by by apply drop_last6_app.
  pose proof Hback as Hb2. rewrite convert_bits_test in Hb2 by done. cbv zeta in Hb2.
  destruct (negb _ && _) eqn:Hpad in Hb2; [done|]. injection Hb2 as Hout.
  split.
  - unfold decode_address. change (startswith "0x" ("one1" +:+ t)) with false. cbv iota.
    unfold decode_one1. rewrite Hst, bool_decide_eq_true_2 by done. simpl negb. simpl orb.
    rewrite Hsep. cbn [of_option raise_when mbind result_bind].
    rewrite Htake, Hdrop, Hi. cbn [of_option raise_when mbind result_bind].
    rewrite Hpoly, length_app, Hlen. change (length chk) with 6%nat. simpl.
    rewrite Hd6, Hback. simpl. by rewrite Hl.
  - unfold decode_bech32. rewrite Hst, bool_decide_eq_true_2 by done. simpl negb. simpl orb.
    rewrite Hsep. cbn [of_option raise_when mbind result_bind].
    rewrite Htake, Hdrop, Hi. cbn [of_option raise_when mbind result_bind].
    rewrite Hpoly. simpl. rewrite Hd6, Hpad. simpl. by rewrite Hout, Hl.
Qed.









(** The length matters: in a longer string a wrong character can move the separator, so that both decode. *)
Example ex_separator_moved :
  is_ok (decode_one1 "one1a0aaaaa0a00a0aa00a0a0000a0000000000000001q0gh7yq7swv77efwfcqy2znp37cmeughqet30g5") = true ∧
  is_ok (decode_one1 "one1a0aaaaa0a00a0aa00a0a0000a000000000000000110gh7yq7swv77efwfcqy2znp37cmeughqet30g5") = true.
Proof. by vm_compute. Qed.

Lemma of_hex_value s a : decode_one1 s = Ok a → ∃ raw, a = "0x" +:+ hex raw ∧ Forall is_byte raw ∧
  length raw = 20%nat.
Proof.
  intros (sep & data & dec & _ & _ & _ & Hd & _ & _ & Hcb & Hlen & ->)%decode_one1_Ok.
  destruct (charset_indices_string _ _ Hd) as (_ & Hg & _).
  exists dec. split_and!; [done| |done].
  rewrite convert_bits_test in Hcb by by apply drop_last6_groups. cbv zeta in Hcb.
  destruct (negb _ && _); [done|]. injection Hcb as <-.
  by apply (regroup_spec 5 8 ltac:(lia) ltac:(lia)), drop_last6_groups.
Qed.

(** A 42-character string that decodes under the prefix [one] is the encoding of the address
    it decodes to: at that length no second string names the same address. *)
Theorem decode_canonical s a :
  decode_one1 s = Ok a → rfind "1" s = Some 3%nat → String.length s = 42%nat → to_bech32 a = Ok s.
Proof.
  intros (sep & data & dec & _ & Hst & Hsep & Hd & H6 & Hpoly & Hcb & Hlen & ->)%decode_one1_Ok H3 H42.
  rewrite Hsep in H3. injection H3 as ->. apply startswith_spec in Hst as [t ->].
  change (str_drop 4 ("one1" +:+ t)) with t in Hd.
  change (str_take 3 ("one1" +:+ t)) with "one" in Hpoly.
  rewrite length_str_app in H42. change (String.length "one1") with 4%nat in H42.
  destruct (charset_indices_string _ _ Hd) as (Hstr & Hg & Hdl).
  set (d := drop_last6 data) in *. set (chk := drop (length data - 6) data).
  assert (Hsplit : data = d ++ chk) by (symmetry; apply take_drop).
  assert (Hchk : length chk = 6%nat) by (unfold chk; rewrite length_drop; lia).
  assert (Hd32 : length d = 32%nat) by (apply (f_equal length) in Hsplit; rewrite length_app in Hsplit; lia).
  assert (Hgd : Forall (is_group 5) d) by by apply drop_last6_groups.
  assert (Hgc : Forall (is_group 5) chk) by by apply Forall_drop.
  destruct (regroup_exact 5 8 ltac:(lia) ltac:(lia) d 20 Hgd) as (_ & _ & Hb & Hv); [lia|].
  destruct (convert_bits_exact 5 8 d 20) as [Hc1 _]; [lia..|done|lia|].
  rewrite Hc1 in Hcb. injection Hcb as Hdec. rewrite Hdec in Hb, Hv.
  destruct (regroup_exact 8 5 ltac:(lia) ltac:(lia) dec 32 Hb) as (_ & Hl2 & Hg2 & Hv2); [lia|].
  assert (Hout : (regroup dec 8 5).(output) = d).
  { apply (be_val_inj 5); [lia|done|done|congruence|congruence]. }
  rewrite to_bech32_hex, Hout by done.
  rewrite Hsplit, app_assoc in Hpoly. apply polymod_checksum in Hpoly; [|by apply Forall_app; split; [apply hrp_one_groups|]|done|done].
  rewrite <-Hpoly, <-Hsplit, Hstr. done.
Qed.

(** The decoders do not check the prefix beyond [startswith("one1")] nor that fewer than
    five padding bits are left over: three different strings decode to one address. *)
Theorem decode_not_injective :
  decode_one1 "one1zhjm728ws5tthz6wa4034pd7e9cdmqsuqfwjrr" = Ok "0x15e5bf28ee8516bb8b4eed5f1a85bec970dd821c" ∧
  decode_one1 "one1zhjm728ws5tthz6wa4034pd7e9cdmqsuqfwjrzp" = Ok "0x15e5bf28ee8516bb8b4eed5f1a85bec970dd821c" ∧
  decode_one1 "one1q1zhjm728ws5tthz6wa4034pd7e9cdmqsu2txtcr" = Ok "0x15e5bf28ee8516bb8b4eed5f1a85bec970dd821c".
Proof. vm_compute. done. Qed.

(** ** Witnesses *)
Definition sample_raw : list Z :=
  default [] (fromhex "15e5bf28ee8516bb8b4eed5f1a85bec970dd821c").

Lemma to_bech32_roundtrip_witness :
  length sample_raw = 20%nat ∧
  ∃ s, to_bech32 ("0x" +:+ hex sample_raw) = Ok s ∧
       decode_address (Some s) = Ok ("0x" +:+ hex sample_raw) ∧
       decode_bech32 s = Ok ("0x" +:+ hex sample_raw).
Proof.
  split; [reflexivity|]. apply (to_bech32_roundtrip sample_raw); [|reflexivity].
  unfold is_byte. vm_compute. repeat constructor; congruence.
Defined.


Lemma decode_canonical_witness :
  to_bech32 "0x15e5bf28ee8516bb8b4eed5f1a85bec970dd821c" =
    Ok "one1zhjm728ws5tthz6wa4034pd7e9cdmqsuqfwjrr".
Proof.
  apply (decode_canonical "one1zhjm728ws5tthz6wa4034pd7e9cdmqsuqfwjrr"); vm_compute; reflexivity.
Defined.
