(* ===== verification/Validators.v ===== *)
(** * The pages of validators

    forensics/undelegation-mint-reconcile.py and forensics/historical-staking-rpc.py read all validators
    of a block from an archive node, page by page up to the first empty page.  The node decides how many pages
    there are, so the loop has fuel; what fuel is enough is in [scan_enough]. *)
From S2P Require Import Prelude PyStr PyData Rpc.

Section node.
Context (transport : nat → string → list json → result json).

Definition validator_page (block page : Z) : result json :=
  rpc transport "hmyv2_getAllValidatorInformationByBlockNumber" [JInt page; JInt block].

(** The items of the pages from [page] up to the first empty one. *)
Inductive listed (block : Z) : Z → list json → Prop :=
  | listed_end page batch :
      validator_page block page = Ok batch → truthy batch = false → listed block page []
  | listed_page page batch infos rest :
      validator_page block page = Ok batch → truthy batch = true → jiter batch = Ok infos →
      listed block (page + 1) rest → listed block page (infos ++ rest).

Section scan.
(** [step] reads one validator, [add] counts those of a page. *)
Context {S : Type} (step : S → json → result S) (add : Z → S → S).

(** [while True: ...; page += 1] *)
Fixpoint scan_validators (fuel : nat) (block page : Z) (st : S) : result S :=
  match fuel with
  | O => Err OutOfFuel
  | Datatypes.S fuel =>
      batch ← validator_page block page;
      if negb (truthy batch) then Ok st
      else
        n ← jlen batch;
        infos ← jiter batch;
        st ← foldM step (add n st) infos;
        scan_validators fuel block (page + 1) st
  end.

(** The count is not read by [step]. *)
Context (add_0 : ∀ st, add 0 st = st) (add_add : ∀ n m st, add n (add m st) = add (m + n) st)
        (step_add : ∀ n st x, step (add n st) x = add n <$> step st x).

Lemma foldM_add n st l : foldM step (add n st) l = add n <$> foldM step st l.
Proof.
  revert st. induction l as [|x l IH]; intros st; [done|]. cbn [foldM]. rewrite step_add.
  destruct (step st x) as [st1|e]; cbn [fmap result_fmap mbind result_bind]; [apply IH|done].
Qed.

(** With fuel for one page more than there are, the loop is one pass over all validators, also when it raises. *)
Lemma scan_enough block page infos :
  listed block page infos →
  ∃ n, ∀ fuel st, (n ≤ fuel)%nat → scan_validators fuel block page st = add (Z.of_nat (length infos)) <$> foldM step st infos.
Proof.
  induction 1 as [page batch Hb Ht|page batch infos rest Hb Ht Hi Hl (n & IH)].
  - exists 1%nat. intros [|fuel] st Hf; [lia|]. cbn [scan_validators]. rewrite Hb. cbn [mbind result_bind]. rewrite Ht. cbn. by rewrite add_0.
  - exists (Datatypes.S n). intros [|fuel] st Hf; [lia|]. cbn [scan_validators]. rewrite Hb. cbn [mbind result_bind]. rewrite Ht. cbn [negb].
    rewrite (jiter_jlen _ _ Hi), Hi. cbn [mbind result_bind]. rewrite foldM_add, foldM_app.
    destruct (foldM step st infos) as [st1|e]; cbn [fmap result_fmap mbind result_bind]; [|done].
    rewrite IH by lia. rewrite foldM_add, length_app, Nat2Z.inj_add.
    destruct (foldM step st1 rest) as [st2|e]; cbn [fmap result_fmap]; [by rewrite add_add|done].
Qed.

(** What a loop that ended has read. *)
Lemma scan_listed fuel block page st st' :
  scan_validators fuel block page st = Ok st' →
  ∃ infos st1, listed block page infos ∧ foldM step st infos = Ok st1 ∧ st' = add (Z.of_nat (length infos)) st1.
Proof.
  revert page st. induction fuel as [|fuel IH]; intros page st H; [done|]. cbn [scan_validators] in H.
  apply bind_Ok in H as (batch & Hb & H). destruct (truthy batch) eqn:Et; cbn [negb] in H.
  - apply bind_Ok in H as (n & Hn & H). apply bind_Ok in H as (infos & Hi & H). apply bind_Ok in H as (st1 & H1 & H).
    rewrite (jiter_jlen _ _ Hi) in Hn. injection Hn as <-. apply IH in H as (rest & st2 & Hl & H2 & ->).
    rewrite foldM_add in H1. apply fmap_Ok in H1 as (st0 & H1 & <-). rewrite foldM_add in H2. apply fmap_Ok in H2 as (st3 & H2 & <-).
    exists (infos ++ rest), st3. split_and!; [by eapply listed_page|by rewrite foldM_app, H1|].
    by rewrite add_add, length_app, Nat2Z.inj_add.
  - injection H as <-. exists [], st. split_and!; [by eapply listed_end|done|by rewrite add_0].
Qed.
End scan.
End node.
