(* ===== verification/Ledger.v ===== *)
(** * The actual-supply ledger

    toolkit/scripts/supply/actual-supply-ledger.py: a four-way merge of the liquid balances of
    two shards, the staking positions and the pending cross-shard receipts into one table of
    claims, keyed by secure key, with its totals.

    [load_pending_receipts], [int_field], [rows] (as [cursor] and [advance]: the generator with
    the row the merge holds from it) and [merge] are the script's functions; one iteration of
    its [while] loop is [merge_step], the loop over the world is [merge_loop].  The merge is
    proved against a reference that knows no cursors: the claims are [claim_at] of every key of
    the four inputs, in increasing order ([merge_reference]). *)
From S2P Require Import Prelude PyStr PyData Sha256 Files Csv Json.

(** ** The inputs *)

(** [pending]: secure key to the receipt's address and the amount owed. *)
Record pending_claim := Pending { pend_address : string; pend_amount : Z }.

Abbreviation pending_claims := (gmap string pending_claim).

(** One receipt of [load_pending_receipts]; the state is [pending] and [total]. *)
Definition load_receipt (s : pending_claims * Z) (receipt : json) : result (pending_claims * Z) :=
  let '(pending, total) := s in
  k ← jget_str "secure_key" receipt;
  let key := lower k in
  to ← jget "to" receipt;
  amount ← jget_int "amount_atto" receipt;
  raise_when (amount <? 0) (ValueError "negative receipt amount");;
  address ← jstr to;
  let entry := default (Pending address 0) (pending !! key) in
  raise_when (negb (bool_decide (lower (pend_address entry) = lower address)))
    (ValueError "receipt address mismatch");;
  Ok (<[key := Pending (pend_address entry) (pend_amount entry + amount)]> pending, total + amount).

Definition load_group (s : pending_claims * Z) (group : json) : result (pending_claims * Z) :=
  receipts ← jiter_or "receipts" group;
  foldM load_receipt s receipts.

Definition load_direction (s : pending_claims * Z) (direction : json) : result (pending_claims * Z) :=
  groups ← jiter_or "pending_groups" direction;
  foldM load_group s groups.

Definition pending_of_report (report : json) : result pending_claims :=
  ds ← jget "directions" report;
  directions ← jiter ds;
  '(pending, total) ← foldM load_direction (∅, 0) directions;
  active ← jget_int "pending_active_atto" report;
  raise_when (negb (total =? active)) (ValueError "pending receipt sum");;
  Ok pending.

Definition load_pending_receipts (path : string) : IO (pending_claims * json) :=
  report ← load_json path;
  pending ← lift (pending_of_report report);
  mret (pending, report).

(** [rows(path, kind)]: the generator's [previous] and the rows it has not read, with the row
    [next_or_none] last took from it. *)
Record cursor := Cursor {
  cur_head : option row;
  cur_previous : option string;
  cur_remaining : list row;
}.

Definition tag_row (kind key : string) (r : row) : row :=
  <["_kind" := Some kind]> (<["secure_key" := Some key]> r).

(** [next_or_none(rows)] *)
Definition advance (kind : string) (c : cursor) : result cursor :=
  match cur_remaining c with
  | [] => Ok (Cursor None (cur_previous c) [])
  | r :: rs =>
      k ← cell_str r "secure_key";
      let key := lower k in
      raise_when (match cur_previous c with Some p => str_leb key p | None => false end)
        (ValueError "secure keys are not strictly increasing");;
      Ok (Cursor (Some (tag_row kind key r)) (Some key) rs)
  end.

Definition open_rows (path kind : string) : IO cursor :=
  text ← read path;
  lift (advance kind (Cursor None None (dict_rows text))).

(** ** One claim *)

(** [int_field(row, field)] *)
Definition int_field (r : option row) (field : string) : result Z :=
  match r with
  | None => Ok 0
  | Some r =>
      value ← cell_int r field;
      raise_when (value <? 0) (ValueError "negative");;
      Ok value
  end.

Record claim := Claim {
  cl_key : string;
  cl_address : string;
  cl_liquid0 : Z;
  cl_liquid1 : Z;
  cl_active : Z;
  cl_undelegation : Z;
  cl_reward : Z;
  cl_pending : Z;
  cl_nonce0 : string;
  cl_nonce1 : string;
  cl_code0 : string;
  cl_code1 : string;
}.

Definition cl_liquid (c : claim) : Z := cl_liquid0 c + cl_liquid1 c.

Definition cl_total (c : claim) : Z :=
  cl_liquid c + cl_active c + cl_undelegation c + cl_reward c + cl_pending c.

(** [current and current["address"]], kept if it is truthy *)
Definition address_of (r : option row) : result (list string) :=
  match r with
  | None => Ok []
  | Some r =>
      a ← cell r "address";
      Ok (match a with Some (String _ _ as s) => [s] | _ => [] end)
  end.

Definition receipt_address (p : option pending_claim) : list string :=
  match p with
  | Some p => match pend_address p with EmptyString => [] | a => [a] end
  | None => []
  end.

Definition optional_text (r : option row) (field : string) : result string :=
  match r with None => Ok EmptyString | Some r => cell_text <$> cell r field end.

(** The claim of [key] from the rows that carry it: the loop's body after the cursors moved. *)
Definition make_claim (key : string) (current0 current1 current_stake : option row)
    (current_receipt : option pending_claim) : result claim :=
  a0 ← address_of current0;
  a1 ← address_of current1;
  a2 ← address_of current_stake;
  let addresses := a0 ++ a1 ++ a2 ++ receipt_address current_receipt in
  let address := default EmptyString (head addresses) in
  raise_when (existsb (λ a, negb (bool_decide (lower a = lower address))) (tail addresses))
    (ValueError "address mismatch");;
  liquid0_value ← int_field current0 "balance_atto";
  liquid1_value ← int_field current1 "balance_atto";
  active ← int_field current_stake "active_delegation_atto";
  undelegation ← int_field current_stake "pending_undelegation_atto";
  reward ← int_field current_stake "unclaimed_reward_atto";
  let pending_receipt := match current_receipt with Some p => pend_amount p | None => 0 end in
  let liquid := liquid0_value + liquid1_value in
  let total := liquid + active + undelegation + reward + pending_receipt in
  raise_when (total <=? 0) (ValueError "non-positive merged claim");;
  nonce0 ← optional_text current0 "nonce";
  nonce1 ← optional_text current1 "nonce";
  code0 ← optional_text current0 "code_hash";
  code1 ← optional_text current1 "code_hash";
  Ok (Claim key address liquid0_value liquid1_value active undelegation reward pending_receipt
        nonce0 nonce1 code0 code1).

Definition ledger_header : list string :=
  ["secure_key"; "address"; "liquid_shard0_atto"; "liquid_shard1_atto"; "liquid_total_atto";
   "active_delegation_atto"; "pending_undelegation_atto"; "unclaimed_reward_atto";
   "pending_cross_shard_atto"; "total_claim_atto"; "nonce_shard0"; "nonce_shard1";
   "code_hash_shard0"; "code_hash_shard1"].

Definition claim_record (c : claim) : list string :=
  [cl_key c; cl_address c; str_of_Z (cl_liquid0 c); str_of_Z (cl_liquid1 c); str_of_Z (cl_liquid c);
   str_of_Z (cl_active c); str_of_Z (cl_undelegation c); str_of_Z (cl_reward c);
   str_of_Z (cl_pending c); str_of_Z (cl_total c); cl_nonce0 c; cl_nonce1 c; cl_code0 c; cl_code1 c].

(** ** The summary's counters *)
Record totals := Totals {
  t_rows : Z;
  t_without_address : Z;
  t_liquid0 : Z;
  t_liquid1 : Z;
  t_active : Z;
  t_undelegation : Z;
  t_reward : Z;
  t_pending : Z;
  t_total : Z;
}.

Definition no_totals : totals := Totals 0 0 0 0 0 0 0 0 0.

Definition add_claim (s : totals) (c : claim) : totals :=
  Totals (t_rows s + 1)
    (t_without_address s + (match cl_address c with EmptyString => 1 | _ => 0 end))
    (t_liquid0 s + cl_liquid0 c) (t_liquid1 s + cl_liquid1 c) (t_active s + cl_active c)
    (t_undelegation s + cl_undelegation c) (t_reward s + cl_reward c)
    (t_pending s + cl_pending c) (t_total s + cl_total c).

(** ** The merge loop *)
Record merge_state := MergeState {
  st_liquid0 : cursor;
  st_liquid1 : cursor;
  st_staking : cursor;
  st_receipt_keys : list string;
}.

(** [row["secure_key"]] of a row [rows] has yielded: the generator stored a string there. *)
Definition row_key (r : row) : string := default EmptyString (cell_get r "secure_key").

Definition min_str (a b : string) : string := if str_leb a b then a else b.

Fixpoint min_key (l : list string) : option string :=
  match l with
  | [] => None
  | k :: l => Some (match min_key l with Some k' => min_str k k' | None => k end)
  end.

Definition head_keys (st : merge_state) : list string :=
  option_list (row_key <$> cur_head (st_liquid0 st)) ++
  option_list (row_key <$> cur_head (st_liquid1 st)) ++
  option_list (row_key <$> cur_head (st_staking st)) ++
  option_list (head (st_receipt_keys st)).

(** [row if row and row["secure_key"] == key else None] *)
Definition current (c : cursor) (key : string) : option row :=
  match cur_head c with
  | Some r => if decide (row_key r = key) then Some r else None
  | None => None
  end.

Definition advance_if (kind key : string) (c : cursor) : result cursor :=
  match current c key with Some _ => advance kind c | None => Ok c end.

Definition advance_keys (key : string) (ks : list string) : list string :=
  match ks with
  | k :: ks' => if decide (k = key) then ks' else ks
  | [] => []
  end.

(** One iteration for the smallest key: the claim it writes and the state it leaves. *)
Definition merge_step (receipt_claims : pending_claims) (key : string) (st : merge_state) :
    result (claim * merge_state) :=
  let current0 := current (st_liquid0 st) key in
  let current1 := current (st_liquid1 st) key in
  let current_stake := current (st_staking st) key in
  let current_receipt := receipt_claims !! key in
  liquid0 ← advance_if "liquid0" key (st_liquid0 st);
  liquid1 ← advance_if "liquid1" key (st_liquid1 st);
  staking ← advance_if "staking" key (st_staking st);
  let keys := advance_keys key (st_receipt_keys st) in
  c ← make_claim key current0 current1 current_stake current_receipt;
  Ok (c, MergeState liquid0 liquid1 staking keys).

Fixpoint merge_loop (fuel : nat) (output_partial : string) (receipt_claims : pending_claims)
    (st : merge_state) (summary : totals) : IO totals :=
  match min_key (head_keys st) with
  | None => mret summary
  | Some key =>
      match fuel with
      | O => throw OutOfFuel
      | S fuel =>
          '(c, st) ← lift (merge_step receipt_claims key st);
          write output_partial (csv_line (claim_record c)) ≫= λ _,
          merge_loop fuel output_partial receipt_claims st (add_claim summary c)
      end
  end.

(** Rows and keys left, the loop's fuel. *)
Definition cursor_left (c : cursor) : nat :=
  (match cur_head c with Some _ => 1 | None => 0 end + length (cur_remaining c))%nat.

Definition merge_left (st : merge_state) : nat :=
  (cursor_left (st_liquid0 st) + cursor_left (st_liquid1 st) + cursor_left (st_staking st) +
   length (st_receipt_keys st))%nat.

(** ** The script *)
Record merge_args := MergeArgs {
  shard0_liquid : string;
  shard1_liquid : string;
  staking_path : string;
  receipts_path : string;
  output : string;
  summary_output : string;
}.

Definition file_sha256 : string → IO string := file_sha256_at (Z.to_nat (4 * 1024 * 1024)).

Definition hash_inputs (args : merge_args) : IO (list (string * json)) :=
  h0 ← file_sha256 (shard0_liquid args);
  h1 ← file_sha256 (shard1_liquid args);
  h2 ← file_sha256 (staking_path args);
  h3 ← file_sha256 (receipts_path args);
  mret [("shard0_liquid", JStr h0); ("shard1_liquid", JStr h1); ("staking", JStr h2);
        ("receipts", JStr h3)].

Definition summary_json (args : merge_args) (hashes : list (string * json)) (retired : json)
    (s : totals) (output_sha256 : string) : json :=
  JObj [("input_sha256", JObj hashes);
        ("rows", JInt (t_rows s));
        ("rows_without_address", JInt (t_without_address s));
        ("liquid_shard0_atto", JStr (str_of_Z (t_liquid0 s)));
        ("liquid_shard1_atto", JStr (str_of_Z (t_liquid1 s)));
        ("active_delegation_atto", JStr (str_of_Z (t_active s)));
        ("pending_undelegation_atto", JStr (str_of_Z (t_undelegation s)));
        ("unclaimed_reward_atto", JStr (str_of_Z (t_reward s)));
        ("pending_cross_shard_atto", JStr (str_of_Z (t_pending s)));
        ("total_claim_atto", JStr (str_of_Z (t_total s)));
        ("retired_shard_receipt_status_unknown_atto", retired);
        ("output_path", JStr (output args));
        ("output_sha256", JStr output_sha256)].

(** The body of the [try]: the table, then the summary. *)
Definition write_ledger (args : merge_args) (hashes : list (string * json)) (retired : json)
    (receipt_claims : pending_claims) (st : merge_state) : IO json :=
  let output_partial := partial (output args) in
  create output_partial ≫= λ _,
  write output_partial (csv_line ledger_header) ≫= λ _,
  summary ← merge_loop (merge_left st) output_partial receipt_claims st no_totals;
  sync ≫= λ _,
  replace output_partial (output args) ≫= λ _,
  digest ← file_sha256 (output args);
  let result := summary_json args hashes retired summary digest in
  publish (summary_output args) [dumps result; newline] ≫= λ _,
  mret result.

Definition cleanup (args : merge_args) : IO unit :=
  for_io remove_quiet [partial (output args); partial (summary_output args)].

Definition load_state (args : merge_args) (receipt_claims : pending_claims) : IO merge_state :=
  let receipt_keys := sort_by str_leb (elements (dom receipt_claims)) in
  liquid0 ← open_rows (shard0_liquid args) "liquid0";
  liquid1 ← open_rows (shard1_liquid args) "liquid1";
  staking ← open_rows (staking_path args) "staking";
  mret (MergeState liquid0 liquid1 staking receipt_keys).

Definition merge (args : merge_args) : IO json :=
  for_io refuse_existing [output args; summary_output args] ≫= λ _,
  hashes ← hash_inputs args;
  '(receipt_claims, receipt_report) ← load_pending_receipts (receipts_path args);
  st ← load_state args receipt_claims;
  retired ← lift (jget "unsupported_pending_atto" receipt_report);
  on_exception (write_ledger args hashes retired receipt_claims st) (cleanup args).

(** ** The reference: every key of the inputs, in increasing order *)

(** The rows a cursor still yields, as the generator tags them. *)
Definition tagged (kind : string) (r : row) : row :=
  tag_row kind (lower (default EmptyString (cell_get r "secure_key"))) r.

Definition stream (kind : string) (c : cursor) : list row :=
  option_list (cur_head c) ++ (tagged kind <$> cur_remaining c).

Definition find_row (key : string) (rows : list row) : option row :=
  head (filter (λ r, row_key r = key) rows).

Definition claim_at (receipt_claims : pending_claims) (s0 s1 ss : list row) (key : string) :
    result claim :=
  make_claim key (find_row key s0) (find_row key s1) (find_row key ss) (receipt_claims !! key).

(** The claims the loop writes, without the world. *)
Fixpoint claims_of (fuel : nat) (receipt_claims : pending_claims) (st : merge_state) :
    result (list claim) :=
  match min_key (head_keys st) with
  | None => Ok []
  | Some key =>
      match fuel with
      | O => Err OutOfFuel
      | S fuel =>
          '(c, st) ← merge_step receipt_claims key st;
          cs ← claims_of fuel receipt_claims st;
          Ok (c :: cs)
      end
  end.

(** A cursor on rows whose keys strictly increase. *)
Record cursor_ok (kind : string) (c : cursor) : Prop := {
  ok_keys : Forall (λ r, ∃ k, r !! "secure_key" = Some (Some k)) (cur_remaining c);
  ok_sorted : StronglySorted str_lt (row_key <$> stream kind c);
  ok_end : cur_head c = None → cur_remaining c = [];
  ok_previous : is_Some (cur_head c) → cur_previous c = row_key <$> cur_head c;
}.

Definition keys_of (st : merge_state) : list string :=
  (row_key <$> stream "liquid0" (st_liquid0 st)) ++
  (row_key <$> stream "liquid1" (st_liquid1 st)) ++
  (row_key <$> stream "staking" (st_staking st)) ++ st_receipt_keys st.

Record state_ok (st : merge_state) : Prop := {
  ok_liquid0 : cursor_ok "liquid0" (st_liquid0 st);
  ok_liquid1 : cursor_ok "liquid1" (st_liquid1 st);
  ok_staking : cursor_ok "staking" (st_staking st);
  ok_receipts : StronglySorted str_lt (st_receipt_keys st);
}.

(** ** Lemmas: keys and cursors *)
Lemma row_key_tag kind key r : row_key (tag_row kind key r) = key.
Proof.
  unfold row_key, cell_get, tag_row. rewrite lookup_insert_ne by done. by rewrite lookup_insert_eq.
Qed.

Lemma min_str_le a b : str_leb (min_str a b) a = true ∧ str_leb (min_str a b) b = true.
Proof.
  unfold min_str. destruct (str_leb a b) eqn:E.
  - split; [|done]. destruct (str_leb_total a a); done.
  - destruct (str_leb_total a b); [congruence|]. split; [done|]. destruct (str_leb_total b b); done.
Qed.

Lemma min_key_spec l k :
  min_key l = Some k → k ∈ l ∧ ∀ k', k' ∈ l → str_leb k k' = true.
Proof.
  revert k. induction l as [|a l IH]; intros k; simpl; [done|].
  intros [= <-]. destruct (min_key l) as [m|] eqn:E.
  - destruct (IH m eq_refl) as [Hm Hmin]. destruct (min_str_le a m) as [Ha Hb]. split.
    + unfold min_str. case_match; set_solver.
    + intros k' [->|Hk']%elem_of_cons; [done|]. eapply str_leb_trans; [apply Hb|by apply Hmin].
  - destruct l; [|done]. split; [set_solver|].
    intros k' ->%list_elem_of_singleton. by destruct (str_leb_total a a).
Qed.

Lemma min_key_None l : min_key l = None ↔ l = [].
Proof. by destruct l. Qed.

Lemma sorted_head_le (l : list string) k k' :
  StronglySorted str_lt l → head l = Some k → k' ∈ l → k' = k ∨ str_lt k k'.
Proof.
  destruct l as [|a l]; simpl; [done|]. intros Hs [= ->] Hk.
  apply StronglySorted_inv in Hs as [_ Hall]. rewrite Forall_forall in Hall.
  apply elem_of_cons in Hk as [->|Hk]; auto.
Qed.

(** Two strictly increasing lists with the same elements are equal. *)
Lemma sorted_unique (l1 l2 : list string) :
  StronglySorted str_lt l1 → StronglySorted str_lt l2 → (∀ k, k ∈ l1 ↔ k ∈ l2) → l1 = l2.
Proof.
  intros H1. revert l2. induction H1 as [|a l1 H1 IH Ha]; intros l2 H2 He.
  - destruct l2 as [|b l2]; [done|]. destruct (He b) as [_ Hb]. set_solver.
  - destruct H2 as [|b l2 H2 Hb].
    { destruct (He a) as [Hb _]. set_solver. }
    rewrite Forall_forall in Ha, Hb.
    assert (a = b) as ->.
    { destruct (He a) as [Hab _], (He b) as [_ Hba].
      specialize (Hab ltac:(set_solver)). specialize (Hba ltac:(set_solver)).
      apply elem_of_cons in Hab as [->|Hab]; [done|].
      apply elem_of_cons in Hba as [->|Hba]; [done|].
      destruct (str_lt_irrefl a). trans b; auto. }
    f_equal. apply IH; [done|]. intros k.
    assert (Hn1 : b ∉ l1) by (intros H; by apply (str_lt_irrefl b), Ha).
    assert (Hn2 : b ∉ l2) by (intros H; by apply (str_lt_irrefl b), Hb).
    specialize (He k). set_solver.
Qed.

Lemma fmap_filter_key {A} (f : A → string) key (l : list A) :
  f <$> filter (λ x, f x ≠ key) l = filter (λ k, k ≠ key) (f <$> l).
Proof.
  induction l as [|x l IH]; [done|]. rewrite fmap_cons, !filter_cons.
  destruct (decide (f x ≠ key)); by rewrite ?fmap_cons, IH.
Qed.

Lemma filter_id {A} (P : A → Prop) `{∀ x, Decision (P x)} (l : list A) : (∀ x, x ∈ l → P x) → filter P l = l.
Proof.
  induction l as [|x l IH]; intros Hl; [done|]. rewrite filter_cons_True by (apply Hl; set_solver).
  by rewrite IH by (intros; apply Hl; set_solver).
Qed.

Lemma filter_nil_iff {A} (P : A → Prop) `{∀ x, Decision (P x)} (l : list A) : (∀ x, x ∈ l → ¬ P x) → filter P l = [].
Proof.
  induction l as [|x l IH]; intros Hl; [done|]. rewrite filter_cons_False by (apply Hl; set_solver).
  apply IH. intros; apply Hl; set_solver.
Qed.

Lemma sorted_filter (P : string → Prop) `{∀ x, Decision (P x)} l :
  StronglySorted str_lt l → StronglySorted str_lt (filter P l).
Proof.
  induction 1 as [|x l Hl IH Hx]; [constructor|]. rewrite filter_cons. case_decide; [|done].
  constructor; [done|]. apply Forall_forall. intros y [_ Hy]%list_elem_of_filter.
  rewrite Forall_forall in Hx. auto.
Qed.

(** [key] is at most every key of [l]. *)
Definition lower_bound (key : string) (l : list string) : Prop := ∀ k, k ∈ l → str_leb key k = true.

(** In a strictly increasing list, a lower bound can only be the first element. *)
Lemma lower_bound_tail key x l :
  StronglySorted str_lt (x :: l) → lower_bound key (x :: l) → ∀ k, k ∈ l → k ≠ key.
Proof.
  intros Hs Hb k Hk ->. apply StronglySorted_inv in Hs as [_ Hs]. rewrite Forall_forall in Hs.
  apply Hs in Hk. specialize (Hb x ltac:(set_solver)).
  apply str_leb_true in Hb as [Hb| ->]; [|by apply str_lt_irrefl in Hk].
  apply (str_lt_irrefl x). by trans key.
Qed.

Lemma advance_keys_filter key ks :
  StronglySorted str_lt ks → lower_bound key ks → advance_keys key ks = filter (λ k, k ≠ key) ks.
Proof.
  intros Hs Hb. destruct ks as [|x ks]; [done|]. simpl.
  pose proof (lower_bound_tail _ _ _ Hs Hb) as Hne.
  destruct (decide (x = key)) as [->|Hx].
  - rewrite filter_cons_False by tauto. by rewrite filter_id.
  - by rewrite filter_cons_True, filter_id by done.
Qed.

Section cursors.
Context (kind : string).

Lemma stream_cases c : cursor_ok kind c →
  (cur_head c = None ∧ stream kind c = []) ∨
  (∃ r, cur_head c = Some r ∧ stream kind c = r :: (tagged kind <$> cur_remaining c)).
Proof.
  intros Hok. unfold stream. destruct (cur_head c) as [r|] eqn:E; [right; by exists r|].
  left. by rewrite (ok_end _ _ Hok E).
Qed.

Lemma cursor_left_stream c : cursor_left c = length (stream kind c).
Proof. unfold cursor_left, stream. rewrite length_app, length_fmap. by destruct (cur_head c). Qed.

Context (c : cursor) (key : string) (Hok : cursor_ok kind c)
        (Hb : lower_bound key (row_key <$> stream kind c)).

Lemma stream_tail_ne r rs : stream kind c = r :: rs → ∀ x, x ∈ rs → row_key x ≠ key.
Proof using Hok Hb.
  intros E x Hx. pose proof (ok_sorted _ _ Hok) as Hs. rewrite E in Hs, Hb. simpl in *.
  eapply lower_bound_tail; [done..|]. by apply list_elem_of_fmap_2.
Qed.

(** The row the merge compares with its key is the row of that key in the stream. *)
Lemma current_find : current c key = find_row key (stream kind c).
Proof using Hok Hb.
  unfold current, find_row.
  destruct (stream_cases c Hok) as [[-> ->]|(r & -> & E)]; [done|].
  pose proof (stream_tail_ne _ _ E) as Hne. rewrite E, filter_cons.
  case_decide; [done|]. by rewrite filter_nil_iff.
Qed.

(** Advancing a cursor on valid rows succeeds, and drops exactly the rows of [key]. *)
Lemma advance_if_ok : ∃ c',
  advance_if kind key c = Ok c' ∧ cursor_ok kind c' ∧
  stream kind c' = filter (λ r, row_key r ≠ key) (stream kind c).
Proof using Hok Hb.
  unfold advance_if, current.
  destruct (stream_cases c Hok) as [[Eh E]|(r & Eh & E)]; rewrite Eh.
  { exists c. split_and!; [done..|]. by rewrite E. }
  pose proof (stream_tail_ne _ _ E) as Hne. case_decide as Hk.
  - rewrite E, filter_cons_False, filter_id by (done || tauto).
    pose proof (ok_sorted _ _ Hok) as Hs. rewrite E, fmap_cons in Hs. apply StronglySorted_inv in Hs as [Hs Hr].
    unfold advance. destruct (cur_remaining c) as [|r2 rs] eqn:Er.
    { eexists. split_and!; [done| |done]. split; simpl; [constructor|constructor|done|]. by intros []. }
    pose proof (ok_keys _ _ Hok) as Hks. rewrite Er in Hks.
    apply Forall_cons in Hks as [[k2 Hk2] Hks].
    assert (Ht : tagged kind r2 = tag_row kind (lower k2) r2).
    { unfold tagged, cell_get. by rewrite Hk2. }
    unfold cell_str, cell. rewrite Hk2. cbn [of_option mbind result_bind].
    rewrite (ok_previous _ _ Hok), Eh by (rewrite Eh; eauto).
    rewrite !fmap_cons, Forall_cons, Ht, row_key_tag in Hr. destruct Hr as [Hr _].
    assert (Hlt : str_leb (lower k2) (row_key r) = false).
    { rewrite str_leb_ltb. unfold str_lt in Hr. by rewrite Hr. }
    cbn [fmap option_fmap option_map]. rewrite Hlt. cbn [raise_when mbind result_bind].
    eexists. split_and!; [done| |unfold stream; simpl; by rewrite Ht].
    split; simpl; [done| |done|].
    + unfold stream. simpl. rewrite !fmap_cons in Hs. by rewrite <-Ht.
    + intros _. by rewrite row_key_tag.
  - exists c. split_and!; [done..|]. by rewrite E, filter_cons_True, filter_id.
Qed.
End cursors.

(** ** Lemmas: the loop without the world *)
Definition reference (rc : pending_claims) (st : merge_state) : list string → result (list claim) :=
  mapR (claim_at rc (stream "liquid0" (st_liquid0 st)) (stream "liquid1" (st_liquid1 st))
         (stream "staking" (st_staking st))).

Lemma merge_left_keys st : merge_left st = length (keys_of st).
Proof.
  unfold merge_left, keys_of.
  rewrite (cursor_left_stream "liquid0"), (cursor_left_stream "liquid1"), (cursor_left_stream "staking").
  rewrite !length_app, !length_fmap. lia.
Qed.

Lemma stream_head kind c : cursor_ok kind c → head (row_key <$> stream kind c) = row_key <$> cur_head c.
Proof. intros Hok. destruct (stream_cases kind c Hok) as [[-> ->]|(r & -> & ->)]; done. Qed.

Lemma head_keys_streams st : state_ok st →
  head_keys st =
  option_list (head (row_key <$> stream "liquid0" (st_liquid0 st))) ++
  option_list (head (row_key <$> stream "liquid1" (st_liquid1 st))) ++
  option_list (head (row_key <$> stream "staking" (st_staking st))) ++
  option_list (head (st_receipt_keys st)).
Proof. intros [H0 H1 H2 _]. by rewrite !stream_head by done. Qed.

(** The loop's key is the smallest key left. *)
Lemma head_keys_min st k :
  state_ok st → min_key (head_keys st) = Some k → k ∈ keys_of st ∧ lower_bound k (keys_of st).
Proof.
  intros Hok Hk. apply min_key_spec in Hk as [Hin Hmin]. rewrite head_keys_streams in * by done.
  unfold keys_of.
  assert (Hsub : ∀ l x, x ∈ option_list (head l) → x ∈ (l : list string)).
  { intros [|a l] x; simpl; set_solver. }
  assert (Hle : ∀ l x, StronglySorted str_lt l → (∀ h, h ∈ option_list (head l) → str_leb k h = true) →
            x ∈ l → str_leb k x = true).
  { intros [|a l] x Hs Hh Hx; [set_solver|].
    destruct (sorted_head_le (a :: l) a x Hs eq_refl Hx) as [->|Hlt]; [apply Hh; by left|].
    eapply str_leb_trans; [apply (Hh a); by left|]. apply str_leb_true. by left. }
  destruct Hok as [[_ H0 _ _] [_ H1 _ _] [_ H2 _ _] H3]. split.
  { rewrite !elem_of_app in *. destruct Hin as [H|[H|[H|H]]]; apply Hsub in H; tauto. }
  intros x Hx. rewrite !elem_of_app in Hx.
  destruct Hx as [Hx|[Hx|[Hx|Hx]]]; (eapply Hle; [| |exact Hx]; [done|]); intros h Hh; apply Hmin;
    rewrite !elem_of_app; tauto.
Qed.

Lemma head_keys_nil st : state_ok st → min_key (head_keys st) = None → keys_of st = [].
Proof.
  intros Hok Hk%min_key_None. rewrite head_keys_streams in Hk by done. unfold keys_of.
  assert (Hnil : ∀ l : list string, option_list (head l) = [] → l = []) by (by intros []).
  apply app_eq_nil in Hk as [E0%Hnil Hk]. apply app_eq_nil in Hk as [E1%Hnil Hk].
  apply app_eq_nil in Hk as [E2%Hnil E3%Hnil]. by rewrite E0, E1, E2, E3.
Qed.

(** One step on valid cursors: the claim is the reference's claim of the smallest key, and
    exactly the rows of that key are gone. *)
Lemma merge_step_spec rc st k :
  state_ok st → lower_bound k (keys_of st) →
  ∃ st', merge_step rc k st =
    (c ← claim_at rc (stream "liquid0" (st_liquid0 st)) (stream "liquid1" (st_liquid1 st))
           (stream "staking" (st_staking st)) k; Ok (c, st')) ∧
    state_ok st' ∧
    (∀ kind sel, (kind, sel) ∈ [("liquid0", st_liquid0); ("liquid1", st_liquid1); ("staking", st_staking)] →
      stream kind (sel st') = filter (λ r, row_key r ≠ k) (stream kind (sel st))) ∧
    keys_of st' = filter (λ x, x ≠ k) (keys_of st).
Proof.
  intros Hok Hb. unfold lower_bound, keys_of in Hb.
  destruct (advance_if_ok "liquid0" (st_liquid0 st) k) as (c0 & E0 & H0 & F0); [apply Hok|intros x ?; apply Hb; set_solver|].
  destruct (advance_if_ok "liquid1" (st_liquid1 st) k) as (c1 & E1 & H1 & F1); [apply Hok|intros x ?; apply Hb; set_solver|].
  destruct (advance_if_ok "staking" (st_staking st) k) as (c2 & E2 & H2 & F2); [apply Hok|intros x ?; apply Hb; set_solver|].
  exists (MergeState c0 c1 c2 (advance_keys k (st_receipt_keys st))).
  rewrite advance_keys_filter by (apply Hok || (intros x ?; apply Hb; set_solver)).
  split_and!.
  - unfold merge_step. rewrite E0, E1, E2. cbn [mbind result_bind].
    rewrite (current_find "liquid0"), (current_find "liquid1"), (current_find "staking")
      by (apply Hok || (intros x ?; apply Hb; set_solver)).
    rewrite advance_keys_filter by (apply Hok || (intros x ?; apply Hb; set_solver)). done.
  - split; simpl; [done..|]. apply sorted_filter, Hok.
  - intros kind sel Hin. rewrite !elem_of_cons in Hin.
    destruct Hin as [[= -> ->]|[[= -> ->]|[[= -> ->]|Hin]]]; [done..|set_solver].
  - unfold keys_of. simpl. rewrite F0, F1, F2, !filter_app, !fmap_filter_key. done.
Qed.

Lemma find_row_filter k k' rows :
  k' ≠ k → find_row k' (filter (λ r, row_key r ≠ k) rows) = find_row k' rows.
Proof.
  intros Hne. unfold find_row. rewrite list_filter_filter_l; [done|]. by intros r -> ?.
Qed.

Lemma claim_at_filter rc k k' s0 s1 s2 :
  k' ≠ k →
  claim_at rc (filter (λ r, row_key r ≠ k) s0) (filter (λ r, row_key r ≠ k) s1)
    (filter (λ r, row_key r ≠ k) s2) k' = claim_at rc s0 s1 s2 k'.
Proof. intros Hne. unfold claim_at. by rewrite !find_row_filter. Qed.

(** The merge of valid inputs is the reference: the loop stops with the claims of all keys in
    order, or with the error of the first key whose rows do not make a claim. *)
Lemma claims_of_reference fuel rc st ks :
  state_ok st → (merge_left st ≤ fuel)%nat →
  StronglySorted str_lt ks → (∀ k, k ∈ ks ↔ k ∈ keys_of st) →
  claims_of fuel rc st = reference rc st ks.
Proof.
  revert st ks. induction fuel as [|fuel IH]; intros st ks Hok Hf Hs Hks.
  { rewrite merge_left_keys in Hf. destruct (keys_of st) as [|] eqn:E; [|simpl in Hf; lia].
    destruct ks as [|k ks]; [|by destruct (not_elem_of_nil k); apply Hks; left].
    cbn [claims_of]. destruct (min_key (head_keys st)) eqn:Em; [|done].
    apply head_keys_min in Em as [Hin _]; [|done]. rewrite E in Hin. set_solver. }
  cbn [claims_of]. destruct (min_key (head_keys st)) as [k|] eqn:Em.
  - apply head_keys_min in Em as [Hin Hb]; [|done].
    destruct ks as [|k2 ks]; [by apply Hks, not_elem_of_nil in Hin|].
    assert (k2 = k) as ->.
    { destruct (sorted_head_le _ k2 k Hs eq_refl) as [|Hlt]; [by apply Hks|done|].
      specialize (Hb k2). rewrite <-Hks in Hb. specialize (Hb ltac:(set_solver)).
      apply str_leb_true in Hb as [Hb|]; [|done]. destruct (str_lt_irrefl k). by trans k2. }
    apply StronglySorted_inv in Hs as [Hs Hk]. rewrite Forall_forall in Hk.
    assert (Hnk : k ∉ ks) by (intros H; by apply (str_lt_irrefl k), Hk).
    destruct (merge_step_spec rc st k Hok Hb) as (st' & -> & Hok' & Hst & Hk').
    unfold reference. cbn [mapR]. destruct (claim_at _ _ _ _ k) as [c|e]; cbn [mbind result_bind]; [|done].
    rewrite (IH st' ks); [|done| |done|].
    + unfold reference. rewrite !Hst by set_solver. f_equal.
      rewrite (mapR_ext _ (claim_at rc (stream "liquid0" (st_liquid0 st)) (stream "liquid1" (st_liquid1 st))
        (stream "staking" (st_staking st)))); [done|].
      intros x Hx. apply claim_at_filter. by intros ->.
    + rewrite merge_left_keys, Hk'. rewrite merge_left_keys in Hf.
      assert (length (filter (λ x, x ≠ k) (keys_of st)) < length (keys_of st))%nat; [|lia].
      apply length_filter_lt with k; [done|tauto].
    + intros x. rewrite Hk', list_elem_of_filter, <-Hks, elem_of_cons. split; [|tauto].
      intros Hx. split; [by intros ->|auto].
  - apply head_keys_nil in Em; [|done]. rewrite Em in Hks.
    destruct ks as [|k ks]; [done|]. by destruct (not_elem_of_nil k); apply Hks; left.
Qed.

(** ** Lemmas: what a merge that returned says of its inputs *)

(** What every cursor of the loop satisfies, whatever its rows. *)
Record cursor_wf (c : cursor) : Prop := {
  wf_end : cur_head c = None → cur_remaining c = [];
  wf_previous : is_Some (cur_head c) → cur_previous c = row_key <$> cur_head c;
}.

Lemma advance_Ok kind c c' :
  advance kind c = Ok c' →
  cursor_wf c' ∧
  (cur_remaining c = [] ∧ cur_head c' = None ∧ cur_remaining c' = [] ∨
   ∃ r rs k, cur_remaining c = r :: rs ∧ r !! "secure_key" = Some (Some k) ∧
     cur_head c' = Some (tagged kind r) ∧ cur_remaining c' = rs ∧
     (∀ p, cur_previous c = Some p → str_lt p (lower k))).
Proof.
  unfold advance. destruct (cur_remaining c) as [|r rs].
  { intros [= <-]. split; [split; [done|by intros []]|]. by left. }
  intros H. inv_ok H. apply cell_str_Ok in E. subst c'. simpl.
  split; [split; simpl; [done|by rewrite row_key_tag]|].
  right. exists r, rs, v. unfold tagged, cell_get. rewrite E. split_and!; [done..|].
  intros p Hp. rewrite Hp in E0. rewrite str_leb_ltb in E0. by apply negb_false_iff in E0.
Qed.

(** A cursor that could advance to a valid one was valid. *)
Lemma advance_valid kind c c' r :
  cursor_wf c → cur_head c = Some r → advance kind c = Ok c' → cursor_ok kind c' → cursor_ok kind c.
Proof.
  intros Hwf Hr Ha Hok. apply advance_Ok in Ha as [_ Ha].
  destruct Ha as [(Er & Eh & Er')|(r2 & rs & k & Er & Hk & Eh & Er' & Hlt)].
  - split; rewrite ?Er, ?Hr; [constructor| |done|intros _; rewrite (wf_previous _ Hwf), Hr by (rewrite Hr; eauto); done].
    unfold stream. rewrite Er, Hr. simpl. repeat constructor.
  - assert (Hs : stream kind c = r :: stream kind c').
    { unfold stream. by rewrite Hr, Er, Eh, Er'. }
    split; rewrite ?Er, ?Hr.
    + constructor; [eauto|]. rewrite <-Er'. apply Hok.
    + rewrite Hs, fmap_cons. constructor; [apply Hok|].
      assert (Hp : str_lt (row_key r) (lower k)).
      { apply Hlt. rewrite (wf_previous _ Hwf), Hr by (rewrite Hr; eauto). done. }
      assert (Hl : row_key (tagged kind r2) = lower k).
      { unfold tagged. rewrite row_key_tag. unfold cell_get. by rewrite Hk. }
      pose proof (ok_sorted _ _ Hok) as Hso. unfold stream in *. rewrite Eh in *.
      simpl option_list in *. simpl app in *. rewrite fmap_cons in *.
      apply StronglySorted_inv in Hso as [_ Hso]. rewrite Hl in *.
      constructor; [done|]. eapply Forall_impl; [exact Hso|]. intros x ?. by trans (lower k).
    + done.
    + intros _. rewrite (wf_previous _ Hwf), Hr by (rewrite Hr; eauto). done.
Qed.

Lemma advance_if_Ok kind key c c' :
  cursor_wf c → advance_if kind key c = Ok c' → cursor_wf c' ∧ (cursor_ok kind c' → cursor_ok kind c).
Proof.
  unfold advance_if, current. intros Hwf. destruct (cur_head c) as [r|] eqn:Eh; [|by intros [= <-]].
  case_decide; [|by intros [= <-]]. intros Ha. split; [by apply advance_Ok in Ha as [? _]|].
  by eapply advance_valid.
Qed.

Record state_wf (st : merge_state) : Prop := {
  wf_liquid0 : cursor_wf (st_liquid0 st);
  wf_liquid1 : cursor_wf (st_liquid1 st);
  wf_staking : cursor_wf (st_staking st);
  wf_receipts : StronglySorted str_lt (st_receipt_keys st);
}.

Lemma sorted_suffix (l l' : list string) : l' `suffix_of` l → StronglySorted str_lt l → StronglySorted str_lt l'.
Proof. intros [k ->] H. induction k; [done|]. apply StronglySorted_inv in H as [H _]. auto. Qed.

Lemma advance_keys_suffix key ks : advance_keys key ks `suffix_of` ks.
Proof. destruct ks as [|k ks]; simpl; [done|]. case_decide; [by exists [k]|done]. Qed.

Lemma merge_step_Ok rc key st c st' :
  state_wf st → merge_step rc key st = Ok (c, st') → state_wf st' ∧ (state_ok st' → state_ok st).
Proof.
  intros [H0 H1 H2 H3] H. unfold merge_step in H. inv_ok H. simplify_eq.
  apply advance_if_Ok in E as [? ?]; [|done]. apply advance_if_Ok in E0 as [? ?]; [|done].
  apply advance_if_Ok in E1 as [? ?]; [|done].
  pose proof (sorted_suffix _ _ (advance_keys_suffix key (st_receipt_keys st)) H3).
  split; [done|]. intros [? ? ? ?]. split; auto.
Qed.

Lemma claims_of_valid fuel rc st cs : state_wf st → claims_of fuel rc st = Ok cs → state_ok st.
Proof.
  revert st cs. induction fuel as [|fuel IH]; intros st cs Hwf; cbn [claims_of];
    destruct (min_key (head_keys st)) as [key|] eqn:Em; try done.
  2: { intros H. inv_ok H. destruct v as [c st']. cbn beta iota in H. inv_ok H.
       destruct (merge_step_Ok _ _ _ _ _ Hwf E) as [Hwf' Hok]. eauto. }
  all: intros _; apply min_key_None in Em; unfold head_keys in Em; destruct Hwf as [H0 H1 H2 H3].
  all: assert (Hnil : ∀ kind c, cursor_wf c → cur_head c = None → cursor_ok kind c)
    by (intros kind c [He Hp] Hh; split; rewrite ?He, ?Hh by done; [constructor|
        unfold stream; rewrite Hh, He by done; constructor|done|by intros []]).
  all: assert (Hh : ∀ c, option_list (row_key <$> cur_head c) = [] → cur_head c = None)
    by (intros c; by destruct (cur_head c)).
  all: apply app_eq_nil in Em as [E0%Hh Em]; apply app_eq_nil in Em as [E1%Hh Em];
    apply app_eq_nil in Em as [E2%Hh _]; split; auto.
Qed.

(** ** Lemmas: the loop and the script over the world *)
Definition ledger_text (claims : list claim) : string :=
  write_csv (ledger_header :: (claim_record <$> claims)).

Lemma wp_merge_loop fuel p rc st summary w old (Q : result totals → world → Prop) :
  files w !! p = Some old →
  (∀ e s w', e = io_error ∨ claims_of fuel rc st = Err e → files w' = <[p := s]> (files w) → Q (Err e) w') →
  (∀ claims w', claims_of fuel rc st = Ok claims →
     files w' = <[p := old +:+ write_csv (claim_record <$> claims)]> (files w) →
     Q (Ok (foldl add_claim summary claims)) w') →
  wp (merge_loop fuel p rc st summary) w Q.
Proof.
  revert st summary w old. induction fuel as [|fuel IH]; intros st summary w old Hp He Ho;
    cbn [merge_loop claims_of] in *; destruct (min_key (head_keys st)) as [key|].
  - apply wp_lift, (He _ old); [by right|]. by rewrite insert_id.
  - apply wp_ret, (Ho []); [done|]. simpl. by rewrite str_app_nil_r, insert_id.
  - apply wp_bind, wp_lift. destruct (merge_step rc key st) as [[c st']|e] eqn:Es;
      cbn [mbind result_bind] in *; [|apply (He _ old); [by right|by rewrite insert_id]].
    apply wp_bind. unfold wp at 1, write.
    destruct (tick w) as [[k|] w1] eqn:Et; pose proof (tick_files w) as Hf; rewrite Et in Hf; simpl in Hf.
    + simpl. eapply (He _ _ _ (or_introl eq_refl)). simpl. by rewrite Hf.
    + simpl. eapply IH.
      { simpl. by rewrite lookup_insert_eq. }
      * intros e s w' Hc Hw. apply (He _ s).
        -- destruct Hc as [?|Hc]; [by left|right]. by rewrite Hc.
        -- rewrite Hw. simpl. by rewrite insert_insert_eq, Hf.
      * intros claims w' Hc Hw. apply (Ho (c :: claims)); [by rewrite Hc|].
        rewrite Hw. simpl. rewrite insert_insert_eq, Hf, Hp. simpl. by rewrite <-str_app_assoc.
  - apply wp_ret, (Ho []); [done|]. simpl. by rewrite str_app_nil_r, insert_id.
Qed.

Lemma ledger_sha256_read p w :
  file_sha256 p w =
  (match files w !! p with Some s => Ok (sha256 s) | None => Err (FileNotFoundError p) end, w).
Proof. unfold file_sha256. by rewrite file_sha256_at_read by lia. Qed.

(** The files other than the two partial files. *)
Definition settled (args : merge_args) (m : gmap string string) : gmap string string :=
  delete (partial (output args)) (delete (partial (summary_output args)) m).

Lemma settled_output args m s : settled args (<[partial (output args) := s]> m) = settled args m.
Proof. unfold settled. rewrite !(delete_delete _ (partial (output args))). by rewrite delete_insert_eq. Qed.

Lemma settled_summary args m m' :
  delete (partial (summary_output args)) m = delete (partial (summary_output args)) m' →
  settled args m = settled args m'.
Proof. unfold settled. by intros ->. Qed.

(** What [write_ledger] may leave behind when it raises: the two partial files apart, nothing
    or the complete table. *)
Lemma wp_write_ledger args hashes retired rc st w (Q : result json → world → Prop) :
  (∀ e w', file_error e ∨ claims_of (merge_left st) rc st = Err e →
     settled args (files w') = settled args (files w) → Q (Err e) w') →
  (∀ e w' claims, file_error e → claims_of (merge_left st) rc st = Ok claims →
     settled args (files w') = settled args (<[output args := ledger_text claims]> (files w)) →
     Q (Err e) w') →
  (∀ w' claims, files w !! partial (summary_output args) = None →
     claims_of (merge_left st) rc st = Ok claims →
     let j := summary_json args hashes retired (foldl add_claim no_totals claims)
                (sha256 (ledger_text claims)) in
     files w' = <[summary_output args := dumps j +:+ newline]>
                  (<[output args := ledger_text claims]> (files w)) → Q (Ok j) w') →
  wp (write_ledger args hashes retired rc st) w Q.
Proof.
  intros He Ho Hok. unfold write_ledger.
  apply wp_bind, wp_create; [intros e w1 Hfe H1; apply He; [by left|by rewrite H1]|].
  intros w1 Hp H1. apply wp_bind, wp_write.
  { intros e k w2 Hfe H2. apply He; [by left|]. by rewrite H2, H1, !settled_output. }
  intros w2 H2. rewrite H1, insert_insert_eq, lookup_insert_eq in H2.
  apply wp_bind. eapply wp_merge_loop; [by rewrite H2, lookup_insert_eq| |].
  { intros e s w3 Hc H3. apply He.
    - destruct Hc as [->|]; [by left|by right].
    - by rewrite H3, H2, !settled_output. }
  intros claims w3 Hc H3. rewrite H2, insert_insert_eq in H3. simpl default in H3.
  rewrite str_app_nil_l in H3. change (csv_line ledger_header +:+ write_csv (claim_record <$> claims))
    with (ledger_text claims) in H3.
  apply wp_bind, wp_sync.
  { intros e w4 Hfe H4. apply He; [by left|]. by rewrite H4, H3, settled_output. }
  intros w4 H4. apply wp_bind, wp_replace.
  { intros e w5 Hfe H5. apply He; [by left|]. by rewrite H5, H4, H3, settled_output. }
  intros s w5 Hs H5. rewrite H4, H3, lookup_insert_eq in Hs. injection Hs as <-.
  rewrite H4, H3, delete_insert_eq, delete_id in H5 by done.
  apply wp_bind. unfold wp at 1. rewrite ledger_sha256_read, H5, lookup_insert_eq. cbn [fst snd].
  apply wp_bind, wp_publish.
  { intros e w6 Hfe H6. eapply Ho; [done..|]. rewrite <-H5. by apply settled_summary. }
  intros w6 Hps H6. apply wp_ret, Hok; [|done|].
  - rewrite H5 in Hps. by apply lookup_insert_None in Hps as [? _].
  - rewrite H6, H5. unfold concat_texts. simpl foldr. by rewrite str_app_nil_r.
Qed.

(** ** The specification of the script *)

(** The decoded inputs: the rows as the generators tag them, and the pending receipts. *)
Record ledger_inputs := Inputs {
  in_liquid0 : list row;
  in_liquid1 : list row;
  in_staking : list row;
  in_receipts : pending_claims;
}.

Definition ledger_keys (i : ledger_inputs) : list string :=
  sort_by str_leb (elements (list_to_set (row_key <$> in_liquid0 i) ∪
    list_to_set (row_key <$> in_liquid1 i) ∪ list_to_set (row_key <$> in_staking i) ∪
    dom (in_receipts i) : gset string)).

(** The claims a correct ledger holds: one per key of any input, in order. *)
Definition ledger_claims (i : ledger_inputs) : result (list claim) :=
  mapR (claim_at (in_receipts i) (in_liquid0 i) (in_liquid1 i) (in_staking i)) (ledger_keys i).

(** The secure keys of each table strictly increase. *)
Definition increasing_inputs (i : ledger_inputs) : Prop :=
  Forall (λ rows, StronglySorted str_lt (row_key <$> rows)) [in_liquid0 i; in_liquid1 i; in_staking i].

(** The files of [w] hold the inputs [i] and the receipts report [report]. *)
Definition holds_inputs (args : merge_args) (w : world) (i : ledger_inputs) (report : json) : Prop :=
  ∃ t0 t1 ts tr,
    files w !! shard0_liquid args = Some t0 ∧ files w !! shard1_liquid args = Some t1 ∧
    files w !! staking_path args = Some ts ∧ files w !! receipts_path args = Some tr ∧
    in_liquid0 i = tagged "liquid0" <$> dict_rows t0 ∧
    in_liquid1 i = tagged "liquid1" <$> dict_rows t1 ∧
    in_staking i = tagged "staking" <$> dict_rows ts ∧
    loads tr = Ok report ∧ pending_of_report report = Ok (in_receipts i).

(** ** Lemmas: loading *)
Lemma open_rows_Ok path kind w c w' :
  open_rows path kind w = (Ok c, w') →
  w' = w ∧ cursor_wf c ∧ ∃ t, files w !! path = Some t ∧
  ((∀ k, stream kind c = k → k = tagged kind <$> dict_rows t)).
Proof.
  unfold open_rows, mbind, io_bind, read. destruct (files w !! path) as [t|]; simpl; [|done].
  intros [= Ha <-]. apply advance_Ok in Ha as [Hwf Ha]. split_and!; [done..|].
  exists t. split; [done|]. intros k <-. unfold stream. simpl in Ha.
  destruct Ha as [(-> & -> & ->)|(r & rs & k' & -> & _ & -> & -> & _)]; done.
Qed.

Lemma ledger_keys_spec i :
  StronglySorted str_lt (ledger_keys i) ∧
  ∀ k, k ∈ ledger_keys i ↔ k ∈ (row_key <$> in_liquid0 i) ++ (row_key <$> in_liquid1 i) ++
         (row_key <$> in_staking i) ++ sort_by str_leb (elements (dom (in_receipts i))).
Proof.
  unfold ledger_keys. split; [apply sort_by_str_sorted, NoDup_elements|].
  intros k. rewrite !elem_of_app, !sort_by_Permutation, !elem_of_elements.
  rewrite !elem_of_union, !elem_of_list_to_set. tauto.
Qed.

(** The loop from the loaded state computes the specified claims when it returns, and on valid
    inputs it ends as the specification does. *)
Lemma claims_of_loaded i st :
  stream "liquid0" (st_liquid0 st) = in_liquid0 i →
  stream "liquid1" (st_liquid1 st) = in_liquid1 i →
  stream "staking" (st_staking st) = in_staking i →
  st_receipt_keys st = sort_by str_leb (elements (dom (in_receipts i))) →
  state_ok st →
  claims_of (merge_left st) (in_receipts i) st = ledger_claims i.
Proof.
  intros E0 E1 E2 E3 Hok. destruct (ledger_keys_spec i) as [Hs Hk].
  rewrite (claims_of_reference _ _ _ (ledger_keys i)); [| |done|done|].
  - unfold reference, ledger_claims. by rewrite E0, E1, E2.
  - done.
  - intros k. rewrite Hk. unfold keys_of. by rewrite E0, E1, E2, E3.
Qed.

(** The state the loop starts from. *)
Record loaded (i : ledger_inputs) (st : merge_state) : Prop := {
  ld_wf : state_wf st;
  ld_liquid0 : stream "liquid0" (st_liquid0 st) = in_liquid0 i;
  ld_liquid1 : stream "liquid1" (st_liquid1 st) = in_liquid1 i;
  ld_staking : stream "staking" (st_staking st) = in_staking i;
  ld_receipts : st_receipt_keys st = sort_by str_leb (elements (dom (in_receipts i)));
}.

Lemma claims_of_loaded_Ok i st cs :
  loaded i st → claims_of (merge_left st) (in_receipts i) st = Ok cs →
  increasing_inputs i ∧ ledger_claims i = Ok cs.
Proof.
  intros [Hwf E0 E1 E2 ?] Hc. pose proof (claims_of_valid _ _ _ _ Hwf Hc) as Hok.
  split; [|by rewrite <-(claims_of_loaded i st)].
  destruct Hok as [[_ H0 _ _] [_ H1 _ _] [_ H2 _ _] _].
  unfold increasing_inputs. rewrite <-E0, <-E1, <-E2. auto.
Qed.

(** ** Lemmas: the fuel is enough on any input *)
Lemma returns_pending report : returns (pending_of_report report).
Proof.
  apply returns_bind; [auto with py|]. intros ds _. apply returns_bind; [auto with py|].
  intros directions _. apply returns_bind.
  - apply returns_foldM. intros s d _. apply returns_bind; [auto with py|]. intros gs _.
    apply returns_foldM. intros s' g _. apply returns_bind; [auto with py|]. intros rs _.
    apply returns_foldM. intros [p t] r _. unfold load_receipt.
    repeat (apply returns_bind; [auto with py|intros ? _]). auto with py.
  - intros [pending total] _. repeat (apply returns_bind; [auto with py|intros ? _]). auto with py.
Qed.

Lemma returns_address_of r : returns (address_of r).
Proof. destruct r; [|done]. apply returns_bind; auto with py. Qed.
Lemma returns_int_field r f : returns (int_field r f).
Proof. destruct r; [|done]. repeat (apply returns_bind; [auto with py|intros ? _]). done. Qed.
Lemma returns_optional_text r f : returns (optional_text r f).
Proof. destruct r; [|done]. apply returns_fmap; auto with py. Qed.
#[local] Hint Resolve returns_address_of returns_int_field returns_optional_text : py.

Lemma returns_make_claim k r0 r1 r2 p : returns (make_claim k r0 r1 r2 p).
Proof. unfold make_claim. repeat (apply returns_bind; [auto with py|intros ? _]). done. Qed.

Lemma returns_advance kind c : returns (advance kind c).
Proof.
  unfold advance. destruct (cur_remaining c); [done|].
  repeat (apply returns_bind; [auto with py|intros ? _]). done.
Qed.

Lemma advance_if_left kind key c c' :
  advance_if kind key c = Ok c' →
  (cursor_left c' + (match current c key with Some _ => 1 | None => 0 end) = cursor_left c)%nat.
Proof.
  unfold advance_if. destruct (current c key) as [r|] eqn:E; [|intros [= <-]; lia].
  intros H%advance_Ok. unfold current in E. unfold cursor_left. destruct (cur_head c); [|done].
  destruct H as [_ [(-> & -> & ->)|(r2 & rs & k & -> & _ & -> & -> & _)]]; simpl; lia.
Qed.

Lemma merge_step_left rc st key c st' :
  min_key (head_keys st) = Some key → merge_step rc key st = Ok (c, st') →
  (merge_left st' < merge_left st)%nat.
Proof.
  intros Hk Hs. unfold merge_step in Hs. inv_ok Hs. simplify_eq.
  apply advance_if_left in E, E0, E1. unfold merge_left. simpl.
  apply min_key_spec in Hk as [Hin _]. unfold head_keys in Hin. rewrite !elem_of_app in Hin.
  assert (Hc : ∀ cu, key ∈ option_list (row_key <$> cur_head cu) → is_Some (current cu key)).
  { intros cu. unfold current. destruct (cur_head cu); [|set_solver]. simpl.
    intros ->%list_elem_of_singleton. rewrite decide_True by done. eauto. }
  assert (Hl : (length (advance_keys key (st_receipt_keys st)) ≤ length (st_receipt_keys st))%nat)
    by (apply suffix_length, advance_keys_suffix).
  destruct Hin as [H|[H|[H|H]]]; [apply Hc in H as [? H]; rewrite H in *; lia..|].
  destruct (st_receipt_keys st) as [|k ks]; simpl in *; [set_solver|].
  apply list_elem_of_singleton in H as ->. rewrite decide_True by done. lia.
Qed.

Lemma returns_claims_of fuel rc st : (merge_left st ≤ fuel)%nat → returns (claims_of fuel rc st).
Proof.
  revert st. induction fuel as [|fuel IH]; intros st Hf; cbn [claims_of];
    destruct (min_key (head_keys st)) as [key|] eqn:Ek; try done.
  - exfalso. unfold merge_left, cursor_left in Hf. apply min_key_spec in Ek as [Hin _].
    unfold head_keys in Hin.
    destruct (cur_head (st_liquid0 st)), (cur_head (st_liquid1 st)), (cur_head (st_staking st));
      try lia. destruct (st_receipt_keys st); simpl in *; [set_solver|lia].
  - apply returns_bind.
    + unfold merge_step.
      repeat (apply returns_bind; [unfold advance_if; case_match; [apply returns_advance|done]|intros ? _]).
      apply returns_bind; [apply returns_make_claim|done].
    + intros [c st'] Hs. apply returns_bind; [|done]. apply IH.
      pose proof (merge_step_left _ _ _ _ _ Ek Hs). lia.
Qed.

(** ** Lemmas: the script *)

(** The two outputs and their partial files do not exist. *)
Definition fresh_outputs (args : merge_args) (w : world) : Prop :=
  files w !! output args = None ∧ files w !! partial (output args) = None ∧
  files w !! summary_output args = None ∧ files w !! partial (summary_output args) = None.

Lemma settled_fresh args w : fresh_outputs args w → settled args (files w) = files w.
Proof. intros (_ & H1 & _ & H2). unfold settled. by rewrite !delete_id by (done || by rewrite delete_id). Qed.

Definition digest_at (w : world) (p : string) : json := JStr (sha256 (default EmptyString (files w !! p))).

Definition input_hashes (args : merge_args) (w : world) : list (string * json) :=
  [("shard0_liquid", digest_at w (shard0_liquid args)); ("shard1_liquid", digest_at w (shard1_liquid args));
   ("staking", digest_at w (staking_path args)); ("receipts", digest_at w (receipts_path args))].

Lemma wp_hash_inputs args w (Q : result (list (string * json)) → world → Prop) :
  (∀ e, e ≠ OutOfFuel → Q (Err e) w) → Q (Ok (input_hashes args w)) w → wp (hash_inputs args) w Q.
Proof.
  intros He Ho. unfold hash_inputs.
  assert (Hf : ∀ A p (k : string → IO A) (Q : result A → world → Prop),
    (∀ e, e ≠ OutOfFuel → Q (Err e) w) → wp (k (sha256 (default EmptyString (files w !! p)))) w Q →
    wp (file_sha256 p ≫= k) w Q).
  { intros A p k R HR Hk. apply wp_bind. unfold wp at 1. rewrite ledger_sha256_read.
    destruct (files w !! p); cbn [fst snd]; [apply Hk|by apply HR]. }
  repeat (apply Hf; [done|]). by apply wp_ret.
Qed.

Lemma wp_load_pending path w (Q : result (pending_claims * json) → world → Prop) :
  (∀ e, e ≠ OutOfFuel → Q (Err e) w) →
  (∀ tr report rc, files w !! path = Some tr → loads tr = Ok report →
     pending_of_report report = Ok rc → Q (Ok (rc, report)) w) →
  wp (load_pending_receipts path) w Q.
Proof.
  intros He Ho. unfold load_pending_receipts, load_json.
  apply wp_bind, wp_bind, wp_read. destruct (files w !! path) as [tr|]; simpl; [|by apply He].
  apply wp_lift. destruct (loads tr) as [report|e] eqn:El.
  - apply wp_bind, wp_lift. destruct (pending_of_report report) as [rc|e] eqn:Ep.
    + by eapply wp_ret, Ho.
    + apply He. intros ->. by apply (returns_pending report).
  - apply He. intros ->. by apply (loads_fuel tr).
Qed.

Lemma wp_open_rows path kind w (Q : result cursor → world → Prop) :
  (∀ e, e ≠ OutOfFuel → Q (Err e) w) →
  (∀ t c, files w !! path = Some t → cursor_wf c → stream kind c = tagged kind <$> dict_rows t →
     Q (Ok c) w) →
  wp (open_rows path kind) w Q.
Proof.
  intros He Ho. unfold wp. destruct (open_rows path kind w) as [[c|e] w'] eqn:E; simpl.
  - apply open_rows_Ok in E as (-> & Hwf & t & Ht & Hs). eauto.
  - unfold open_rows, mbind, io_bind, read in E. destruct (files w !! path); simpl in E;
      injection E as E <-; apply He; [|by rewrite <-E].
    intros ->. by apply (returns_advance kind (Cursor None None (dict_rows s))).
Qed.

Lemma wp_load_state args rc w (Q : result merge_state → world → Prop) :
  (∀ e, e ≠ OutOfFuel → Q (Err e) w) →
  (∀ t0 t1 ts st, files w !! shard0_liquid args = Some t0 → files w !! shard1_liquid args = Some t1 →
     files w !! staking_path args = Some ts →
     loaded (Inputs (tagged "liquid0" <$> dict_rows t0) (tagged "liquid1" <$> dict_rows t1)
               (tagged "staking" <$> dict_rows ts) rc) st → Q (Ok st) w) →
  wp (load_state args rc) w Q.
Proof.
  intros He Ho. unfold load_state.
  apply wp_bind, wp_open_rows; [done|]. intros t0 c0 F0 W0 S0.
  apply wp_bind, wp_open_rows; [done|]. intros t1 c1 F1 W1 S1.
  apply wp_bind, wp_open_rows; [done|]. intros t2 c2 F2 W2 S2.
  apply wp_ret. eapply Ho; [done..|]. split; try done. split; [done..|].
  apply sort_by_str_sorted, NoDup_elements.
Qed.

Lemma wp_refuse_outputs args w (Q : result unit → world → Prop) :
  (∀ e, e ≠ OutOfFuel → Q (Err e) w) → (fresh_outputs args w → Q (Ok tt) w) →
  wp (for_io refuse_existing [output args; summary_output args]) w Q.
Proof.
  intros He Ho. simpl. apply wp_bind, wp_refuse_existing; [by apply He|]. intros H1 H2.
  apply wp_bind, wp_refuse_existing; [by apply He|]. intros H3 H4. by apply wp_ret, Ho.
Qed.

(** How the script can end: without having touched a file, with the table in place and no
    summary, or with both files. *)
Lemma wp_merge args w (Q : result json → world → Prop) :
  (∀ e w', e ≠ OutOfFuel → files w' = files w → Q (Err e) w') →
  (∀ e w' i report claims, e ≠ OutOfFuel → fresh_outputs args w → holds_inputs args w i report →
     increasing_inputs i → ledger_claims i = Ok claims →
     files w' = settled args (<[output args := ledger_text claims]> (files w)) → Q (Err e) w') →
  (∀ w' i report claims retired, fresh_outputs args w → holds_inputs args w i report →
     increasing_inputs i → ledger_claims i = Ok claims → jget "unsupported_pending_atto" report = Ok retired →
     let j := summary_json args (input_hashes args w) retired (foldl add_claim no_totals claims)
                (sha256 (ledger_text claims)) in
     files w' = <[summary_output args := dumps j +:+ newline]>
                  (<[output args := ledger_text claims]> (files w)) → Q (Ok j) w') →
  wp (merge args) w Q.
Proof.
  intros He Ht Ho. unfold merge.
  apply wp_bind, wp_refuse_outputs; [intros; by apply He|]. intros Hfresh.
  apply wp_bind, wp_hash_inputs; [intros; by apply He|].
  apply wp_bind, wp_load_pending; [intros; by apply He|]. intros tr report rc Ftr Hl Hp.
  apply wp_bind, wp_load_state; [intros; by apply He|]. intros t0 t1 ts st F0 F1 Fs Hld.
  set (i := Inputs _ _ _ _) in Hld.
  assert (Hi : holds_inputs args w i report) by (exists t0, t1, ts, tr; by split_and!).
  apply wp_bind, wp_lift. destruct (jget _ report) as [retired|e] eqn:Er; [|apply He; [|done]].
  2: { intros ->. by apply (returns_jget "unsupported_pending_atto" report). }
  assert (Hclean : ∀ w', files (cleanup args w').2 = settled args (files w')
                         ∧ (cleanup args w').1 = Ok tt).
  { intros w'. split; [|done]. simpl. unfold settled. by rewrite delete_delete. }
  apply wp_on_exception, wp_write_ledger.
  - intros e w' Hc Hw. unfold wp. destruct (Hclean w') as [Hc1 ->]. split; [done|].
    apply He; [|by rewrite Hc1, Hw, settled_fresh].
    destruct Hc as [Hc|Hc]; [by intros ->|]. intros ->.
    by apply (returns_claims_of (merge_left st) rc st).
  - intros e w' claims Hfe Hc Hw. unfold wp. destruct (Hclean w') as [Hc1 ->]. split; [done|].
    apply (claims_of_loaded_Ok i) in Hc as [Hinc Hc]; [|done].
    eapply Ht; [by intros ->|done..|]. by rewrite Hc1, Hw.
  - intros w' claims _ Hc j Hw. apply (claims_of_loaded_Ok i) in Hc as [Hinc Hc]; [|done].
    by eapply Ho.
Qed.

(** ** Lemmas: the claims of the specification *)

(** [int(row[field])] of a row the ledger accepted. *)
Definition amount_of (field : string) (r : row) : Z :=
  match cell_int r field with Ok v => v | Err _ => 0 end.

Definition amount_at (field key : string) (rows : list row) : Z :=
  match find_row key rows with Some r => amount_of field r | None => 0 end.

Definition pending_at (rc : pending_claims) (key : string) : Z :=
  match rc !! key with Some p => pend_amount p | None => 0 end.

Lemma int_field_Ok r field v :
  int_field r field = Ok v → v = match r with Some r => amount_of field r | None => 0 end ∧ 0 ≤ v.
Proof.
  destruct r as [r|]; simpl; [|by intros [= <-]]. intros H. inv_ok H. bool_facts.
  unfold amount_of. rewrite E. subst. by split.
Qed.

Lemma claim_at_Ok rc s0 s1 s2 key c :
  claim_at rc s0 s1 s2 key = Ok c →
  cl_key c = key ∧
  cl_liquid0 c = amount_at "balance_atto" key s0 ∧ cl_liquid1 c = amount_at "balance_atto" key s1 ∧
  cl_active c = amount_at "active_delegation_atto" key s2 ∧
  cl_undelegation c = amount_at "pending_undelegation_atto" key s2 ∧
  cl_reward c = amount_at "unclaimed_reward_atto" key s2 ∧
  cl_pending c = pending_at rc key ∧
  0 ≤ cl_liquid0 c ∧ 0 ≤ cl_liquid1 c ∧ 0 ≤ cl_active c ∧ 0 ≤ cl_undelegation c ∧ 0 ≤ cl_reward c ∧
  0 < cl_total c.
Proof.
  unfold claim_at, make_claim. intros H. inv_ok H.
  apply int_field_Ok in E3, E4, E5, E6, E7. subst c. bool_facts. unfold cl_total, cl_liquid, amount_at.
  simpl. naive_solver.
Qed.

(** Summing what [find_row] finds over all keys is summing the rows. *)
Lemma sum_find_rows (f : row → Z) rows ks :
  NoDup ks → NoDup (row_key <$> rows) → (∀ r, r ∈ rows → row_key r ∈ ks) →
  sum_by (λ k, match find_row k rows with Some r => f r | None => 0 end) ks = sum_by f rows.
Proof.
  intros Hks. induction rows as [|r rows IH]; intros Hnd Hin.
  { rewrite sum_by_nil. rewrite (sum_by_ext _ (λ _, 0)) by done.
    clear. induction ks; rewrite ?sum_by_cons; done. }
  rewrite fmap_cons in Hnd. apply NoDup_cons in Hnd as [Hr Hnd].
  rewrite sum_by_cons, <-IH by (done || set_solver).
  rewrite (sum_by_ext _ (λ k, (if decide (row_key r = k) then f r else 0) +
                          match find_row k rows with Some r => f r | None => 0 end)).
  2: { intros k _. unfold find_row. rewrite filter_cons. case_decide as Hk; simpl; [|lia].
       rewrite filter_nil_iff; simpl; [lia|]. intros x Hx Hxk. apply Hr. rewrite Hk, <-Hxk.
       by apply list_elem_of_fmap_2. }
  rewrite sum_by_add. f_equal.
  assert (H1 : row_key r ∈ ks) by (apply Hin; by left). clear -Hks H1.
  induction Hks as [|k ks Hk Hks IH]; [set_solver|]. rewrite sum_by_cons.
  apply elem_of_cons in H1 as [->|H1].
  - rewrite decide_True by done. rewrite (sum_by_ext _ (λ _, 0)).
    + assert (sum_by (λ _, 0) ks = 0) as ->; [|lia]. clear. induction ks; rewrite ?sum_by_cons; done.
    + intros x Hx. rewrite decide_False; [done|]. by intros ->.
  - rewrite decide_False by (by intros <-). by rewrite IH.
Qed.

Lemma StronglySorted_NoDup (l : list string) : StronglySorted str_lt l → NoDup l.
Proof.
  induction 1 as [|x l Hl IH Hx]; constructor; [|done]. rewrite Forall_forall in Hx.
  intros H. by apply (str_lt_irrefl x), Hx.
Qed.

(** The amounts of all pending receipts. *)
Definition pending_total (rc : pending_claims) : Z := msum (pend_amount <$> rc).

Lemma sum_pending rc ks :
  NoDup ks → (∀ k, k ∈ dom rc → k ∈ ks) → sum_by (pending_at rc) ks = pending_total rc.
Proof.
  unfold pending_total. revert ks. induction rc as [|k p rc Hk IH] using map_ind; intros ks Hnd Hin.
  - rewrite fmap_empty, msum_empty. rewrite (sum_by_ext _ (λ _, 0)); [apply sum_by_zero|].
    intros x _. unfold pending_at. by rewrite lookup_empty.
  - rewrite fmap_insert, msum_insert_None by (by rewrite lookup_fmap, Hk).
    assert (Hin' : ∀ x, x = k ∨ x ∈ dom rc → x ∈ ks) by (intros; apply Hin; rewrite dom_insert; set_solver).
    assert (Hk1 : k ∈ ks) by auto.
    apply list_elem_of_split in Hk1 as (l1 & l2 & ->).
    rewrite <-(IH (l1 ++ k :: l2)) by (done || auto).
    apply NoDup_app in Hnd as (_ & Hn1 & Hn2). apply NoDup_cons in Hn2 as [Hn2 _].
    rewrite !sum_by_app, !sum_by_cons.
    assert (He : ∀ l, k ∉ l → sum_by (pending_at (<[k:=p]> rc)) l = sum_by (pending_at rc) l).
    { intros l Hl. apply sum_by_ext. intros x Hx. unfold pending_at.
      by rewrite lookup_insert_ne by (by intros ->). }
    rewrite !He; [|done|intros H; by apply (Hn1 k H); left].
    assert (pending_at (<[k:=p]> rc) k = pend_amount p) as ->
      by (unfold pending_at; by rewrite lookup_insert_eq).
    assert (pending_at rc k = 0) as -> by (unfold pending_at; by rewrite Hk). lia.
Qed.

Lemma load_receipt_total s r s' :
  load_receipt s r = Ok s' → pending_total s'.1 - s'.2 = pending_total s.1 - s.2.
Proof.
  destruct s as [pending total]. unfold load_receipt. intros H. inv_ok H. subst s'. simpl.
  unfold pending_total. rewrite fmap_insert, msum_insert. simpl. unfold mget. rewrite lookup_fmap.
  destruct (pending !! lower v) as [p|]; simpl; lia.
Qed.

(** The receipts that were loaded amount to what the report says is pending. *)
Lemma pending_of_report_total report rc :
  pending_of_report report = Ok rc → jget_int "pending_active_atto" report = Ok (pending_total rc).
Proof.
  unfold pending_of_report. intros H. inv_ok H. destruct v1 as [pending total]. inv_ok H.
  bool_facts. subst. rewrite E2. f_equal.
  assert (Hinv : pending_total (rc, v1).1 - (rc, v1).2 = 0); [|simpl in *; lia].
  assert (Hfold : ∀ A (f : pending_claims * Z → A → result (pending_claims * Z)),
    (∀ s x s', f s x = Ok s' → pending_total s'.1 - s'.2 = pending_total s.1 - s.2) →
    ∀ l s s', foldM f s l = Ok s' → pending_total s'.1 - s'.2 = pending_total s.1 - s.2).
  { intros A f Hstep l s s' Hl. revert Hl.
    apply (foldM_inv f (λ s', pending_total s'.1 - s'.2 = pending_total s.1 - s.2)); [done|].
    intros x s1 s2 Hs _ Hf. by rewrite (Hstep _ _ _ Hf). }
  assert (H0 : pending_total ∅ = 0) by (unfold pending_total; by rewrite fmap_empty).
  eapply Hfold in E1; [by rewrite E1; simpl; rewrite H0|].
  intros s x s' Hx. unfold load_direction in Hx. inv_ok Hx. revert Hx. apply Hfold.
  intros s1 x1 s1' Hx1. unfold load_group in Hx1. inv_ok Hx1. revert Hx1. apply Hfold.
  apply load_receipt_total.
Qed.

Lemma totals_of_claims claims s :
  let t := foldl add_claim s claims in
  t_rows t = t_rows s + Z.of_nat (length claims) ∧
  t_liquid0 t = t_liquid0 s + sum_by cl_liquid0 claims ∧
  t_liquid1 t = t_liquid1 s + sum_by cl_liquid1 claims ∧
  t_active t = t_active s + sum_by cl_active claims ∧
  t_undelegation t = t_undelegation s + sum_by cl_undelegation claims ∧
  t_reward t = t_reward s + sum_by cl_reward claims ∧
  t_pending t = t_pending s + sum_by cl_pending claims ∧
  t_total t = t_total s + sum_by cl_total claims.
Proof.
  revert s. induction claims as [|c claims IH]; intros s; cbn zeta; simpl.
  - rewrite !sum_by_nil. split_and!; lia.
  - destruct (IH (add_claim s c)) as (-> & -> & -> & -> & -> & -> & -> & ->). simpl.
    rewrite !sum_by_cons. split_and!; lia.
Qed.

Lemma sum_cl_total claims :
  sum_by cl_total claims =
  sum_by cl_liquid0 claims + sum_by cl_liquid1 claims + sum_by cl_active claims +
  sum_by cl_undelegation claims + sum_by cl_reward claims + sum_by cl_pending claims.
Proof.
  induction claims as [|c claims IH]; [done|]. rewrite !sum_by_cons, IH. unfold cl_total, cl_liquid. lia.
Qed.

Lemma sum_claims {A B} (f : A → result B) (g : B → Z) (h : A → Z) l l' :
  mapR f l = Ok l' → (∀ x y, f x = Ok y → g y = h x) → sum_by g l' = sum_by h l.
Proof.
  intros Hl Hf. apply mapR_Ok in Hl. induction Hl as [|x y l l' Hxy Hl IH]; [done|].
  rewrite !sum_by_cons, IH, (Hf _ _ Hxy). done.
Qed.

Lemma increasing_NoDup i rows :
  increasing_inputs i → rows ∈ [in_liquid0 i; in_liquid1 i; in_staking i] → NoDup (row_key <$> rows).
Proof. unfold increasing_inputs. rewrite Forall_forall. intros H Hr. by apply StronglySorted_NoDup, H. Qed.

(** The totals of a ledger's claims are the totals of its inputs. *)
Lemma claims_conserve i claims :
  increasing_inputs i → ledger_claims i = Ok claims →
  sum_by cl_liquid0 claims = sum_by (amount_of "balance_atto") (in_liquid0 i) ∧
  sum_by cl_liquid1 claims = sum_by (amount_of "balance_atto") (in_liquid1 i) ∧
  sum_by cl_active claims = sum_by (amount_of "active_delegation_atto") (in_staking i) ∧
  sum_by cl_undelegation claims = sum_by (amount_of "pending_undelegation_atto") (in_staking i) ∧
  sum_by cl_reward claims = sum_by (amount_of "unclaimed_reward_atto") (in_staking i) ∧
  sum_by cl_pending claims = pending_total (in_receipts i).
Proof.
  intros Hinc Hc. destruct (ledger_keys_spec i) as [Hs Hk].
  apply StronglySorted_NoDup in Hs.
  assert (Hrows : ∀ g field rows, rows ∈ [in_liquid0 i; in_liquid1 i; in_staking i] →
    (∀ k c, claim_at (in_receipts i) (in_liquid0 i) (in_liquid1 i) (in_staking i) k = Ok c →
       g c = amount_at field k rows) →
    sum_by g claims = sum_by (amount_of field) rows).
  { intros g field rows Hin Hg. rewrite (sum_claims _ g _ _ _ Hc Hg). unfold amount_at.
    apply sum_find_rows; [done|by eapply increasing_NoDup|]. intros r Hr%(list_elem_of_fmap_2 row_key).
    apply Hk. rewrite !elem_of_app. rewrite !elem_of_cons in Hin.
    destruct Hin as [->|[->|[->|Hin]]]; [tauto..|set_solver]. }
  split_and!; try (apply Hrows; [set_solver|]; intros k c H%claim_at_Ok; tauto).
  rewrite (sum_claims _ cl_pending (pending_at (in_receipts i)) _ _ Hc).
  - apply sum_pending; [done|]. intros k Hin. apply Hk. rewrite !elem_of_app, sort_by_Permutation,
      elem_of_elements. tauto.
  - intros k c H%claim_at_Ok. tauto.
Qed.

Lemma merge_Ok args w j w' :
  merge args w = (Ok j, w') →
  ∃ i report claims retired,
    fresh_outputs args w ∧ holds_inputs args w i report ∧ increasing_inputs i ∧
    ledger_claims i = Ok claims ∧ jget "unsupported_pending_atto" report = Ok retired ∧
    j = summary_json args (input_hashes args w) retired (foldl add_claim no_totals claims)
          (sha256 (ledger_text claims)) ∧
    files w' = <[summary_output args := dumps j +:+ newline]>
                 (<[output args := ledger_text claims]> (files w)).
Proof.
  intros H. enough (wp (merge args) w (λ r w', ∀ j, r = Ok j → ∃ i report claims retired,
    fresh_outputs args w ∧ holds_inputs args w i report ∧ increasing_inputs i ∧
    ledger_claims i = Ok claims ∧ jget "unsupported_pending_atto" report = Ok retired ∧
    j = summary_json args (input_hashes args w) retired (foldl add_claim no_totals claims)
          (sha256 (ledger_text claims)) ∧
    files w' = <[summary_output args := dumps j +:+ newline]>
                 (<[output args := ledger_text claims]> (files w)))) as Hwp.
  { unfold wp in Hwp. rewrite H in Hwp. by apply Hwp. }
  apply wp_merge; [done..|]. intros w2 i report claims retired Hf Hi Hinc Hc Hr j0 Hw j2 [= <-].
  exists i, report, claims, retired. by split_and!.
Qed.

Lemma holds_inputs_unique args w i report i' report' :
  holds_inputs args w i report → holds_inputs args w i' report' → i' = i ∧ report' = report.
Proof.
  intros (t0 & t1 & t2 & tr & ? & ? & ? & ? & ? & ? & ? & ? & ?)
    (t0' & t1' & t2' & tr' & ? & ? & ? & ? & ? & ? & ? & ? & ?).
  destruct i, i'; simplify_eq/=. split; congruence.
Qed.

(** ** Theorems *)

(** C1 (refinement): when the script returns, the output file is exactly the table of the
    specified claims (one per key of the inputs, in increasing order, each built from the rows
    of its key), the summary file is the returned summary, the summary carries the inputs'
    digests and the table's, and no other file has changed. *)
Theorem merge_refines args w j w' :
  merge args w = (Ok j, w') →
  ∃ i report claims retired,
    fresh_outputs args w ∧ holds_inputs args w i report ∧
    ledger_claims i = Ok claims ∧ jget "unsupported_pending_atto" report = Ok retired ∧
    j = summary_json args (input_hashes args w) retired (foldl add_claim no_totals claims)
          (sha256 (ledger_text claims)) ∧
    files w' = <[summary_output args := dumps j +:+ newline]>
                 (<[output args := ledger_text claims]> (files w)).
Proof.
  intros (i & report & claims & retired & ? & ? & ? & ?)%merge_Ok.
  by exists i, report, claims, retired.
Qed.

(** C3 (invariant): the summary's totals are the sums of the input columns: nothing is lost
    or counted twice by the merge, whatever keys the inputs share.  The pending total is the
    one the receipts report declares, and the grand total is the sum of the six components. *)
Theorem merge_conserves args w j w' i report :
  merge args w = (Ok j, w') → holds_inputs args w i report →
  let l0 := sum_by (amount_of "balance_atto") (in_liquid0 i) in
  let l1 := sum_by (amount_of "balance_atto") (in_liquid1 i) in
  let active := sum_by (amount_of "active_delegation_atto") (in_staking i) in
  let undelegation := sum_by (amount_of "pending_undelegation_atto") (in_staking i) in
  let reward := sum_by (amount_of "unclaimed_reward_atto") (in_staking i) in
  ∃ pending,
    jget_int "pending_active_atto" report = Ok pending ∧
    jget_int "liquid_shard0_atto" j = Ok l0 ∧ jget_int "liquid_shard1_atto" j = Ok l1 ∧
    jget_int "active_delegation_atto" j = Ok active ∧
    jget_int "pending_undelegation_atto" j = Ok undelegation ∧
    jget_int "unclaimed_reward_atto" j = Ok reward ∧
    jget_int "pending_cross_shard_atto" j = Ok pending ∧
    jget_int "total_claim_atto" j = Ok (l0 + l1 + active + undelegation + reward + pending).
Proof.
  intros (i' & report' & claims & retired & _ & Hi' & Hinc & Hc & _ & -> & _)%merge_Ok Hi.
  destruct (holds_inputs_unique _ _ _ _ _ _ Hi Hi') as [-> ->].
  destruct Hi as (_ & _ & _ & _ & _ & _ & _ & _ & _ & _ & _ & _ & Hp).
  destruct (claims_conserve i claims Hinc Hc) as (S0 & S1 & S2 & S3 & S4 & S5).
  destruct (totals_of_claims claims no_totals) as (_ & T0 & T1 & T2 & T3 & T4 & T5 & T6).
  rewrite sum_cl_total, S0, S1, S2, S3, S4, S5 in T6. rewrite S0 in T0. rewrite S1 in T1.
  rewrite S2 in T2. rewrite S3 in T3. rewrite S4 in T4. rewrite S5 in T5. simpl in *.
  exists (pending_total (in_receipts i)). split; [by apply pending_of_report_total|].
  unfold jget_int. simpl. rewrite T0, T1, T2, T3, T4, T5, T6, !int_str_of_Z. done.
Qed.

(** C16 (error): at every point of failure (a malformed input, an existing output or partial
    file, an I/O error at any operation) the script leaves every file as it was, except that
    the output file may be in place once it holds the complete table: a table cut short is
    never left under the output's name, and no partial file survives. *)
Theorem merge_atomic args w e w' :
  merge args w = (Err e, w') →
  files w' = files w ∨
  fresh_outputs args w ∧
  ∃ i report claims, holds_inputs args w i report ∧ ledger_claims i = Ok claims ∧
    files w' = settled args (<[output args := ledger_text claims]> (files w)).
Proof.
  intros H. enough (wp (merge args) w (λ r w', ∀ e, r = Err e → files w' = files w ∨
    fresh_outputs args w ∧ ∃ i report claims, holds_inputs args w i report ∧
    ledger_claims i = Ok claims ∧
    files w' = settled args (<[output args := ledger_text claims]> (files w)))) as Hwp.
  { unfold wp in Hwp. rewrite H in Hwp. by eapply Hwp. }
  apply wp_merge; [by left| |done].
  intros e2 w2 i report claims _ Hf Hi _ Hc Hw e' _. right. split; [done|]. by exists i, report, claims.
Qed.

(** The loop's fuel, the rows and keys left when it starts, is never used
    up: on any files, well-formed or not, the script ends with a summary or an exception of
    Python's. *)
Theorem merge_terminates args w : (merge args w).1 ≠ Err OutOfFuel.
Proof.
  enough (wp (merge args) w (λ r _, r ≠ Err OutOfFuel)) as Hwp by done.
  apply wp_merge; [congruence..|done].
Qed.

(** The columns of a ledger row, as the scripts that read the table see them. *)
Definition ledger_row (c : claim) : row := dict_row ledger_header (claim_record c).

Lemma ledger_row_lookup c i k s :
  ledger_header !! i = Some k → claim_record c !! i = Some s → ledger_row c !! k = Some (Some s).
Proof.
  intros Hk Hs. apply (dict_row_lookup ledger_header (claim_record c) i k s); [|done..].
  apply (bool_decide_unpack _). by vm_compute.
Qed.

Lemma ledger_row_int c i k v :
  ledger_header !! i = Some k → claim_record c !! i = Some (str_of_Z v) → cell_int (ledger_row c) k = Ok v.
Proof.
  intros Hk Hs. apply cell_int_Ok. exists (str_of_Z v). split; [|apply py_int_str_of_Z].
  by eapply ledger_row_lookup.
Qed.

(** Reading the output back as CSV gives one row per claim.  The keys of the
    rows strictly increase, the amounts are integers, every component from a table is
    non-negative, every claim's total is the sum of its components and positive, and the
    totals add up to the summary's. *)
Theorem ledger_reads_back args w j w' text :
  merge args w = (Ok j, w') → output args ≠ summary_output args →
  files w' !! output args = Some text →
  let rows := dict_rows text in
  StronglySorted str_lt (row_key <$> rows) ∧
  Forall (λ r, ∃ l0 l1 active undelegation reward pending total,
    cell_int r "liquid_shard0_atto" = Ok l0 ∧ cell_int r "liquid_shard1_atto" = Ok l1 ∧
    cell_int r "liquid_total_atto" = Ok (l0 + l1) ∧
    cell_int r "active_delegation_atto" = Ok active ∧
    cell_int r "pending_undelegation_atto" = Ok undelegation ∧
    cell_int r "unclaimed_reward_atto" = Ok reward ∧
    cell_int r "pending_cross_shard_atto" = Ok pending ∧
    cell_int r "total_claim_atto" = Ok total ∧
    total = l0 + l1 + active + undelegation + reward + pending ∧ 0 < total ∧
    0 ≤ l0 ∧ 0 ≤ l1 ∧ 0 ≤ active ∧ 0 ≤ undelegation ∧ 0 ≤ reward) rows ∧
  jget_int "total_claim_atto" j = Ok (sum_by (amount_of "total_claim_atto") rows) ∧
  jget "rows" j = Ok (JInt (Z.of_nat (length rows))).
Proof.
  intros (i & report & claims & retired & _ & _ & _ & Hc & _ & -> & Hw)%merge_Ok Hne Ht.
  rewrite Hw, lookup_insert_ne, lookup_insert_eq in Ht by done. injection Ht as <-. cbn zeta.
  assert (Hrows : dict_rows (ledger_text claims) = ledger_row <$> claims).
  { unfold ledger_text. rewrite dict_rows_write_csv, <-list_fmap_compose; [done|].
    by apply Forall_fmap, Forall_true. }
  rewrite Hrows. destruct (ledger_keys_spec i) as [Hs _].
  destruct (totals_of_claims claims no_totals) as (Hn & _ & _ & _ & _ & _ & _ & Htot).
  simpl in Hn, Htot. unfold ledger_claims in Hc. split_and!.
  - assert (Hk : row_key <$> (ledger_row <$> claims) = ledger_keys i); [|by rewrite Hk].
    apply mapR_Ok in Hc. clear -Hc. induction Hc as [|k c ks claims Hk Hc IH]; [done|].
    rewrite !fmap_cons, IH. f_equal. apply claim_at_Ok in Hk as [Hk _].
    unfold row_key, cell_get. by rewrite (ledger_row_lookup c 0 "secure_key" (cl_key c)).
  - apply Forall_fmap, Forall_forall. intros c Hin.
    apply mapR_Ok in Hc. apply list_elem_of_lookup in Hin as [n Hn'].
    eapply Forall2_lookup_r in Hc as (k & _ & Hk); [|done]. apply claim_at_Ok in Hk.
    exists (cl_liquid0 c), (cl_liquid1 c), (cl_active c), (cl_undelegation c), (cl_reward c),
      (cl_pending c), (cl_total c).
    destruct Hk as (_ & _ & _ & _ & _ & _ & _ & ? & ? & ? & ? & ? & ?).
    split_and!; try assumption; try reflexivity.
    + by apply (ledger_row_int c 2).
    + by apply (ledger_row_int c 3).
    + by apply (ledger_row_int c 4).
    + by apply (ledger_row_int c 5).
    + by apply (ledger_row_int c 6).
    + by apply (ledger_row_int c 7).
    + by apply (ledger_row_int c 8).
    + by apply (ledger_row_int c 9).
  - unfold jget_int. simpl. rewrite Htot, int_str_of_Z, sum_by_fmap. f_equal. apply sum_by_ext.
    intros c _. unfold compose, amount_of. by rewrite (ledger_row_int c 9 _ (cl_total c)).
  - simpl. by rewrite Hn, length_fmap.
Qed.

(** ** Lemmas: runs without an I/O fault *)
Definition quiet (m : gmap string string) : world := World m None.

Lemma quiet_publish p ts m :
  m !! partial p = None →
  publish p ts (quiet m) = (Ok tt, quiet (<[p := concat_texts ts]> m)).
Proof.
  intros Hp.
  assert (Hw : ∀ old, for_io (write (partial p)) ts (quiet (<[partial p := old]> m)) =
                      (Ok tt, quiet (<[partial p := old +:+ concat_texts ts]> m))).
  { induction ts as [|t ts IH]; intros old; simpl; [by rewrite str_app_nil_r|].
    unfold mbind, io_bind, write. simpl. rewrite lookup_insert_eq. unfold set_files. simpl.
    change (World ?x None) with (quiet x). rewrite insert_insert_eq, IH. by rewrite <-str_app_assoc. }
  unfold publish, mbind, io_bind, create. simpl. rewrite Hp. unfold set_files. simpl.
  change (World ?x None) with (quiet x). rewrite Hw. simpl. rewrite str_app_nil_l. unfold replace. simpl.
  rewrite lookup_insert_eq. unfold set_files. simpl. by rewrite delete_insert_eq, delete_id.
Qed.

Lemma quiet_merge_loop fuel p rc st s m old :
  m !! p = Some old →
  ∃ m', merge_loop fuel p rc st s (quiet m) = (foldl add_claim s <$> claims_of fuel rc st, quiet m') ∧
    (∀ cs, claims_of fuel rc st = Ok cs → m' = <[p := old +:+ write_csv (claim_record <$> cs)]> m).
Proof.
  revert st s m old. induction fuel as [|fuel IH]; intros st s m old Hp; cbn [merge_loop claims_of];
    destruct (min_key (head_keys st)) as [key|].
  1, 2, 4: exists m; split; [done|]; intros cs [= <-]; simpl; by rewrite str_app_nil_r, insert_id.
  unfold mbind at 1, io_bind at 1, lift. destruct (merge_step rc key st) as [[c st']|e]; cbn [mbind result_bind].
  2: { exists m. split; [done|]. by intros cs [=]. }
  unfold mbind at 1, io_bind at 1, write. simpl. rewrite Hp. simpl. unfold set_files. simpl.
  change (World ?x None) with (quiet x).
  destruct (IH st' (add_claim s c) (<[p := old +:+ csv_line (claim_record c)]> m)
    (old +:+ csv_line (claim_record c))) as (m' & -> & Hm'); [by rewrite lookup_insert_eq|].
  exists m'. destruct (claims_of fuel rc st') as [cs|e]; simpl; [|by split].
  split; [done|]. intros cs' [= <-]. rewrite (Hm' cs) by done.
  rewrite insert_insert_eq. simpl. by rewrite <-str_app_assoc.
Qed.

(** Rows with a secure key that strictly increase load into a valid cursor. *)
Lemma advance_first kind rows :
  Forall (λ r : row, ∃ k, r !! "secure_key" = Some (Some k)) rows →
  StronglySorted str_lt (row_key <$> (tagged kind <$> rows)) →
  ∃ c, advance kind (Cursor None None rows) = Ok c ∧ cursor_ok kind c ∧ stream kind c = tagged kind <$> rows.
Proof.
  intros Hk Hs. destruct rows as [|r rows].
  { exists (Cursor None None []). split_and!; [done| |done]. split; [constructor|constructor|done|by intros []]. }
  apply Forall_cons in Hk as [[k Hk] Hks]. unfold advance, cell_str, cell. simpl. rewrite Hk. simpl.
  exists (Cursor (Some (tagged kind r)) (Some (lower k)) rows).
  assert (Ht : tagged kind r = tag_row kind (lower k) r) by (unfold tagged, cell_get; by rewrite Hk).
  split_and!; [by rewrite Ht| |done]. split; [done|done|done|].
  intros _. simpl. by rewrite Ht, row_key_tag.
Qed.

(** Every row of the three tables has a secure key. *)
Definition has_key (r : row) : bool := match r !! "secure_key" with Some (Some _) => true | _ => false end.

Definition keyed_inputs (args : merge_args) (w : world) : Prop :=
  ∀ p t, p ∈ [shard0_liquid args; shard1_liquid args; staking_path args] → files w !! p = Some t →
    forallb has_key (dict_rows t) = true.

Lemma has_key_rows rows :
  forallb has_key rows = true → Forall (λ r : row, ∃ k, r !! "secure_key" = Some (Some k)) rows.
Proof.
  intros H%Is_true_true%forallb_True. eapply Forall_impl; [exact H|]. intros r Hr. unfold has_key in Hr.
  destruct (r !! "secure_key") as [[k|]|]; [eauto|done..].
Qed.

Lemma quiet_load_state args i report m :
  holds_inputs args (quiet m) i report → keyed_inputs args (quiet m) → increasing_inputs i →
  ∃ st, load_state args (in_receipts i) (quiet m) = (Ok st, quiet m) ∧ state_ok st ∧ loaded i st.
Proof.
  intros (t0 & t1 & t2 & tr & F0 & F1 & F2 & _ & E0 & E1 & E2 & _) Hk Hinc.
  apply Forall_cons in Hinc as [H0 Hinc]. apply Forall_cons in Hinc as [H1 Hinc].
  apply Forall_cons in Hinc as [H2 _].
  assert (Ho : ∀ p kind t, files (quiet m) !! p = Some t → 
    p ∈ [shard0_liquid args; shard1_liquid args; staking_path args] →
    StronglySorted str_lt (row_key <$> (tagged kind <$> dict_rows t)) →
    ∃ c, open_rows p kind (quiet m) = (Ok c, quiet m) ∧ cursor_ok kind c ∧ stream kind c = tagged kind <$> dict_rows t).
  { intros p kind t Hp Hin Hs. destruct (advance_first kind (dict_rows t)) as (c & Hc & Hok & Hst);
      [by eapply has_key_rows, Hk|done|]. exists c. split_and!; [|done..].
    unfold open_rows, mbind, io_bind, read. rewrite Hp. simpl. unfold lift. by rewrite Hc. }
  destruct (Ho _ "liquid0" _ F0) as (c0 & O0 & K0 & S0); [set_solver|by rewrite <-E0|].
  destruct (Ho _ "liquid1" _ F1) as (c1 & O1 & K1 & S1); [set_solver|by rewrite <-E1|].
  destruct (Ho _ "staking" _ F2) as (c2 & O2 & K2 & S2); [set_solver|by rewrite <-E2|].
  exists (MergeState c0 c1 c2 (sort_by str_leb (elements (dom (in_receipts i))))).
  split.
  { unfold load_state, mbind, io_bind. rewrite O0, O1, O2. done. }
  pose proof (sort_by_str_sorted (elements (dom (in_receipts i))) (NoDup_elements _)) as Hr.
  split; [by split|]. split; simpl; [|congruence..|done].
  split; simpl; [split; [apply K0|apply K0]|split; [apply K1|apply K1]|split; [apply K2|apply K2]|done].
Qed.

Lemma quiet_refuse args m :
  fresh_outputs args (quiet m) →
  for_io refuse_existing [output args; summary_output args] (quiet m) = (Ok tt, quiet m).
Proof.
  intros (H1 & H2 & H3 & H4). simpl in *. unfold refuse_existing, exists_, mbind, io_bind, mret, io_ret.
  simpl. rewrite H1. simpl. rewrite H2. simpl. rewrite H3. simpl. by rewrite H4.
Qed.

Lemma quiet_hash_inputs args i report m :
  holds_inputs args (quiet m) i report →
  hash_inputs args (quiet m) = (Ok (input_hashes args (quiet m)), quiet m).
Proof.
  intros (t0 & t1 & t2 & tr & F0 & F1 & F2 & F3 & _).
  unfold hash_inputs, input_hashes, digest_at, mbind, io_bind.
  rewrite (ledger_sha256_read (shard0_liquid args)), F0, (ledger_sha256_read (shard1_liquid args)), F1.
  by rewrite (ledger_sha256_read (staking_path args)), F2, (ledger_sha256_read (receipts_path args)), F3.
Qed.

(** The outputs' names do not collide. *)
Definition distinct_outputs (args : merge_args) : Prop :=
  output args ≠ summary_output args ∧ output args ≠ partial (summary_output args) ∧
  partial (output args) ≠ partial (summary_output args).

Lemma quiet_write_ledger args hashes retired rc st m :
  fresh_outputs args (quiet m) → distinct_outputs args →
  (write_ledger args hashes retired rc st (quiet m)).1 =
  (claims ← claims_of (merge_left st) rc st;
   Ok (summary_json args hashes retired (foldl add_claim no_totals claims) (sha256 (ledger_text claims)))).
Proof.
  intros (H1 & H2 & H3 & H4) (D1 & D2 & D3). unfold write_ledger, mbind at 1, io_bind at 1, create. simpl.
  simpl in H2. rewrite H2. unfold set_files. simpl. change (World ?x None) with (quiet x).
  unfold mbind at 1, io_bind at 1, write. simpl. rewrite lookup_insert_eq. simpl. unfold set_files. simpl.
  change (World ?x None) with (quiet x). rewrite insert_insert_eq, str_app_nil_l.
  unfold mbind at 1, io_bind at 1.
  edestruct (quiet_merge_loop (merge_left st) (partial (output args)) rc st no_totals) as (m' & -> & Hm');
    [by rewrite lookup_insert_eq|].
  destruct (claims_of _ rc st) as [claims|e]; cbn [fmap result_fmap mbind result_bind]; [|done].
  rewrite (Hm' claims) by done. rewrite insert_insert_eq.
  change (csv_line ledger_header +:+ write_csv (claim_record <$> claims)) with (ledger_text claims).
  unfold mbind at 1, io_bind at 1. simpl. unfold mbind at 1, io_bind at 1, replace. simpl.
  rewrite lookup_insert_eq. unfold set_files. simpl. change (World ?x None) with (quiet x).
  rewrite delete_insert_eq, delete_id by done. unfold mbind at 1, io_bind at 1.
  rewrite ledger_sha256_read. simpl. rewrite lookup_insert_eq. unfold mbind, io_bind.
  rewrite quiet_publish; [done|]. rewrite lookup_insert_ne by done. done.
Qed.

(** ** Well-formed inputs *)
Lemma mapR_total {A B} (f : A → result B) l : (∀ x, x ∈ l → ∃ y, f x = Ok y) → ∃ k, mapR f l = Ok k.
Proof.
  intros H. induction l as [|x l IH]; [by exists []|]. destruct (H x) as [y Hy]; [by left|].
  destruct IH as [k Hk]; [intros z Hz; apply H; by right|]. exists (y :: k). cbn [mapR]. by rewrite Hy, Hk.
Qed.

Lemma forallb_Forall {A} (f : A → bool) l : forallb f l = true ↔ Forall (λ x, f x = true) l.
Proof. rewrite Forall_forall, List.forallb_forall. split; intros H x Hx; apply H; by apply list_elem_of_In. Qed.


(** The cells of a table's row that the script reads. *)
Definition text_cell (field : string) (r : row) : Prop := is_ok (cell r field) = true.
Definition amount_cell (field : string) (r : row) : Prop := ∃ v, cell_int r field = Ok v ∧ 0 ≤ v.

Definition liquid_row (r : row) : Prop :=
  text_cell "address" r ∧ amount_cell "balance_atto" r ∧ text_cell "nonce" r ∧ text_cell "code_hash" r.

Definition staking_row (r : row) : Prop :=
  text_cell "address" r ∧ amount_cell "active_delegation_atto" r ∧ amount_cell "pending_undelegation_atto" r ∧
  amount_cell "unclaimed_reward_atto" r.

(** The addresses that the inputs give for a key. *)
Definition row_addresses (r : row) : list string := match cell_get r "address" with Some (String _ _ as s) => [s] | _ => [] end.

Definition addresses_at (i : ledger_inputs) (key : string) : list string :=
  (filter (λ r, row_key r = key) (in_liquid0 i ++ in_liquid1 i ++ in_staking i) ≫= row_addresses) ++ receipt_address (in_receipts i !! key).

(** What the inputs owe a key. *)
Definition owed_at (i : ledger_inputs) (key : string) : Z :=
  amount_at "balance_atto" key (in_liquid0 i) + amount_at "balance_atto" key (in_liquid1 i) +
  amount_at "active_delegation_atto" key (in_staking i) + amount_at "pending_undelegation_atto" key (in_staking i) +
  amount_at "unclaimed_reward_atto" key (in_staking i) + pending_at (in_receipts i) key.

(** Every row has its cells, with amounts that are not negative; the addresses of a key differ at most in case; every key is
    owed something. *)
Record well_formed_inputs (i : ledger_inputs) : Prop := {
  wfi_liquid : Forall liquid_row (in_liquid0 i ++ in_liquid1 i);
  wfi_staking : Forall staking_row (in_staking i);
  wfi_addresses : Forall (λ key, ∀ a b, a ∈ addresses_at i key → b ∈ addresses_at i key → lower a = lower b) (ledger_keys i);
  wfi_owed : Forall (λ key, 0 < owed_at i key) (ledger_keys i);
}.

Lemma find_row_Some key rows r : find_row key rows = Some r → r ∈ rows ∧ row_key r = key.
Proof. unfold find_row. intros H%head_Some_elem_of. apply list_elem_of_filter in H. tauto. Qed.

Lemma address_of_found P key rows :
  Forall P rows → (∀ r, P r → text_cell "address" r) →
  ∃ l, address_of (find_row key rows) = Ok l ∧ ∀ a, a ∈ l → ∃ r, r ∈ rows ∧ row_key r = key ∧ a ∈ row_addresses r.
Proof.
  intros Hr Hp. destruct (find_row key rows) as [r|] eqn:E; [|by exists []; split; [done|intros a ?%not_elem_of_nil]].
  apply find_row_Some in E as [Hin Hk]. rewrite Forall_forall in Hr. pose proof (Hp _ (Hr _ Hin)) as Ht.
  unfold text_cell, address_of, cell in *. unfold row_addresses, cell_get. destruct (r !! "address") as [c|] eqn:Ec; [|done]. simpl.
  eexists. split; [done|]. intros a Ha. exists r. split_and!; [done..|]. by rewrite Ec.
Qed.

Lemma int_field_found P key field rows :
  Forall P rows → (∀ r, P r → amount_cell field r) → int_field (find_row key rows) field = Ok (amount_at field key rows).
Proof.
  intros Hr Hp. unfold amount_at. destruct (find_row key rows) as [r|] eqn:E; [|done].
  apply find_row_Some in E as [Hin _]. rewrite Forall_forall in Hr. destruct (Hp _ (Hr _ Hin)) as (v & Hv & Hpos).
  unfold int_field, amount_of. rewrite Hv. simpl. by rewrite (proj2 (Z.ltb_ge _ _) Hpos).
Qed.

Lemma optional_text_found P key field rows :
  Forall P rows → (∀ r, P r → text_cell field r) → ∃ s, optional_text (find_row key rows) field = Ok s.
Proof.
  intros Hr Hp. destruct (find_row key rows) as [r|] eqn:E; [|by exists EmptyString].
  apply find_row_Some in E as [Hin _]. rewrite Forall_forall in Hr. pose proof (Hp _ (Hr _ Hin)) as Ht.
  unfold text_cell, optional_text in *. destruct (cell r field); [by eexists|done].
Qed.

(** A key of well-formed inputs has a claim. *)
Lemma claim_at_found i key :
  well_formed_inputs i → key ∈ ledger_keys i → ∃ c, claim_at (in_receipts i) (in_liquid0 i) (in_liquid1 i) (in_staking i) key = Ok c.
Proof.
  intros [Hl Hs Ha Ho] Hk. apply Forall_app in Hl as [H0 H1]. rewrite !Forall_forall in Ha, Ho. specialize (Ha _ Hk). specialize (Ho _ Hk).
  destruct (address_of_found liquid_row key _ H0) as (a0 & E0 & A0); [by unfold liquid_row; tauto|].
  destruct (address_of_found liquid_row key _ H1) as (a1 & E1 & A1); [by unfold liquid_row; tauto|].
  destruct (address_of_found staking_row key _ Hs) as (a2 & E2 & A2); [by unfold staking_row; tauto|].
  unfold claim_at, make_claim. rewrite E0, E1, E2. cbn [mbind result_bind].
  set (addresses := a0 ++ a1 ++ a2 ++ _).
  assert (Hin : ∀ a, a ∈ addresses → a ∈ addresses_at i key).
  { intros a. unfold addresses, addresses_at. rewrite !elem_of_app, list_elem_of_bind. intros Hin.
    assert (Hrow : ∀ r, r ∈ in_liquid0 i ++ in_liquid1 i ++ in_staking i → row_key r = key → a ∈ row_addresses r →
      ∃ y, a ∈ row_addresses y ∧ y ∈ filter (λ r, row_key r = key) (in_liquid0 i ++ in_liquid1 i ++ in_staking i))
      by (intros r ? ? ?; exists r; by rewrite list_elem_of_filter).
    destruct Hin as [(r & ? & ? & ?)%A0|[(r & ? & ? & ?)%A1|[(r & ? & ? & ?)%A2|Hin]]]; [left; apply (Hrow r); set_solver..|by right]. }
  assert (Hagree : existsb (λ a, negb (bool_decide (lower a = lower (default EmptyString (head addresses))))) (tail addresses) = false).
  { clearbody addresses. destruct addresses as [|x l]; [done|]. cbn [head default tail]. apply not_true_iff_false.
    intros (a & Hal & Hne)%existsb_exists. rewrite negb_true_iff, bool_decide_eq_false in Hne. apply Hne, Ha; apply Hin; [|by left].
    right. by apply list_elem_of_In. }
  rewrite Hagree. cbn [raise_when mbind result_bind].
  rewrite (int_field_found liquid_row key _ _ H0), (int_field_found liquid_row key _ _ H1),
    !(int_field_found staking_row key _ _ Hs) by (unfold liquid_row, staking_row; tauto).
  cbn [mbind result_bind]. rewrite (proj2 (Z.leb_gt _ _)) by (unfold owed_at, pending_at in Ho; lia). cbn [raise_when mbind result_bind].
  destruct (optional_text_found liquid_row key "nonce" _ H0) as (n0 & ->); [by unfold liquid_row; tauto|].
  destruct (optional_text_found liquid_row key "nonce" _ H1) as (n1 & ->); [by unfold liquid_row; tauto|].
  destruct (optional_text_found liquid_row key "code_hash" _ H0) as (c0 & ->); [by unfold liquid_row; tauto|].
  destruct (optional_text_found liquid_row key "code_hash" _ H1) as (c1 & ->); [by unfold liquid_row; tauto|].
  by eexists.
Qed.

(** Without an I/O fault, on tables whose keys are present and strictly increase and with fresh, distinct output names, the
    script ends as the specification does: with the summary of the specified claims, or with the exception of the first key,
    in order, whose rows do not make a claim. *)
Lemma merge_specified args m i report retired :
  fresh_outputs args (quiet m) → distinct_outputs args →
  holds_inputs args (quiet m) i report → keyed_inputs args (quiet m) → increasing_inputs i →
  jget "unsupported_pending_atto" report = Ok retired →
  (merge args (quiet m)).1 =
  (claims ← ledger_claims i;
   Ok (summary_json args (input_hashes args (quiet m)) retired (foldl add_claim no_totals claims)
         (sha256 (ledger_text claims)))).
Proof.
  intros Hf Hd Hi Hk Hinc Hr. unfold merge, mbind at 1, io_bind at 1. rewrite quiet_refuse by done.
  unfold mbind at 1, io_bind at 1. rewrite (quiet_hash_inputs _ i report) by done.
  unfold mbind at 1, io_bind at 1.
  destruct (quiet_load_state args i report m Hi Hk Hinc) as (st & Hst & Hok & Hld).
  destruct Hi as (t0 & t1 & t2 & tr & F0 & F1 & F2 & F3 & E0 & E1 & E2 & Hl & Hp).
  assert (Hld' : load_pending_receipts (receipts_path args) (quiet m) = (Ok (in_receipts i, report), quiet m)).
  { unfold load_pending_receipts, load_json, mbind, io_bind, read. cbv beta. rewrite F3. cbn [of_option].
    unfold lift. rewrite Hl, Hp. done. }
  rewrite Hld'. unfold mbind at 1, io_bind at 1. rewrite Hst.
  unfold mbind at 1, io_bind at 1, lift. rewrite Hr. unfold on_exception.
  pose proof (quiet_write_ledger args (input_hashes args (quiet m)) retired (in_receipts i) st m Hf Hd) as Hw.
  rewrite (claims_of_loaded i st) in Hw by (done || apply Hld).
  destruct (write_ledger _ _ _ _ _ _) as [[j|e] w']; simpl in *; [done|].
  rewrite <-Hw. done.
Qed.

(** C5 (liveness): without an I/O fault, on tables whose keys are present and strictly increase and with fresh, distinct
    output names, the script ends as the specification does: with the summary of the specified claims, or with the exception
    of the first key, in order, whose rows do not make a claim.  Where the inputs are well formed (every row has its cells
    with amounts that are not negative, the addresses of a key agree, every key is owed something), every key has a claim, the
    script succeeds, and it leaves both outputs, the table of the claims and the summary, next to the files it found. *)
Theorem merge_complete args m i report retired :
  fresh_outputs args (quiet m) → distinct_outputs args →
  holds_inputs args (quiet m) i report → keyed_inputs args (quiet m) → increasing_inputs i →
  jget "unsupported_pending_atto" report = Ok retired →
  (merge args (quiet m)).1 =
  (claims ← ledger_claims i;
   Ok (summary_json args (input_hashes args (quiet m)) retired (foldl add_claim no_totals claims)
         (sha256 (ledger_text claims)))) ∧
  (well_formed_inputs i →
   ∃ claims j w',
     ledger_claims i = Ok claims ∧ merge args (quiet m) = (Ok j, w') ∧
     j = summary_json args (input_hashes args (quiet m)) retired (foldl add_claim no_totals claims) (sha256 (ledger_text claims)) ∧
     files w' = <[summary_output args := dumps j +:+ newline]> (<[output args := ledger_text claims]> m)).
Proof.
  intros Hf Hd Hi Hk Hinc Hr. pose proof (merge_specified args m i report retired Hf Hd Hi Hk Hinc Hr) as Hm. split; [exact Hm|].
  intros Hwf. destruct (mapR_total (claim_at (in_receipts i) (in_liquid0 i) (in_liquid1 i) (in_staking i)) (ledger_keys i)) as [claims Hc].
  { intros key Hin. by apply claim_at_found. }
  change (ledger_claims i = Ok claims) in Hc. rewrite Hc in Hm. destruct (merge args (quiet m)) as [r w'] eqn:E. simpl in Hm. subst r.
  destruct (merge_Ok _ _ _ _ E) as (i' & report' & claims' & retired' & _ & Hi' & _ & Hc' & Hr' & Hj & Hw).
  destruct (holds_inputs_unique _ _ _ _ _ _ Hi Hi') as [-> ->]. rewrite Hc in Hc'. injection Hc' as <-.
  rewrite Hr in Hr'. injection Hr' as <-. by eexists claims, _, w'.
Qed.

(** ** Witnesses: a ledger of three keys *)
Definition ex_args : merge_args :=
  MergeArgs "shard0.csv" "shard1.csv" "staking.csv" "receipts.json" "ledger.csv" "ledger.json".

Definition ex_liquid0 : string := write_csv
  [["secure_key"; "address"; "balance_atto"; "nonce"; "code_hash"];
   ["aa"; "0xA1"; "5"; "1"; "c5"];
   ["CC"; ""; "7"; "0"; "c5"]].

Definition ex_liquid1 : string := write_csv
  [["secure_key"; "address"; "balance_atto"; "nonce"; "code_hash"];
   ["aa"; "0xa1"; "11"; "3"; "c5"]].

Definition ex_staking : string := write_csv
  [["secure_key"; "address"; "active_delegation_atto"; "pending_undelegation_atto"; "unclaimed_reward_atto"];
   ["bb"; "0xb2"; "100"; "20"; "3"]].

Definition ex_receipt (key address amount : string) : json :=
  JObj [("secure_key", JStr key); ("to", JStr address); ("amount_atto", JStr amount)].

Definition ex_report (pending : string) : string := dumps (JObj
  [("directions", JArr [JObj [("pending_groups", JArr [JObj [("receipts",
      JArr [ex_receipt "AA" "0xA1" "40"; ex_receipt "aa" "0xa1" "2"])]])];
      JObj [("pending_groups", JNull)]]);
   ("pending_active_atto", JStr pending);
   ("unsupported_pending_atto", JStr "0")]).

Definition ex_files : gmap string string := list_to_map
  [("shard0.csv", ex_liquid0); ("shard1.csv", ex_liquid1); ("staking.csv", ex_staking);
   ("receipts.json", ex_report "42")].

Definition ex_summary (w : world) : json := default JNull (match (merge ex_args w).1 with Ok j => Some j | Err _ => None end).

Example ex_totals :
  jget "total_claim_atto" (ex_summary (quiet ex_files)) = Ok (JStr "188").
Proof. by vm_compute. Qed.

Example ex_table :
  files (merge ex_args (quiet ex_files)).2 !! "ledger.csv" = Some (write_csv
    [ledger_header;
     ["aa"; "0xA1"; "5"; "11"; "16"; "0"; "0"; "0"; "42"; "58"; "1"; "3"; "c5"; "c5"];
     ["bb"; "0xb2"; "0"; "0"; "0"; "100"; "20"; "3"; "0"; "123"; ""; ""; ""; ""];
     ["cc"; ""; "7"; "0"; "7"; "0"; "0"; "0"; "0"; "7"; "0"; ""; "c5"; ""]]).
Proof. by vm_compute. Qed.

(** A report whose total disagrees with its receipts, and a fault in the middle of the loop. *)
Example ex_bad_report :
  (merge ex_args (quiet (<["receipts.json" := ex_report "43"]> ex_files))).1 =
  Err (ValueError "pending receipt sum").
Proof. by vm_compute. Qed.

Example ex_fault :
  let w := (merge ex_args (World ex_files (Some (3, 5)%nat))).2 in
  (merge ex_args (World ex_files (Some (3, 5)%nat))).1 = Err io_error ∧
  files w !! "ledger.csv" = None ∧ files w !! "ledger.csv.partial" = None.
Proof. by vm_compute. Qed.

Lemma merge_returns_ex : merge ex_args (quiet ex_files) =
  (Ok (ex_summary (quiet ex_files)), (merge ex_args (quiet ex_files)).2).
Proof. by vm_compute. Qed.

Definition ex_world' : world := (merge ex_args (quiet ex_files)).2.

Definition decoded_inputs (w : world) (args : merge_args) : ledger_inputs :=
  let rows kind p := tagged kind <$> dict_rows (default EmptyString (files w !! p)) in
  Inputs (rows "liquid0" (shard0_liquid args)) (rows "liquid1" (shard1_liquid args))
    (rows "staking" (staking_path args))
    (match loads (default EmptyString (files w !! receipts_path args)) with
     | Ok report => match pending_of_report report with Ok rc => rc | Err _ => ∅ end
     | Err _ => ∅
     end).

Definition ex_report_json : json :=
  match loads (ex_report "42") with Ok report => report | Err _ => JNull end.

Lemma ex_holds : holds_inputs ex_args (quiet ex_files) (decoded_inputs (quiet ex_files) ex_args) ex_report_json.
Proof.
  exists ex_liquid0, ex_liquid1, ex_staking, (ex_report "42"). split_and!; reflexivity.
Qed.

Lemma merge_refines_witness : ∃ i report claims retired,
  fresh_outputs ex_args (quiet ex_files) ∧ holds_inputs ex_args (quiet ex_files) i report ∧
  ledger_claims i = Ok claims ∧ jget "unsupported_pending_atto" report = Ok retired ∧
  ex_summary (quiet ex_files) = summary_json ex_args (input_hashes ex_args (quiet ex_files)) retired
    (foldl add_claim no_totals claims) (sha256 (ledger_text claims)) ∧
  files ex_world' = <["ledger.json" := dumps (ex_summary (quiet ex_files)) +:+ newline]>
    (<["ledger.csv" := ledger_text claims]> ex_files).
Proof. exact (merge_refines ex_args (quiet ex_files) _ ex_world' merge_returns_ex). Defined.

Lemma merge_conserves_witness : ∃ pending,
  jget_int "pending_active_atto" ex_report_json = Ok pending ∧
  jget_int "total_claim_atto" (ex_summary (quiet ex_files)) = Ok (12 + 11 + 100 + 20 + 3 + pending).
Proof.
  destruct (merge_conserves ex_args (quiet ex_files) _ ex_world' _ _ merge_returns_ex ex_holds)
    as (p & Hp & _ & _ & _ & _ & _ & _ & Ht).
  exists p. split; [exact Hp|]. exact Ht.
Defined.

Lemma merge_atomic_witness :
  let w := World ex_files (Some (3, 5)%nat) in
  files (merge ex_args w).2 = files w ∨ fresh_outputs ex_args w ∧
  ∃ i report claims, holds_inputs ex_args w i report ∧ ledger_claims i = Ok claims ∧
    files (merge ex_args w).2 = settled ex_args (<["ledger.csv" := ledger_text claims]> ex_files).
Proof.
  exact (merge_atomic ex_args (World ex_files (Some (3, 5)%nat)) io_error
    (merge ex_args (World ex_files (Some (3, 5)%nat))).2 ltac:(by vm_compute)).
Defined.

Lemma ledger_reads_back_witness :
  let text := default EmptyString (files ex_world' !! "ledger.csv") in
  StronglySorted str_lt (row_key <$> dict_rows text) ∧
  jget_int "total_claim_atto" (ex_summary (quiet ex_files)) =
    Ok (sum_by (amount_of "total_claim_atto") (dict_rows text)).
Proof.
  destruct (ledger_reads_back ex_args (quiet ex_files) _ ex_world'
    (default EmptyString (files ex_world' !! "ledger.csv")) merge_returns_ex)
    as (H1 & _ & H2 & _); [discriminate|vm_compute; reflexivity|]. by split.
Defined.

Lemma ex_well_formed : well_formed_inputs (decoded_inputs (quiet ex_files) ex_args).
Proof.
  assert (Hl : forallb (λ r, is_ok (cell r "address") && (match cell_int r "balance_atto" with Ok v => 0 <=? v | Err _ => false end) &&
      is_ok (cell r "nonce") && is_ok (cell r "code_hash"))
    (in_liquid0 (decoded_inputs (quiet ex_files) ex_args) ++ in_liquid1 (decoded_inputs (quiet ex_files) ex_args)) = true) by by vm_compute.
  assert (Hamount : ∀ field r, (match cell_int r field with Ok v => 0 <=? v | Err _ => false end) = true → amount_cell field r).
  { intros field r H. unfold amount_cell. destruct (cell_int r field) as [v|]; [|done]. exists v. by rewrite Z.leb_le in H. }
  split.
  - apply forallb_Forall in Hl. eapply Forall_impl; [exact Hl|]. intros r H. cbv beta in H. bool_facts. split_and!; by auto.
  - assert (Hs : forallb (λ r, is_ok (cell r "address") && (match cell_int r "active_delegation_atto" with Ok v => 0 <=? v | Err _ => false end) &&
        (match cell_int r "pending_undelegation_atto" with Ok v => 0 <=? v | Err _ => false end) &&
        (match cell_int r "unclaimed_reward_atto" with Ok v => 0 <=? v | Err _ => false end))
      (in_staking (decoded_inputs (quiet ex_files) ex_args)) = true) by by vm_compute.
    apply forallb_Forall in Hs. eapply Forall_impl; [exact Hs|]. intros r H. cbv beta in H. bool_facts. split_and!; by auto.
  - assert (Ha : forallb (λ key, forallb (λ a, forallb (λ b, bool_decide (lower a = lower b))
        (addresses_at (decoded_inputs (quiet ex_files) ex_args) key)) (addresses_at (decoded_inputs (quiet ex_files) ex_args) key))
      (ledger_keys (decoded_inputs (quiet ex_files) ex_args)) = true) by by vm_compute.
    apply forallb_Forall in Ha. eapply Forall_impl; [exact Ha|]. intros key H a b Hin Hin'. cbv beta in H.
    rewrite forallb_Forall, Forall_forall in H. specialize (H a Hin). cbv beta in H. rewrite forallb_Forall, Forall_forall in H.
    specialize (H b Hin'). by rewrite bool_decide_eq_true in H.
  - assert (Ho : forallb (λ key, 0 <? owed_at (decoded_inputs (quiet ex_files) ex_args) key)
      (ledger_keys (decoded_inputs (quiet ex_files) ex_args)) = true) by by vm_compute.
    apply forallb_Forall in Ho. eapply Forall_impl; [exact Ho|]. intros key H. by apply Z.ltb_lt.
Qed.

Lemma ex_keyed : keyed_inputs ex_args (quiet ex_files).
Proof.
  intros p t Hp Ht. rewrite !elem_of_cons in Hp.
  assert (Hk : forallb has_key (dict_rows (default EmptyString (files (quiet ex_files) !! p))) = true)
    by (destruct Hp as [->|[->|[->|Hp]]]; [by vm_compute..|by apply not_elem_of_nil in Hp]).
  by rewrite Ht in Hk.
Qed.

Lemma merge_complete_witness :
  ∃ claims j w', ledger_claims (decoded_inputs (quiet ex_files) ex_args) = Ok claims ∧ merge ex_args (quiet ex_files) = (Ok j, w') ∧
    files w' = <["ledger.json" := dumps j +:+ newline]> (<["ledger.csv" := ledger_text claims]> ex_files).
Proof.
  destruct (merge_complete ex_args ex_files _ ex_report_json (JStr "0") ltac:(by vm_compute) ltac:(by split_and!) ex_holds ex_keyed
    ltac:(by repeat constructor) ltac:(by vm_compute)) as [_ H].
  destruct (H ex_well_formed) as (claims & j & w' & H1 & H2 & _ & H3). exists claims, j, w'. split; [exact H1|]. split; [exact H2|exact H3].
Defined.
