(* ===== verification/Trace.v ===== *)
(** * Replay of a cross-shard source transaction

    The classification core of toolkit/scripts/forensics/cx-source-audit.py: the ABI input of
    the cross-shard precompile ([parse_precompile_input]), the walk over the call trace
    ([inspect_trace] with its inner [visit]), the verdict on the replay ([classify_replay]) and
    its combination with direct and independent evidence ([resolve_classification]).

    The walk is proved against a reading of the trace as a tree of calls: a receipt is a
    rollback leak exactly when one completed precompile call, which carries the receipt's
    payload, lies below a failed call other than the root ([rollback_leak_iff]). *)
From S2P Require Import Prelude PyStr PyData Sha256 Bech32.

Definition CX_PRECOMPILE : string := "0x00000000000000000000000000000000000000f9".
Definition CX_SELECTOR : list Z := [0x28; 0x48; 0x08; 0x00].
Definition CALL_TYPES : list string := ["CALL"; "CALLCODE"; "DELEGATECALL"; "STATICCALL"].

Definition FINAL_CLASSIFICATIONS : list string :=
  ["rollback_leak"; "source_debit_absent"; "valid_source_debit"].

(** [EVIDENCE_STATUS_CLASSIFICATION[status]] *)
Definition evidence_status_classification (status : string) : option string :=
  if decide (status = "absent") then Some "source_debit_absent"
  else if decide (status = "persisted") then Some "valid_source_debit"
  else None.

(** [TX_HASH_RE.fullmatch(s)], [SHA256_RE.fullmatch(s)] *)
Definition tx_hash_re (s : string) : bool := startswith "0x" s && lower_hex 64 (str_drop 2 s).
Definition sha256_re (s : string) : bool := lower_hex 64 s.

(** ** Receipts *)
Record identity := Identity {
  id_source_shard : Z;
  id_destination_shard : Z;
  id_source_block : Z;
  id_source_block_hash : string;
  id_receipt_index : Z;
  id_tx_hash : string;
  id_from : string;
  id_to : string;
  id_amount : Z;
}.

(** [evidence_key(identity)]: the tuple of all its fields. *)
Abbreviation evidence_id := (list (Z + string)).

Definition evidence_key (i : identity) : evidence_id :=
  [inl (id_source_shard i); inl (id_destination_shard i); inl (id_source_block i);
   inr (id_source_block_hash i); inl (id_receipt_index i); inr (id_tx_hash i); inr (id_from i);
   inr (id_to i); inl (id_amount i)].

(** The amount a key names. *)
Definition key_amount (k : evidence_id) : Z := match last k with Some (inl n) => n | _ => 0 end.

Definition receipt_identity (r : row) : result identity :=
  source_shard ← row_integer r ["audit_source_shard"; "signed_source_shard"; "source_shard"];
  destination_shard ← row_integer r ["audit_destination_shard"; "destination_shard"; "to_shard"];
  source_block ← row_integer r ["audit_source_block"; "signed_source_block"; "source_block"];
  h ← row_text r ["audit_source_block_hash"; "signed_source_header_hash"; "source_block_hash";
                  "claimed_source_block_hash"];
  source_block_hash ← text_lower h;
  receipt_index ← row_integer r ["receipt_index"];
  tx ← cell_str r "tx_hash";
  from_cell ← cell r "from";
  from ← decode_address from_cell;
  to_cell ← cell r "to";
  to ← decode_address to_cell;
  amount_atto ← cell_int r "amount_atto";
  raise_when (negb (tx_hash_re source_block_hash)) (ValueError "source block hash is not a 32-byte hash");;
  raise_when (negb (tx_hash_re (lower tx))) (ValueError "receipt transaction hash is not a transaction hash");;
  Ok (Identity source_shard destination_shard source_block source_block_hash receipt_index (lower tx)
        from to amount_atto).

(** ** The precompile's input *)
Record payload := Payload { pl_amount : Z; pl_to : string; pl_destination_shard : Z }.

Definition parse_precompile_input (value : json) : option payload :=
  match value with
  | JStr s =>
      if startswith "0x" s then
        match fromhex (str_drop 2 s) with
        | Some raw =>
            if (length raw <? 100)%nat || negb (bool_decide (take 4 raw = CX_SELECTOR)) then None
            else
              let address_word := take 32 (drop 36 raw) in
              let shard_word := take 32 (drop 68 raw) in
              Some (Payload (be_val 8 (take 32 (drop 4 raw)))
                     ("0x" +:+ hex (drop 12 address_word))
                     (be_val 8 (drop 28 shard_word)))
        | None => None
        end
      else None
  | _ => None
  end.

(** ** The walk over the trace *)
Record inspection := Inspection {
  precompile_call_count : Z;
  completed_precompile_call_count : Z;
  precompile_payload_match_count : Z;
  completed_precompile_payload_match_count : Z;
  failed_precompile_path_count : Z;
  failed_matching_precompile_path_count : Z;
}.

Definition no_inspection : inspection := Inspection 0 0 0 0 0 0.

Definition payload_matches (id : identity) (context_sender : string) (p : option payload) : bool :=
  match p with
  | Some p => (pl_amount p =? id_amount id) && bool_decide (context_sender = id_from id) &&
              bool_decide (pl_to p = id_to id) && (pl_destination_shard p =? id_destination_shard id)
  | None => false
  end.

(** What one precompile call adds to the counts. *)
Definition count_call (matches failed failed_nonroot_ancestor : bool) (r : inspection) : inspection :=
  let b (c : bool) := Z.b2z c in
  Inspection (precompile_call_count r + 1)
    (completed_precompile_call_count r + b (negb failed))
    (precompile_payload_match_count r + b matches)
    (completed_precompile_payload_match_count r + b (negb failed && matches))
    (failed_precompile_path_count r + b (negb failed && failed_nonroot_ancestor))
    (failed_matching_precompile_path_count r + b (negb failed && failed_nonroot_ancestor && matches)).

Definition is_precompile_call (to call_type : string) : bool :=
  bool_decide (lower to = CX_PRECOMPILE) && bool_decide (upper call_type ∈ CALL_TYPES).

(** [visit(node, failed_nonroot_ancestor, context_sender, is_root)] on the counts [r]. *)
Fixpoint visit (fuel : nat) (id : identity) (node : json) (failed_nonroot_ancestor : bool)
    (context_sender : string) (is_root : bool) (r : inspection) : result inspection :=
  match fuel with
  | O => Err OutOfFuel
  | S fuel =>
      call_type ← jget_text "type" node;
      to ← jget_text "to" node;
      input ← jget_opt "input" node;
      error ← jget_opt "error" node;
      let r :=
        if is_precompile_call to call_type then
          count_call (payload_matches id context_sender (parse_precompile_input input))
            (truthy error) failed_nonroot_ancestor r
        else r in
      let failed_for_children := failed_nonroot_ancestor || (negb is_root && truthy error) in
      calls ← match node with
              | JObj m => jiter (default (JArr []) (assoc "calls" m))
              | _ => Err AttributeError
              end;
      foldM (λ r child,
        child_type ← jget_text "type" child;
        from ← jget_text "from" child;
        let child_sender :=
          if decide (upper child_type = "DELEGATECALL") then context_sender else lower from in
        visit fuel id child failed_for_children child_sender false r) r calls
  end.

Definition inspect_trace (root : json) (id : identity) : result inspection :=
  from ← jget_text "from" root;
  visit (S (depth root)) id root false (lower from) true no_inspection.

(** ** The verdicts *)
Record verdict := Verdict {
  v_classification : string;
  v_compatible : bool;
  v_issue : string;
  v_trace_status : Z;
}.

Definition classify_replay (receipt_status : Z) (trace : json) (insp : inspection) : result verdict :=
  error ← jget_opt "error" trace;
  let trace_status := if truthy error then 0 else 1 in
  Ok (if negb (receipt_status =? 1) then
        Verdict "receipt_inconsistent" false
          "canonical outgoing receipt has a failed source transaction status" trace_status
      else if negb (trace_status =? receipt_status) then
        Verdict "replay_incompatible" false
          "replay root outcome disagrees with the stored source receipt" trace_status
      else if negb (completed_precompile_call_count insp =? 1) then
        Verdict "unclassified" true
          "replay does not contain exactly one locally completed precompile call" trace_status
      else if negb (completed_precompile_payload_match_count insp =? 1) then
        Verdict "unclassified" true
          "completed precompile call does not authenticate the canonical receipt" trace_status
      else if failed_matching_precompile_path_count insp =? 1 then
        Verdict "rollback_leak" true "" trace_status
      else Verdict "valid_source_debit" true "" trace_status).

Record evidence := Evidence {
  ev_classification : string;
  ev_status : string;
  ev_type : string;
  ev_reference : string;
  ev_sha256 : string;
}.

(** The final classification, its source and the evidence's classification. *)
Definition resolve_classification (direct_classification : option string)
    (replay_classification : string) (ev : option evidence) : result (string * string * string) :=
  let replay_final := default replay_classification direct_classification in
  match ev with
  | Some ev =>
      let status := ev_status ev in
      raise_when (bool_decide (replay_final = "valid_source_debit" ∧ status = "absent")
                  || bool_decide (replay_final = "rollback_leak" ∧ status = "persisted"))
        (ValueError "independent source-debit evidence conflicts");;
      Ok (if bool_decide (replay_final = "rollback_leak" ∨ replay_final = "valid_source_debit") then
            (replay_final,
             match direct_classification with
             | Some _ => "direct_transaction_and_independent_evidence"
             | None => "compatible_replay_and_independent_evidence"
             end,
             ev_classification ev)
          else (ev_classification ev, "independent_source_debit_evidence", ev_classification ev))
  | None =>
      Ok (if bool_decide (replay_final ∈ FINAL_CLASSIFICATIONS) then
            (replay_final,
             match direct_classification with
             | Some _ => "direct_transaction"
             | None => "compatible_replay"
             end, EmptyString)
          else ("unclassified", "unresolved", EmptyString))
  end.

(** ** The trace as a tree of calls *)
Inductive call := Call {
  c_type : string;
  c_to : string;
  c_from : string;
  c_input : json;
  c_failed : bool;
  c_calls : list call;
}.

Fixpoint call_of (fuel : nat) (node : json) : result call :=
  match fuel with
  | O => Err OutOfFuel
  | S fuel =>
      call_type ← jget_text "type" node;
      to ← jget_text "to" node;
      from ← jget_text "from" node;
      input ← jget_opt "input" node;
      error ← jget_opt "error" node;
      items ← match node with
              | JObj m => jiter (default (JArr []) (assoc "calls" m))
              | _ => Err AttributeError
              end;
      calls ← mapR (call_of fuel) items;
      Ok (Call call_type to from input (truthy error) calls)
  end.

Definition trace_call (root : json) : result call := call_of (S (depth root)) root.

(** The sender the walk attributes to a child: a delegated call keeps its context's. *)
Definition child_sender (context_sender : string) (c : call) : string :=
  if decide (upper (c_type c) = "DELEGATECALL") then context_sender else lower (c_from c).

(** One call as the walk meets it: where it is, whether an inner ancestor failed, and the sender
    attributed to it. *)
Record invocation := Inv {
  inv_path : list nat;
  inv_call : call;
  inv_failed_ancestor : bool;
  inv_sender : string;
}.

Definition is_root_path (p : list nat) : bool := match p with [] => true | _ => false end.

Definition spread {A B} (f : nat → A → list B) : nat → list A → list B :=
  fix go (i : nat) (l : list A) : list B :=
    match l with [] => [] | x :: l => f i x ++ go (S i) l end.

Fixpoint invocations (path : list nat) (t : call) (failed : bool) (sender : string) : list invocation :=
  Inv path t failed sender ::
  spread (λ i c, invocations (path ++ [i]) c (failed || (negb (is_root_path path) && c_failed t))
                   (child_sender sender c)) O (c_calls t).

Definition trace_invocations (t : call) : list invocation := invocations [] t false (lower (c_from t)).

Definition is_precompile (v : invocation) : bool := is_precompile_call (c_to (inv_call v)) (c_type (inv_call v)).
Definition completed (v : invocation) : bool := is_precompile v && negb (c_failed (inv_call v)).
Definition matching (id : identity) (v : invocation) : bool :=
  is_precompile v && payload_matches id (inv_sender v) (parse_precompile_input (c_input (inv_call v))).

Definition count {A} (p : A → bool) (l : list A) : Z := sum_by (λ x, Z.b2z (p x)) l.

Definition counts (id : identity) (l : list invocation) : inspection :=
  Inspection (count is_precompile l) (count completed l) (count (matching id) l)
    (count (λ v, completed v && matching id v) l)
    (count (λ v, completed v && inv_failed_ancestor v) l)
    (count (λ v, completed v && inv_failed_ancestor v && matching id v) l).

(** ** Lemmas: the walk counts the invocations *)
Lemma call_ind' (P : call → Prop) :
  (∀ ty to from input failed calls, Forall P calls → P (Call ty to from input failed calls)) → ∀ t, P t.
Proof.
  intros H. fix IH 1. intros [ty to from input failed calls]. apply H.
  induction calls as [|c calls IHl]; constructor; [apply IH|apply IHl].
Qed.

Definition add_counts (r s : inspection) : inspection :=
  Inspection (precompile_call_count r + precompile_call_count s)
    (completed_precompile_call_count r + completed_precompile_call_count s)
    (precompile_payload_match_count r + precompile_payload_match_count s)
    (completed_precompile_payload_match_count r + completed_precompile_payload_match_count s)
    (failed_precompile_path_count r + failed_precompile_path_count s)
    (failed_matching_precompile_path_count r + failed_matching_precompile_path_count s).

Lemma counts_app id l1 l2 : counts id (l1 ++ l2) = add_counts (counts id l1) (counts id l2).
Proof. unfold counts, add_counts, count. simpl. by rewrite !sum_by_app. Qed.

Lemma add_counts_assoc r s t : add_counts (add_counts r s) t = add_counts r (add_counts s t).
Proof. unfold add_counts. simpl. f_equal; lia. Qed.

Lemma counts_cons id v l : counts id (v :: l) = add_counts (counts id [v]) (counts id l).
Proof. apply (counts_app id [v]). Qed.

Lemma add_counts_nil r id : add_counts r (counts id []) = r.
Proof. destruct r. unfold add_counts, counts, count. simpl. f_equal; rewrite sum_by_nil; lia. Qed.

Lemma add_counts_l s : add_counts no_inspection s = s.
Proof. destruct s. unfold add_counts, no_inspection. simpl. f_equal; lia. Qed.

Lemma count_call_spec id r path c failed sender :
  (if is_precompile_call (c_to c) (c_type c) then
     count_call (payload_matches id sender (parse_precompile_input (c_input c))) (c_failed c) failed r
   else r) = add_counts r (counts id [Inv path c failed sender]).
Proof.
  unfold counts, count, add_counts, count_call, completed, matching, is_precompile. rewrite !sum_by_cons, !sum_by_nil.
  simpl. destruct r, (is_precompile_call _ _), (c_failed c), failed, (payload_matches _ _ _); simpl; f_equal; lia.
Qed.

Lemma jget_text_error k k' v e e' : jget_text k v = Err e → jget_text k' v = Err e' → e = e'.
Proof. destruct v; simpl; congruence. Qed.

(** The text and value of a member are there for every member once they are for one. *)
Lemma call_of_unfold fuel child :
  call_of (S fuel) child =
  (call_type ← jget_text "type" child;
   from ← jget_text "from" child;
   t ← call_of (S fuel) child;
   Ok t).
Proof.
  destruct child as [| | | | |m]; try done.
  change (jget_text "type" (JObj m)) with (Ok (match assoc "type" m with Some x => py_str x | None => EmptyString end)).
  change (jget_text "from" (JObj m)) with (Ok (match assoc "from" m with Some x => py_str x | None => EmptyString end)).
  cbn [mbind result_bind]. by destruct (call_of (S fuel) (JObj m)).
Qed.

Lemma call_of_Ok fuel node t :
  call_of fuel node = Ok t → jget_text "type" node = Ok (c_type t) ∧ jget_text "from" node = Ok (c_from t).
Proof.
  destruct fuel as [|fuel]; [done|]. cbn [call_of]. intros H. inv_ok H. by subst t.
Qed.

Lemma visit_counts fuel id node failed sender path r :
  (depth node < fuel)%nat →
  visit fuel id node failed sender (is_root_path path) r =
  (t ← call_of fuel node; Ok (add_counts r (counts id (invocations path t failed sender)))).
Proof.
  revert node failed sender path r.
  induction fuel as [|fuel IH]; intros node failed sender path r Hd; [lia|].
  destruct node as [| | | | |m]; try done. cbn [visit call_of].
  set (ty := jget_text "type" (JObj m)). set (to := jget_text "to" (JObj m)).
  set (from := jget_text "from" (JObj m)). set (inp := jget_opt "input" (JObj m)).
  set (err := jget_opt "error" (JObj m)).
  destruct ty as [ty'|] eqn:Ety, to as [to'|] eqn:Eto, from as [from'|] eqn:Efrom,
    inp as [inp'|] eqn:Einp, err as [err'|] eqn:Eerr; try done. cbn [mbind result_bind].
  destruct (jiter (default (JArr []) (assoc "calls" m))) as [items|e] eqn:Ei; cbn [mbind result_bind]; [|done].
  assert (Hitems : ∀ x, x ∈ items → (depth x < fuel)%nat).
  { intros x Hx. destruct (assoc "calls" m) as [v|] eqn:Ea; simpl in Ei.
    - apply assoc_depth in Ea. destruct (jiter_depth _ _ _ Ei Hx); lia.
    - injection Ei as <-. set_solver. }
  set (failed' := failed || (negb (is_root_path path) && truthy err')).
  assert (Hchildren : ∀ items i r, (∀ x, x ∈ items → (depth x < fuel)%nat) →
    foldM (λ r child,
      child_type ← jget_text "type" child;
      from ← jget_text "from" child;
      visit fuel id child failed'
        (if decide (upper child_type = "DELEGATECALL") then sender else lower from) false r) r items =
    (cs ← mapR (call_of fuel) items;
     Ok (add_counts r (counts id (spread (λ i c, invocations (path ++ [i]) c failed' (child_sender sender c)) i cs))))).
  { clear -IH. induction items as [|x items IHl]; intros i r Hx; cbn [foldM mapR].
    { cbn [mbind result_bind spread]. by rewrite add_counts_nil. }
    assert (Hdx : (depth x < fuel)%nat) by (apply Hx; by left).
    assert (Hv : ∀ s r, visit fuel id x failed' s false r =
      (t ← call_of fuel x; Ok (add_counts r (counts id (invocations (path ++ [i]) t failed' s))))).
    { intros s r'. rewrite <-(IH x failed' s (path ++ [i]) r' Hdx). by destruct path. }
    destruct (call_of fuel x) as [t|e] eqn:Ec.
    - destruct (call_of_Ok _ _ _ Ec) as [-> ->]. cbn [mbind result_bind].
      rewrite Hv. cbn [mbind result_bind].
      rewrite (IHl (S i)) by (intros; apply Hx; by right).
      destruct (mapR (call_of fuel) items) as [cs|e]; cbn [mbind result_bind spread]; [|done].
      by rewrite counts_app, add_counts_assoc.
    - destruct fuel as [|fuel]; [lia|]. rewrite call_of_unfold in Ec. cbn [mbind result_bind].
      destruct (jget_text "type" x) as [ty|] eqn:E1; cbn [mbind result_bind] in *; [|congruence].
      destruct (jget_text "from" x) as [from|] eqn:E2; cbn [mbind result_bind] in *; [|congruence].
      rewrite Hv. destruct (call_of (S fuel) x) as [t|e']; cbn [mbind result_bind] in *; congruence. }
  rewrite Hchildren with (i := O) by done.
  destruct (mapR (call_of fuel) items) as [cs|e]; cbn [mbind result_bind]; [|done].
  f_equal. cbn [invocations c_calls]. rewrite (counts_cons id (Inv _ _ _ _)), <-add_counts_assoc. f_equal.
  apply (count_call_spec id r path (Call ty' to' from' inp' (truthy err') cs) failed sender).
Qed.

(** ** Positions in the tree *)
Fixpoint at_path (t : call) (p : list nat) : option call :=
  match p with
  | [] => Some t
  | i :: p => match c_calls t !! i with Some c => at_path c p | None => None end
  end.

(** A failed call other than the root lies strictly above [p]. *)
Definition failed_above (t : call) (p : list nat) : Prop :=
  ∃ q r c, p = q ++ r ∧ q ≠ [] ∧ r ≠ [] ∧ at_path t q = Some c ∧ c_failed c = true.

Fixpoint sender_along (sender : string) (t : call) (p : list nat) : string :=
  match p with
  | [] => sender
  | i :: p => match c_calls t !! i with
              | Some c => sender_along (child_sender sender c) c p
              | None => sender
              end
  end.

(** The sender of the call at [p]: its own, or its caller's where it is delegated. *)
Definition sender_at (t : call) (p : list nat) : string := sender_along (lower (c_from t)) t p.

Definition completed_at (t : call) (p : list nat) : Prop :=
  ∃ c, at_path t p = Some c ∧ is_precompile_call (c_to c) (c_type c) = true ∧ c_failed c = false.

Definition carries_payload (id : identity) (t : call) (p : list nat) : Prop :=
  ∃ c, at_path t p = Some c ∧
    payload_matches id (sender_at t p) (parse_precompile_input (c_input c)) = true.

(** ** Lemmas: invocations and positions *)
Fixpoint failed_along (path : list nat) (t : call) (failed : bool) (p : list nat) : bool :=
  match p with
  | [] => failed
  | i :: p => match c_calls t !! i with
              | Some c => failed_along (path ++ [i]) c (failed || (negb (is_root_path path) && c_failed t)) p
              | None => failed
              end
  end.

Lemma elem_spread {A B} (f : nat → A → list B) n (l : list A) y :
  y ∈ spread f n l ↔ ∃ i x, l !! i = Some x ∧ y ∈ f (n + i)%nat x.
Proof.
  revert n. induction l as [|x l IH]; intros n; simpl.
  - split; [set_solver|]. by intros (i & x & ? & _).
  - rewrite elem_of_app, IH. split.
    + intros [Hy|(i & x' & Hl & Hy)].
      * exists O, x. by rewrite Nat.add_0_r.
      * exists (S i), x'. by rewrite <-Nat.add_succ_comm.
    + intros ([|i] & x' & Hl & Hy); simpl in Hl.
      * injection Hl as ->. rewrite Nat.add_0_r in Hy. by left.
      * right. exists i, x'. by rewrite Nat.add_succ_comm.
Qed.

Lemma elem_invocations t path failed sender v :
  v ∈ invocations path t failed sender ↔
  ∃ p c, at_path t p = Some c ∧
    v = Inv (path ++ p) c (failed_along path t failed p) (sender_along sender t p).
Proof.
  revert path failed sender v. induction t as [ty to from input fl calls IH] using call_ind'.
  intros path failed sender v. cbn [invocations c_calls c_failed]. rewrite elem_of_cons, elem_spread.
  rewrite Forall_forall in IH. split.
  - intros [->|(i & c & Hi & Hv)].
    + exists [], (Call ty to from input fl calls). by rewrite app_nil_r.
    + apply IH in Hv as (p & c' & Hp & ->); [|by eapply list_elem_of_lookup_2].
      exists (i :: p), c'. simpl. rewrite Hi. split; [done|]. by rewrite <-app_assoc.
  - intros ([|i p] & c & Hp & ->); simpl in Hp.
    + injection Hp as <-. left. by rewrite app_nil_r.
    + destruct (calls !! i) as [c'|] eqn:Hi; [|done]. right. exists i, c'. split; [done|].
      apply IH; [by eapply list_elem_of_lookup_2|]. exists p, c. split; [done|].
      simpl. rewrite Hi. by rewrite <-app_assoc.
Qed.

Lemma invocations_NoDup t path failed sender : NoDup (inv_path <$> invocations path t failed sender).
Proof.
  revert path failed sender. induction t as [ty to from input fl calls IH] using call_ind'.
  intros path failed sender. cbn [invocations c_calls]. rewrite fmap_cons. constructor.
  - simpl. intros (v & Hv & Hin)%list_elem_of_fmap. apply elem_spread in Hin as (i & c & _ & Hin).
    apply elem_invocations in Hin as (p & c' & _ & ->). simpl in Hv.
    apply (f_equal length) in Hv. rewrite !length_app in Hv. simpl in Hv. lia.
  - simpl. generalize (failed || (negb (is_root_path path) && fl)) O. intros fl' n. revert n.
    induction IH as [|c cs Hc Hcs IHl]; intros n; [constructor|]. cbn [spread]. fold (@spread call invocation).
    rewrite fmap_app. apply NoDup_app. split_and!; [apply Hc| |apply IHl].
    intros q (v & -> & Hv)%list_elem_of_fmap (v' & Hq & Hv')%list_elem_of_fmap.
    apply elem_invocations in Hv as (p & c' & _ & ->).
    apply elem_spread in Hv' as (i & c2 & _ & Hv').
    apply elem_invocations in Hv' as (p2 & c3 & _ & ->). simpl in Hq.
    rewrite <-!app_assoc in Hq. simplify_list_eq. lia.
Qed.

Lemma failed_along_spec t path failed p c :
  at_path t p = Some c →
  failed_along path t failed p = true ↔
  failed = true ∨ ∃ q r c', p = q ++ r ∧ path ++ q ≠ [] ∧ r ≠ [] ∧ at_path t q = Some c' ∧ c_failed c' = true.
Proof.
  revert t path failed. induction p as [|i p IH]; intros t path failed Hp; simpl.
  - split; [by left|]. intros [|(q & r & c' & Hq & _ & Hr & _)]; [done|].
    symmetry in Hq. apply app_eq_nil in Hq as [_ ->]. done.
  - simpl in Hp. destruct (c_calls t !! i) as [d|] eqn:Hi; [|done]. rewrite (IH d) by done.
    rewrite orb_true_iff, andb_true_iff, negb_true_iff. split.
    + intros [[?|[Hr Hf]]|(q & r & c' & -> & Hne & Hr & Hq & Hf)]; [by left| |].
      * right. exists [], (i :: p), t. split_and!; try done. rewrite app_nil_r. by intros ->.
      * right. exists (i :: q), r, c'. split_and!; [done|by destruct path|done| |done].
        simpl. by rewrite Hi.
    + intros [?|([|j q] & r & c' & Hq & Hne & Hr & Hc & Hf)]; [by left; left| |].
      * left. right. rewrite app_nil_r in Hne. simpl in Hc. injection Hc as <-. split; [by destruct path|done].
      * simpl in Hq, Hc. injection Hq as <- ->. rewrite Hi in Hc.
        right. exists q, r, c'. split_and!; try done. by destruct path.
Qed.

Lemma elem_trace t v :
  v ∈ trace_invocations t ↔
  at_path t (inv_path v) = Some (inv_call v) ∧ inv_sender v = sender_at t (inv_path v) ∧
  (inv_failed_ancestor v = true ↔ failed_above t (inv_path v)).
Proof.
  unfold trace_invocations. rewrite elem_invocations. split.
  - intros (p & c & Hp & ->). simpl. split_and!; [done..|].
    rewrite (failed_along_spec t [] false p c Hp). unfold failed_above. simpl. naive_solver.
  - destruct v as [p c f s]. simpl. intros (Hp & -> & Hf). exists p, c. split; [done|]. f_equal.
    apply eq_true_iff_eq. rewrite Hf, (failed_along_spec t [] false p c Hp). unfold failed_above.
    simpl. naive_solver.
Qed.

(** ** Lemmas: counting *)
Lemma count_length {A} (p : A → bool) l : count p l = Z.of_nat (length (filter (λ x, p x = true) l)).
Proof.
  unfold count. induction l as [|x l IH]; [done|]. rewrite sum_by_cons, IH, filter_cons.
  case_decide as Hd; [rewrite Hd; simpl; lia|]. destruct (p x); [done|simpl; lia].
Qed.

Lemma count_one {A} (p : A → bool) l : count p l = 1 ↔ ∃ x, filter (λ x, p x = true) l = [x].
Proof.
  rewrite count_length. split; [|by intros (x & ->)].
  destruct (filter _ l) as [|x [|]]; simpl; [lia|eauto|lia].
Qed.

(** The invocations are determined by their paths. *)
Lemma invocation_unique t v v' :
  v ∈ trace_invocations t → v' ∈ trace_invocations t → inv_path v = inv_path v' → v = v'.
Proof.
  intros Hv Hv' Hp. pose proof (invocations_NoDup t [] false (lower (c_from t))) as Hnd.
  fold (trace_invocations t) in Hnd. apply list_elem_of_lookup in Hv as [i Hi], Hv' as [j Hj].
  assert (i = j) as ->; [|congruence].
  eapply NoDup_lookup; [exact Hnd| |]; rewrite list_lookup_fmap; [by rewrite Hi|rewrite Hj; simpl; by rewrite Hp].
Qed.

Lemma filter_singleton {A} (P : A → Prop) `{∀ x, Decision (P x)} l x :
  filter P l = [x] → x ∈ l ∧ P x ∧ ∀ y, y ∈ l → P y → y = x.
Proof.
  intros Hf.
  assert (Hx : ∀ y, y ∈ l ∧ P y ↔ y = x).
  { intros y. rewrite <-list_elem_of_singleton, <-Hf, list_elem_of_filter. tauto. }
  destruct (Hx x) as [_ [? ?]]; [done|]. split_and!; [done..|]. intros y Hy Py. by apply Hx.
Qed.

Lemma completed_elem t v : v ∈ trace_invocations t → completed v = true ↔ completed_at t (inv_path v).
Proof.
  intros (Hp & _ & _)%elem_trace. unfold completed, is_precompile, completed_at.
  rewrite andb_true_iff, negb_true_iff. split; [naive_solver|]. intros (c & Hc & H1 & H2).
  rewrite Hp in Hc. by injection Hc as <-.
Qed.

Lemma matching_elem id t v :
  v ∈ trace_invocations t → completed v = true → matching id v = true ↔ carries_payload id t (inv_path v).
Proof.
  intros (Hp & Hs & _)%elem_trace. unfold completed, matching, carries_payload.
  rewrite !andb_true_iff, <-Hs. intros [-> _]. split; [naive_solver|].
  intros (c & Hc & H1). split; [done|]. congruence.
Qed.

Lemma path_invocation t p : completed_at t p → ∃ v, v ∈ trace_invocations t ∧ inv_path v = p.
Proof.
  intros (c & Hc & _). exists (Inv p c (failed_along [] t false p) (sender_at t p)). split; [|done].
  unfold trace_invocations. apply elem_invocations. by exists p, c.
Qed.

(** The position of the one completed precompile call. *)
Definition only_completed (t : call) (p : list nat) : Prop :=
  completed_at t p ∧ ∀ p', completed_at t p' → p' = p.

Lemma count_completed_one t :
  count completed (trace_invocations t) = 1 ↔ ∃ p, only_completed t p.
Proof.
  rewrite count_one. split.
  - intros (v & Hv). apply filter_singleton in Hv as (Hin & Hc & Hu).
    exists (inv_path v). split; [by apply completed_elem|].
    intros p' Hp'. destruct (path_invocation t p' Hp') as (v' & Hv' & <-).
    f_equal. apply (Hu _ Hv'). by apply (completed_elem t).
  - intros (p & Hp & Hu). destruct (path_invocation t p Hp) as (v & Hv & <-).
    exists v. pose proof (invocations_NoDup t [] false (lower (c_from t))) as Hnd.
    apply NoDup_fmap_1 in Hnd. fold (trace_invocations t) in Hnd.
    assert (Hx : ∀ x, x ∈ filter (λ x, completed x = true) (trace_invocations t) ↔ x = v).
    { intros x. rewrite list_elem_of_filter. split.
      - intros [Hcx Hx]. apply (invocation_unique t); [done..|]. by apply Hu, completed_elem.
      - intros ->. split; [by apply (completed_elem t)|done]. }
    apply (NoDup_filter (λ x, completed x = true)) in Hnd.
    destruct (filter _ _) as [|x [|y l]] eqn:E.
    + destruct (Hx v) as [_ Hn]. specialize (Hn eq_refl). set_solver.
    + f_equal. by apply Hx; left.
    + exfalso. assert (x = v) by (apply Hx; by left). assert (y = v) by (apply Hx; right; by left).
      subst. apply NoDup_cons in Hnd as [Hnd _]. apply Hnd. by left.
Qed.

(** Given one completed call, a count over completed calls tells whether that call has the property. *)
Lemma count_completed_other t p q v :
  v ∈ trace_invocations t → inv_path v = p → only_completed t p →
  (∀ x, q x = true → completed x = true) →
  count q (trace_invocations t) = Z.b2z (q v).
Proof.
  intros Hv Hp [Hc Hu] Hq.
  assert (Ho : ∃ p, only_completed t p) by (by exists p).
  apply count_completed_one, count_one in Ho as (x & Hx).
  apply filter_singleton in Hx as Hx'. destruct Hx' as (Hin & Hcx & Hux).
  assert (v = x) as -> by (apply Hux; [done|apply (completed_elem t); [done|by rewrite Hp]]).
  rewrite count_length.
  assert (Hf : filter (λ x, q x = true) (trace_invocations t) =
               filter (λ x, q x = true) (filter (λ x, completed x = true) (trace_invocations t))).
  { rewrite list_filter_filter_l; [done|]. auto. }
  rewrite Hf, Hx, filter_cons. case_decide as Hd; [by rewrite Hd|].
  destruct (q x); [done|]. done.
Qed.

(** ** Theorems *)

Lemma returns_jget_text k v : returns (jget_text k v).
Proof. by destruct v. Qed.

Lemma returns_call_of fuel node : (depth node < fuel)%nat → returns (call_of fuel node).
Proof.
  revert node. induction fuel as [|fuel IH]; intros node Hd; [lia|]. cbn [call_of].
  do 5 (apply returns_bind; [apply returns_jget_text || apply returns_jget_opt|intros ? _]).
  apply returns_bind; [destruct node; auto with py|]. intros items Hi.
  apply returns_bind; [|done]. apply returns_mapR. intros x Hx. apply IH.
  destruct node as [| | | | |m]; try done. destruct (assoc "calls" m) as [v|] eqn:Ea; simpl in Hi.
  - apply assoc_depth in Ea. destruct (jiter_depth _ _ _ Hi Hx); lia.
  - injection Hi as <-. set_solver.
Qed.

(** The walk is the count over the invocations of the tree. *)
Lemma inspect_counts root id :
  inspect_trace root id = (t ← trace_call root; Ok (counts id (trace_invocations t))).
Proof.
  unfold inspect_trace, trace_call.
  destruct root as [| | | | |m]; try done. change (jget_text "from" (JObj m)) with
    (Ok (match assoc "from" m with Some x => py_str x | None => EmptyString end)) at 1.
  cbn [mbind result_bind]. 
  assert (Hv : ∀ s, visit (S (depth (JObj m))) id (JObj m) false s true no_inspection =
    (t ← call_of (S (depth (JObj m))) (JObj m);
     Ok (add_counts no_inspection (counts id (invocations [] t false s)))))
    by (intros s; apply (visit_counts (S (depth (JObj m))) id (JObj m) false s []); lia).
  rewrite Hv.
  destruct (call_of (S (depth (JObj m))) (JObj m)) as [t|e] eqn:Et; [|done]. cbn [mbind result_bind].
  apply call_of_Ok in Et as [_ Hf]. change (jget_text "from" (JObj m)) with
    (Ok (match assoc "from" m with Some x => py_str x | None => EmptyString end)) in Hf.
  injection Hf as ->. by rewrite add_counts_l.
Qed.

(** C8 (equivalence): the walk over the trace returns the six counts of the tree of calls: each
    call once, in whatever nesting, with the sender and the failed ancestors of its position;
    it raises exactly when the trace is not such a tree, and its recursion never runs out. *)
Theorem inspect_trace_counts root id :
  inspect_trace root id = (t ← trace_call root; Ok (counts id (trace_invocations t))) ∧
  inspect_trace root id ≠ Err OutOfFuel.
Proof.
  split; [apply inspect_counts|]. rewrite inspect_counts. destruct (trace_call root) as [t|e] eqn:Et; [done|].
  intros [= ->]. by apply (returns_call_of (S (depth root)) root); [lia|].
Qed.

(** What [classify_replay] says of a trace whose transaction succeeded, by positions. *)
Lemma classify_replay_spec root id insp t v :
  inspect_trace root id = Ok insp → trace_call root = Ok t → classify_replay 1 root insp = Ok v →
  (c_failed t = true ∧ v_classification v = "replay_incompatible") ∨
  (c_failed t = false ∧
   ((∃ p, only_completed t p ∧ carries_payload id t p ∧ failed_above t p ∧
      v_classification v = "rollback_leak") ∨
    (∃ p, only_completed t p ∧ carries_payload id t p ∧ ¬ failed_above t p ∧
      v_classification v = "valid_source_debit") ∨
    ((∀ p, only_completed t p → ¬ carries_payload id t p) ∧ v_classification v = "unclassified"))).
Proof.
  intros Hi Ht Hv. pose proof (inspect_counts root id) as Heq. rewrite Hi, Ht in Heq.
  cbn [mbind result_bind] in Heq. injection Heq as ->.
  unfold classify_replay in Hv. inv_ok Hv. subst v.
  assert (Hf : c_failed t = truthy v0).
  { unfold trace_call in Ht. cbn [call_of] in Ht. inv_ok Ht. subst t. simpl. congruence. }
  rewrite <-Hf. destruct (c_failed t); [by left|]. right. split; [done|]. simpl.
  unfold counts. cbn [completed_precompile_call_count completed_precompile_payload_match_count
                      failed_matching_precompile_path_count].
  destruct (Z.eqb_spec (count completed (trace_invocations t)) 1) as [H1|H1]; simpl.
  2: { right. right. split; [|done]. intros p Hp _. apply H1, count_completed_one. eauto. }
  apply count_completed_one in H1 as [p Hp]. destruct (path_invocation t p (proj1 Hp)) as (w & Hw & Hwp).
  assert (Hcw : completed w = true) by (apply (completed_elem t); [done|rewrite Hwp; apply Hp]).
  rewrite (count_completed_other t p (λ v, completed v && matching id v) w);
    [|done..|intros x; rewrite andb_true_iff; tauto].
  rewrite (count_completed_other t p (λ v, completed v && inv_failed_ancestor v && matching id v) w);
    [|done..|intros x; rewrite !andb_true_iff; tauto].
  rewrite Hcw. simpl. pose proof (matching_elem id t w Hw Hcw) as Hm.
  destruct (elem_trace t w) as [He _]. destruct (He Hw) as (_ & _ & Hfa).
  rewrite Hwp in *. destruct (matching id w); simpl.
  - rewrite andb_true_r. destruct (inv_failed_ancestor w); simpl.
    + left. exists p. naive_solver.
    + right. left. exists p. naive_solver.
  - right. right. split; [|done]. intros p' Hp' Hc.
    assert (p' = p) as -> by (apply Hp, Hp'). apply Hm in Hc. done.
Qed.

(** C2 (functional): A receipt whose source transaction succeeded is classified as a rollback
    leak exactly when the replay's root did not fail, exactly one precompile call completed, it
    carries the receipt's amount, recipient, destination shard and sender, and some call above
    it other than the root failed, so that its debit was rolled back. *)
Theorem rollback_leak_iff root id insp t v :
  inspect_trace root id = Ok insp → trace_call root = Ok t → classify_replay 1 root insp = Ok v →
  v_classification v = "rollback_leak" ↔
  c_failed t = false ∧ ∃ p, only_completed t p ∧ carries_payload id t p ∧ failed_above t p.
Proof.
  intros Hi Ht Hv. destruct (classify_replay_spec root id insp t v Hi Ht Hv)
    as [[Hf ->]|[Hf [(p & H1 & H2 & H3 & ->)|[(p & H1 & H2 & H3 & ->)|[H1 ->]]]]].
  - split; [done|]. rewrite Hf. by intros [].
  - split; [intros _; split; [done|by exists p]|done].
  - split; [done|]. intros [_ (p' & Hp' & _ & Ha)].
    assert (p' = p) as -> by (apply H1, Hp'). done.
  - split; [done|]. intros [_ (p & Hp & Hc & _)]. by destruct (H1 p Hp).
Qed.

(** It is classified as a valid source debit exactly when, in the same
    situation, no call between the root and the precompile call failed. *)
Theorem valid_source_debit_iff root id insp t v :
  inspect_trace root id = Ok insp → trace_call root = Ok t → classify_replay 1 root insp = Ok v →
  v_classification v = "valid_source_debit" ↔
  c_failed t = false ∧ ∃ p, only_completed t p ∧ carries_payload id t p ∧ ¬ failed_above t p.
Proof.
  intros Hi Ht Hv. destruct (classify_replay_spec root id insp t v Hi Ht Hv)
    as [[Hf ->]|[Hf [(p & H1 & H2 & H3 & ->)|[(p & H1 & H2 & H3 & ->)|[H1 ->]]]]].
  - split; [done|]. rewrite Hf. by intros [].
  - split; [done|]. intros [_ (p' & Hp' & _ & Ha)].
    assert (p' = p) as -> by (apply H1, Hp'). done.
  - split; [intros _; split; [done|by exists p]|done].
  - split; [done|]. intros [_ (p & Hp & Hc & _)]. by destruct (H1 p Hp).
Qed.

(** The ABI words of a call to the precompile, with the padding bytes a caller may leave in the
    address and shard words and any bytes after them. *)
Definition precompile_input (amount : Z) (pad_to to pad_shard : list Z) (shard : Z) (rest : list Z) : json :=
  JStr ("0x" +:+ hex (CX_SELECTOR ++ be_bytes 32 amount ++ (pad_to ++ to) ++
                      (pad_shard ++ be_bytes 4 shard) ++ rest)).

(** Parsing the input of a call to the precompile gives back its amount,
    recipient and destination shard, whatever the padding of its words and the bytes that
    follow them: no 256-bit amount and no 32-bit shard wraps around. *)
Theorem parse_precompile_roundtrip amount pad_to to pad_shard shard rest :
  0 ≤ amount < 2 ^ 256 → 0 ≤ shard < 2 ^ 32 →
  length pad_to = 12%nat → length to = 20%nat → length pad_shard = 28%nat →
  Forall is_byte (pad_to ++ to ++ pad_shard ++ rest) →
  parse_precompile_input (precompile_input amount pad_to to pad_shard shard rest) =
  Some (Payload amount ("0x" +:+ hex to) shard).
Proof.
  intros Ha Hs H1 H2 H3 Hb. unfold parse_precompile_input, precompile_input.
  rewrite !Forall_app in Hb. destruct Hb as (B1 & B2 & B3 & B4).
  assert (Hsw : ∀ s, startswith "0x" ("0x" +:+ s) = true) by (by intros []).
  rewrite Hsw. change (str_drop 2 ("0x" +:+ ?s)) with s.
  rewrite fromhex_hex.
  2: { rewrite !Forall_app. split_and!; try done; try apply be_bytes_bytes.
       unfold CX_SELECTOR. repeat constructor; unfold is_byte; lia. }
  set (w1 := be_bytes 32 amount). set (w2 := pad_to ++ to). set (w3 := pad_shard ++ be_bytes 4 shard).
  assert (L1 : length w1 = 32%nat) by apply length_be_bytes.
  assert (L2 : length w2 = 32%nat) by (unfold w2; rewrite length_app; lia).
  assert (L3 : length w3 = 32%nat) by (unfold w3; rewrite length_app, length_be_bytes; lia).
  assert (L0 : length CX_SELECTOR = 4%nat) by done.
  replace (length _ <? 100)%nat with false
    by (symmetry; apply Nat.ltb_ge; rewrite !length_app, L0, L1, L2, L3; lia).
  rewrite (take_app_length' CX_SELECTOR) by done. rewrite bool_decide_eq_true_2 by done. cbn [orb negb].
  rewrite (drop_app_length' CX_SELECTOR) by done. rewrite (take_app_length' w1) by done.
  assert (D1 : drop 36 (CX_SELECTOR ++ w1 ++ w2 ++ w3 ++ rest) = w2 ++ w3 ++ rest).
  { rewrite (app_assoc CX_SELECTOR). apply drop_app_length'. rewrite length_app. lia. }
  assert (D2 : drop 68 (CX_SELECTOR ++ w1 ++ w2 ++ w3 ++ rest) = w3 ++ rest).
  { rewrite (app_assoc w1), (app_assoc CX_SELECTOR). apply drop_app_length'. rewrite !length_app. lia. }
  rewrite D1, D2, (take_app_length' w2), (take_app_length' w3) by done.
  unfold w1, w2, w3. rewrite (drop_app_length' pad_to), (drop_app_length' pad_shard) by done.
  rewrite !be_val_be_bytes; [done| |]; simpl; lia.
Qed.

(** The outcomes of a replay (or a direct debit) that [main] hands to [resolve_classification]. *)
Definition replay_outcomes : list string :=
  ["rollback_leak"; "valid_source_debit"; "replay_incompatible"; "receipt_inconsistent"; "unclassified"; "not_traced"].

Definition decided (s : string) : bool := bool_decide (s = "rollback_leak" ∨ s = "valid_source_debit").

(** Evidence as [load_independent_evidence] stores it. *)
Definition evidence_ok (e : evidence) : Prop :=
  evidence_status_classification (ev_status e) = Some (ev_classification e).

Definition agrees (final status : string) : bool :=
  bool_decide (final = "rollback_leak" ∧ status = "absent" ∨ final = "valid_source_debit" ∧ status = "persisted").

(** Independent evidence never overturns what the replay or the transaction shows.
    Where that decides, evidence that agrees leaves the classification as it is without the
    evidence and evidence that disagrees is an error; only an undecided receipt takes its
    classification from the evidence, and without any it stays unclassified. *)
Theorem evidence_only_fills direct replay e :
  evidence_ok e →
  let final := default replay direct in
  final ∈ replay_outcomes →
  (decided final = true ∧ agrees final (ev_status e) = true ∧
     (∃ s1 s2, resolve_classification direct replay None = Ok (final, s1, EmptyString) ∧
               resolve_classification direct replay (Some e) = Ok (final, s2, ev_classification e))) ∨
  (decided final = true ∧ agrees final (ev_status e) = false ∧
     resolve_classification direct replay (Some e) =
       Err (ValueError "independent source-debit evidence conflicts")) ∨
  (decided final = false ∧
     resolve_classification direct replay None = Ok ("unclassified", "unresolved", EmptyString) ∧
     resolve_classification direct replay (Some e) =
       Ok (ev_classification e, "independent_source_debit_evidence", ev_classification e) ∧
     (ev_classification e = "source_debit_absent" ∨ ev_classification e = "valid_source_debit")).
Proof.
  intros He final Hin. unfold evidence_ok, evidence_status_classification in He.
  unfold resolve_classification. fold final. clearbody final.
  destruct e as [cls st ty ref sha]. simpl in *.
  unfold replay_outcomes in Hin. rewrite !elem_of_cons in Hin.
  case_decide as H1; [|case_decide as H2; [|done]]; injection He as <-; subst st;
    destruct Hin as [->|[->|[->|[->|[->|[->|Hin%not_elem_of_nil]]]]]]; try done; vm_compute;
    naive_solver.
Qed.

(** ** Witnesses: the traces of the unit tests *)
Definition BLOCK_HASH : string := "0x2222222222222222222222222222222222222222222222222222222222222222".
Definition TX_HASH : string := "0x1111111111111111111111111111111111111111111111111111111111111111".
Definition ORIGIN : string := "0x0000000000000000000000000000000000001111".
Definition CONSTRUCTOR : string := "0xff9fa8f363f78f9f5658971a4f357ad95130d1f5".
Definition RECIPIENT_RAW : list Z := replicate 18 0 ++ [0x22; 0x22].
Definition RECIPIENT : string := "0x" +:+ hex RECIPIENT_RAW.

Definition sample_identity : identity :=
  Identity 0 1 10 BLOCK_HASH 0 TX_HASH CONSTRUCTOR RECIPIENT 100.

Definition sample_input : json := precompile_input 100 (replicate 12 0) RECIPIENT_RAW (replicate 28 0) 1 [].

Definition sample_call (extra : list (string * json)) : json :=
  JObj ([("type", JStr "CALL"); ("from", JStr CONSTRUCTOR); ("to", JStr CX_PRECOMPILE); ("input", sample_input)]
        ++ extra).

Definition failure : string * json := ("error", JStr "execution reverted").

(** [constructor_trace()]: one completed call and a rejected duplicate. *)
Definition constructor_calls : list json := [sample_call []; sample_call [failure]].

Definition constructor_trace (calls : list json) : json :=
  JObj [("type", JStr "CREATE"); ("from", JStr ORIGIN); ("to", JStr CONSTRUCTOR); ("calls", JArr calls)].

Definition reverted_frame (calls : list json) : json :=
  JObj [("type", JStr "CALL"); failure; ("calls", JArr calls)].

Definition sample_trace : json := constructor_trace constructor_calls.
Definition reverted_trace : json := constructor_trace [reverted_frame constructor_calls].

Definition replay_class (trace : json) : result string :=
  insp ← inspect_trace trace sample_identity;
  v_classification <$> classify_replay 1 trace insp.

Example constructor_valid : replay_class sample_trace = Ok "valid_source_debit".
Proof. by vm_compute. Qed.
Example reverted_leak : replay_class reverted_trace = Ok "rollback_leak".
Proof. by vm_compute. Qed.
Example two_completed : replay_class (constructor_trace [sample_call []; sample_call []]) = Ok "unclassified".
Proof. by vm_compute. Qed.
Example rejected_alone : replay_class (constructor_trace [sample_call [failure]]) = Ok "unclassified".
Proof. by vm_compute. Qed.

Definition no_call : call := Call EmptyString EmptyString EmptyString JNull false [].
Definition no_verdict : verdict := Verdict EmptyString false EmptyString 0.

Definition sample_insp (trace : json) : inspection := get no_inspection (inspect_trace trace sample_identity).
Definition sample_tree (trace : json) : call := get no_call (trace_call trace).
Definition sample_verdict (trace : json) : verdict := get no_verdict (classify_replay 1 trace (sample_insp trace)).

Lemma rollback_leak_iff_witness :
  c_failed (sample_tree reverted_trace) = false ∧
  ∃ p, only_completed (sample_tree reverted_trace) p ∧ carries_payload sample_identity (sample_tree reverted_trace) p ∧
    failed_above (sample_tree reverted_trace) p.
Proof.
  apply (rollback_leak_iff reverted_trace sample_identity (sample_insp reverted_trace)
    (sample_tree reverted_trace) (sample_verdict reverted_trace)); by vm_compute.
Defined.

Lemma valid_source_debit_iff_witness :
  c_failed (sample_tree sample_trace) = false ∧
  ∃ p, only_completed (sample_tree sample_trace) p ∧ carries_payload sample_identity (sample_tree sample_trace) p ∧
    ¬ failed_above (sample_tree sample_trace) p.
Proof.
  apply (valid_source_debit_iff sample_trace sample_identity (sample_insp sample_trace)
    (sample_tree sample_trace) (sample_verdict sample_trace)); by vm_compute.
Defined.

Lemma parse_precompile_roundtrip_witness :
  parse_precompile_input
    (precompile_input (2 ^ 256 - 1) (replicate 12 255) RECIPIENT_RAW (replicate 28 255) (2 ^ 32 - 1) [7]) =
  Some (Payload (2 ^ 256 - 1) RECIPIENT (2 ^ 32 - 1)).
Proof.
  apply (parse_precompile_roundtrip (2 ^ 256 - 1) (replicate 12 255) RECIPIENT_RAW (replicate 28 255) (2 ^ 32 - 1) [7]);
    try done; try lia. repeat constructor; unfold is_byte; lia.
Defined.

Definition sample_evidence (status : string) : evidence :=
  Evidence (default EmptyString (evidence_status_classification status)) status "canonical_state_delta"
    "artifact.json" EmptyString.

Lemma evidence_only_fills_witness :
  evidence_ok (sample_evidence "absent") ∧
  ∃ s1 s2, resolve_classification None "rollback_leak" None = Ok ("rollback_leak", s1, EmptyString) ∧
    resolve_classification None "rollback_leak" (Some (sample_evidence "absent")) =
      Ok ("rollback_leak", s2, "source_debit_absent").
Proof.
  split; [by vm_compute|].
  destruct (evidence_only_fills None "rollback_leak" (sample_evidence "absent"))
    as [(_ & _ & H)|[(_ & H & _)|(H & _)]];
    [by vm_compute|apply (bool_decide_unpack _); by vm_compute|exact H|discriminate H|discriminate H].
Defined.
