(* ===== verification/SourceAudit.v ===== *)
(** * The cross-shard source audit

    toolkit/scripts/forensics/cx-source-audit.py: selects receipts from CSV files, looks each
    source transaction up over RPC, classifies it (Trace.v) and writes one row per receipt with
    the totals per classification.  RPC calls go through Rpc.v.

    A CSV row is kept with its columns in order ([orow]), because the output's header is the
    first row's; [to_row] is its lookup view. *)
From S2P Require Import Prelude PyStr PyData Sha256 Files Csv Json Rpc Bech32 Trace.

(** ** Rows with their columns in order *)
Abbreviation orow := (list (string * option string)).

Definition to_row (o : orow) : row := list_to_map o.

Definition ordered_row (header record : list string) : orow :=
  foldl (λ o kv, assoc_set kv.1 kv.2 o) []
    (zip header ((Some <$> record) ++ replicate (length header - length record) None)).

Definition ordered_rows (text : string) : list orow :=
  match read_csv text with
  | [] => []
  | header :: records => ordered_row header <$> filter (λ r, r ≠ []) records
  end.

(** ** Independent evidence *)
Abbreviation evidence_map := (gmap evidence_id evidence).

(** [evidence_path.parent / reference], or the reference itself if it is absolute *)
Definition artifact_path (evidence_path reference : string) : string :=
  path_join (parent evidence_path) reference.

Definition file_sha256 : string → IO string := file_sha256_at (Z.to_nat (1024 * 1024)).

(** The part of an evidence row checked before its artifact is looked up. *)
Definition evidence_of_row (r : row) : result (identity * evidence) :=
  source_shard ← row_integer r ["source_shard"];
  destination_shard ← row_integer r ["destination_shard"];
  source_block ← row_integer r ["source_block"];
  h ← cell_str r "source_block_hash";
  receipt_index ← row_integer r ["receipt_index"];
  tx ← cell_str r "receipt_tx_hash";
  from_cell ← cell r "from";
  from ← decode_address from_cell;
  to_cell ← cell r "to";
  to ← decode_address to_cell;
  amount_atto ← cell_int r "amount_atto";
  raise_when (negb (tx_hash_re (lower h))) (ValueError "source_block_hash is not a 32-byte hash");;
  raise_when (negb (tx_hash_re (lower tx))) (ValueError "receipt_tx_hash is not a transaction hash");;
  s ← cell_str r "source_debit_status";
  let status := lower s in
  classification ← of_option (evidence_status_classification status)
    (ValueError "source_debit_status must be 'absent' or 'persisted'");
  t ← cell_str r "evidence_type";
  ref ← cell_str r "evidence_reference";
  d ← cell_str r "evidence_sha256";
  let evidence_type := strip t in
  let reference := strip ref in
  let digest := lower (strip d) in
  raise_when (bool_decide (evidence_type = EmptyString ∨ reference = EmptyString))
    (ValueError "evidence type and reference are required");;
  raise_when (negb (sha256_re digest)) (ValueError "evidence_sha256 is not a SHA-256 digest");;
  Ok (Identity source_shard destination_shard source_block (lower h) receipt_index (lower tx) from to amount_atto,
      Evidence classification status evidence_type reference digest).

Definition load_evidence_row (path : string) (evidence : evidence_map) (r : row) : IO evidence_map :=
  '(identity, e) ← lift (evidence_of_row r);
  let artifact := artifact_path path (ev_reference e) in
  is_file ← exists_ artifact;
  lift (raise_when (negb is_file) (ValueError "evidence artifact does not exist")) ≫= λ _,
  actual_digest ← file_sha256 artifact;
  lift (raise_when (negb (bool_decide (actual_digest = ev_sha256 e))) (ValueError "evidence SHA-256 mismatch")) ≫= λ _,
  let key := evidence_key identity in
  lift (raise_when (bool_decide (is_Some (evidence !! key))) (ValueError "duplicate evidence")) ≫= λ _,
  mret (<[key := e]> evidence).

Definition load_evidence_file (evidence : evidence_map) (path : string) : IO evidence_map :=
  text ← read path;
  fold_io (load_evidence_row path) evidence (dict_rows text).

Definition load_independent_evidence (paths : list string) : IO evidence_map :=
  fold_io load_evidence_file ∅ paths.

(** ** The arguments, and the selection of receipts *)
Record audit_args := AuditArgs {
  min_source_block : Z;
  max_source_block : option Z;
  arg_source_shard : option Z;
  arg_destination_shard : option Z;
  arg_address : list string;
  arg_evidence : list string;
  arg_receipts : list string;
  arg_output : string;
}.

(** [try: m  except KeyError: h] *)
Definition except_key_error {A} (m h : result A) : result A :=
  match m with Err (KeyError _) => h | _ => m end.

Definition differs (arg : option Z) (v : Z) : bool :=
  match arg with Some a => negb (v =? a) | None => false end.

(** The body of the selection loop: [None] where it continues with the next row. *)
Definition select_row (args : audit_args) (path : string) (o : orow) : result (option orow) :=
  let r := to_row o in
  source_block ← row_integer r ["signed_source_block"; "source_block"];
  h ← row_text r ["signed_source_header_hash"; "source_block_hash"; "claimed_source_block_hash"];
  source_block_hash ← text_lower h;
  source_shard ← except_key_error (row_integer r ["signed_source_shard"; "source_shard"])
    (of_option (arg_source_shard args) (ValueError "source shard is absent"));
  destination_shard ← except_key_error (row_integer r ["destination_shard"; "to_shard"])
    (of_option (arg_destination_shard args) (ValueError "destination shard is absent"));
  let addresses := lower <$> arg_address args in
  if source_block <? min_source_block args then Ok None
  else if match max_source_block args with Some m => m <? source_block | None => false end then Ok None
  else if differs (arg_source_shard args) source_shard then Ok None
  else if differs (arg_destination_shard args) destination_shard then Ok None
  else
    keep ← match addresses with
           | [] => Ok true
           | _ => from ← cell_str r "from"; Ok (bool_decide (lower from ∈ addresses))
           end;
    Ok (if (keep : bool) then
          Some (assoc_set "audit_destination_shard" (Some (str_of_Z destination_shard))
               (assoc_set "audit_source_shard" (Some (str_of_Z source_shard))
               (assoc_set "audit_source_block_hash" (Some source_block_hash)
               (assoc_set "audit_source_block" (Some (str_of_Z source_block))
               (assoc_set "receipt_file" (Some path) o)))))
        else None).

Definition select_step (args : audit_args) (path : string) (rows : list orow) (o : orow) : result (list orow) :=
  s ← select_row args path o;
  Ok (match s with Some o => rows ++ [o] | None => rows end).

Definition select_file (args : audit_args) (rows : list orow) (path : string) : IO (list orow) :=
  text ← read path;
  lift (foldM (select_step args path) rows (ordered_rows text)).

(** [rows.sort(key=lambda row: int(row["audit_source_block"]))]: stable. *)
Definition sort_rows (rows : list orow) : result (list orow) :=
  keyed ← mapR (λ o, k ← cell_int (to_row o) "audit_source_block"; Ok (k, o)) rows;
  Ok (snd <$> sort_by (λ a b, a.1 <=? b.1) keyed).

(** ** One receipt *)
Section receipt.
Context (transport : nat → string → list json → result json).
Abbreviation rpc := (rpc transport).

(** [decode_address] on a JSON value *)
Definition decode_json (v : json) : result string :=
  match v with
  | JNull => decode_address None
  | JStr s => decode_address (Some s)
  | _ => Err AttributeError
  end.

Definition is_null (v : json) : bool := match v with JNull => true | _ => false end.

(** [s[:10]] *)
Definition first10 (v : json) : result json :=
  match v with
  | JStr s => Ok (JStr (str_take 10 s))
  | JArr l => Ok (JArr (take 10 l))
  | _ => Err TypeError
  end.

(** What the loop has found about a receipt when its totals are updated. *)
Record outcome := Outcome {
  oc_identity : identity;
  oc_transaction : json;
  oc_source_to : string;
  oc_receipt_status : Z;
  oc_trace : json;
  oc_inspection : list (string * json);
  oc_replay_status : json;
  oc_replay_compatible : json;
  oc_replay_issue : string;
  oc_replay_classification : string;
  oc_evidence : option evidence;
  oc_classification : string;
  oc_classification_source : string;
  oc_evidence_classification : string;
}.

Definition inspection_fields (precompile completed matches completed_matches failed failed_matching : json) :
    list (string * json) :=
  [("precompile_call_count", precompile); ("completed_precompile_call_count", completed);
   ("precompile_payload_match_count", matches);
   ("completed_precompile_payload_match_count", completed_matches);
   ("failed_precompile_path_count", failed); ("failed_matching_precompile_path_count", failed_matching)].

(** The replay's outcome: classification, direct classification, status, compatible, issue,
    trace and counts. *)
Record replay := Replay {
  rp_classification : string;
  rp_direct : option string;
  rp_status : json;
  rp_compatible : json;
  rp_issue : string;
  rp_trace : json;
  rp_inspection : list (string * json);
}.

Definition direct_replay (source_to : string) (receipt_status : Z) : replay :=
  let fields := inspection_fields (JInt (Z.b2z (bool_decide (source_to = CX_PRECOMPILE))))
                  (JStr EmptyString) (JStr EmptyString) (JStr EmptyString) (JInt 0) (JInt 0) in
  if receipt_status =? 1 then
    Replay "not_traced" (Some "valid_source_debit") (JStr EmptyString) (JStr EmptyString) EmptyString (JObj []) fields
  else
    Replay "receipt_inconsistent" None (JStr EmptyString) (JBool false)
      "canonical outgoing receipt has a failed direct source transaction status" (JObj []) fields.

Definition traced_replay (id : identity) (transaction : json) (receipt_status : Z) : result replay :=
  hash ← jget "hash" transaction;
  trace ← rpc "debug_traceTransaction"
    [hash; JObj [("tracer", JStr "callTracer"); ("timeout", JStr "60s")]];
  insp ← inspect_trace trace id;
  v ← classify_replay receipt_status trace insp;
  Ok (Replay (v_classification v) None (JInt (v_trace_status v)) (JBool (v_compatible v)) (v_issue v) trace
    (inspection_fields (JInt (precompile_call_count insp)) (JInt (completed_precompile_call_count insp))
      (JInt (precompile_payload_match_count insp)) (JInt (completed_precompile_payload_match_count insp))
      (JInt (failed_precompile_path_count insp)) (JInt (failed_matching_precompile_path_count insp)))).

(** The loop's body up to the classification. *)
Definition classify_receipt (evidence : evidence_map) (o : orow) : result outcome :=
  let r := to_row o in
  identity ← receipt_identity r;
  let ev := evidence !! evidence_key identity in
  tx ← cell_str r "tx_hash";
  transaction ← rpc "hmyv2_getTransactionByHash" [JStr tx];
  raise_when (is_null transaction) (RuntimeError "source transaction missing");;
  hash ← jget_str "hash" transaction;
  eth_hash ← jget_str "ethHash" transaction;
  raise_when (negb (bool_decide (lower tx = lower hash ∨ lower tx = lower eth_hash)))
    (RuntimeError "source transaction hash mismatch");;
  to ← jget_opt "to" transaction;
  source_to ← decode_json to;
  receipt ← rpc "hmyv2_getTransactionReceipt" [JStr hash];
  raise_when (is_null receipt) (RuntimeError "source transaction receipt missing");;
  receipt_status ← jget_int "status" receipt;
  direct_source_debit ←
    (if decide (source_to = CX_PRECOMPILE) then Ok true
     else
       shard ← jget "shardID" transaction;
       to_shard ← jget "toShardID" transaction;
       Ok (negb (py_eq shard to_shard)));
  rp ← (if (direct_source_debit : bool) then Ok (direct_replay source_to receipt_status)
        else traced_replay identity transaction receipt_status);
  raise_when (bool_decide (is_Some ev) && negb (receipt_status =? 1))
    (ValueError "independent evidence cannot override a failed stored source transaction receipt");;
  '(classification, classification_source, evidence_classification) ←
    resolve_classification (rp_direct rp) (rp_classification rp) ev;
  Ok (Outcome identity transaction source_to receipt_status (rp_trace rp) (rp_inspection rp) (rp_status rp)
        (rp_compatible rp) (rp_issue rp) (rp_classification rp) ev classification classification_source
        evidence_classification).
End receipt.

(** The output row: the receipt's columns, then the audit's, which replace columns of the same name. *)
Definition audit_row (o : orow) (oc : outcome) : result (list (string * json)) :=
  let transaction := oc_transaction oc in
  hash ← jget "hash" transaction;
  f ← jget "from" transaction;
  from ← decode_json f;
  value ← jget "value" transaction;
  input ← jget "input" transaction;
  selector ← first10 input;
  root_error ← match oc_trace oc with
               | JObj m => Ok (default (JStr EmptyString) (assoc "error" m))
               | _ => Err AttributeError
               end;
  let ev f := JStr (match oc_evidence oc with Some e => f e | None => EmptyString end) in
  Ok (foldl (λ acc kv, assoc_set kv.1 kv.2 acc)
    ((λ kv, (kv.1, match kv.2 with Some s => JStr s | None => JNull end)) <$> o)
    ([("source_transaction_hash", hash);
      ("source_transaction_from", JStr from);
      ("source_transaction_to", JStr (oc_source_to oc));
      ("source_transaction_value_atto", value);
      ("source_transaction_status", JInt (oc_receipt_status oc));
      ("source_input_selector", selector);
      ("trace_root_error", root_error);
      ("replay_status", oc_replay_status oc);
      ("replay_compatible", oc_replay_compatible oc);
      ("replay_issue", JStr (oc_replay_issue oc))] ++
     oc_inspection oc ++
     [("replay_classification", JStr (oc_replay_classification oc));
      ("independent_evidence_classification", JStr (oc_evidence_classification oc));
      ("independent_source_debit_status", ev ev_status);
      ("independent_evidence_type", ev ev_type);
      ("independent_evidence_reference", ev ev_reference);
      ("independent_evidence_sha256", ev ev_sha256);
      ("classification_source", JStr (oc_classification_source oc));
      ("classification", JStr (oc_classification oc))])).

(** ** The loop's accumulators *)
Record audit_state := AuditState {
  totals : gmap string Z;
  replay_totals : gmap string Z;
  evidence_count : Z;
  evidence_amount : Z;
  used_evidence : gset evidence_id;
  output_rows : list (list (string * json));
}.

Definition zero_totals (names : list string) : gmap string Z := list_to_map ((λ n, (n, 0)) <$> names).

Definition classifications : list string :=
  ["rollback_leak"; "source_debit_absent"; "valid_source_debit"; "unclassified"].

Definition initial_state : audit_state :=
  AuditState (zero_totals classifications) (zero_totals replay_outcomes) 0 0 ∅ [].

(** [d[k] += v] on a dict that must hold [k] *)
Definition dict_add (k : string) (v : Z) (m : gmap string Z) : result (gmap string Z) :=
  old ← of_option (m !! k) (KeyError k);
  Ok (<[k := old + v]> m).

Definition audit_step (transport : nat → string → list json → result json) (evidence : evidence_map)
    (st : audit_state) (o : orow) : result audit_state :=
  oc ← classify_receipt transport evidence o;
  let amount := id_amount (oc_identity oc) in
  totals ← dict_add (oc_classification oc) amount (totals st);
  replay_totals ← dict_add (oc_replay_classification oc) amount (replay_totals st);
  let found := bool_decide (is_Some (oc_evidence oc)) in
  out ← audit_row o oc;
  Ok (AuditState totals replay_totals
        (evidence_count st + Z.b2z found)
        (evidence_amount st + (if found then amount else 0))
        (if found then {[evidence_key (oc_identity oc)]} ∪ used_evidence st else used_evidence st)
        (output_rows st ++ [out])).

(** [len(row_keys) != len(set(row_keys))] *)
Definition has_duplicates (rows : list identity) : bool :=
  negb (bool_decide (length rows = size (list_to_set (evidence_key <$> rows) : gset evidence_id))).

(** From the selected rows to the end of the loop and the check on unused evidence. *)
Definition audit_rows (transport : nat → string → list json → result json) (evidence : evidence_map)
    (selected : list orow) : result (list orow * audit_state) :=
  rows ← sort_rows selected;
  ids ← mapR (λ o, receipt_identity (to_row o)) rows;
  raise_when (has_duplicates ids) (ValueError "duplicate canonical receipt rows in selected inputs");;
  st ← foldM (audit_step transport evidence) initial_state rows;
  raise_when (negb (bool_decide (dom evidence ∖ used_evidence st = ∅)))
    (ValueError "independent evidence rows did not match the selected canonical receipts");;
  Ok (rows, st).

(** ** The output *)
(** [csv.DictWriter.writerow] *)
Definition dict_line (fields : list string) (r : list (string * json)) : result string :=
  raise_when (negb (forallb (λ kv, bool_decide (kv.1 ∈ fields)) r)) (ValueError "dict contains fields not in fieldnames");;
  Ok (csv_line ((λ f, match assoc f r with Some v => csv_value v | None => EmptyString end) <$> fields)).

Definition write_dicts (path : string) (rows : list (list (string * json))) : IO unit :=
  let fields := match rows with r :: _ => r.*1 | [] => [] end in
  create path ≫= λ _,
  write path (csv_line fields) ≫= λ _,
  for_io (λ r, line ← lift (dict_line fields r); write path line) rows.

Definition summary (args : audit_args) (evidence : evidence_map) (rows : list orow) (st : audit_state) : json :=
  let total m k := JStr (str_of_Z (mget m k)) in
  JObj [("receipts", JInt (Z.of_nat (length rows)));
        ("rollback_leak_atto", total (totals st) "rollback_leak");
        ("source_debit_absent_atto", total (totals st) "source_debit_absent");
        ("valid_source_debit_atto", total (totals st) "valid_source_debit");
        ("unclassified_atto", total (totals st) "unclassified");
        ("replay_rollback_leak_atto", total (replay_totals st) "rollback_leak");
        ("replay_valid_source_debit_atto", total (replay_totals st) "valid_source_debit");
        ("replay_incompatible_atto", total (replay_totals st) "replay_incompatible");
        ("receipt_inconsistent_atto", total (replay_totals st) "receipt_inconsistent");
        ("replay_unclassified_atto", total (replay_totals st) "unclassified");
        ("not_traced_atto", total (replay_totals st) "not_traced");
        ("independent_evidence_receipts", JInt (evidence_count st));
        ("independent_evidence_atto", JStr (str_of_Z (evidence_amount st)));
        ("independent_evidence_supplied", JInt (Z.of_nat (size evidence)));
        ("independent_evidence_unused",
          JInt (Z.of_nat (size evidence) - Z.of_nat (size (used_evidence st))));
        ("output", JStr (arg_output args))].

Definition main (transport : nat → string → list json → result json) (args : audit_args) : IO json :=
  evidence ← load_independent_evidence (arg_evidence args);
  selected ← fold_io (select_file args) [] (arg_receipts args);
  '(rows, st) ← lift (audit_rows transport evidence selected);
  write_dicts (arg_output args) (output_rows st) ≫= λ _,
  mret (summary args evidence rows st).

(** ** Lemmas: rows *)
Lemma to_row_set k v o : to_row (assoc_set k v o) = <[k := v]> (to_row o).
Proof.
  induction o as [|[k' v'] o IH]; simpl; [done|]. case_decide as Hk; simpl.
  - subst. by rewrite insert_insert_eq.
  - fold (to_row (assoc_set k v o)) (to_row o). rewrite IH. by rewrite insert_insert_ne.
Qed.

Lemma row_integer_first r names name s n :
  head names = Some name → r !! name = Some (Some s) → s ≠ EmptyString → py_int s = Some n →
  row_integer r names = Ok n.
Proof.
  intros Hh Hr Hs Hn. destruct names as [|name' names]; [done|]. injection Hh as ->.
  unfold row_integer. simpl. rewrite Hr. rewrite decide_False by congruence. simpl.
  unfold int_str. by rewrite Hn.
Qed.

Lemma str_of_Z_nonempty n : str_of_Z n ≠ EmptyString.
Proof.
  intros H. pose proof (py_int_str_of_Z n) as Hp. rewrite H in Hp. done.
Qed.

Lemma row_integer_set r names name n :
  head names = Some name → r !! name = Some (Some (str_of_Z n)) → row_integer r names = Ok n.
Proof.
  intros. eapply row_integer_first; [done..|apply str_of_Z_nonempty|apply py_int_str_of_Z].
Qed.

(** A selected row carries what it was selected by: its identity is within the bounds. *)
Lemma select_row_Some args path o o' :
  select_row args path o = Ok (Some o') →
  ∃ block h source destination,
    min_source_block args ≤ block ∧
    (∀ m, max_source_block args = Some m → block ≤ m) ∧
    (∀ s, arg_source_shard args = Some s → source = s) ∧
    (∀ d, arg_destination_shard args = Some d → destination = d) ∧
    (arg_address args ≠ [] → ∃ f, to_row o !! "from" = Some (Some f) ∧ lower f ∈ lower <$> arg_address args) ∧
    to_row o' = <["audit_destination_shard" := Some (str_of_Z destination)]>
      (<["audit_source_shard" := Some (str_of_Z source)]>
      (<["audit_source_block_hash" := Some h]>
      (<["audit_source_block" := Some (str_of_Z block)]>
      (<["receipt_file" := Some path]> (to_row o))))).
Proof.
  unfold select_row. intros H. inv_ok H.
  rename v into block, v1 into h, v2 into source, v3 into destination.
  destruct (block <? min_source_block args) eqn:B1; [done|].
  destruct (match max_source_block args with Some m => m <? block | None => false end) eqn:B2; [done|].
  destruct (differs (arg_source_shard args) source) eqn:B3; [done|].
  destruct (differs (arg_destination_shard args) destination) eqn:B4; [done|].
  inv_ok H. destruct v; [|done]. injection H as <-.
  exists block, h, source, destination. bool_facts. split_and!.
  - done.
  - intros m Hm. rewrite Hm in B2. bool_facts. done.
  - intros s Hs. rewrite Hs in B3. simpl in B3. bool_facts. done.
  - intros d Hd. rewrite Hd in B4. simpl in B4. bool_facts. done.
  - intros Ha. destruct (lower <$> arg_address args) as [|a l] eqn:El.
    { by apply fmap_nil_inv in El. }
    cbn iota in E4. inv_ok E4. apply cell_str_Ok in E5. bool_facts. eauto.
  - by rewrite !to_row_set.
Qed.

(** ** Lemmas: the loop *)
Lemma dict_add_Ok k v m m' : dict_add k v m = Ok m' → k ∈ dom m ∧ m' = madd k v m.
Proof.
  unfold dict_add, madd. intros H. inv_ok H. subst m'. rewrite E. split; [|done].
  apply elem_of_dom. eauto.
Qed.

Definition oc_amount (oc : outcome) : Z := id_amount (oc_identity oc).
Definition has_evidence (oc : outcome) : Prop := is_Some (oc_evidence oc).
#[export] Instance has_evidence_dec oc : Decision (has_evidence oc).
Proof. unfold has_evidence. apply _. Defined.
Definition oc_key (oc : outcome) : evidence_id := evidence_key (oc_identity oc).

(** The accumulators after the receipts with outcomes [ocs]. *)
Record accumulated (ocs : list outcome) (st : audit_state) : Prop := {
  acc_totals : totals st = tally oc_classification oc_amount (zero_totals classifications) ocs;
  acc_replay : replay_totals st = tally oc_replay_classification oc_amount (zero_totals replay_outcomes) ocs;
  acc_dom : dom (totals st) = list_to_set classifications;
  acc_replay_dom : dom (replay_totals st) = list_to_set replay_outcomes;
  acc_count : evidence_count st = Z.of_nat (length (filter has_evidence ocs));
  acc_amount : evidence_amount st = sum_by oc_amount (filter has_evidence ocs);
  acc_used : used_evidence st = list_to_set (oc_key <$> filter has_evidence ocs);
}.

Lemma zero_totals_dom names : dom (zero_totals names) = list_to_set names.
Proof.
  unfold zero_totals. rewrite dom_list_to_map_L. f_equal.
  induction names as [|n names IH]; simpl; [done|]. by rewrite <-IH at 2.
Qed.

Section accumulators.
Context (transport : nat → string → list json → result json) (evidence : evidence_map).

Lemma audit_step_Ok st o st' ocs :
  accumulated ocs st → audit_step transport evidence st o = Ok st' →
  ∃ oc, classify_receipt transport evidence o = Ok oc ∧ accumulated (ocs ++ [oc]) st' ∧
    oc_classification oc ∈ classifications ∧ oc_replay_classification oc ∈ replay_outcomes.
Proof.
  intros [T R D DR C A U] H. unfold audit_step in H. inv_ok H. subst st'. rename v into oc.
  apply dict_add_Ok in E0 as [Hk ->], E1 as [Hr ->]. exists oc. split; [done|].
  assert (Hk1 : oc_classification oc ∈ classifications) by (rewrite D in Hk; by apply elem_of_list_to_set in Hk).
  assert (Hr1 : oc_replay_classification oc ∈ replay_outcomes)
    by (rewrite DR in Hr; by apply elem_of_list_to_set in Hr).
  split; [|done]. split; simpl.
  - by rewrite T, tally_snoc.
  - by rewrite R, tally_snoc.
  - rewrite dom_madd, subseteq_union_1_L; [exact D|by apply singleton_subseteq_l].
  - rewrite dom_madd, subseteq_union_1_L; [exact DR|by apply singleton_subseteq_l].
  - rewrite C, filter_app, length_app. unfold has_evidence at 3.
    rewrite filter_cons, filter_nil. case_bool_decide as He.
    + rewrite decide_True by done. simpl. lia.
    + rewrite decide_False by done. simpl. lia.
  - rewrite A, filter_app, sum_by_app, filter_cons, filter_nil. case_bool_decide as He.
    + rewrite decide_True by done. by rewrite sum_by_cons, sum_by_nil, Z.add_0_r.
    + rewrite decide_False by done. by rewrite sum_by_nil.
  - rewrite U, filter_app, fmap_app, list_to_set_app_L, filter_cons, filter_nil. case_bool_decide as He.
    + rewrite decide_True by done. simpl. rewrite union_empty_r_L. apply union_comm_L.
    + rewrite decide_False by done. simpl. by rewrite union_empty_r_L.
Qed.
End accumulators.

Lemma audit_loop_Ok transport evidence rows st :
  foldM (audit_step transport evidence) initial_state rows = Ok st →
  ∃ ocs, Forall2 (λ o oc, classify_receipt transport evidence o = Ok oc) rows ocs ∧ accumulated ocs st ∧
    Forall (λ oc, oc_classification oc ∈ classifications ∧ oc_replay_classification oc ∈ replay_outcomes) ocs.
Proof.
  intros H. revert H. apply (foldM_ind _ (λ pre st, ∃ ocs,
    Forall2 (λ o oc, classify_receipt transport evidence o = Ok oc) pre ocs ∧ accumulated ocs st ∧
    Forall (λ oc, oc_classification oc ∈ classifications ∧ oc_replay_classification oc ∈ replay_outcomes) ocs)).
  - exists []. split_and!; [constructor| |constructor]. split; try done; apply zero_totals_dom.
  - intros pre o s1 s2 (ocs & Hf & Ha & Hc) _ Hs.
    destruct (audit_step_Ok _ _ _ _ _ _ Ha Hs) as (oc & Ho & Ha' & Hk). exists (ocs ++ [oc]).
    split_and!; [by apply Forall2_app; [|constructor]|done|by apply Forall_app; split; [|constructor]].
Qed.

Lemma sort_rows_Ok selected rows :
  sort_rows selected = Ok rows →
  rows ≡ₚ selected ∧ ∃ keyed : list (Z * orow), keyed.*2 = rows ∧
    StronglySorted (λ a b, a.1 <= b.1) keyed ∧
    Forall (λ ko, cell_int (to_row ko.2) "audit_source_block" = Ok ko.1) keyed.
Proof.
  unfold sort_rows. intros H. inv_ok H. subst rows. apply mapR_Ok in E.
  pose proof (sort_by_Permutation (λ a b : Z * orow, a.1 <=? b.1) v) as Hp. split.
  - rewrite Hp. clear Hp. induction E as [|o [k o'] l l' Hk E IH]; [done|].
    inv_ok Hk. simplify_eq. simpl. by rewrite IH.
  - exists (sort_by (λ a b : Z * orow, a.1 <=? b.1) v). split; [done|]. split.
    + assert (Hs : StronglySorted (λ a b, (a.1 <=? b.1) = true) (sort_by (λ a b : Z * orow, a.1 <=? b.1) v)).
      { apply (sort_by_sorted (λ a b : Z * orow, a.1 <=? b.1)).
        - intros x y. destruct (Z.leb_spec x.1 y.1); [by left|right]. apply Z.leb_le. lia.
        - intros x y z H1%Z.leb_le H2%Z.leb_le. apply Z.leb_le. lia. }
      clear -Hs. induction Hs as [|a l Hl IH Ha]; constructor; [done|].
      eapply Forall_impl; [exact Ha|]. intros b Hb. by apply Z.leb_le.
    + rewrite Hp. clear Hp. induction E as [|o [k o'] l l' Hk E IH]; [constructor|].
      inv_ok Hk. simplify_eq. by constructor.
Qed.

Lemma classify_receipt_Ok transport evidence o oc :
  classify_receipt transport evidence o = Ok oc →
  receipt_identity (to_row o) = Ok (oc_identity oc) ∧ oc_evidence oc = evidence !! oc_key oc.
Proof.
  unfold classify_receipt. intros H. inv_ok H.
  match type of H with context [match ?x with _ => _ end] => destruct x as [[c s] e] end. by injection H as <-.
Qed.

(** ** Theorems *)

Lemma audit_rows_Ok transport evidence selected rows st :
  audit_rows transport evidence selected = Ok (rows, st) →
  sort_rows selected = Ok rows ∧ ∃ ocs,
    Forall2 (λ o oc, classify_receipt transport evidence o = Ok oc) rows ocs ∧ accumulated ocs st ∧
    NoDup (oc_key <$> ocs) ∧ dom evidence ∖ used_evidence st = ∅.
Proof.
  unfold audit_rows. intros H. inv_ok H. simplify_eq. split; [done|].
  apply audit_loop_Ok in E2 as (ocs & Hf & Ha & _). exists ocs. bool_facts. split_and!; try done.
  unfold has_duplicates in E1. bool_facts. rewrite <-(length_fmap evidence_key) in E1.
  apply size_NoDup in E1. apply mapR_Ok in E0.
  assert (Hids : oc_identity <$> ocs = v0); [|change oc_key with (evidence_key ∘ oc_identity); by rewrite list_fmap_compose, Hids].
  clear -Hf E0. revert v0 E0. induction Hf as [|o oc rows ocs Ho Hf IH]; intros ids Hi; inversion Hi; subst; [done|].
  apply classify_receipt_Ok in Ho as [Ho _]. rewrite fmap_cons. f_equal; [congruence|]. by apply IH.
Qed.

(** C13 (invariant): each total is the sum of the amounts of the receipts with that outcome,
    every selected receipt is counted in exactly one final and one replay total, so the four
    final totals and the six replay totals both add up to the amount of the selected receipts,
    and no receipt identity is counted twice. *)
Theorem audit_conserves transport evidence selected rows st :
  audit_rows transport evidence selected = Ok (rows, st) →
  rows ≡ₚ selected ∧ ∃ ocs,
    Forall2 (λ o oc, classify_receipt transport evidence o = Ok oc) rows ocs ∧
    NoDup (oc_key <$> ocs) ∧
    (∀ k, mget (totals st) k = sum_by oc_amount (filter (λ oc, oc_classification oc = k) ocs)) ∧
    (∀ k, mget (replay_totals st) k = sum_by oc_amount (filter (λ oc, oc_replay_classification oc = k) ocs)) ∧
    sum_by (mget (totals st)) classifications = sum_by oc_amount ocs ∧
    sum_by (mget (replay_totals st)) replay_outcomes = sum_by oc_amount ocs.
Proof.
  intros (Hs & ocs & Hf & [T R D DR _ _ _] & Hn & _)%audit_rows_Ok.
  apply sort_rows_Ok in Hs as [Hp _]. split; [done|]. exists ocs. split; [done|]. split; [done|].
  assert (Hz : ∀ names k, mget (zero_totals names) k = 0).
  { intros names k. unfold mget, zero_totals. destruct (list_to_map _ !! k) as [z|] eqn:E; [|done].
    apply elem_of_list_to_map_2, list_elem_of_fmap in E as (n & [= -> ->] & _). done. }
  assert (Hm : ∀ names, msum (zero_totals names) = 0).
  { intros names. rewrite msum_map_to_list. rewrite (sum_by_ext _ (λ _, 0)); [|].
    - generalize (map_to_list (zero_totals names)). intros l. induction l; rewrite ?sum_by_cons; done.
    - intros [k z] Hx. apply elem_of_map_to_list in Hx. specialize (Hz names k). unfold mget in Hz.
      by rewrite Hx in Hz. }
  split_and!.
  - intros k. by rewrite T, mget_tally, Hz.
  - intros k. by rewrite R, mget_tally, Hz.
  - rewrite <-(msum_keys (totals st)); [by rewrite T, msum_tally, Hm| |done].
    apply (bool_decide_unpack _). by vm_compute.
  - rewrite <-(msum_keys (replay_totals st)); [by rewrite R, msum_tally, Hm| |done].
    apply (bool_decide_unpack _). by vm_compute.
Qed.

(** A run that ends has used every supplied piece of evidence on exactly one
    receipt: the count of receipts with evidence is the number of pieces supplied, their
    amount is the sum of the amounts the evidence names, and none is reported unused. *)
Theorem evidence_fully_used transport args evidence selected rows st :
  audit_rows transport evidence selected = Ok (rows, st) →
  used_evidence st = dom evidence ∧
  evidence_count st = Z.of_nat (size evidence) ∧
  evidence_amount st = sum_by key_amount (elements (dom evidence)) ∧
  jget "independent_evidence_unused" (summary args evidence rows st) = Ok (JInt 0).
Proof.
  intros (_ & ocs & Hf & [_ _ _ _ C A U] & Hn & Hd)%audit_rows_Ok.
  assert (Hkeys : oc_key <$> filter has_evidence ocs ≡ₚ elements (dom evidence)).
  { apply NoDup_Permutation; [|apply NoDup_elements|].
    - clear -Hn. induction ocs as [|oc ocs IH]; [constructor|]. rewrite fmap_cons in Hn.
      apply NoDup_cons in Hn as [Hx Hn]. rewrite filter_cons. case_decide; [|auto].
      rewrite fmap_cons. constructor; [|auto]. intros (y & He & [_ Hy]%list_elem_of_filter)%list_elem_of_fmap.
      apply Hx. rewrite He. by apply list_elem_of_fmap_2.
    - intros k. rewrite elem_of_elements. split.
      + intros (oc & -> & [[e He] Hin]%list_elem_of_filter)%list_elem_of_fmap.
        apply list_elem_of_lookup in Hin as [i Hi]. eapply Forall2_lookup_r in Hf as (o & _ & Ho); [|done].
        apply classify_receipt_Ok in Ho as [_ Ho]. apply elem_of_dom. exists e. congruence.
      + intros Hk. destruct (decide (k ∈ used_evidence st)) as [Hu|Hu].
        * rewrite U in Hu. by apply elem_of_list_to_set in Hu.
        * exfalso. assert (k ∈ dom evidence ∖ used_evidence st) by (by apply elem_of_difference).
          rewrite Hd in *. set_solver. }
  assert (Hused : used_evidence st = dom evidence).
  { rewrite U. apply leibniz_equiv. intros k. by rewrite elem_of_list_to_set, Hkeys, elem_of_elements. }
  assert (Hsize : length (filter has_evidence ocs) = size evidence).
  { rewrite <-(length_fmap oc_key), Hkeys. by rewrite <-size_dom. }
  split_and!; [done|by rewrite C, Hsize| |].
  - rewrite A, <-(sum_by_Permutation key_amount _ _ Hkeys), sum_by_fmap. done.
  - simpl. rewrite Hused, size_dom. do 2 f_equal. lia.
Qed.

(** A receipt whose source transaction did not succeed is never given a final
    classification: it stays unclassified, its replay is reported inconsistent, and evidence
    for it is an error. *)
Theorem failed_receipt_unclassified transport evidence o oc :
  classify_receipt transport evidence o = Ok oc → oc_receipt_status oc ≠ 1 →
  oc_classification oc = "unclassified" ∧ oc_replay_classification oc = "receipt_inconsistent" ∧
  oc_evidence oc = None.
Proof.
  unfold classify_receipt. intros H Hs. inv_ok H.
  match type of H with context [match ?x with _ => _ end] => destruct x as [[c s] e] eqn:Ex end.
  injection H as <-. simpl in *.
  match goal with Hr : resolve_classification _ _ _ = _ |- _ => rename Hr into Hres end.
  match goal with Hr : bool_decide _ && _ = false |- _ => apply andb_false_iff in Hr as [Hr|Hr]; rename Hr into Hev end.
  2: { bool_facts. congruence. }
  apply bool_decide_eq_false in Hev. apply eq_None_not_Some in Hev. rewrite Hev in *.
  apply Z.eqb_neq in Hs.
  match goal with Hr : (if ?b then Ok (direct_replay _ _) else _) = Ok ?rp |- _ =>
    assert (Hrp : rp_direct rp = None ∧ rp_classification rp = "receipt_inconsistent");
    [destruct b; [injection Hr as <-; unfold direct_replay; by rewrite Hs|unfold traced_replay in Hr; inv_ok Hr]|] end.
  { match goal with Hc : classify_replay _ _ _ = Ok _ |- _ => unfold classify_replay in Hc; inv_ok Hc end.
    subst. simpl. by rewrite Hs. }
  destruct Hrp as [Hd Hc]. rewrite Hd, Hc in Hres. vm_compute in Hres. injection Hres as <- <- <-. done.
Qed.

(** A receipt is selected only within the arguments' bounds, and its audited
    identity (which prefers the columns the selection added) is the one it was selected by:
    block within the range, the requested shards, and a requested sender. *)
Theorem select_sound args path o o' id :
  select_row args path o = Ok (Some o') → receipt_identity (to_row o') = Ok id →
  min_source_block args ≤ id_source_block id ∧
  (∀ m, max_source_block args = Some m → id_source_block id ≤ m) ∧
  (∀ s, arg_source_shard args = Some s → id_source_shard id = s) ∧
  (∀ d, arg_destination_shard args = Some d → id_destination_shard id = d) ∧
  (arg_address args ≠ [] → ∃ f, to_row o' !! "from" = Some (Some f) ∧ lower f ∈ lower <$> arg_address args).
Proof.
  intros (block & h & source & destination & B1 & B2 & B3 & B4 & B5 & Hr)%select_row_Some Hid.
  unfold receipt_identity in Hid. inv_ok Hid. subst id. simpl.
  assert (Hs : row_integer (to_row o') ["audit_source_shard"; "signed_source_shard"; "source_shard"] = Ok source).
  { apply (row_integer_set _ _ "audit_source_shard"); [done|]. rewrite Hr. by simplify_map_eq. }
  assert (Hd : row_integer (to_row o') ["audit_destination_shard"; "destination_shard"; "to_shard"] = Ok destination).
  { apply (row_integer_set _ _ "audit_destination_shard"); [done|]. rewrite Hr. by simplify_map_eq. }
  assert (Hb : row_integer (to_row o') ["audit_source_block"; "signed_source_block"; "source_block"] = Ok block).
  { apply (row_integer_set _ _ "audit_source_block"); [done|]. rewrite Hr. by simplify_map_eq. }
  rewrite Hs in *. rewrite Hd in *. rewrite Hb in *. simplify_eq. split_and!; try done.
  intros Ha. destruct (B5 Ha) as (f & Hf & Hin). exists f. split; [|done]. rewrite Hr. by simplify_map_eq.
Qed.

(** ** Lemmas: the script over the world *)
Lemma audit_sha256_read p w :
  file_sha256 p w =
  (match files w !! p with Some s => Ok (sha256 s) | None => Err (FileNotFoundError p) end, w).
Proof. unfold file_sha256. by rewrite file_sha256_at_read by lia. Qed.

(** Loops that only read keep the world and an invariant of their state. *)
Lemma fold_io_reads {S A} (f : S → A → IO S) (P : S → Prop) w s l :
  P s → (∀ s x r w', P s → x ∈ l → f s x w = (r, w') → w' = w ∧ ∀ s', r = Ok s' → P s') →
  ∀ r w', fold_io f s l w = (r, w') → w' = w ∧ ∀ s', r = Ok s' → P s'.
Proof.
  revert s. induction l as [|x l IH]; intros s Hs Hf r w' H; simpl in H.
  - injection H as <- <-. split; [done|]. by intros ? [= <-].
  - unfold mbind, io_bind in H. destruct (f s x w) as [[s1|e] w1] eqn:E.
    + destruct (Hf s x _ _ Hs ltac:(by left) E) as [-> H1].
      apply (IH s1); [by apply H1| |done]. intros s2 y r2 w2 H2 Hy. apply Hf; [done|by right].
    + injection H as <- <-. destruct (Hf s x _ _ Hs ltac:(by left) E) as [-> _]. by split.
Qed.

(** A loaded piece of evidence: its status is one of the two, and the artifact it names beside
    its CSV file has the digest it claims. *)
Definition evidence_backed (w : world) (paths : list string) (e : evidence) : Prop :=
  evidence_ok e ∧ ∃ path content, path ∈ paths ∧ files w !! artifact_path path (ev_reference e) = Some content ∧
    sha256 content = ev_sha256 e.

Lemma evidence_of_row_ok r i e : evidence_of_row r = Ok (i, e) → evidence_ok e.
Proof.
  unfold evidence_of_row. intros H. inv_ok H. simplify_eq. unfold evidence_ok. simpl. done.
Qed.

Lemma load_evidence_row_reads path ev r w res w' paths :
  path ∈ paths → map_Forall (λ _, evidence_backed w paths) ev →
  load_evidence_row path ev r w = (res, w') →
  w' = w ∧ ∀ ev', res = Ok ev' → map_Forall (λ _, evidence_backed w paths) ev'.
Proof.
  intros Hp Hev H. unfold load_evidence_row, mbind, io_bind, lift, exists_ in H.
  destruct (evidence_of_row r) as [[i e]|x] eqn:Er; [|by injection H as <- <-].
  destruct (raise_when (negb _) _) as [[]|x] eqn:E1; [|by injection H as <- <-].
  rewrite audit_sha256_read in H.
  destruct (files w !! artifact_path path (ev_reference e)) as [content|] eqn:Ec; [|by injection H as <- <-].
  destruct (raise_when _ (ValueError "evidence SHA-256 mismatch")) as [[]|x] eqn:E2; [|by injection H as <- <-].
  destruct (raise_when _ (ValueError "duplicate evidence")) as [[]|x] eqn:E3; [|by injection H as <- <-].
  injection H as <- <-. split; [done|]. intros ev' [= <-]. apply map_Forall_insert_2; [|done].
  apply raise_when_Ok in E2. bool_facts. split; [by eapply evidence_of_row_ok|]. by exists path, content.
Qed.

(** Loading the evidence changes no file, and every piece that was accepted has a
    known status and an existing artifact whose contents have exactly the SHA-256 it claims. *)
Theorem evidence_authenticated paths w ev w' :
  load_independent_evidence paths w = (Ok ev, w') →
  w' = w ∧ ∀ k e, ev !! k = Some e → evidence_backed w paths e.
Proof.
  intros H. apply (fold_io_reads _ (map_Forall (λ _, evidence_backed w paths))) in H.
  - destruct H as [-> H]. split; [done|]. by apply (H ev).
  - apply map_Forall_empty.
  - intros ev1 path r1 w1 Hev Hin H1. unfold load_evidence_file, mbind, io_bind, read in H1.
    destruct (files w !! path) as [text|]; simpl in H1; [|by injection H1 as <- <-].
    revert H1. apply fold_io_reads; [done|]. intros ev2 r r2 w2 Hev2 _.
    by apply load_evidence_row_reads.
Qed.

Definition output_fields (rows : list (list (string * json))) : list string :=
  match rows with r :: _ => r.*1 | [] => [] end.

Lemma wp_write_lines fields p rows w old (Q : result unit → world → Prop) :
  files w !! p = Some old →
  (∀ e s w', files w' = <[p := s]> (files w) → Q (Err e) w') →
  (∀ lines w', mapR (dict_line fields) rows = Ok lines →
     files w' = <[p := old +:+ concat_texts lines]> (files w) → Q (Ok tt) w') →
  wp (for_io (λ r, line ← lift (dict_line fields r); write p line) rows) w Q.
Proof.
  revert w old Q. induction rows as [|r rows IH]; intros w old Q Hp He Ho; simpl.
  - apply wp_ret, (Ho []); [done|]. by rewrite str_app_nil_r, insert_id.
  - apply wp_bind, wp_bind, wp_lift. destruct (dict_line fields r) as [line|e] eqn:El.
    2: { apply (He _ old). by rewrite insert_id. }
    apply wp_write; rewrite Hp; simpl.
    + intros e k w' _ Hw. by eapply He.
    + intros w1 Hw. eapply (IH w1 (old +:+ line)); [by rewrite Hw, lookup_insert_eq| |].
      * intros e s w2 H2. apply (He _ s). by rewrite H2, Hw, insert_insert_eq.
      * intros lines w2 Hl H2. apply (Ho (line :: lines)); [cbn [mapR]; rewrite El; cbn [mbind result_bind]; by rewrite Hl|].
        rewrite H2, Hw, insert_insert_eq. simpl. by rewrite <-str_app_assoc.
Qed.

Lemma wp_write_dicts p rows w (Q : result unit → world → Prop) :
  (∀ e s w', files w !! p = None → files w' = <[p := s]> (files w) → Q (Err e) w') →
  (∀ e w', files w' = files w → Q (Err e) w') →
  (∀ lines w', files w !! p = None → mapR (dict_line (output_fields rows)) rows = Ok lines →
     files w' = <[p := csv_line (output_fields rows) +:+ concat_texts lines]> (files w) → Q (Ok tt) w') →
  wp (write_dicts p rows) w Q.
Proof.
  intros He Hn Ho. unfold write_dicts. fold (output_fields rows).
  apply wp_bind, wp_create; [intros; by apply Hn|]. intros w1 Hp H1.
  apply wp_bind, wp_write.
  { intros e k w2 _ H2. eapply He; [done|]. by rewrite H2, H1, insert_insert_eq. }
  intros w2 H2. rewrite H1, lookup_insert_eq, insert_insert_eq in H2. simpl in H2. rewrite str_app_nil_l in H2.
  eapply wp_write_lines; [by rewrite H2, lookup_insert_eq| |].
  - intros e s w3 H3. apply (He _ s); [done|]. by rewrite H3, H2, insert_insert_eq.
  - intros lines w3 Hl H3. eapply Ho; [done..|]. by rewrite H3, H2, insert_insert_eq.
Qed.

Lemma reads_select args rows paths w r w' :
  fold_io (select_file args) rows paths w = (r, w') → w' = w.
Proof.
  intros H. apply (fold_io_reads _ (λ _, True)) in H; [by destruct H|done|].
  intros s path r1 w1 _ _ H1. unfold select_file, mbind, io_bind, read, lift in H1.
  destruct (files w !! path); simpl in H1; by injection H1 as <- <-.
Qed.

Lemma load_evidence_reads paths w r w' : load_independent_evidence paths w = (r, w') → w' = w.
Proof.
  intros H. apply (fold_io_reads _ (map_Forall (λ _, evidence_backed w paths))) in H; [by destruct H| |].
  - apply map_Forall_empty.
  - intros ev1 path r1 w1 Hev Hin H1. unfold load_evidence_file, mbind, io_bind, read in H1.
    destruct (files w !! path) as [text|]; simpl in H1; [|by injection H1 as <- <-].
    revert H1. apply fold_io_reads; [done|]. intros ev2 r' r2 w2 Hev2 _. by apply load_evidence_row_reads.
Qed.

(** The script touches no file but its output, and not that one if it exists: then
    it raises and every file is as it was.  When it returns, the output holds the header and
    one line per audited receipt, and the printed summary is that of the same audit. *)
Theorem main_output transport args w r w' :
  main transport args w = (r, w') →
  (∀ p, p ≠ arg_output args → files w' !! p = files w !! p) ∧
  (is_Some (files w !! arg_output args) → (∃ e, r = Err e) ∧ files w' = files w) ∧
  (∀ j, r = Ok j → ∃ evidence selected rows st lines,
     load_independent_evidence (arg_evidence args) w = (Ok evidence, w) ∧
     fold_io (select_file args) [] (arg_receipts args) w = (Ok selected, w) ∧
     audit_rows transport evidence selected = Ok (rows, st) ∧
     mapR (dict_line (output_fields (output_rows st))) (output_rows st) = Ok lines ∧
     j = summary args evidence rows st ∧
     files w' = <[arg_output args := csv_line (output_fields (output_rows st)) +:+ concat_texts lines]> (files w)).
Proof.
  intros H. unfold main, mbind at 1, io_bind at 1 in H.
  destruct (load_independent_evidence (arg_evidence args) w) as [[ev|e] w1] eqn:E1;
    apply load_evidence_reads in E1 as Hw1; subst w1.
  2: { injection H as <- <-. split_and!; [done|eauto|done]. }
  unfold mbind at 1, io_bind at 1 in H.
  destruct (fold_io (select_file args) [] (arg_receipts args) w) as [[selected|e] w1] eqn:E2;
    apply reads_select in E2 as Hw1; subst w1.
  2: { injection H as <- <-. split_and!; [done|eauto|done]. }
  unfold mbind at 1, io_bind at 1, lift in H.
  destruct (audit_rows transport ev selected) as [[rows st]|e] eqn:E3.
  2: { injection H as <- <-. split_and!; [done|eauto|done]. }
  pose proof (wp_write_dicts (arg_output args) (output_rows st) w
    (λ r1 w1, (∀ p, p ≠ arg_output args → files w1 !! p = files w !! p) ∧
      (is_Some (files w !! arg_output args) → (∃ e, r1 = Err e) ∧ files w1 = files w) ∧
      (r1 = Ok tt → ∃ lines, mapR (dict_line (output_fields (output_rows st))) (output_rows st) = Ok lines ∧
        files w1 = <[arg_output args := csv_line (output_fields (output_rows st)) +:+ concat_texts lines]> (files w))))
    as Hwp. unfold wp in Hwp. unfold mbind, io_bind in H.
  destruct (write_dicts (arg_output args) (output_rows st) w) as [r1 w1]. simpl in Hwp.
  destruct Hwp as (H1 & H2 & H3).
  - intros e s w2 Hn ->. split_and!; [intros p Hp; by rewrite lookup_insert_ne|rewrite Hn; by intros []|done].
  - intros e w2 ->. split_and!; [done|eauto|done].
  - intros lines w2 Hn Hl ->. split_and!; [intros p Hp; by rewrite lookup_insert_ne|rewrite Hn; by intros []|eauto].
  - destruct r1 as [[]|e]; injection H as <- <-.
    + split_and!; [done| |].
      * intros Hs. destruct (H2 Hs) as [[e He] _]. done.
      * intros j [= <-]. destruct (H3 eq_refl) as (lines & Hl & Hf). by exists ev, selected, rows, st, lines.
    + split_and!; [done| |done]. intros Hs. destruct (H2 Hs) as [_ Hf]. eauto.
Qed.

(** ** Witnesses: the offline fixture of the unit tests *)
Definition sample_transaction : json :=
  JObj [("hash", JStr TX_HASH); ("ethHash", JStr TX_HASH); ("from", JStr ORIGIN); ("to", JNull);
        ("shardID", JInt 0); ("toShardID", JInt 0); ("value", JInt 100); ("input", JStr "0x")].

(** The endpoint fails once with a connection error before it answers. *)
Definition sample_transport (trace : json) (status : Z) (attempt : nat) (method : string) (params : list json) :
    result json :=
  match attempt with
  | O => Err (OSError "connection reset")
  | _ =>
      Ok (JObj [("result",
        if decide (method = "hmyv2_getTransactionByHash") then sample_transaction
        else if decide (method = "hmyv2_getTransactionReceipt") then JObj [("status", JInt status)]
        else if decide (method = "debug_traceTransaction") then trace else JNull)])
  end.

Definition sample_receipts : string := write_csv
  [["source_shard"; "destination_shard"; "source_block"; "source_block_hash"; "receipt_index"; "tx_hash";
    "from"; "to"; "amount_atto"];
   ["0"; "1"; "10"; BLOCK_HASH; "0"; TX_HASH; CONSTRUCTOR; RECIPIENT; "100"]].

Definition sample_artifact : string := "{verified}".

Definition sample_evidence_csv (status : string) : string := write_csv
  [["source_shard"; "destination_shard"; "source_block"; "source_block_hash"; "receipt_index"; "receipt_tx_hash";
    "from"; "to"; "amount_atto"; "source_debit_status"; "evidence_type"; "evidence_reference"; "evidence_sha256"];
   ["0"; "1"; "10"; BLOCK_HASH; "0"; TX_HASH; CONSTRUCTOR; RECIPIENT; "100"; status; "canonical_state_delta";
    "artifact.json"; sha256 sample_artifact]].

Definition sample_files (status : string) : gmap string string := list_to_map
  [("run/receipts.csv", sample_receipts); ("run/evidence.csv", sample_evidence_csv status);
   ("run/artifact.json", sample_artifact)].

Definition sample_args : audit_args :=
  AuditArgs 0 None None None [] ["run/evidence.csv"] ["run/receipts.csv"] "audit.csv".

Definition sample_world : world := World (sample_files "absent") None.
Definition sample_run : result json * world := main (sample_transport reverted_trace 1) sample_args sample_world.

Example sample_rollback : (j ← sample_run.1; jget "rollback_leak_atto" j) = Ok (JStr "100").
Proof. by vm_compute. Qed.

(** Evidence that contradicts the replay, and a transaction that failed. *)
Example sample_conflict :
  (main (sample_transport reverted_trace 1) sample_args (World (sample_files "persisted") None)).1 =
  Err (ValueError "independent source-debit evidence conflicts").
Proof. by vm_compute. Qed.

Example sample_failed :
  (main (sample_transport reverted_trace 0) sample_args sample_world).1 =
  Err (ValueError "independent evidence cannot override a failed stored source transaction receipt").
Proof. by vm_compute. Qed.

Definition sample_ev : evidence_map := get ∅ (load_independent_evidence (arg_evidence sample_args) sample_world).1.
Definition sample_selected : list orow := get [] (fold_io (select_file sample_args) [] (arg_receipts sample_args) sample_world).1.
Definition sample_audit : list orow * audit_state :=
  get ([], initial_state) (audit_rows (sample_transport reverted_trace 1) sample_ev sample_selected).

Lemma sample_audit_Ok :
  audit_rows (sample_transport reverted_trace 1) sample_ev sample_selected = Ok (sample_audit.1, sample_audit.2).
Proof. rewrite <-surjective_pairing. apply get_Ok. by vm_compute. Qed.

Lemma audit_conserves_witness : ∃ ocs,
  Forall2 (λ o oc, classify_receipt (sample_transport reverted_trace 1) sample_ev o = Ok oc) sample_audit.1 ocs ∧
  sum_by (mget (totals sample_audit.2)) classifications = sum_by oc_amount ocs ∧
  mget (totals sample_audit.2) "rollback_leak" = 100.
Proof.
  destruct (audit_conserves _ _ _ _ _ sample_audit_Ok) as (_ & ocs & Hf & _ & _ & _ & Hs & _).
  exists ocs. split; [exact Hf|]. split; [exact Hs|]. by vm_compute.
Defined.

Lemma evidence_fully_used_witness :
  used_evidence sample_audit.2 = dom sample_ev ∧ evidence_count sample_audit.2 = 1 ∧
  evidence_amount sample_audit.2 = sum_by key_amount (elements (dom sample_ev)).
Proof.
  destruct (evidence_fully_used _ sample_args _ _ _ _ sample_audit_Ok) as (H1 & H2 & H3 & _).
  split; [exact H1|]. split; [|exact H3]. rewrite H2. by vm_compute.
Defined.

Definition no_outcome : outcome :=
  Outcome sample_identity JNull "" 0 JNull [] JNull JNull "" "" None "" "" "".

Definition sample_row : orow := default [] (head sample_selected).

Lemma failed_receipt_unclassified_witness :
  let oc := get no_outcome (classify_receipt (sample_transport reverted_trace 0) ∅ sample_row) in
  oc_classification oc = "unclassified" ∧ oc_replay_classification oc = "receipt_inconsistent" ∧
  oc_evidence oc = None.
Proof.
  apply (failed_receipt_unclassified (sample_transport reverted_trace 0) ∅ sample_row);
    [apply get_Ok; by vm_compute|by vm_compute].
Defined.

Definition bounded_args : audit_args :=
  AuditArgs 5 (Some 10) (Some 0) (Some 1) [CONSTRUCTOR] [] ["run/receipts.csv"] "audit.csv".

Lemma select_sound_witness :
  let o := default [] (head (ordered_rows sample_receipts)) in
  let id := get sample_identity (receipt_identity (to_row (default [] (get None (select_row bounded_args "run/receipts.csv" o))))) in
  5 ≤ id_source_block id.
Proof.
  intros o id.
  destruct (select_sound bounded_args "run/receipts.csv" o
    (default [] (get None (select_row bounded_args "run/receipts.csv" o))) id) as [H _];
    [by vm_compute|apply get_Ok; by vm_compute|exact H].
Defined.

Lemma sample_load : load_independent_evidence ["run/evidence.csv"] sample_world = (Ok sample_ev, sample_world).
Proof.
  apply injective_projections; cbn [fst snd]; [apply get_Ok|]; by vm_compute.
Qed.

Lemma evidence_authenticated_witness :
  sample_world = sample_world ∧
  ∀ k e, sample_ev !! k = Some e → evidence_backed sample_world ["run/evidence.csv"] e.
Proof.
  exact (evidence_authenticated ["run/evidence.csv"] sample_world sample_ev sample_world sample_load).
Defined.

Lemma main_output_witness :
  (∀ p, p ≠ "audit.csv" → files sample_run.2 !! p = sample_files "absent" !! p) ∧
  (∃ evidence selected rows st lines,
     load_independent_evidence ["run/evidence.csv"] sample_world = (Ok evidence, sample_world) ∧
     fold_io (select_file sample_args) [] ["run/receipts.csv"] sample_world = (Ok selected, sample_world) ∧
     audit_rows (sample_transport reverted_trace 1) evidence selected = Ok (rows, st) ∧
     mapR (dict_line (output_fields (output_rows st))) (output_rows st) = Ok lines ∧
     get JNull sample_run.1 = summary sample_args evidence rows st ∧
     files sample_run.2 = <["audit.csv" := csv_line (output_fields (output_rows st)) +:+ concat_texts lines]>
       (sample_files "absent")).
Proof.
  destruct (main_output (sample_transport reverted_trace 1) sample_args sample_world sample_run.1 sample_run.2)
    as (H1 & _ & H3); [by rewrite <-surjective_pairing|].
  split; [exact H1|]. apply H3, get_Ok. by vm_compute.
Defined.
