(* ===== verification/SourceSummary.v ===== *)
(** * Summary of the source audits

    toolkit/scripts/forensics/summarize-cx-source-audit.py: [classify] adds the rows of one or
    more audit files into counts and amounts by final classification, by replay classification
    and by source shard, and refuses a receipt that appears twice. *)
From S2P Require Import Prelude PyStr PyData Sha256 Files Csv.

Definition SUMMARY_CLASSIFICATIONS : list string :=
  ["rollback_leak"; "source_debit_absent"; "valid_source_debit"; "unclassified"].

(** [{"count": c, "amount_atto": a}], and a [defaultdict] of them *)
Record bucket := Bucket { bk_count : Z; bk_amount : Z }.

Abbreviation buckets := (gmap string bucket).

(** [d[k]["count"] += 1; d[k]["amount_atto"] += amount] *)
Definition bump (k : string) (amount : Z) (m : buckets) : buckets :=
  let b := default (Bucket 0 0) (m !! k) in
  <[k := Bucket (bk_count b + 1) (bk_amount b + amount)]> m.

Abbreviation receipt_key := (list (Z + string)).

(** What the loop takes from a row. *)
Record audited := Audited {
  au_key : receipt_key;
  au_shard : Z;
  au_amount : Z;
  au_classification : string;
  au_replay : string;
}.

Record summary_state := SummaryState {
  seen : gset receipt_key;
  final : buckets;
  replay : buckets;
  by_source_shard : gmap Z buckets;
}.

Definition initial : summary_state :=
  SummaryState ∅ (list_to_map ((λ c, (c, Bucket 0 0)) <$> SUMMARY_CLASSIFICATIONS)) ∅ ∅.

Definition required_int (r : row) (names : list string) : result Z := s ← required r names; int_str s.

(** The row's key, and the rest of the row, which is read after the check for duplicates. *)
Definition row_receipt (r : row) : result (receipt_key * Z) :=
  source_shard ← required_int r ["audit_source_shard"; "signed_source_shard"; "source_shard"];
  destination_shard ← required_int r ["audit_destination_shard"; "destination_shard"; "to_shard"];
  source_block ← required_int r ["audit_source_block"; "signed_source_block"; "source_block"];
  h ← required r ["audit_source_block_hash"; "signed_source_header_hash"; "source_block_hash";
                  "claimed_source_block_hash"];
  receipt_index ← required_int r ["receipt_index"];
  tx ← required r ["tx_hash"];
  Ok ([inl source_shard; inl destination_shard; inl source_block; inr (lower h); inl receipt_index;
       inr (lower tx)], source_shard).

Definition row_audited (key : receipt_key) (shard : Z) (r : row) : result audited :=
  amount ← required_int r ["amount_atto"];
  classification ← required r ["classification"];
  raise_when (negb (bool_decide (classification ∈ SUMMARY_CLASSIFICATIONS)))
    (ValueError "unsupported final classification");;
  let replay_classification := match cell_get r "replay_classification" with
    | Some (String _ _ as s) => s
    | _ => "legacy"
    end in
  Ok (Audited key shard amount classification replay_classification).

Definition add_audited (st : summary_state) (a : audited) : summary_state :=
  SummaryState ({[au_key a]} ∪ seen st)
    (bump (au_classification a) (au_amount a) (final st))
    (bump (au_replay a) (au_amount a) (replay st))
    (<[au_shard a := bump (au_classification a) (au_amount a) (default ∅ (by_source_shard st !! au_shard a))]>
       (by_source_shard st)).

(** The body of the loop over the rows of a file. *)
Definition summary_step (st : summary_state) (r : row) : result summary_state :=
  '(key, shard) ← row_receipt r;
  raise_when (bool_decide (key ∈ seen st)) (ValueError "duplicate canonical receipt");;
  a ← row_audited key shard r;
  Ok (add_audited st a).

Definition file_sha256 : string → IO string := file_sha256_at (Z.to_nat (1024 * 1024)).

(** The loop over the files; the second component is [inputs]. *)
Definition summarize_file (s : summary_state * list json) (path : string) : IO (summary_state * list json) :=
  let '(st, inputs) := s in
  text ← read path;
  st' ← lift (foldM summary_step st (dict_rows text));
  digest ← file_sha256 path;
  mret (st', inputs ++ [JObj [("path", JStr path); ("sha256", JStr digest);
                             ("rows", JInt (Z.of_nat (length (dict_rows text))))]]).

(** [encoded(values)] *)
Definition encode_bucket (b : bucket) : json :=
  JObj [("count", JInt (bk_count b)); ("amount_atto", JStr (str_of_Z (bk_amount b)))].

Definition encoded (values : buckets) : json :=
  JObj ((λ kv, (kv.1, encode_bucket kv.2)) <$> sort_by (λ a b, str_leb a.1 b.1) (map_to_list values)).

Definition amount_in (m : buckets) (k : string) : Z := bk_amount (default (Bucket 0 0) (m !! k)).
Definition count_in (m : buckets) (k : string) : Z := bk_count (default (Bucket 0 0) (m !! k)).

Definition summary_json (inputs : list json) (st : summary_state) : json :=
  let rollback := amount_in (final st) "rollback_leak" in
  let absent := amount_in (final st) "source_debit_absent" in
  JObj [("schema_version", JInt 1);
        ("inputs", JArr inputs);
        ("receipts", JInt (Z.of_nat (size (seen st))));
        ("by_final_classification", encoded (final st));
        ("by_replay_classification", encoded (replay st));
        ("by_source_shard", JObj ((λ kv, (str_of_Z kv.1, encoded kv.2)) <$>
           sort_by (λ a b, a.1 <=? b.1) (map_to_list (by_source_shard st))));
        ("trace_proven_rollback_leakage_atto", JStr (str_of_Z rollback));
        ("canonical_state_proven_source_debit_absence_atto", JStr (str_of_Z absent));
        ("unbacked_cross_shard_credit_atto", JStr (str_of_Z (rollback + absent)));
        ("unclassified_atto", JStr (str_of_Z (amount_in (final st) "unclassified")))].

Definition classify (paths : list string) : IO json :=
  '(st, inputs) ← fold_io summarize_file (initial, []) paths;
  mret (summary_json inputs st).

Definition write_json (path : string) (value : json) : IO unit :=
  publish_new path [dumps value +:+ newline].

Definition main (output : string) (source_audits : list string) : IO json :=
  result ← classify source_audits;
  write_json output result ≫= λ _,
  mret result.

(** ** Lemmas: buckets are two counters *)
Lemma bump_count k a m : bk_count <$> bump k a m = madd k 1 (bk_count <$> m).
Proof.
  unfold bump, madd. rewrite fmap_insert. simpl. f_equal. rewrite lookup_fmap.
  by destruct (m !! k).
Qed.

Lemma bump_amount k a m : bk_amount <$> bump k a m = madd k a (bk_amount <$> m).
Proof.
  unfold bump, madd. rewrite fmap_insert. simpl. f_equal. rewrite lookup_fmap.
  by destruct (m !! k).
Qed.

Lemma amount_in_mget m k : amount_in m k = mget (bk_amount <$> m) k.
Proof. unfold amount_in, mget. rewrite lookup_fmap. by destruct (m !! k). Qed.

Lemma count_in_mget m k : count_in m k = mget (bk_count <$> m) k.
Proof. unfold count_in, mget. rewrite lookup_fmap. by destruct (m !! k). Qed.

(** The accumulators after the rows [l]. *)
Record summed (l : list audited) (st : summary_state) : Prop := {
  sm_seen : seen st = list_to_set (au_key <$> l);
  sm_nodup : NoDup (au_key <$> l);
  sm_final_amount : ∀ c, amount_in (final st) c =
    sum_by au_amount (filter (λ a, au_classification a = c) l);
  sm_final_count : ∀ c, count_in (final st) c =
    Z.of_nat (length (filter (λ a, au_classification a = c) l));
  sm_replay_amount : ∀ c, amount_in (replay st) c = sum_by au_amount (filter (λ a, au_replay a = c) l);
  sm_replay_count : ∀ c, count_in (replay st) c = Z.of_nat (length (filter (λ a, au_replay a = c) l));
  sm_shard_amount : ∀ s c, amount_in (default ∅ (by_source_shard st !! s)) c =
    sum_by au_amount (filter (λ a, au_shard a = s ∧ au_classification a = c) l);
  sm_shard_sum : ∀ c, msum ((λ b, amount_in b c) <$> by_source_shard st) =
    sum_by au_amount (filter (λ a, au_classification a = c) l);
  sm_dom : dom (final st) = list_to_set SUMMARY_CLASSIFICATIONS;
  sm_replay_sum : msum (bk_amount <$> replay st) = sum_by au_amount l;
  sm_class : Forall (λ a, au_classification a ∈ SUMMARY_CLASSIFICATIONS) l;
}.

Lemma amount_in_bump m k a k' : amount_in (bump k a m) k' = amount_in m k' + (if decide (k = k') then a else 0).
Proof. by rewrite !amount_in_mget, bump_amount, mget_madd. Qed.

Lemma count_in_bump m k a k' : count_in (bump k a m) k' = count_in m k' + (if decide (k = k') then 1 else 0).
Proof. by rewrite !count_in_mget, bump_count, mget_madd. Qed.

Lemma summary_step_Ok st r st' l :
  summed l st → summary_step st r = Ok st' → ∃ a, summed (l ++ [a]) st' ∧
    ∃ key shard, row_receipt r = Ok (key, shard) ∧ row_audited key shard r = Ok a.
Proof.
  intros [] H. unfold summary_step in H. inv_ok H. destruct v as [key shard]. inv_ok H. subst st'.
  rename v0 into a. exists a. split; [|by exists key, shard].
  assert (Ha : au_key a = key ∧ au_classification a ∈ SUMMARY_CLASSIFICATIONS).
  { unfold row_audited in E1. inv_ok E1. subst a. bool_facts. by split. }
  destruct Ha as [Hk Hc]. bool_facts. rewrite sm_seen0, elem_of_list_to_set in E0.
  split; simpl.
  - rewrite fmap_app, list_to_set_app_L, sm_seen0. simpl. by rewrite union_empty_r_L, union_comm_L.
  - rewrite fmap_app. apply NoDup_app. split_and!; [done| |apply NoDup_singleton].
    intros x Hx ->%list_elem_of_singleton. by rewrite Hk in Hx.
  - intros c. rewrite amount_in_bump, sm_final_amount0, filter_app, keep_one, sum_by_app.
    case_decide; rewrite ?sum_by_cons, sum_by_nil; lia.
  - intros c. rewrite count_in_bump, sm_final_count0, filter_app, keep_one, length_app. case_decide; simpl; lia.
  - intros c. rewrite amount_in_bump, sm_replay_amount0, filter_app, keep_one, sum_by_app.
    case_decide; rewrite ?sum_by_cons, sum_by_nil; lia.
  - intros c. rewrite count_in_bump, sm_replay_count0, filter_app, keep_one, length_app. case_decide; simpl; lia.
  - intros s c. rewrite filter_app, keep_one, sum_by_app, <-sm_shard_amount0.
    destruct (decide (au_shard a = s)) as [<-|Hs].
    + rewrite lookup_insert_eq. simpl. rewrite amount_in_bump.
      repeat case_decide; try tauto; rewrite ?sum_by_cons, sum_by_nil; lia.
    + rewrite lookup_insert_ne by done. rewrite decide_False by tauto. rewrite sum_by_nil. lia.
  - intros c. rewrite fmap_insert, msum_insert, sm_shard_sum0, amount_in_bump, filter_app, keep_one, sum_by_app.
    unfold mget. rewrite lookup_fmap. unfold amount_in at 1.
    destruct (by_source_shard st !! au_shard a) as [b|]; simpl; unfold amount_in; simpl; rewrite ?lookup_empty;
      case_decide; rewrite ?sum_by_cons, sum_by_nil; simpl; lia.
  - unfold bump. rewrite dom_insert_L, subseteq_union_1_L; [done|]. apply singleton_subseteq_l.
    rewrite sm_dom0. by rewrite elem_of_list_to_set.
  - by rewrite bump_amount, msum_madd, sm_replay_sum0, sum_by_snoc.
  - apply Forall_app. by split; [|constructor].
Qed.

Lemma summed_initial : summed [] initial.
Proof.
  assert (Hz : ∀ c, amount_in (final initial) c = 0 ∧ count_in (final initial) c = 0).
  { intros c. unfold amount_in, count_in. destruct (final initial !! c) as [b|] eqn:E; [|done]. simpl in E.
    rewrite !lookup_insert_Some, lookup_empty in E. naive_solver. }
  split; try done; simpl.
  - constructor.
  - intros c. apply Hz.
  - intros c. apply Hz.
Qed.

(** The rows of all the files, with what the loop takes from each. *)
Definition audited_rows (rows : list row) (l : list audited) : Prop :=
  Forall2 (λ r a, ∃ key shard, row_receipt r = Ok (key, shard) ∧ row_audited key shard r = Ok a) rows l.

Lemma summary_fold_Ok st rows st' l :
  summed l st → foldM summary_step st rows = Ok st' → ∃ l', audited_rows rows l' ∧ summed (l ++ l') st'.
Proof.
  revert st l. induction rows as [|r rows IH]; intros st l Hs H; simpl in H.
  - injection H as <-. exists []. rewrite app_nil_r. by split; [constructor|].
  - inv_ok H. destruct (summary_step_Ok _ _ _ _ Hs E) as (a & Ha & Hr).
    destruct (IH _ _ Ha H) as (l' & Hl & Hs'). exists (a :: l'). split; [by constructor|].
    by rewrite <-app_assoc in Hs'.
Qed.

Lemma summary_sha256_read p w :
  file_sha256 p w =
  (match files w !! p with Some s => Ok (sha256 s) | None => Err (FileNotFoundError p) end, w).
Proof. unfold file_sha256. by rewrite file_sha256_at_read by lia. Qed.

Lemma classify_Ok paths w j w' :
  classify paths w = (Ok j, w') →
  w' = w ∧ ∃ texts l st inputs, Forall2 (λ p t, files w !! p = Some t) paths texts ∧
    audited_rows (mjoin (dict_rows <$> texts)) l ∧ summed l st ∧ j = summary_json inputs st.
Proof.
  unfold classify, mbind, io_bind. intros H.
  assert (Hf : ∀ paths st inputs l r w1, summed l st →
    fold_io summarize_file (st, inputs) paths w = (Ok r, w1) → w1 = w ∧
    ∃ texts l', Forall2 (λ p t, files w !! p = Some t) paths texts ∧
      audited_rows (mjoin (dict_rows <$> texts)) l' ∧ summed (l ++ l') r.1).
  { clear. induction paths as [|p paths IH]; intros st inputs l r w1 Hs H; simpl in H.
    - injection H as <- <-. split; [done|]. exists [], []. rewrite app_nil_r. split_and!; [constructor|constructor|exact Hs].
    - unfold mbind, io_bind, read, lift in H.
      destruct (files w !! p) as [t|] eqn:Et; cbn [of_option] in H; [|done].
      destruct (foldM summary_step st (dict_rows t)) as [st'|e] eqn:Ef; [|done].
      rewrite summary_sha256_read, Et in H. cbn in H.
      destruct (summary_fold_Ok _ _ _ _ Hs Ef) as (l1 & Hl1 & Hs1).
      destruct (IH _ _ _ _ _ Hs1 H) as (-> & texts & l2 & Ht & Hl2 & Hs2). split; [done|].
      exists (t :: texts), (l1 ++ l2). split_and!; [by constructor|by apply Forall2_app|by rewrite app_assoc]. }
  destruct (fold_io summarize_file (initial, []) paths w) as [[[st inputs]|e] w1] eqn:E; [|done].
  destruct (Hf _ _ _ _ _ _ summed_initial E) as (-> & texts & l & Ht & Hl & Hs).
  injection H as <- <-. split; [done|]. by exists texts, l, st, inputs.
Qed.

(** ** Theorems *)

(** The summary is a partition of the audited rows.  No receipt key occurs
    twice among the rows of all files, the receipt count is the number of rows, the final
    classifications, the replay classifications and the source shards each add up to the
    amount of all rows, and every final total is the sum of its per-shard totals. *)
Theorem summary_conserves paths w j w' :
  classify paths w = (Ok j, w') →
  w' = w ∧ ∃ texts l st inputs,
    Forall2 (λ p t, files w !! p = Some t) paths texts ∧
    audited_rows (mjoin (dict_rows <$> texts)) l ∧ j = summary_json inputs st ∧
    NoDup (au_key <$> l) ∧ jget_int "receipts" j = Ok (Z.of_nat (length l)) ∧
    (∀ c, amount_in (final st) c = sum_by au_amount (filter (λ a, au_classification a = c) l)) ∧
    (∀ c, amount_in (replay st) c = sum_by au_amount (filter (λ a, au_replay a = c) l)) ∧
    sum_by (amount_in (final st)) SUMMARY_CLASSIFICATIONS = sum_by au_amount l ∧
    msum (bk_amount <$> replay st) = sum_by au_amount l ∧
    (∀ c, msum ((λ b, amount_in b c) <$> by_source_shard st) = amount_in (final st) c).
Proof.
  intros (-> & texts & l & st & inputs & Ht & Hl & [] & ->)%classify_Ok. split; [done|].
  exists texts, l, st, inputs. split_and!; try done.
  - unfold jget_int. simpl. rewrite sm_seen0. do 2 f_equal. rewrite <-(length_fmap au_key).
    clear -sm_nodup0. induction (au_key <$> l) as [|k ks IH]; [done|].
    apply NoDup_cons in sm_nodup0 as [Hk Hn]. simpl. rewrite size_union, size_singleton, IH; [done..|].
    apply disjoint_singleton_l. by rewrite elem_of_list_to_set.
  - rewrite (sum_by_ext _ (mget (bk_amount <$> final st))) by (intros; apply amount_in_mget).
    rewrite <-(msum_keys (bk_amount <$> final st)); [|apply (bool_decide_unpack _); by vm_compute|].
    2: { by rewrite dom_fmap_L. }
    assert (Hsum : sum_by (mget (bk_amount <$> final st)) SUMMARY_CLASSIFICATIONS = sum_by au_amount l).
    { rewrite (sum_by_ext _ (λ c, sum_by au_amount (filter (λ a, au_classification a = c) l)))
        by (intros; rewrite <-amount_in_mget; apply sm_final_amount0).
      clear -sm_class0. induction sm_class0 as [|a l Ha Hl IH]; [done|].
      rewrite sum_by_cons, <-IH. clear IH Hl. unfold SUMMARY_CLASSIFICATIONS in *.
      rewrite !elem_of_cons in Ha. rewrite !sum_by_cons, !sum_by_nil, !filter_cons.
      destruct Ha as [->|[->|[->|[->|Ha%not_elem_of_nil]]]]; try done;
        repeat (first [rewrite decide_True by done | rewrite decide_False by done]); rewrite sum_by_cons; lia. }
    rewrite <-Hsum. apply msum_keys; [apply (bool_decide_unpack _); by vm_compute|by rewrite dom_fmap_L].
  - intros c. by rewrite sm_shard_sum0, sm_final_amount0.
Qed.

(** The credit reported as unbacked is exactly the amount of the rows classified
    as a rollback leak or as having no source debit; it never includes an unclassified row. *)
Theorem unbacked_credit paths w j w' :
  classify paths w = (Ok j, w') →
  ∃ texts l, Forall2 (λ p t, files w !! p = Some t) paths texts ∧
    audited_rows (mjoin (dict_rows <$> texts)) l ∧
    jget_int "unbacked_cross_shard_credit_atto" j =
      Ok (sum_by au_amount (filter (λ a, au_classification a = "rollback_leak" ∨
                                          au_classification a = "source_debit_absent") l)) ∧
    jget_int "unclassified_atto" j =
      Ok (sum_by au_amount (filter (λ a, au_classification a = "unclassified") l)).
Proof.
  intros (_ & texts & l & st & inputs & Ht & Hl & [] & ->)%classify_Ok. exists texts, l.
  split; [done|]. split; [done|]. unfold jget_int. simpl. rewrite !int_str_of_Z, !sm_final_amount0.
  split; [|done]. f_equal. clear. induction l as [|a l IH]; [done|]. rewrite !filter_cons.
  destruct (decide (au_classification a = "rollback_leak")) as [H1|H1],
    (decide (au_classification a = "source_debit_absent")) as [H2|H2],
    (decide (au_classification a = "rollback_leak" ∨ au_classification a = "source_debit_absent")) as [H3|H3];
    try tauto; rewrite ?sum_by_cons; try lia. by rewrite H1 in H2.
Qed.

Lemma classify_reads paths w r w' : classify paths w = (r, w') → w' = w.
Proof.
  unfold classify, mbind, io_bind. intros E.
  destruct (fold_io summarize_file (initial, []) paths w) as [r2 w2] eqn:Ef.
  assert (Hw : ∀ paths s r w', fold_io summarize_file s paths w = (r, w') → w' = w).
  { clear. induction paths as [|p paths IH]; intros [st inputs] r w' H; simpl in H; [by injection H|].
    unfold mbind, io_bind, read, lift in H.
    destruct (files w !! p) as [t|] eqn:Et; cbn [of_option] in H; [|by injection H].
    destruct (foldM summary_step st (dict_rows t)) as [st'|e]; [|by injection H].
    rewrite summary_sha256_read, Et in H. cbn in H. by eapply IH. }
  apply Hw in Ef as ->. destruct r2 as [[st inputs]|e2]; by injection E.
Qed.

(** The summary is written all at once: an existing summary or partial file is
    never replaced, and on any failure every other file, the summary's included, is as before. *)
Theorem summary_write_atomic output paths w r w' :
  main output paths w = (r, w') →
  match r with
  | Ok j => files w !! output = None ∧ files w !! partial output = None ∧
            classify paths w = (Ok j, w) ∧ files w' = <[output := dumps j +:+ newline]> (files w)
  | Err _ => only_partial output w w'
  end.
Proof.
  unfold main, mbind, io_bind. destruct (classify paths w) as [[j|e] w1] eqn:E;
    apply classify_reads in E as ->; [|by intros [= <- <-]].
  destruct (write_json output j w) as [[[]|e] w2] eqn:Ew; intros [= <- <-].
  - apply publish_new_Ok in Ew as (H1 & H2 & H3). split_and!; try done.
    rewrite H3. unfold concat_texts. simpl. by rewrite str_app_nil_r.
  - by apply publish_new_Err in Ew as [? _].
Qed.

(** ** Witnesses *)
Definition ex_audit (shard block : string) (class amount : string) : list string :=
  [shard; "1"; block; "0xAB"; "0"; "0xcd"; amount; class; "rollback_leak"].

Definition ex_csv : string := write_csv
  [["source_shard"; "destination_shard"; "source_block"; "source_block_hash"; "receipt_index"; "tx_hash";
    "amount_atto"; "classification"; "replay_classification"];
   ex_audit "0" "10" "rollback_leak" "100";
   ex_audit "0" "11" "source_debit_absent" "20";
   ex_audit "2" "10" "unclassified" "3"].

Definition ex_world : world := World {[ "audit.csv" := ex_csv ]} None.

Definition ex_result : json := get JNull (classify ["audit.csv"] ex_world).1.

Example ex_unbacked : jget "unbacked_cross_shard_credit_atto" ex_result = Ok (JStr "120").
Proof. by vm_compute. Qed.

Example ex_duplicate : (classify ["audit.csv"; "audit.csv"] ex_world).1 = Err (ValueError "duplicate canonical receipt").
Proof. by vm_compute. Qed.

Lemma ex_classify : classify ["audit.csv"] ex_world = (Ok ex_result, ex_world).
Proof. apply injective_projections; cbn [fst snd]; [apply get_Ok|]; by vm_compute. Qed.

Lemma summary_conserves_witness : ∃ l, jget_int "receipts" ex_result = Ok (Z.of_nat (length l)) ∧ NoDup (au_key <$> l).
Proof.
  destruct (summary_conserves _ _ _ _ ex_classify) as (_ & texts & l & st & inputs & _ & _ & _ & Hn & Hr & _).
  exists l. exact (conj Hr Hn).
Defined.

Lemma unbacked_credit_witness : ∃ l : list audited,
  Ok 120 = Ok (sum_by au_amount (filter (λ a, au_classification a = "rollback_leak" ∨
                                          au_classification a = "source_debit_absent") l)).
Proof.
  destruct (unbacked_credit _ _ _ _ ex_classify) as (texts & l & _ & _ & H & _).
  exists l. rewrite <-H. by vm_compute.
Defined.

Lemma ex_summary_main : main "summary.json" ["audit.csv"] ex_world =
  (Ok ex_result, (main "summary.json" ["audit.csv"] ex_world).2).
Proof. apply run_Ok. by vm_compute. Qed.

Lemma summary_write_atomic_witness :
  files (main "summary.json" ["audit.csv"] ex_world).2 = <["summary.json" := dumps ex_result +:+ newline]> (files ex_world).
Proof.
  destruct (summary_write_atomic _ _ _ _ _ ex_summary_main) as (_ & _ & _ & H). exact H.
Defined.
