(* ===== verification/Closure.v ===== *)
(** * Historical closure and the cutoff formula

    toolkit/scripts/verify/historical-closure.py ([Section] closure): for each checkpoint, the
    residual between the recorded state and the supply formula after named adjustments, and its
    change from the checkpoint before, checked against expected values.

    toolkit/scripts/verify/reconstruct-cutoff-formula.py: the formula's accumulator at the cutoff
    rebuilt from a node-local counter and the increase in validators' lifetime rewards. *)
From S2P Require Import Prelude PyStr PyData Sha256 Files Csv Json.

(** ** historical-closure.py *)
Fixpoint nested_parts (value : json) (parts : list string) : result json :=
  match parts with
  | [] => Ok value
  | part :: parts => v ← jget part value; nested_parts v parts
  end.

(** [nested(value, field)] *)
Definition nested (value field : json) : result json :=
  f ← jstr field;
  nested_parts value (split_on "." f).

(** A path used with [base / path] *)
Definition as_path (v : json) : result string := match v with JStr s => Ok s | _ => Err TypeError end.

Definition resolve (specification : json) (base : string) : IO Z :=
  match specification with
  | JInt _ | JBool _ | JStr _ => lift (jint specification)
  | JObj _ =>
      p ← lift (jget "path" specification);
      rel ← lift (as_path p);
      value ← load_json (path_join base rel);
      field ← lift (jget "field" specification);
      v ← lift (nested value field);
      lift (jint v)
  | _ => throw TypeError
  end.

(** [{name: resolve(value, base) for name, value in members}] *)
Fixpoint resolve_all (members : list (string * json)) (base : string) : IO (list (string * Z)) :=
  match members with
  | [] => mret []
  | (name, v) :: members =>
      z ← resolve v base;
      zs ← resolve_all members base;
      mret ((name, z) :: zs)
  end.

(** [point.get("adjustments_atto", {}).items()] *)
Definition adjustment_items (point : json) : result (list (string * json)) :=
  match point with
  | JObj m => match default (JObj []) (assoc "adjustments_atto" m) with
              | JObj a => Ok a
              | _ => Err AttributeError
              end
  | _ => Err AttributeError
  end.

Record checkpoint := Checkpoint {
  cp_name : json;
  cp_block : json;
  cp_shard0 : Z;
  cp_shard1 : Z;
  cp_accumulator : Z;
  cp_adjustments : list (string * Z);
  cp_formula : Z;
  cp_residual : Z;
  cp_change : option Z;
}.

Definition cp_state (c : checkpoint) : Z := cp_shard0 c + cp_shard1 c.
Definition cp_gap (c : checkpoint) : Z := cp_state c - cp_formula c.

(** [field in point and actual != int(point[field])], where [actual] may be [None] *)
Definition expectation_fails (point : json) (field : string) (actual : option Z) : result bool :=
  present ← jin field point;
  if (present : bool) then
    expected ← jget_int field point;
    Ok (negb (bool_decide (actual = Some expected)))
  else Ok false.

(** [raise ValueError(f"{point['name']}: ...")] *)
Definition unexpected (bad : bool) (point : json) (e : exn) : result unit :=
  if bad then _ ← jget "name" point; Err e else Ok tt.

(** The checks and the result of one checkpoint, from its resolved values. *)
Definition close_point (formula_base shard0 shard1 accumulator : Z) (adjustments : list (string * Z))
    (previous_residual : option Z) (point : json) : result checkpoint :=
  let state := shard0 + shard1 in
  let formula := formula_base + accumulator in
  let formula_gap := state - formula in
  let residual := formula_gap - zsum (snd <$> adjustments) in
  let change := (λ p, residual - p) <$> previous_residual in
  bad ← expectation_fails point "expected_residual_atto" (Some residual);
  unexpected bad point (ValueError "residual != expected");;
  bad ← expectation_fails point "expected_change_atto" change;
  unexpected bad point (ValueError "change != expected");;
  name ← jget "name" point;
  block ← jget_opt "block" point;
  Ok (Checkpoint name block shard0 shard1 accumulator adjustments formula residual change).

(** The loop's body: the result so far and [previous_residual]. *)
Definition closure_step (formula_base : Z) (base : string) (s : list checkpoint * option Z) (point : json) :
    IO (list checkpoint * option Z) :=
  let '(results, previous_residual) := s in
  s0 ← lift (jget "shard0_claims_atto" point);
  shard0 ← resolve s0 base;
  s1 ← lift (jget "shard1_claims_atto" point);
  shard1 ← resolve s1 base;
  a ← lift (jget "block_reward_accumulator_atto" point);
  accumulator ← resolve a base;
  items ← lift (adjustment_items point);
  adjustments ← resolve_all items base;
  c ← lift (close_point formula_base shard0 shard1 accumulator adjustments previous_residual point);
  mret (results ++ [c], Some (cp_residual c)).

Definition atto_text (z : Z) : json := JStr (str_of_Z z).

Definition checkpoint_json (c : checkpoint) : json :=
  JObj [("name", cp_name c); ("block", cp_block c);
        ("shard0_claims_atto", atto_text (cp_shard0 c));
        ("shard1_claims_atto", atto_text (cp_shard1 c));
        ("global_state_atto", atto_text (cp_state c));
        ("block_reward_accumulator_atto", atto_text (cp_accumulator c));
        ("formula_atto", atto_text (cp_formula c));
        ("formula_gap_atto", atto_text (cp_gap c));
        ("adjustments_atto", JObj ((λ kv, (kv.1, atto_text kv.2)) <$> cp_adjustments c));
        ("residual_atto", atto_text (cp_residual c));
        ("residual_one", JStr (display_one (cp_residual c)));
        ("change_from_previous_atto", match cp_change c with None => JNull | Some z => atto_text z end);
        ("change_from_previous_one", match cp_change c with None => JNull | Some z => JStr (display_one z) end)].

Record closure := Closure { cl_genesis : Z; cl_pre_staking : Z; cl_checkpoints : list checkpoint }.

Definition closure_json (c : closure) : json :=
  JObj [("schema_version", JInt 1);
        ("genesis_atto", atto_text (cl_genesis c));
        ("pre_staking_rewards_atto", atto_text (cl_pre_staking c));
        ("formula", JStr "shard0 claims + shard1 claims - genesis - pre-staking rewards - block reward accumulator - named adjustments");
        ("checkpoints", JArr (checkpoint_json <$> cl_checkpoints c))].

Definition calculate (configuration : json) (base : string) : IO closure :=
  g ← lift (jget "genesis_atto" configuration);
  genesis ← resolve g base;
  p ← lift (jget "pre_staking_rewards_atto" configuration);
  pre_staking ← resolve p base;
  let formula_base := genesis + pre_staking in
  ps ← lift (jget "checkpoints" configuration);
  points ← lift (jiter ps);
  '(results, _) ← fold_io (closure_step formula_base base) ([], None) points;
  mret (Closure genesis pre_staking results).

(** [write_json(path, value)]; without a path the value goes to standard output. *)
Definition write_json (path : option string) (value : json) : IO unit :=
  match path with
  | None => mret tt
  | Some p => publish_over p [dumps value +:+ newline]
  end.

Definition closure_main (input : string) (output : option string) : IO closure :=
  configuration ← load_json input;
  result ← calculate configuration (parent input);
  write_json (output_path output) (closure_json result) ≫= λ _,
  mret result.

(** ** reconstruct-cutoff-formula.py *)
Definition DEFAULT_GENESIS_ATTO : Z := 12600000000 * 10 ^ 18.
Definition DEFAULT_PRE_STAKING_ATTO : Z := 319237464 * 10 ^ 18.

Definition file_sha256 : string → IO string := file_sha256_at (Z.to_nat (1024 * 1024)).

Definition load_integer (path field : string) : IO Z :=
  value ← load_json path;
  present ← lift (jin field value);
  lift (raise_when (negb present) (KeyError field)) ≫= λ _,
  lift (jget_int field value).

Record reconstruction := Reconstruction {
  rc_genesis : Z;
  rc_pre_staking : Z;
  rc_base_accumulator : Z;
  rc_base_wrapper : Z;
  rc_cutoff_wrapper : Z;
  rc_delta : Z;
  rc_accumulator : Z;
  rc_formula : Z;
}.

Definition reconstruct (genesis_atto pre_staking_rewards_atto base_accumulator_atto
    base_wrapper_rewards_atto cutoff_wrapper_rewards_atto : Z) : result reconstruction :=
  let wrapper_delta := cutoff_wrapper_rewards_atto - base_wrapper_rewards_atto in
  raise_when (wrapper_delta <? 0) (ValueError "cutoff wrapper rewards are below the base checkpoint");;
  let reconstructed_accumulator := base_accumulator_atto + wrapper_delta in
  let formula_before_exclusions := genesis_atto + pre_staking_rewards_atto + reconstructed_accumulator in
  Ok (Reconstruction genesis_atto pre_staking_rewards_atto base_accumulator_atto base_wrapper_rewards_atto
        cutoff_wrapper_rewards_atto wrapper_delta reconstructed_accumulator formula_before_exclusions).

Definition source_json (path digest : string) : json := JObj [("path", JStr path); ("sha256", JStr digest)].

Definition reconstruction_json (r : reconstruction) (base_accumulator base_supply cutoff_supply : string * string) :
    json :=
  JObj [("genesis_atto", atto_text (rc_genesis r));
        ("pre_staking_rewards_atto", atto_text (rc_pre_staking r));
        ("base_accumulator_atto", atto_text (rc_base_accumulator r));
        ("base_wrapper_rewards_atto", atto_text (rc_base_wrapper r));
        ("cutoff_wrapper_rewards_atto", atto_text (rc_cutoff_wrapper r));
        ("wrapper_reward_delta_atto", atto_text (rc_delta r));
        ("reconstructed_accumulator_atto", atto_text (rc_accumulator r));
        ("formula_before_exclusions_atto", atto_text (rc_formula r));
        ("schema_version", JInt 1);
        ("method", JStr "base node-local accumulator plus the state-derived increase in validator lifetime BlockReward");
        ("sources", JObj [("base_accumulator", source_json base_accumulator.1 base_accumulator.2);
                          ("base_supply", source_json base_supply.1 base_supply.2);
                          ("cutoff_supply", source_json cutoff_supply.1 cutoff_supply.2)])].

Record reconstruct_args := ReconstructArgs {
  ra_base_accumulator : string;
  ra_base_supply : string;
  ra_cutoff_supply : string;
  ra_output : option string;
  ra_genesis : Z;
  ra_pre_staking : Z;
}.

Definition reconstruct_main (args : reconstruct_args) : IO json :=
  base ← load_integer (ra_base_accumulator args) "reward_atto";
  base_wrapper ← load_integer (ra_base_supply args) "validator_lifetime_block_reward_atto";
  cutoff_wrapper ← load_integer (ra_cutoff_supply args) "validator_lifetime_block_reward_atto";
  result ← lift (reconstruct (ra_genesis args) (ra_pre_staking args) base base_wrapper cutoff_wrapper);
  h1 ← file_sha256 (ra_base_accumulator args);
  h2 ← file_sha256 (ra_base_supply args);
  h3 ← file_sha256 (ra_cutoff_supply args);
  let value := reconstruction_json result (ra_base_accumulator args, h1) (ra_base_supply args, h2)
                 (ra_cutoff_supply args, h3) in
  write_json (output_path (ra_output args)) value ≫= λ _,
  mret value.

(** ** Lemmas *)
Lemma reads_only_resolve v base : reads_only (resolve v base).
Proof. destruct v; simpl; try done; repeat (apply reads_only_bind; [auto with py|intros ?]); done. Qed.

Lemma reads_only_load_json p : reads_only (load_json p).
Proof. apply reads_only_bind; auto with py. Qed.

Lemma reads_only_resolve_all ms base : reads_only (resolve_all ms base).
Proof.
  induction ms as [|[n v] ms IH]; simpl; [done|].
  apply reads_only_bind; [apply reads_only_resolve|intros ?]. apply reads_only_bind; [done|]. done.
Qed.

Lemma reads_only_step fb base s point : reads_only (closure_step fb base s point).
Proof.
  destruct s as [results prev]. unfold closure_step.
  repeat (apply reads_only_bind; [auto using reads_only_resolve, reads_only_resolve_all with py|intros ?]). done.
Qed.

Lemma reads_only_calculate configuration base : reads_only (calculate configuration base).
Proof.
  unfold calculate. repeat (apply reads_only_bind; [auto using reads_only_resolve, reads_only_step with py|intros ?]).
  match goal with |- context [match ?x with _ => _ end] => by destruct x end.
Qed.

Lemma unexpected_Ok bad point e u : unexpected bad point e = Ok u → bad = false.
Proof. destruct bad; [|done]. unfold unexpected. by destruct (jget "name" point). Qed.

(** What the checks of one checkpoint establish. *)
Record closes (fb : Z) (prev : option Z) (point : json) (c : checkpoint) : Prop := {
  co_formula : cp_formula c = fb + cp_accumulator c;
  co_residual : cp_residual c = cp_shard0 c + cp_shard1 c - (fb + cp_accumulator c) - sum_by snd (cp_adjustments c);
  co_change : cp_change c = (λ p, cp_residual c - p) <$> prev;
  co_expected_residual : ∀ e, jin "expected_residual_atto" point = Ok true →
    jget_int "expected_residual_atto" point = Ok e → cp_residual c = e;
  co_expected_change : ∀ e, jin "expected_change_atto" point = Ok true →
    jget_int "expected_change_atto" point = Ok e → cp_change c = Some e;
}.

Lemma close_point_Ok fb s0 s1 acc adj prev point c :
  close_point fb s0 s1 acc adj prev point = Ok c → closes fb prev point c.
Proof.
  unfold close_point. intros H. inv_ok H. apply unexpected_Ok in E0, E2. subst.
  assert (Hexp : ∀ field actual, expectation_fails point field actual = Ok false →
    ∀ e, jin field point = Ok true → jget_int field point = Ok e → actual = Some e).
  { intros field actual Hf e Hin He. unfold expectation_fails in Hf. rewrite Hin in Hf. simpl in Hf.
    rewrite He in Hf. simpl in Hf. injection Hf as Hf. by bool_facts. }
  split; simpl; try done.
  - intros e ? ?. assert (Hs : Some (s0 + s1 - (fb + acc) - zsum (snd <$> adj)) = Some e) by eauto.
    by injection Hs.
  - eauto.
Qed.

(** The checkpoints of a run, each closed against the one before. *)
Inductive chain (fb : Z) : option Z → list json → list checkpoint → Prop :=
  | chain_nil prev : chain fb prev [] []
  | chain_cons prev point points c cs :
      closes fb prev point c → chain fb (Some (cp_residual c)) points cs →
      chain fb prev (point :: points) (c :: cs).

Lemma closure_loop_Ok fb base points results prev w cs r w' :
  fold_io (closure_step fb base) (results, prev) points w = (Ok (cs, r), w') →
  ∃ new, cs = results ++ new ∧ chain fb prev points new.
Proof.
  revert results prev w. induction points as [|point points IH]; intros results prev w H; simpl in H.
  - apply mret_Ok in H as [_ [= <- <-]]. exists []. rewrite app_nil_r. split; [done|constructor].
  - apply io_bind_Ok in H as ([results1 prev1] & w1 & H1 & H). unfold closure_step in H1. inv_io H1.
    simplify_eq. destruct (IH _ _ _ H) as (new & -> & Hc).
    match goal with Hc1 : close_point _ _ _ _ _ _ _ = Ok ?c |- _ => exists (c :: new); apply close_point_Ok in Hc1 end.
    split; [by rewrite <-app_assoc|]. by constructor.
Qed.

(** The changes after the first checkpoint telescope. *)
Lemma chain_telescopes fb r points cs :
  chain fb (Some r) points cs →
  default r (cp_residual <$> last cs) = r + sum_by (λ c, default 0 (cp_change c)) cs.
Proof.
  intros H. remember (Some r) as prev eqn:Hp. revert r Hp.
  induction H as [prev|prev point points c cs Hc Hch IH]; intros r ->; [simpl; rewrite sum_by_nil; lia|].
  rewrite sum_by_cons, (co_change _ _ _ _ Hc). simpl. specialize (IH _ eq_refl).
  destruct cs as [|c' cs]; [rewrite sum_by_nil in *; simpl in *; lia|].
  rewrite last_cons_cons. destruct (last (c' :: cs)) as [d|] eqn:E; [simpl in *; lia|].
  by apply last_None in E.
Qed.

Lemma chain_length fb prev points cs : chain fb prev points cs → length points = length cs.
Proof. induction 1; simpl; congruence. Qed.

Lemma chain_lookup fb prev points cs :
  chain fb prev points cs →
  ∀ i point c, points !! i = Some point → cs !! i = Some c → ∃ prev', closes fb prev' point c.
Proof.
  induction 1 as [prev|prev point points c cs Hc Hch IH]; intros i point' c' Hp Hc'; [done|].
  destruct i as [|i]; simpl in *; [simplify_eq; eauto|by apply (IH i)].
Qed.

Lemma chain_changes fb prev points cs :
  chain fb prev points cs →
  ∀ i a b, cs !! i = Some a → cs !! S i = Some b →
  cp_change b = Some (cp_residual b - cp_residual a).
Proof.
  induction 1 as [prev|prev point points c cs Hc Hch IH]; intros i a b Ha Hb; [done|].
  destruct i as [|i]; simpl in *.
  - injection Ha as <-. inversion Hch as [|? ? ? c2 cs2 Hc2 _]; subst; [done|]. injection Hb as <-.
    by rewrite (co_change _ _ _ _ Hc2).
  - by apply (IH i).
Qed.

Lemma calculate_Ok configuration base w c w' :
  calculate configuration base w = (Ok c, w') →
  w' = w ∧ ∃ ps points, jget "checkpoints" configuration = Ok ps ∧ jiter ps = Ok points ∧
    chain (cl_genesis c + cl_pre_staking c) None points (cl_checkpoints c).
Proof.
  intros H. apply reads_only_world in H as Hw; [|apply reads_only_calculate]. split; [done|].
  unfold calculate in H. inv_io H.
  match type of H with context [match ?x with _ => _ end] => destruct x as [results r] end.
  apply mret_Ok in H as [_ <-].
  match goal with Hf : fold_io _ _ _ _ = _ |- _ => apply closure_loop_Ok in Hf as (new & -> & Hc) end.
  simpl. eauto 6.
Qed.

(** ** Theorems *)

(** Every checkpoint's residual is the recorded state of both shards less
    genesis, pre-staking rewards, its accumulator and its named adjustments, and every
    expectation of the configuration that is present holds of the computed values: one that
    does not hold stops the run. *)
Theorem closure_residuals configuration base w c w' :
  calculate configuration base w = (Ok c, w') →
  ∃ ps points, jget "checkpoints" configuration = Ok ps ∧ jiter ps = Ok points ∧
  length points = length (cl_checkpoints c) ∧
  ∀ i point cp, points !! i = Some point → cl_checkpoints c !! i = Some cp →
    cp_residual cp = cp_shard0 cp + cp_shard1 cp - cl_genesis c - cl_pre_staking c - cp_accumulator cp
                     - sum_by snd (cp_adjustments cp) ∧
    (∀ e, jin "expected_residual_atto" point = Ok true → jget_int "expected_residual_atto" point = Ok e →
       cp_residual cp = e) ∧
    (∀ e, jin "expected_change_atto" point = Ok true → jget_int "expected_change_atto" point = Ok e →
       cp_change cp = Some e).
Proof.
  intros (_ & ps & points & Hps & Hpts & Hc)%calculate_Ok. exists ps, points.
  split_and!; [done..|by eapply chain_length|]. intros i point cp Hp Hcp.
  destruct (chain_lookup _ _ _ _ Hc i point cp Hp Hcp) as (prev & []). split_and!; [lia|done..].
Qed.

(** The reported changes are the differences of neighbouring residuals, the
    first checkpoint has none, and they telescope: the last residual is the first plus the sum
    of the changes.  Genesis and pre-staking rewards cancel from every change. *)
Theorem closure_changes configuration base w c w' :
  calculate configuration base w = (Ok c, w') →
  (∀ cp, head (cl_checkpoints c) = Some cp → cp_change cp = None) ∧
  (∀ i a b, cl_checkpoints c !! i = Some a → cl_checkpoints c !! S i = Some b →
     cp_change b = Some ((cp_state b - cp_state a) - (cp_accumulator b - cp_accumulator a)
                         - (sum_by snd (cp_adjustments b) - sum_by snd (cp_adjustments a)))) ∧
  (∀ first rest final, cl_checkpoints c = first :: rest → last (cl_checkpoints c) = Some final →
     cp_residual final = cp_residual first + sum_by (λ cp, default 0 (cp_change cp)) rest).
Proof.
  intros H. destruct (calculate_Ok _ _ _ _ _ H) as (_ & ps & points & _ & _ & Hc).
  assert (Hres : ∀ i cp, cl_checkpoints c !! i = Some cp →
    cp_residual cp = cp_state cp - (cl_genesis c + cl_pre_staking c + cp_accumulator cp) - sum_by snd (cp_adjustments cp)).
  { intros i cp Hi. destruct (lookup_lt_is_Some_2 points i) as [pt Hpt].
    { rewrite (chain_length _ _ _ _ Hc). by apply lookup_lt_Some in Hi. }
    destruct (chain_lookup _ _ _ _ Hc i pt cp Hpt Hi) as (prev & []). unfold cp_state. lia. }
  split_and!.
  - intros cp Hh. destruct (cl_checkpoints c) as [|c0 cs0]; [done|]. injection Hh as <-.
    inversion Hc as [|? ? ? ? ? Hc0 _]; subst. by rewrite (co_change _ _ _ _ Hc0).
  - intros i a b Ha Hb. rewrite (chain_changes _ _ _ _ Hc i a b Ha Hb). f_equal.
    rewrite (Hres _ _ Ha), (Hres _ _ Hb). lia.
  - intros first rest final Hl Hf. rewrite Hl in Hc, Hf. inversion Hc as [|? ? ? ? ? _ Hch]; subst.
    apply chain_telescopes in Hch. destruct rest as [|d rest].
    + injection Hf as <-. rewrite sum_by_nil. lia.
    + rewrite last_cons_cons in Hf. by rewrite Hf in Hch.
Qed.

(** The reconstructed formula is genesis plus pre-staking rewards plus the base
    accumulator plus the increase in lifetime rewards read from the three files; it never falls
    below the formula at the base checkpoint, and a decrease of the rewards stops the script
    before it has written anything. *)
Theorem reconstruct_formula args w j w' :
  reconstruct_main args w = (Ok j, w') →
  ∃ base bw cw,
    load_integer (ra_base_accumulator args) "reward_atto" w = (Ok base, w) ∧
    load_integer (ra_base_supply args) "validator_lifetime_block_reward_atto" w = (Ok bw, w) ∧
    load_integer (ra_cutoff_supply args) "validator_lifetime_block_reward_atto" w = (Ok cw, w) ∧
    bw ≤ cw ∧
    jget_int "reconstructed_accumulator_atto" j = Ok (base + (cw - bw)) ∧
    jget_int "formula_before_exclusions_atto" j =
      Ok (ra_genesis args + ra_pre_staking args + base + (cw - bw)) ∧
    match output_path (ra_output args) with
    | Some p => files w' = <[p := dumps j +:+ newline]> (files w)
    | None => w' = w
    end.
Proof.
  intros H. assert (Hr : ∀ p f, reads_only (load_integer p f)).
  { intros p f. unfold load_integer. repeat (apply reads_only_bind; [auto using reads_only_load_json with py|intros ?]). done. }
  assert (Hs : ∀ p, reads_only (file_sha256 p)) by (intros; apply reads_only_file_sha256_at).
  unfold reconstruct_main in H.
  apply io_bind_Ok in H as (base & w1 & H1 & H). apply reads_only_world in H1 as Hw; [subst w1|done].
  apply io_bind_Ok in H as (bw & w1 & H2 & H). apply reads_only_world in H2 as Hw; [subst w1|done].
  apply io_bind_Ok in H as (cw & w1 & H3 & H). apply reads_only_world in H3 as Hw; [subst w1|done].
  apply io_bind_Ok in H as (rc & w1 & H4 & H). apply lift_Ok in H4 as [-> H4].
  apply io_bind_Ok in H as (h1 & w1 & H5 & H). apply reads_only_world in H5 as Hw; [subst w1|done].
  apply io_bind_Ok in H as (h2 & w1 & H6 & H). apply reads_only_world in H6 as Hw; [subst w1|done].
  apply io_bind_Ok in H as (h3 & w1 & H7 & H). apply reads_only_world in H7 as Hw; [subst w1|done].
  apply io_bind_Ok in H as ([] & w1 & H8 & H). apply mret_Ok in H as [-> <-].
  exists base, bw, cw. unfold reconstruct in H4. inv_ok H4. bool_facts. subst rc.
  split_and!; try done; try lia.
  - unfold jget_int. simpl. by rewrite int_str_of_Z.
  - unfold jget_int. simpl. rewrite int_str_of_Z. f_equal. lia.
  - unfold write_json in H8. destruct (output_path (ra_output args)) as [p|].
    + apply publish_over_Ok in H8 as [_ ->]. unfold concat_texts. simpl foldr. by rewrite str_app_nil_r.
    + by injection H8.
Qed.

(** ** Witnesses *)
Definition ex_point (name : string) (s0 s1 acc : Z) (extra : list (string * json)) : json :=
  JObj ([("name", JStr name); ("shard0_claims_atto", JInt s0); ("shard1_claims_atto", JStr (str_of_Z s1));
         ("block_reward_accumulator_atto",
           JObj [("path", JStr "counter.json"); ("field", JStr "rewards.total")]);
         ("adjustments_atto", JObj [("leak", JInt acc)])] ++ extra).

Definition ex_configuration : json :=
  JObj [("genesis_atto", JInt 100); ("pre_staking_rewards_atto", JStr "20");
        ("checkpoints", JArr [ex_point "a" 90 40 1 [("expected_residual_atto", JInt (-1))];
                              ex_point "b" 95 45 4 [("expected_change_atto", JStr "7")]])].

Definition ex_world : world := World (list_to_map
  [("audit/closure.json", dumps ex_configuration);
   ("audit/counter.json", dumps (JObj [("rewards", JObj [("total", JStr "10")])]));
   ("acc.json", dumps (JObj [("reward_atto", JInt 50)])); ("s1.json", dumps (JObj [("validator_lifetime_block_reward_atto", JStr "7")]));
   ("s2.json", dumps (JObj [("validator_lifetime_block_reward_atto", JInt 12)]))]) None.

Definition no_closure : closure := Closure 0 0 [].
Definition ex_closure : closure := get no_closure (calculate ex_configuration "audit" ex_world).1.

Example ex_residuals : cp_residual <$> cl_checkpoints ex_closure = [-1; 6].
Proof. by vm_compute. Qed.

Example ex_unexpected :
  (calculate (JObj [("genesis_atto", JInt 100); ("pre_staking_rewards_atto", JStr "20");
     ("checkpoints", JArr [ex_point "a" 90 40 1 [("expected_change_atto", JInt 0)]])]) "audit" ex_world).1 =
  Err (ValueError "change != expected").
Proof. by vm_compute. Qed.

Lemma ex_calculate : calculate ex_configuration "audit" ex_world =
  (Ok ex_closure, (calculate ex_configuration "audit" ex_world).2).
Proof. apply run_Ok, get_Ok. by vm_compute. Qed.

Lemma closure_residuals_witness : ∃ ps points,
  jget "checkpoints" ex_configuration = Ok ps ∧ jiter ps = Ok points ∧ length points = 2%nat.
Proof.
  destruct (closure_residuals _ _ _ _ _ ex_calculate) as (ps & points & Hps & Hpts & Hl & _).
  exists ps, points. split_and!; [exact Hps|exact Hpts|]. rewrite Hl. by vm_compute.
Defined.

Definition no_checkpoint : checkpoint := Checkpoint JNull JNull 0 0 0 [] 0 0 None.
Definition ex_last : checkpoint := default no_checkpoint (last (cl_checkpoints ex_closure)).

Lemma closure_changes_witness : cp_residual ex_last = -1 + 7.
Proof.
  destruct (closure_changes _ _ _ _ _ ex_calculate) as (_ & _ & H).
  specialize (H (default no_checkpoint (head (cl_checkpoints ex_closure)))
    (tail (cl_checkpoints ex_closure)) ex_last).
  rewrite H; by vm_compute.
Defined.

Definition ex_args : reconstruct_args := ReconstructArgs "acc.json" "s1.json" "s2.json" (Some "out.json") 100 20.

Definition ex_reconstruction : json := get JNull (reconstruct_main ex_args ex_world).1.

Lemma ex_reconstruct : reconstruct_main ex_args ex_world =
  (Ok ex_reconstruction, (reconstruct_main ex_args ex_world).2).
Proof. apply run_Ok, get_Ok. by vm_compute. Qed.

Lemma reconstruct_formula_witness : ∃ base bw cw, bw ≤ cw ∧
  jget_int "formula_before_exclusions_atto" ex_reconstruction = Ok (100 + 20 + base + (cw - bw)).
Proof.
  destruct (reconstruct_formula _ _ _ _ ex_reconstruct) as (base & bw & cw & _ & _ & _ & Hle & _ & Hf & _).
  exists base, bw, cw. exact (conj Hle Hf).
Defined.
