(* ===== verification/Shard1.v ===== *)
(** * The historical shard-1 balance

    toolkit/scripts/forensics/historical-shard1-balance.py: the shard-1 balance at a checkpoint,
    from the balance measured at the cutoff, less the cross-shard credits that arrived after the
    checkpoint, plus the valid debits that left after it.

    [derive_historical] is the script up to its result, [main] adds the report.  The debits file
    is the output of the source audit (SourceAudit.v). *)
From S2P Require Import Prelude PyStr PyData Files Csv.

Record args := Args {
  a_cutoff_balance : Z;
  a_checkpoint_block : Z;
  a_cutoff_block : Z;
  a_credits : string;
  a_debits : string;
  a_expected : option Z;
  a_output : option string;
}.

Definition integer : row → list string → result Z := row_integer.

Definition amount_columns : list string := ["amount_atto"; "value_atto"].

(** [checkpoint_block < block <= cutoff_block] *)
Definition in_window (checkpoint_block cutoff_block block : Z) : bool :=
  (checkpoint_block <? block) && (block <=? cutoff_block).

(** The body of the loop of [sum_later_credits] on [(count, amount)]. *)
Definition credit_step (checkpoint_block cutoff_block : Z) (s : Z * Z) (r : row) : result (Z * Z) :=
  let '(count, amount) := s in
  if bool_decide (cell_get r "destination_status" = Some "not_found") then Ok s
  else
    destination_shard ← integer r ["destination_shard"; "to_shard"];
    if negb (destination_shard =? 1) then Ok s
    else
      destination_block ← integer r ["destination_block"];
      if in_window checkpoint_block cutoff_block destination_block then
        a ← integer r amount_columns;
        Ok (count + 1, amount + a)
      else Ok s.

Definition sum_later_credits (path : string) (checkpoint_block cutoff_block : Z) : IO (Z * Z) :=
  text ← read path;
  lift (foldM (credit_step checkpoint_block cutoff_block) (0, 0) (dict_rows text)).

(** The body of the loop of [sum_later_valid_debits]. *)
Definition debit_step (checkpoint_block cutoff_block : Z) (s : Z * Z) (r : row) : result (Z * Z) :=
  let '(count, amount) := s in
  source_shard ← integer r ["audit_source_shard"; "signed_source_shard"; "source_shard"];
  if negb (source_shard =? 1) || negb (bool_decide (cell_get r "classification" = Some "valid_source_debit"))
  then Ok s
  else
    source_block ← integer r ["audit_source_block"; "signed_source_block"; "source_block"];
    if in_window checkpoint_block cutoff_block source_block then
      a ← integer r amount_columns;
      Ok (count + 1, amount + a)
    else Ok s.

Definition sum_later_valid_debits (path : string) (checkpoint_block cutoff_block : Z) : IO (Z * Z) :=
  text ← read path;
  lift (foldM (debit_step checkpoint_block cutoff_block) (0, 0) (dict_rows text)).

Definition derive (cutoff_balance credits debits : Z) : result Z :=
  let result := cutoff_balance - credits + debits in
  raise_when (result <? 0) (ValueError "derived historical balance is negative");;
  Ok result.

Record derivation := Derivation {
  d_credit_count : Z;
  d_credits : Z;
  d_debit_count : Z;
  d_debits : Z;
  d_historical : Z;
}.

(** [main] up to the result. *)
Definition derive_historical (a : args) : IO derivation :=
  lift (raise_when (a_cutoff_block a <=? a_checkpoint_block a)
          (ValueError "checkpoint block must be below cutoff block")) ≫= λ _,
  '(credit_count, credits) ← sum_later_credits (a_credits a) (a_checkpoint_block a) (a_cutoff_block a);
  '(debit_count, debits) ← sum_later_valid_debits (a_debits a) (a_checkpoint_block a) (a_cutoff_block a);
  historical ← lift (derive (a_cutoff_balance a) credits debits);
  lift (raise_when (match a_expected a with Some e => negb (historical =? e) | None => false end)
          (ValueError "derived balance != expected")) ≫= λ _,
  mret (Derivation credit_count credits debit_count debits historical).

Definition derivation_json (a : args) (d : derivation) : json :=
  JObj [("schema_version", JInt 1);
        ("checkpoint_block", JInt (a_checkpoint_block a));
        ("cutoff_block", JInt (a_cutoff_block a));
        ("cutoff_balance_atto", JStr (str_of_Z (a_cutoff_balance a)));
        ("later_shard0_to_shard1_credit_count", JInt (d_credit_count d));
        ("later_shard0_to_shard1_credits_atto", JStr (str_of_Z (d_credits d)));
        ("later_valid_shard1_to_shard0_debit_count", JInt (d_debit_count d));
        ("later_valid_shard1_to_shard0_debits_atto", JStr (str_of_Z (d_debits d)));
        ("derived_historical_balance_atto", JStr (str_of_Z (d_historical d)));
        ("formula", JStr "cutoff balance - later shard0-to-shard1 credits + later valid shard1-to-shard0 debits");
        ("classification_limit", JStr "the debit adjustment depends on the source-audit valid_source_debit classification");
        ("inputs", JObj [("credits", JStr (a_credits a)); ("debits", JStr (a_debits a))])].

Definition write_json (path : option string) (value : json) : IO unit :=
  match path with
  | None => mret tt
  | Some p => publish_over p [dumps value +:+ newline]
  end.

Definition main (a : args) : IO derivation :=
  d ← derive_historical a;
  write_json (output_path (a_output a)) (derivation_json a d) ≫= λ _,
  mret d.

(** ** What the sums are meant to be *)

(** A row read without a window: the block and the amount of a row that counts, as a credit to
    shard 1 or as a debit from it that the source audit found valid. *)
Abbreviation movement := (Z * result Z)%type.

Definition credit_of (r : row) : result (option movement) :=
  if bool_decide (cell_get r "destination_status" = Some "not_found") then Ok None
  else
    shard ← integer r ["destination_shard"; "to_shard"];
    if shard =? 1 then
      b ← integer r ["destination_block"]; Ok (Some (b, integer r amount_columns))
    else Ok None.

Definition debit_of (r : row) : result (option movement) :=
  shard ← integer r ["audit_source_shard"; "signed_source_shard"; "source_shard"];
  if (shard =? 1) && bool_decide (cell_get r "classification" = Some "valid_source_debit") then
    b ← integer r ["audit_source_block"; "signed_source_block"; "source_block"];
    Ok (Some (b, integer r amount_columns))
  else Ok None.

(** The amounts of the movements in a window, and their sum. *)
Definition amounts_in (lo hi : Z) (l : list (option movement)) : list (result Z) :=
  snd <$> filter (λ m, in_window lo hi m.1 = true) (omap id l).

Definition window_count (lo hi : Z) (l : list (option movement)) : Z :=
  Z.of_nat (length (amounts_in lo hi l)).

Definition window_sum (lo hi : Z) (l : list (option movement)) : Z :=
  sum_by (get 0) (amounts_in lo hi l).

(** ** Lemmas *)
Lemma amounts_in_cons lo hi m l :
  amounts_in lo hi (m :: l) =
  match m with
  | Some (b, x) => if in_window lo hi b then x :: amounts_in lo hi l else amounts_in lo hi l
  | None => amounts_in lo hi l
  end.
Proof.
  unfold amounts_in. destruct m as [[b x]|]; simpl; [|done]. rewrite filter_cons. simpl.
  destruct (in_window lo hi b); [by rewrite decide_True|by rewrite decide_False].
Qed.

Section windowed.
Context (step : Z → Z → Z * Z → row → result (Z * Z)) (movement_of : row → result (option movement)).
Context (step_spec : ∀ lo hi n a r, step lo hi (n, a) r =
  (m ← movement_of r;
   match m with
   | Some (b, amount) => if in_window lo hi b then x ← amount; Ok (n + 1, a + x) else Ok (n, a)
   | None => Ok (n, a)
   end)).

(** The loop's result, and when it has one. *)
Lemma windowed_loop lo hi rows n a n' a' :
  foldM (step lo hi) (n, a) rows = Ok (n', a') ↔
  ∃ l, mapR movement_of rows = Ok l ∧ Forall (λ x, is_ok x = true) (amounts_in lo hi l) ∧
    n' = n + window_count lo hi l ∧ a' = a + window_sum lo hi l.
Proof.
  unfold window_count, window_sum. revert n a. induction rows as [|r rows IH]; intros n a.
  { simpl. split.
    - intros [= <- <-]. exists []. split_and!; [done|by apply Forall_nil_2|simpl; lia|].
      unfold amounts_in. simpl. rewrite sum_by_nil. lia.
    - intros (l & [= <-] & _ & -> & ->). unfold amounts_in. simpl. rewrite sum_by_nil. do 2 f_equal; lia. }
  setoid_rewrite mapR_cons_Ok. cbn [foldM]. rewrite step_spec. split.
  - intros H. destruct (movement_of r) as [m|e]; [|done].
    assert (∃ n1 a1, foldM (step lo hi) (n1, a1) rows = Ok (n', a') ∧ match m with
      | Some (b, x) => if in_window lo hi b then is_ok x = true ∧ n1 = n + 1 ∧ a1 = a + get 0 x
                       else n1 = n ∧ a1 = a
      | None => n1 = n ∧ a1 = a end) as (n1 & a1 & Hf & Hm).
    { destruct m as [[b [x|e]]|]; simpl in *; try destruct (in_window lo hi b); try done;
        eexists _, _; (split; [exact H|done]). }
    apply IH in Hf as (l & Hl & Hok & -> & ->). exists (m :: l). rewrite amounts_in_cons.
    destruct m as [[b x]|]; [destruct (in_window lo hi b)|]; rewrite ?sum_by_cons; simpl;
      split_and!; eauto; try (constructor; tauto); lia.
  - intros (l & (m & ms & -> & -> & Hl) & Hok & -> & ->). rewrite amounts_in_cons in *.
    destruct m as [[b x]|]; simpl; [destruct (in_window lo hi b)|].
    + apply Forall_cons in Hok as [Hx Hok]. destruct x as [x|]; [|done]. simpl. apply IH. exists ms.
      rewrite sum_by_cons. simpl. split_and!; [done..|lia|lia].
    + apply IH. by exists ms.
    + apply IH. by exists ms.
Qed.
End windowed.

Lemma credit_step_spec lo hi n a r :
  credit_step lo hi (n, a) r =
  (m ← credit_of r;
   match m with
   | Some (b, amount) => if in_window lo hi b then x ← amount; Ok (n + 1, a + x) else Ok (n, a)
   | None => Ok (n, a)
   end).
Proof.
  unfold credit_step, credit_of. case_bool_decide; [done|].
  destruct (integer r ["destination_shard"; "to_shard"]) as [s|]; simpl; [|done].
  destruct (s =? 1); simpl; [|done]. by destruct (integer r ["destination_block"]).
Qed.

Lemma debit_step_spec lo hi n a r :
  debit_step lo hi (n, a) r =
  (m ← debit_of r;
   match m with
   | Some (b, amount) => if in_window lo hi b then x ← amount; Ok (n + 1, a + x) else Ok (n, a)
   | None => Ok (n, a)
   end).
Proof.
  unfold debit_step, debit_of.
  destruct (integer r ["audit_source_shard"; "signed_source_shard"; "source_shard"]) as [s|]; simpl; [|done].
  rewrite <-negb_andb. destruct ((s =? 1) && _); simpl; [|done].
  by destruct (integer r ["audit_source_block"; "signed_source_block"; "source_block"]).
Qed.

(** Two windows that meet make one. *)
Lemma in_window_split lo mid hi b :
  lo ≤ mid ≤ hi → in_window lo hi b = in_window lo mid b || in_window mid hi b.
Proof. unfold in_window. intros. destruct (Z.ltb_spec lo b), (Z.leb_spec b hi), (Z.leb_spec b mid), (Z.ltb_spec mid b); simpl; lia. Qed.

Lemma in_window_disjoint lo mid hi b : in_window lo mid b = true → in_window mid hi b = false.
Proof. unfold in_window. intros H. bool_facts. apply andb_false_iff. left. apply Z.ltb_ge. lia. Qed.

Lemma amounts_in_split lo mid hi l :
  lo ≤ mid ≤ hi → amounts_in lo hi l ≡ₚ amounts_in lo mid l ++ amounts_in mid hi l.
Proof.
  intros Hm. induction l as [|[[b x]|] l IH]; [done| |by rewrite !amounts_in_cons, IH].
  rewrite !amounts_in_cons, (in_window_split _ _ _ b Hm).
  destruct (in_window lo mid b) eqn:E; simpl; [rewrite (in_window_disjoint _ _ _ _ E); by rewrite IH|].
  destruct (in_window mid hi b); [|done]. by rewrite IH, Permutation_middle.
Qed.

Lemma window_count_split lo mid hi l :
  lo ≤ mid ≤ hi → window_count lo hi l = window_count lo mid l + window_count mid hi l.
Proof. intros Hm. unfold window_count. rewrite (amounts_in_split _ _ _ l Hm), length_app. lia. Qed.

Lemma window_sum_split lo mid hi l :
  lo ≤ mid ≤ hi → window_sum lo hi l = window_sum lo mid l + window_sum mid hi l.
Proof.
  intros Hm. unfold window_sum. by rewrite (sum_by_Permutation _ _ _ (amounts_in_split _ _ _ l Hm)), sum_by_app.
Qed.

(** The movements of a table, all of whose amounts in the window can be read. *)
Definition table_movements (movement_of : row → result (option movement)) (path : string) (lo hi : Z) (w : world)
    (l : list (option movement)) : Prop :=
  ∃ t, files w !! path = Some t ∧ mapR movement_of (dict_rows t) = Ok l ∧
    Forall (λ x, is_ok x = true) (amounts_in lo hi l).

Lemma read_loop_iff step movement_of path lo hi n c w w' :
  (∀ rows n' a', foldM (step lo hi) (0, 0) rows = Ok (n', a') ↔
     ∃ l, mapR movement_of rows = Ok l ∧ Forall (λ x, is_ok x = true) (amounts_in lo hi l) ∧
       n' = 0 + window_count lo hi l ∧ a' = 0 + window_sum lo hi l) →
  (text ← read path; lift (foldM (step lo hi) (0, 0) (dict_rows text))) w = (Ok (n, c), w') ↔
  w' = w ∧ ∃ l, table_movements movement_of path lo hi w l ∧ n = window_count lo hi l ∧ c = window_sum lo hi l.
Proof.
  intros Hloop. split.
  - intros H. inv_io H. match goal with Hf : foldM _ _ _ = _ |- _ => apply Hloop in Hf as (l & Hl & Hok & -> & ->) end.
    split; [done|]. exists l. split; [by eexists|by rewrite !Z.add_0_l].
  - intros (-> & l & (t & Ht & Hl & Hok) & -> & ->). unfold mbind, io_bind, read, lift. rewrite Ht. simpl.
    f_equal. apply Hloop. by exists l.
Qed.

Lemma sum_later_credits_iff path lo hi n c w w' :
  sum_later_credits path lo hi w = (Ok (n, c), w') ↔
  w' = w ∧ ∃ l, table_movements credit_of path lo hi w l ∧ n = window_count lo hi l ∧ c = window_sum lo hi l.
Proof. apply read_loop_iff. intros. apply windowed_loop, credit_step_spec. Qed.

Lemma sum_later_valid_debits_iff path lo hi n c w w' :
  sum_later_valid_debits path lo hi w = (Ok (n, c), w') ↔
  w' = w ∧ ∃ l, table_movements debit_of path lo hi w l ∧ n = window_count lo hi l ∧ c = window_sum lo hi l.
Proof. apply read_loop_iff. intros. apply windowed_loop, debit_step_spec. Qed.

(** A derivation that returned: what it read and what it computed. *)
Record derives (a : args) (w : world) (d : derivation) (credits debits : list (option movement)) : Prop := {
  dv_window : a_checkpoint_block a < a_cutoff_block a;
  dv_credits : table_movements credit_of (a_credits a) (a_checkpoint_block a) (a_cutoff_block a) w credits;
  dv_debits : table_movements debit_of (a_debits a) (a_checkpoint_block a) (a_cutoff_block a) w debits;
  dv_sums : d = Derivation (window_count (a_checkpoint_block a) (a_cutoff_block a) credits)
                           (window_sum (a_checkpoint_block a) (a_cutoff_block a) credits)
                           (window_count (a_checkpoint_block a) (a_cutoff_block a) debits)
                           (window_sum (a_checkpoint_block a) (a_cutoff_block a) debits) (d_historical d);
  dv_balance : d_historical d = a_cutoff_balance a - d_credits d + d_debits d;
  dv_nonneg : 0 ≤ d_historical d;
  dv_expected : ∀ e, a_expected a = Some e → d_historical d = e;
}.

(** The script's result is exactly the one described. *)
Lemma derive_historical_iff a w d w' :
  derive_historical a w = (Ok d, w') ↔ w' = w ∧ ∃ credits debits, derives a w d credits debits.
Proof.
  destruct a as [bal lo hi cp dp ex out]. split.
  - intros H. unfold derive_historical in H. simpl in H.
    apply io_bind_Ok in H as ([] & w1 & [-> Hw%raise_when_Ok]%lift_Ok & H).
    apply io_bind_Ok in H as ([n c] & w1 & (-> & cs & Hc & -> & ->)%sum_later_credits_iff & H).
    apply io_bind_Ok in H as ([m e] & w1 & (-> & ds & Hd & -> & ->)%sum_later_valid_debits_iff & H).
    apply io_bind_Ok in H as (h & w1 & [-> Hh]%lift_Ok & H). unfold derive in Hh. inv_ok Hh.
    apply io_bind_Ok in H as ([] & w1 & [-> He%raise_when_Ok]%lift_Ok & H). apply mret_Ok in H as [-> <-].
    bool_facts. split; [done|]. exists cs, ds. split; simpl; try done; try lia.
    intros x ->. by bool_facts.
  - intros (-> & cs & ds & [Hw Hc Hd Hs Hb Hn He]). simpl in *. unfold derive_historical. simpl.
    assert (E1 : sum_later_credits cp lo hi w = (Ok (window_count lo hi cs, window_sum lo hi cs), w))
      by (apply sum_later_credits_iff; eauto).
    assert (E2 : sum_later_valid_debits dp lo hi w = (Ok (window_count lo hi ds, window_sum lo hi ds), w))
      by (apply sum_later_valid_debits_iff; eauto).
    unfold mbind, io_bind, lift. rewrite (proj2 (Z.leb_gt hi lo) Hw). simpl. rewrite E1. simpl. rewrite E2. simpl.
    rewrite Hs in Hb. simpl in Hb. unfold derive. rewrite <-Hb, (proj2 (Z.ltb_ge _ _) Hn). simpl.
    destruct ex as [x|]; simpl; [rewrite (He x eq_refl), Z.eqb_refl|]; simpl; rewrite <-?(He x eq_refl); by rewrite <-Hs.
Qed.

(** ** Theorems *)

(** C15 (functional): the derived balance is the cutoff balance less the amounts of the credits
    to shard 1 in the window, plus the amounts of the debits from shard 1 in the window that
    the source audit classified as valid.  The script derives it exactly when the window is not
    empty, both tables can be read, the value is not negative and is the expected one; what a
    run returns is what its report says, and without an output file it changes nothing. *)
Theorem shard1_balance a w d :
  let lo := a_checkpoint_block a in
  let hi := a_cutoff_block a in
  ((derive_historical a w).1 = Ok d ↔
   lo < hi ∧ ∃ credits debits,
     table_movements credit_of (a_credits a) lo hi w credits ∧
     table_movements debit_of (a_debits a) lo hi w debits ∧
     d = Derivation (window_count lo hi credits) (window_sum lo hi credits)
                    (window_count lo hi debits) (window_sum lo hi debits)
                    (a_cutoff_balance a - window_sum lo hi credits + window_sum lo hi debits) ∧
     0 ≤ d_historical d ∧ ∀ e, a_expected a = Some e → d_historical d = e) ∧
  (∀ w', main a w = (Ok d, w') →
     (derive_historical a w).1 = Ok d ∧
     match output_path (a_output a) with
     | Some p => files w' = <[p := dumps (derivation_json a d) +:+ newline]> (files w)
     | None => w' = w
     end).
Proof.
  intros lo hi. split; [split|].
  - intros H%run_Ok. apply derive_historical_iff in H as (_ & cs & ds & [Hw Hc Hd Hs Hb Hn He]).
    split; [done|]. exists cs, ds. split_and!; [done..| |done|done]. rewrite Hs. f_equal. by rewrite Hb, Hs.
  - intros (Hw & cs & ds & Hc & Hd & Hs & Hn & He).
    assert (H : derive_historical a w = (Ok d, w)); [|by rewrite H].
    apply derive_historical_iff. split; [done|]. exists cs, ds. split; try done; by rewrite Hs.
  - intros w' H. unfold main in H. apply io_bind_Ok in H as (d' & w1 & H1 & H).
    apply io_bind_Ok in H as ([] & w2 & H2 & H). apply mret_Ok in H as [-> ->].
    apply derive_historical_iff in H1 as H1'. destruct H1' as [-> _]. rewrite H1. split; [done|].
    unfold write_json in H2. destruct (output_path (a_output a)) as [p|].
    + apply publish_over_Ok in H2 as [_ ->]. unfold concat_texts. simpl foldr. by rewrite str_app_nil_r.
    + by injection H2.
Qed.

(** Deriving in two steps through an intermediate checkpoint gives the balance
    of one step, and the counts and amounts of the two steps add up. *)
Theorem shard1_composes a lo mid hi w upper lower :
  derive_historical (Args (a_cutoff_balance a) mid hi (a_credits a) (a_debits a) None (a_output a)) w
    = (Ok upper, w) →
  derive_historical (Args (d_historical upper) lo mid (a_credits a) (a_debits a) None (a_output a)) w
    = (Ok lower, w) →
  derive_historical (Args (a_cutoff_balance a) lo hi (a_credits a) (a_debits a) None (a_output a)) w =
    (Ok (Derivation (d_credit_count lower + d_credit_count upper) (d_credits lower + d_credits upper)
           (d_debit_count lower + d_debit_count upper) (d_debits lower + d_debits upper)
           (d_historical lower)), w).
Proof.
  intros (_ & cs & ds & [Hw1 (tc & Htc & Hcs & Hco1) (td & Htd & Hds & Hdo1) Hs1 Hb1 Hn1 _])%derive_historical_iff.
  intros (_ & cs2 & ds2 & [Hw2 (tc2 & Htc2 & Hcs2 & Hco2) (td2 & Htd2 & Hds2 & Hdo2) Hs2 Hb2 Hn2 _])%derive_historical_iff.
  simpl in *. simplify_eq. rewrite Hcs in Hcs2. rewrite Hds in Hds2.
  injection Hcs2 as <-. injection Hds2 as <-.
  assert (Hm : lo ≤ mid ≤ hi) by lia.
  apply derive_historical_iff. split; [done|]. exists cs, ds.
  assert (Hok : ∀ l, Forall (λ x, is_ok x = true) (amounts_in lo mid l) →
    Forall (λ x, is_ok x = true) (amounts_in mid hi l) → Forall (λ x, is_ok x = true) (amounts_in lo hi l))
    by (intros l ??; rewrite (amounts_in_split lo mid hi l Hm); by apply Forall_app_2).
  split; simpl; try done; try lia.
  - exists tc. auto.
  - exists td. auto.
  - rewrite !(window_count_split lo mid hi), !(window_sum_split lo mid hi) by done.
    rewrite Hs1, Hs2. simpl. done.
Qed.

(** ** Witnesses *)
Definition ex_world : world := World (list_to_map
  [("credits.csv", write_csv
     [["destination_status"; "to_shard"; "destination_block"; "amount_atto"];
      ["found"; "1"; "12"; "5"]; ["found"; "1"; "25"; "7"]; ["not_found"; "x"; "14"; "9"];
      ["found"; "0"; "16"; "4"]; ["found"; "1"; "10"; "100"]]);
   ("debits.csv", write_csv
     [["source_shard"; "source_block"; "classification"; "value_atto"];
      ["1"; "13"; "valid_source_debit"; "30"]; ["1"; "14"; "rollback_leak"; "50"];
      ["1"; "29"; "valid_source_debit"; "2"]])]) None.

Definition ex_args : args := Args 40 10 30 "credits.csv" "debits.csv" (Some 60) (Some "balance.json").

Example ex_balance : (main ex_args ex_world).1 = Ok (Derivation 2 12 2 32 60).
Proof. by vm_compute. Qed.

Example ex_negative :
  (main (Args 1 20 30 "credits.csv" "debits.csv" None None) ex_world).1 =
  Err (ValueError "derived historical balance is negative").
Proof. by vm_compute. Qed.

Definition ex_upper : derivation := Derivation 1 7 1 2 35.
Definition ex_lower : derivation := Derivation 1 5 1 30 60.

Lemma shard1_composes_witness :
  derive_historical (Args 40 10 30 "credits.csv" "debits.csv" None (Some "balance.json")) ex_world =
  (Ok (Derivation 2 12 2 32 60), ex_world).
Proof. apply (shard1_composes ex_args 10 20 30 ex_world ex_upper ex_lower); by vm_compute. Defined.
