(* ===== verification/Undelegation.v ===== *)
(** * The repeated-undelegation mint

    toolkit/scripts/forensics/undelegation-mint-reconcile.py: an undelegation that stayed in its
    validator's list past its lock period was paid again in every later epoch.  The script pages
    through all validators of an archive node and multiplies each such undelegation by the
    number of its repeated payouts.

    [scan_pages] is the loop over pages (Validators.v); [undelegation_terminates] says what fuel is enough.
    Addresses in the node's answers are strings ([dict_key]). *)
From S2P Require Import Prelude PyStr PyData Files Csv Rpc Validators.

Definition LOCK_PERIOD : Z := 7.

Record entry := Entry {
  e_validator : string;
  e_delegator : string;
  e_epoch : Z;
  e_amount : Z;
  e_payouts : Z;
}.

(** [repeated_mint] *)
Definition e_mint (e : entry) : Z := e_amount e * e_payouts e.

Record state := State {
  validator_totals : gmap string Z;
  delegator_totals : gmap string Z;
  affected_entries : list entry;
  delegators : gset string;
  entries : Z;
  validators_scanned : Z;
}.

Definition initial : state := State ∅ ∅ [] ∅ 0 0.

(** A value used as a key of a dict of addresses. *)
Definition dict_key (v : json) : result string := match v with JStr s => Ok s | _ => Err TypeError end.

(** The body of the innermost loop, on the state and [validator_total]. *)
Definition undelegation_step (last_paid_epoch : Z) (validator delegation : json) (s : state * Z)
    (undelegation : json) : result (state * Z) :=
  let '(st, validator_total) := s in
  undelegation_epoch ← jget_int "epoch" undelegation;
  let repeated_payouts := last_paid_epoch - (undelegation_epoch + LOCK_PERIOD) in
  if repeated_payouts <=? 0 then Ok s
  else
    amount ← jget_int "amount" undelegation;
    let repeated_mint := amount * repeated_payouts in
    d ← jget "delegator-address" delegation;
    delegator ← dict_key d;
    v ← jget "address" validator;
    address ← dict_key v;
    Ok (State (validator_totals st) (madd delegator repeated_mint (delegator_totals st))
          (affected_entries st ++ [Entry address delegator undelegation_epoch amount repeated_payouts])
          ({[delegator]} ∪ delegators st) (entries st + 1) (validators_scanned st),
        validator_total + repeated_mint).

Definition delegation_step (last_paid_epoch : Z) (validator : json) (s : state * Z) (delegation : json) :
    result (state * Z) :=
  us ← jget "undelegations" delegation;
  us ← jiter us;
  foldM (undelegation_step last_paid_epoch validator delegation) s us.

Definition set_total (address : string) (total : Z) (st : state) : state :=
  State (<[address := total]> (validator_totals st)) (delegator_totals st) (affected_entries st)
    (delegators st) (entries st) (validators_scanned st).

(** The body of [for information in batch]. *)
Definition validator_step (last_paid_epoch : Z) (st : state) (information : json) : result state :=
  validator ← jget "validator" information;
  ds ← jget "delegations" validator;
  ds ← jiter ds;
  '(st, validator_total) ← foldM (delegation_step last_paid_epoch validator) (st, 0) ds;
  if validator_total =? 0 then Ok st
  else
    v ← jget "address" validator;
    address ← dict_key v;
    Ok (set_total address validator_total st).

Definition add_scanned (n : Z) (st : state) : state :=
  State (validator_totals st) (delegator_totals st) (affected_entries st) (delegators st) (entries st)
    (validators_scanned st + n).

Record args := Args { a_rpc : string; a_block : Z; a_output : option string }.

(** [sorted(totals.items(), key=lambda item: (-item[1], item[0]))] *)
Definition item_leb (a b : string * Z) : bool :=
  if b.2 <? a.2 then true else if a.2 <? b.2 then false else str_leb a.1 b.1.

Definition sorted_items (totals : gmap string Z) : list (string * Z) := sort_by item_leb (map_to_list totals).

(** The key [(item["validator"], item["delegator"], item["undelegation_epoch"])]. *)
Definition entry_leb (a b : entry) : bool :=
  if decide (e_validator a = e_validator b) then
    if decide (e_delegator a = e_delegator b) then e_epoch a <=? e_epoch b
    else str_leb (e_delegator a) (e_delegator b)
  else str_leb (e_validator a) (e_validator b).

Definition sorted_entries (l : list entry) : list entry := sort_by entry_leb l.

Definition total_json (name : string) (item : string * Z) : json :=
  JObj [(name, JStr item.1); ("atto", JStr (str_of_Z item.2)); ("one", JStr (one item.2))].

Definition entry_json (e : entry) : json :=
  JObj [("validator", JStr (e_validator e)); ("delegator", JStr (e_delegator e));
        ("undelegation_epoch", JInt (e_epoch e)); ("amount_atto", JStr (str_of_Z (e_amount e)));
        ("repeated_payouts", JInt (e_payouts e)); ("mint_atto", JStr (str_of_Z (e_mint e)));
        ("mint_one", JStr (one (e_mint e)))].

(** [total = sum(validator_totals.values())] *)
Definition total (st : state) : Z := msum (validator_totals st).

Definition result_json (a : args) (block_hash : json) (epoch : Z) (st : state) : json :=
  JObj [("rpc", JStr (a_rpc a)); ("block", JInt (a_block a)); ("block_hash", block_hash);
        ("epoch", JInt epoch); ("last_paid_epoch", JInt (epoch - 1)); ("lock_period", JInt LOCK_PERIOD);
        ("validators_scanned", JInt (validators_scanned st));
        ("affected_validators", JInt (Z.of_nat (size (validator_totals st))));
        ("affected_delegators", JInt (Z.of_nat (size (delegators st))));
        ("bad_undelegation_entries", JInt (entries st));
        ("total_atto", JStr (str_of_Z (total st))); ("total_one", JStr (one (total st)));
        ("by_validator", JArr (total_json "validator" <$> sorted_items (validator_totals st)));
        ("by_delegator", JArr (total_json "delegator" <$> sorted_items (delegator_totals st)));
        ("entries", JArr (entry_json <$> sorted_entries (affected_entries st)))].

Section node.
Context (transport : nat → string → list json → result json).

(** The loop over the pages. *)
Definition scan_pages (fuel : nat) (last_paid_epoch block page : Z) (st : state) : result state :=
  scan_validators transport (validator_step last_paid_epoch) add_scanned fuel block page st.

(** [main] up to the result. *)
Definition reconcile (fuel : nat) (a : args) : result (Z * state * json) :=
  block ← rpc transport "hmyv2_getBlockByNumber" [JInt (a_block a); JObj [("fullTx", JBool false)]];
  epoch ← jget_int "epoch" block;
  let last_paid_epoch := epoch - 1 in
  st ← scan_pages fuel last_paid_epoch (a_block a) 0 initial;
  block_hash ← jget "hash" block;
  Ok (epoch, st, result_json a block_hash epoch st).

Definition write_output (output : option string) (encoded : string) : IO unit :=
  match output_path output with
  | None => mret tt
  | Some p =>
      refuse_existing p ≫= λ _,
      on_exception (publish p [encoded]) (remove_quiet (partial p))
  end.

Definition main (fuel : nat) (a : args) : IO state :=
  '(_, st, result) ← lift (reconcile fuel a);
  write_output (a_output a) (dumps result +:+ newline) ≫= λ _,
  mret st.
End node.

(** ** What the loops are meant to collect *)
Definition somes {A} (l : list (option A)) : list A := omap id l.

(** The entry an undelegation of a delegation gives, if it was paid more than once. *)
Definition entry_of (last_paid_epoch : Z) (validator delegation undelegation : json) : result (option entry) :=
  undelegation_epoch ← jget_int "epoch" undelegation;
  let payouts := last_paid_epoch - (undelegation_epoch + LOCK_PERIOD) in
  if payouts <=? 0 then Ok None
  else
    amount ← jget_int "amount" undelegation;
    d ← jget "delegator-address" delegation;
    delegator ← dict_key d;
    v ← jget "address" validator;
    address ← dict_key v;
    Ok (Some (Entry address delegator undelegation_epoch amount payouts)).

Definition delegation_entries (last_paid_epoch : Z) (validator delegation : json) : result (list entry) :=
  us ← jget "undelegations" delegation;
  us ← jiter us;
  es ← mapR (entry_of last_paid_epoch validator delegation) us;
  Ok (somes es).

Definition validator_entries (last_paid_epoch : Z) (validator : json) : result (list entry) :=
  ds ← jget "delegations" validator;
  ds ← jiter ds;
  ess ← mapR (delegation_entries last_paid_epoch validator) ds;
  Ok (mjoin (M := list) ess).

(** One item of a page: the validator's address and its entries, when it has any. *)
Definition listing (last_paid_epoch : Z) (information : json) : result (option (string * list entry)) :=
  validator ← jget "validator" information;
  es ← validator_entries last_paid_epoch validator;
  match es with
  | [] => Ok None
  | e :: _ => Ok (Some (e_validator e, es))
  end.

(** All entries of some listings. *)
Definition all_entries (ls : list (option (string * list entry))) : list entry := mjoin (snd <$> somes ls).

(** ** Lemmas *)
Definition add_entries (es : list entry) (st : state) : state :=
  State (validator_totals st) (tally e_delegator e_mint (delegator_totals st) es) (affected_entries st ++ es)
    (list_to_set (e_delegator <$> es) ∪ delegators st) (entries st + Z.of_nat (length es)) (validators_scanned st).

Lemma add_entries_nil st : add_entries [] st = st.
Proof. destruct st. unfold add_entries. simpl. by rewrite app_nil_r, union_empty_l_L, Z.add_0_r. Qed.

Lemma add_entries_app es fs st : add_entries (es ++ fs) st = add_entries fs (add_entries es st).
Proof.
  unfold add_entries, tally. simpl. rewrite foldl_app, fmap_app, list_to_set_app_L, length_app, app_assoc.
  f_equal; [|lia]. by rewrite union_assoc_L, (union_comm_L (list_to_set (e_delegator <$> es))).
Qed.

Definition add_to (s : state * Z) (es : list entry) : state * Z := (add_entries es s.1, s.2 + sum_by e_mint es).

Lemma add_to_app s es fs : add_to (add_to s es) fs = add_to s (es ++ fs).
Proof. unfold add_to. simpl. rewrite add_entries_app, sum_by_app. f_equal. lia. Qed.

Lemma foldl_add_to s ess : foldl add_to s ess = add_to s (mjoin ess).
Proof.
  revert s. induction ess as [|es ess IH]; intros s; simpl; [|by rewrite IH, add_to_app].
  destruct s. unfold add_to. simpl. by rewrite add_entries_nil, sum_by_nil, Z.add_0_r.
Qed.

Lemma mjoin_option_list {A} (l : list (option A)) : mjoin (option_list <$> l) = somes l.
Proof. unfold somes. induction l as [|[x|] l IH]; simpl; [done|exact (f_equal (cons x) IH)|exact IH]. Qed.

Lemma delegation_step_spec last v s d :
  delegation_step last v s d = (es ← delegation_entries last v d; Ok (add_to s es)).
Proof.
  unfold delegation_step, delegation_entries. destruct (jget _ d) as [us|]; simpl; [|done].
  destruct (jiter us) as [l|]; simpl; [|done].
  rewrite (foldM_mapR _ (entry_of last v d) (λ s o, add_to s (option_list o))).
  - destruct (mapR _ l) as [os|]; simpl; [|done]. f_equal. rewrite <-(foldl_fmap add_to), foldl_add_to.
    by rewrite mjoin_option_list.
  - intros [st t] u. unfold undelegation_step, entry_of. destruct (jget_int "epoch" u) as [ep|]; simpl; [|done].
    destruct (_ <=? 0); simpl.
    + unfold add_to. simpl. by rewrite add_entries_nil, sum_by_nil, Z.add_0_r.
    + destruct (jget_int "amount" u) as [am|]; simpl; [|done].
      destruct (jget "delegator-address" d) as [dj|]; simpl; [|done]. destruct (dict_key dj); simpl; [|done].
      destruct (jget "address" v) as [vj|]; simpl; [|done]. destruct (dict_key vj); simpl; [|done].
      unfold add_to, add_entries, tally. simpl. rewrite sum_by_cons, sum_by_nil, Z.add_0_r. unfold e_mint. simpl.
      by rewrite union_empty_r_L.
Qed.

(** The effect of one listing. *)
Definition apply_listing (st : state) (l : option (string * list entry)) : state :=
  match l with
  | None => st
  | Some (address, es) =>
      if sum_by e_mint es =? 0 then add_entries es st
      else set_total address (sum_by e_mint es) (add_entries es st)
  end.

(** An entry carries its validator's address, and is due as many payouts as epochs were paid
    after its lock period. *)
Definition due (last : Z) (v : json) (e : entry) : Prop :=
  (a ← jget "address" v; dict_key a) = Ok (e_validator e) ∧
  e_payouts e = last - (e_epoch e + LOCK_PERIOD) ∧ 0 < e_payouts e.

Lemma mapR_Forall {A B} (f : A → result B) (P : B → Prop) l k :
  (∀ x y, f x = Ok y → P y) → mapR f l = Ok k → Forall P k.
Proof.
  intros Hf. revert k. induction l as [|x l IH]; intros k; [intros [= <-]; constructor|].
  rewrite mapR_cons_Ok. intros (y & ys & -> & Hy & Hys). constructor; eauto.
Qed.

Lemma entry_of_due last v d u o : entry_of last v d u = Ok o → ∀ e, o = Some e → due last v e.
Proof.
  unfold entry_of. intros H e ->. destruct (jget_int "epoch" u) as [ep|]; simpl in H; [|done].
  destruct (Z.leb_spec (last - (ep + LOCK_PERIOD)) 0); [done|]. inv_ok H. subst e.
  split_and!; simpl; [|lia..]. by rewrite E2.
Qed.

Lemma validator_entries_due last v es : validator_entries last v = Ok es → Forall (due last v) es.
Proof.
  unfold validator_entries. intros H. inv_ok H. subst es.
  apply Forall_join. apply (mapR_Forall _ _ _ _) with (2 := E1). clear. intros d es H.
  unfold delegation_entries in H. inv_ok H. subst es.
  assert (Ho : Forall (λ o, ∀ e, o = Some e → due last v e) v2).
  { apply (mapR_Forall _ _ _ _) with (2 := E1). intros u o. apply entry_of_due. }
  unfold somes. apply Forall_forall. intros e (o & Ho1 & Ho2)%list_elem_of_omap.
  rewrite Forall_forall in Ho. by apply (Ho o).
Qed.

Lemma validator_step_spec last st info :
  validator_step last st info = (l ← listing last info; Ok (apply_listing st l)).
Proof.
  unfold validator_step, listing. destruct (jget "validator" info) as [v|]; simpl; [|done].
  pose proof (validator_entries_due last v) as Hdue. unfold validator_entries in *.
  destruct (jget "delegations" v) as [ds|]; simpl in *; [|done]. destruct (jiter ds) as [l|]; simpl in *; [|done].
  rewrite (foldM_mapR _ (delegation_entries last v) add_to) by (intros; apply delegation_step_spec).
  destruct (mapR (delegation_entries last v) l) as [ess|]; simpl in *; [|done].
  rewrite foldl_add_to. unfold add_to. simpl. rewrite Z.add_0_l. specialize (Hdue _ eq_refl).
  destruct (mjoin ess) as [|e es]; simpl; [by rewrite add_entries_nil|].
  apply Forall_cons in Hdue as [[Ha _] _]. destruct (jget "address" v) as [a|]; simpl in *; [|done].
  rewrite Ha. simpl. unfold apply_listing. by destruct (sum_by e_mint (e :: es) =? 0).
Qed.

(** The state after some listings. *)
Definition collected (ls : list (option (string * list entry))) (st : state) : state := foldl apply_listing st ls.

Lemma all_entries_Some a es ls : all_entries (Some (a, es) :: ls) = es ++ all_entries ls.
Proof. done. Qed.

Lemma collected_entries ls st :
  let st' := collected ls st in
  affected_entries st' = affected_entries st ++ all_entries ls ∧
  delegator_totals st' = tally e_delegator e_mint (delegator_totals st) (all_entries ls) ∧
  delegators st' = list_to_set (e_delegator <$> all_entries ls) ∪ delegators st ∧
  entries st' = entries st + Z.of_nat (length (all_entries ls)) ∧
  validators_scanned st' = validators_scanned st.
Proof.
  revert st. induction ls as [|l ls IH]; intros st; cbn [collected foldl].
  { unfold all_entries, tally. simpl. rewrite app_nil_r, union_empty_l_L. split_and!; try done. lia. }
  destruct (IH (apply_listing st l)) as (H1 & H2 & H3 & H4 & H5). unfold collected in *.
  rewrite H1, H2, H3, H4, H5. destruct l as [[a es]|]; [|done].
  assert (Hst : ∃ vt, apply_listing st (Some (a, es)) = let st' := add_entries es st in
    State vt (delegator_totals st') (affected_entries st') (delegators st') (entries st') (validators_scanned st')).
  { unfold apply_listing, set_total. case_match; [by eexists|by eexists]. }
  destruct Hst as [vt ->]. rewrite all_entries_Some. simpl.
  unfold tally. rewrite foldl_app, fmap_app, list_to_set_app_L, length_app, app_assoc.
  split_and!; try done; [|lia].
  by rewrite union_assoc_L, (union_comm_L (list_to_set (e_delegator <$> es))).
Qed.

Lemma validator_totals_apply st a es :
  validator_totals (apply_listing st (Some (a, es))) =
  if sum_by e_mint es =? 0 then validator_totals st else <[a := sum_by e_mint es]> (validator_totals st).
Proof. unfold apply_listing. by case_match. Qed.

(** What the listings of a validator give: the last of its amounts that is not 0, for a later listing replaces an earlier one. *)
Definition last_listing (ls : list (option (string * list entry))) (v : string) : Z :=
  default 0 (last (filter (λ z, z ≠ 0) ((λ p, sum_by e_mint p.2) <$> filter (λ p, p.1 = v) (somes ls)))).

Lemma collected_last ls v : mget (validator_totals (collected ls initial)) v = last_listing ls v.
Proof.
  induction ls as [|l ls IH] using rev_ind; [done|]. unfold collected in *. rewrite foldl_app. cbn [foldl].
  set (st := foldl apply_listing initial ls) in *. unfold last_listing in *.
  destruct l as [[a es]|].
  2: { assert (Hs : somes (ls ++ [None]) = somes ls) by (unfold somes; rewrite omap_app; simpl; by rewrite app_nil_r). rewrite Hs. exact IH. }
  assert (Hs : somes (ls ++ [Some (a, es)]) = somes ls ++ [(a, es)]) by (unfold somes; by rewrite omap_app).
  rewrite Hs, filter_app, keep_one, validator_totals_apply. cbn [fst]. destruct (Z.eqb_spec (sum_by e_mint es) 0) as [E|E].
  - case_decide; [|by rewrite app_nil_r]. by rewrite fmap_app, filter_app, IH, (keep_one _ (sum_by e_mint es)), decide_False, app_nil_r by (intros Hz; by apply Hz).
  - case_decide as Ha.
    + subst a. rewrite fmap_app, filter_app. cbn [fmap list_fmap snd]. rewrite (keep_one _ (sum_by e_mint es)), decide_True, last_snoc by done.
      unfold mget. by rewrite lookup_insert_eq.
    + rewrite app_nil_r, <-IH. unfold mget. by rewrite lookup_insert_ne.
Qed.

(** When no validator is listed twice, each total is that of its listing. *)
Lemma collected_totals ls st :
  NoDup (fst <$> somes ls) → (∀ a, a ∈ fst <$> somes ls → validator_totals st !! a = None) →
  let vt := validator_totals (collected ls st) in
  msum vt = msum (validator_totals st) + sum_by e_mint (all_entries ls) ∧
  (∀ a es, (a, es) ∈ somes ls → mget vt a = sum_by e_mint es) ∧
  (∀ a, a ∉ fst <$> somes ls → vt !! a = validator_totals st !! a).
Proof.
  revert st. induction ls as [|[[a es]|] ls IH]; intros st Hnd Hfresh; unfold collected; cbn [foldl]; cbv zeta.
  { unfold all_entries. simpl. rewrite sum_by_nil. split_and!; [lia| |done]. intros a es Ha. by apply not_elem_of_nil in Ha. }
  - change (somes (Some (a, es) :: ls)) with ((a, es) :: somes ls) in *. rewrite fmap_cons in *. cbn [fst] in *.
    apply NoDup_cons in Hnd as [Ha Hnd].
    assert (Hne : ∀ b, b ≠ a → validator_totals (apply_listing st (Some (a, es))) !! b = validator_totals st !! b).
    { intros b Hb. rewrite validator_totals_apply. case_match; [done|by rewrite lookup_insert_ne]. }
    assert (Hget : mget (validator_totals (apply_listing st (Some (a, es)))) a = sum_by e_mint es).
    { rewrite validator_totals_apply. unfold mget. destruct (Z.eqb_spec (sum_by e_mint es) 0) as [->|].
      - rewrite Hfresh; [done|by left].
      - by rewrite lookup_insert_eq. }
    destruct (IH (apply_listing st (Some (a, es))) Hnd) as (H1 & H2 & H3).
    { intros b Hb. rewrite Hne by (by intros ->). apply Hfresh. by right. }
    unfold collected in *. cbv zeta in *. split_and!.
    + rewrite H1, all_entries_Some, sum_by_app.
      rewrite validator_totals_apply. destruct (Z.eqb_spec (sum_by e_mint es) 0) as [->|]; [lia|].
      rewrite msum_insert_None by (apply Hfresh; by left). lia.
    + intros b fs [[= -> ->]|Hb]%elem_of_cons; [|by apply H2].
      unfold mget in *. by rewrite H3.
    + intros b [Hb1 Hb2]%not_elem_of_cons. by rewrite H3, Hne.
  - by apply IH.
Qed.

Lemma apply_listing_scanned n st l : apply_listing (add_scanned n st) l = add_scanned n (apply_listing st l).
Proof. destruct l as [[a es]|]; simpl; [|done]. by case_match. Qed.

Lemma collected_scanned n ls st : collected ls (add_scanned n st) = add_scanned n (collected ls st).
Proof.
  unfold collected. revert st. induction ls as [|l ls IH]; intros st; simpl; [done|].
  by rewrite apply_listing_scanned, IH.
Qed.

Lemma add_scanned_add n m st : add_scanned n (add_scanned m st) = add_scanned (m + n) st.
Proof. unfold add_scanned. simpl. f_equal. lia. Qed.

Section pages.
Context (transport : nat → string → list json → result json).

(** The validators of the pages up to the first empty one, each of them read. *)
Definition scanned (last block page : Z) (st st' : state) : Prop :=
  ∃ infos ls, listed transport block page infos ∧ mapR (listing last) infos = Ok ls ∧
    st' = add_scanned (Z.of_nat (length infos)) (collected ls st).

Lemma add_scanned_0 st : add_scanned 0 st = st.
Proof. destruct st. unfold add_scanned. simpl. by rewrite Z.add_0_r. Qed.

Lemma validator_step_add last n st x : validator_step last (add_scanned n st) x = add_scanned n <$> validator_step last st x.
Proof. rewrite !validator_step_spec. destruct (listing last x) as [l|]; simpl; [|done]. by rewrite apply_listing_scanned. Qed.

Lemma validators_collected last st infos :
  foldM (validator_step last) st infos = (ls ← mapR (listing last) infos; Ok (collected ls st)).
Proof. apply foldM_mapR. intros. apply validator_step_spec. Qed.

Lemma scan_pages_Ok fuel last block page st st' :
  scan_pages transport fuel last block page st = Ok st' → scanned last block page st st'.
Proof.
  intros H. apply scan_listed in H as (infos & st1 & Hl & H & ->); [|apply add_scanned_0|apply add_scanned_add|apply validator_step_add].
  rewrite validators_collected in H. apply bind_Ok in H as (ls & Hls & [= <-]). by exists infos, ls.
Qed.

(** Fuel for one iteration more than there are pages is enough. *)
Lemma scan_pages_enough last block page infos ls :
  listed transport block page infos → mapR (listing last) infos = Ok ls →
  ∃ n, ∀ fuel st, (n ≤ fuel)%nat →
    scan_pages transport fuel last block page st =
    Ok (add_scanned (Z.of_nat (length infos)) (collected ls st)).
Proof.
  intros Hl Hls. destruct (scan_enough transport (validator_step last) add_scanned add_scanned_0 add_scanned_add (validator_step_add last) _ _ _ Hl)
    as (n & Hn). exists n. intros fuel st Hf. unfold scan_pages. rewrite Hn by done. rewrite validators_collected, Hls. done.
Qed.
End pages.

(** ** The orders of the report *)
Lemma item_leb_total a b : item_leb a b = true ∨ item_leb b a = true.
Proof.
  unfold item_leb. destruct (Z.ltb_spec b.2 a.2), (Z.ltb_spec a.2 b.2); auto. apply str_leb_total.
Qed.

Lemma item_leb_spec a b : item_leb a b = true ↔ b.2 < a.2 ∨ (a.2 = b.2 ∧ str_leb a.1 b.1 = true).
Proof. unfold item_leb. destruct (Z.ltb_spec b.2 a.2), (Z.ltb_spec a.2 b.2); naive_solver lia. Qed.

Lemma item_leb_trans a b c : item_leb a b = true → item_leb b c = true → item_leb a c = true.
Proof.
  rewrite !item_leb_spec. intros [?|[? Hab]] [?|[? Hbc]]; [left; lia..|].
  right. split; [lia|]. by eapply str_leb_trans.
Qed.

Lemma sorted_items_spec (m : gmap string Z) :
  sorted_items m ≡ₚ map_to_list m ∧ StronglySorted (λ a b, b.2 ≤ a.2) (sorted_items m).
Proof.
  split; [apply sort_by_Permutation|]. eapply StronglySorted_weaken; [|apply sort_by_sorted; [apply item_leb_total|apply item_leb_trans]].
  intros a b H%item_leb_spec. lia.
Qed.

Lemma sorted_items_sum (m : gmap string Z) : sum_by snd (sorted_items m) = msum m.
Proof. rewrite msum_map_to_list. apply sum_by_Permutation, sort_by_Permutation. Qed.

(** ** The output *)
Lemma write_output_result output text w r w' :
  write_output output text w = (r, w') →
  match r with
  | Ok _ => match output_path output with Some p => files w' = <[p := text]> (files w) | None => w' = w end
  | Err _ => files w' = files w
  end.
Proof.
  intros H. unfold write_output in H. destruct (output_path output) as [p|]; [|by injection H as <- <-].
  enough (wp (refuse_existing p ≫= λ _, on_exception (publish p [text]) (remove_quiet (partial p))) w
    (λ r w', match r with Ok _ => files w' = <[p := text]> (files w) | Err _ => files w' = files w end)) as Hwp.
  { unfold wp in Hwp. rewrite H in Hwp. done. }
  apply wp_bind, wp_refuse_existing; [done|]. intros Hp Hpart. apply wp_on_exception, wp_publish.
  - intros e w1 _ Hd. apply wp_remove_quiet. intros w2 Hw. split; [done|]. by rewrite Hw, Hd, delete_id.
  - intros w1 _ ->. unfold concat_texts. simpl foldr. by rewrite str_app_nil_r.
Qed.

(** ** Theorems *)

(** C14 (invariant): the run collects exactly the undelegations paid after their lock period,
    from the validators of all pages up to the first empty one.  The repeated mint by delegator
    adds up to that of the entries, delegator by delegator.  By validator it is that of the validator's last listing that is not
    0, so the total adds up to that of the entries, validator by validator, when no validator is listed twice. *)
Theorem undelegation_conserves transport fuel a w st w' :
  main transport fuel a w = (Ok st, w') →
  ∃ block epoch infos ls,
    rpc transport "hmyv2_getBlockByNumber" [JInt (a_block a); JObj [("fullTx", JBool false)]] = Ok block ∧
    jget_int "epoch" block = Ok epoch ∧
    listed transport (a_block a) 0 infos ∧ mapR (listing (epoch - 1)) infos = Ok ls ∧
    let es := all_entries ls in
    affected_entries st = es ∧ entries st = Z.of_nat (length es) ∧
    validators_scanned st = Z.of_nat (length infos) ∧
    msum (delegator_totals st) = sum_by e_mint es ∧
    (∀ d, mget (delegator_totals st) d = sum_by e_mint (filter (λ e, e_delegator e = d) es)) ∧
    (∀ v, mget (validator_totals st) v = last_listing ls v) ∧
    (NoDup (fst <$> somes ls) →
       total st = sum_by e_mint es ∧
       ∀ v ves, (v, ves) ∈ somes ls → mget (validator_totals st) v = sum_by e_mint ves).
Proof.
  intros H. unfold main in H. apply io_bind_Ok in H as ([[epoch st1] j] & w1 & [-> Hr]%lift_Ok & H).
  apply io_bind_Ok in H as ([] & w2 & _ & H). apply mret_Ok in H as [_ ->].
  unfold reconcile in Hr. inv_ok Hr. subst.
  apply scan_pages_Ok in E1 as (infos & ls & Hl & Hls & ->). exists v, epoch, infos, ls.
  destruct (collected_entries ls initial) as (H1 & H2 & H3 & H4 & H5). cbn [add_scanned] in *.
  unfold total. cbn [affected_entries entries validators_scanned delegator_totals validator_totals].
  split_and!; try done.
  - simpl. by rewrite H5.
  - simpl. rewrite H2, msum_tally, (msum_empty (K := string)). lia.
  - intros d. simpl. rewrite H2, mget_tally. unfold mget at 1. simpl. by rewrite lookup_empty.
  - intros x. apply collected_last.
  - intros Hnd. destruct (collected_totals ls initial Hnd) as (Ht & Hv & _); [done|]. split; [|done].
    simpl. rewrite Ht. simpl. rewrite (msum_empty (K := string)). lia.
Qed.

(** What a due entry is: an undelegation taken back at [e_epoch] is in the list
    of its validator exactly when the last paid epoch lies after its lock period, and is paid
    once for each epoch in between. *)
Theorem undelegation_entries_due last_paid_epoch infos ls :
  mapR (listing last_paid_epoch) infos = Ok ls →
  Forall (λ e, e_payouts e = last_paid_epoch - (e_epoch e + LOCK_PERIOD) ∧ 0 < e_payouts e) (all_entries ls) ∧
  (∀ validator delegation u n, jget_int "epoch" u = Ok n →
     entry_of last_paid_epoch validator delegation u = Ok None ↔ last_paid_epoch ≤ n + LOCK_PERIOD).
Proof.
  intros H. split.
  - assert (Hf : Forall (λ l, ∀ p, l = Some p →
      Forall (λ e, e_payouts e = last_paid_epoch - (e_epoch e + LOCK_PERIOD) ∧ 0 < e_payouts e) p.2) ls).
    { apply (mapR_Forall _ _ _ _) with (2 := H). intros info l Hl p ->. unfold listing in Hl.
      apply bind_Ok in Hl as (v & _ & Hl). apply bind_Ok in Hl as (es & He & Hl).
      apply validator_entries_due in He. destruct es as [|e es]; [done|]. injection Hl as <-. simpl.
      eapply Forall_impl; [exact He|]. by intros e' (_ & ? & ?). }
    clear H. induction ls as [|[[a es]|] ls IH]; [constructor| |]; apply Forall_cons in Hf as [H1 H2].
    + rewrite all_entries_Some. apply Forall_app_2; [exact (H1 _ eq_refl)|by apply IH].
    + by apply IH.
  - intros v d u n Hn. unfold entry_of. rewrite Hn. simpl.
    destruct (Z.leb_spec (last_paid_epoch - (n + LOCK_PERIOD)) 0) as [Hle|Hgt]; [split; [lia|done]|].
    split; [|lia]. intros Ho. by inv_ok Ho.
Qed.

(** A run that raises leaves the files as they were; one that
    returns has written its report, in which validators and delegators come by descending
    amount, each once, and the amounts listed add up to the totals. *)
Theorem undelegation_report transport fuel a w r w' :
  main transport fuel a w = (r, w') →
  match r with
  | Err _ => files w' = files w
  | Ok st =>
      (∃ h n, match output_path (a_output a) with
              | Some p => files w' = <[p := dumps (result_json a h n st) +:+ newline]> (files w)
              | None => w' = w
              end) ∧
      StronglySorted (λ x y, y.2 ≤ x.2) (sorted_items (validator_totals st)) ∧
      StronglySorted (λ x y, y.2 ≤ x.2) (sorted_items (delegator_totals st)) ∧
      (∀ v n, (v, n) ∈ sorted_items (validator_totals st) ↔ validator_totals st !! v = Some n) ∧
      sum_by snd (sorted_items (validator_totals st)) = total st ∧
      sum_by snd (sorted_items (delegator_totals st)) = msum (delegator_totals st)
  end.
Proof.
  intros H. unfold main in H. destruct (reconcile transport fuel a) as [[[epoch st] j]|e] eqn:Er;
    [|by injection H as <- <-].
  unfold mbind, io_bind, lift in H.
  destruct (write_output (a_output a) (dumps j +:+ newline) w) as [[[]|e] w1] eqn:Ew; injection H as <- <-;
    apply write_output_result in Ew; [|done].
  unfold reconcile in Er. inv_ok Er. subst.
  split_and!; try apply sorted_items_spec; try apply sorted_items_sum; [by eexists _, _|].
  intros v' n. rewrite (proj1 (sorted_items_spec _)). apply elem_of_map_to_list.
Qed.

(** When the node lists its validators on finitely many pages and each can be
    read, some fuel is enough for the loop over the pages, and any larger fuel gives the same
    result. *)
Theorem undelegation_terminates transport a block epoch block_hash infos ls :
  rpc transport "hmyv2_getBlockByNumber" [JInt (a_block a); JObj [("fullTx", JBool false)]] = Ok block →
  jget_int "epoch" block = Ok epoch → jget "hash" block = Ok block_hash →
  listed transport (a_block a) 0 infos → mapR (listing (epoch - 1)) infos = Ok ls →
  ∃ n st, ∀ fuel, (n ≤ fuel)%nat →
    reconcile transport fuel a = Ok (epoch, st, result_json a block_hash epoch st).
Proof.
  intros Hb He Hh Hl Hls. destruct (scan_pages_enough transport _ _ _ _ _ Hl Hls) as (n & Hn).
  exists n. eexists. intros fuel Hf. unfold reconcile. rewrite Hb. simpl. rewrite He. simpl.
  rewrite Hn by done. simpl. by rewrite Hh.
Qed.

(** ** Witnesses *)
Definition ex_undelegation (epoch amount : Z) : json :=
  JObj [("epoch", JInt epoch); ("amount", JStr (str_of_Z amount))].

Definition ex_validator (address : string) (delegations : list (string * list (Z * Z))) : json :=
  JObj [("validator", JObj [("address", JStr address);
    ("delegations", JArr ((λ d, JObj [("delegator-address", JStr d.1);
       ("undelegations", JArr ((λ u, ex_undelegation u.1 u.2) <$> d.2))]) <$> delegations))])].

Definition ex_block : json := JObj [("epoch", JStr "1700"); ("hash", JStr "0xab")].

Definition ex_pages : list (list json) :=
  [[ex_validator "one1v" [("one1a", [(1690, 5); (1692, 9)]); ("one1b", [(1600, 1)])];
    ex_validator "one1u" [("one1a", [])]];
   [ex_validator "one1w" [("one1a", [(1689, 2)])]]].

(** An endpoint whose first attempt always fails. *)
Definition ex_transport : nat → string → list json → result json := λ attempt method params,
  match attempt with
  | O => Err (OSError "reset")
  | _ =>
      if String.eqb method "hmyv2_getBlockByNumber" then Ok (JObj [("result", ex_block)])
      else match params with
           | JInt page :: _ => Ok (JObj [("result", JArr (default [] (ex_pages !! Z.to_nat page)))])
           | _ => Err TypeError
           end
  end.

Definition ex_args : args := Args "http://node" 51085312 (Some "mint.json").
Definition ex_world : world := World ∅ None.
Definition ex_state : state := get initial (main ex_transport 3 ex_args ex_world).1.

Lemma ex_undelegation_main : main ex_transport 3 ex_args ex_world = (Ok ex_state, (main ex_transport 3 ex_args ex_world).2).
Proof. apply run_Ok, get_Ok. by vm_compute. Qed.

Definition ex_page (n : nat) : list json := default [] (ex_pages !! n).
Definition ex_infos : list json := ex_page 0 ++ ex_page 1 ++ [].
Definition ex_listings : list (option (string * list entry)) := get [] (mapR (listing 1699) ex_infos).

Example ex_entries : affected_entries ex_state =
  [Entry "one1v" "one1a" 1690 5 2; Entry "one1v" "one1b" 1600 1 92; Entry "one1w" "one1a" 1689 2 3].
Proof. by vm_compute. Qed.

Example ex_by_validator : sorted_items (validator_totals ex_state) = [("one1v", 102); ("one1w", 6)].
Proof. by vm_compute. Qed.

(** A validator that is on two pages is in [total] once. *)
Example ex_listed_twice :
  let infos := [ex_validator "one1v" [("one1a", [(1690, 5)])]; ex_validator "one1v" [("one1a", [(1689, 2)])]] in
  let st := get initial (foldM (validator_step 1699) initial infos) in
  total st = 6 ∧ msum (delegator_totals st) = 16.
Proof. by vm_compute. Qed.

Lemma ex_listed : listed ex_transport 51085312 0 ex_infos.
Proof.
  apply (listed_page _ _ 0 (JArr (ex_page 0)) (ex_page 0) (ex_page 1 ++ [])); [by vm_compute..|].
  apply (listed_page _ _ 1 (JArr (ex_page 1)) (ex_page 1) []); [by vm_compute..|].
  apply (listed_end _ _ 2 (JArr [])); by vm_compute.
Qed.

Lemma undelegation_conserves_witness :
  ∃ es ls, affected_entries ex_state = es ∧ msum (delegator_totals ex_state) = sum_by e_mint es ∧
    ∀ v, mget (validator_totals ex_state) v = last_listing ls v.
Proof.
  destruct (undelegation_conserves ex_transport 3 ex_args ex_world ex_state _ ex_undelegation_main)
    as (block & epoch & infos & ls & _ & _ & _ & _ & H1 & _ & _ & H2 & _ & H3 & _).
  exists (all_entries ls), ls. exact (conj H1 (conj H2 H3)).
Defined.

Lemma undelegation_entries_due_witness :
  Forall (λ e, e_payouts e = 1699 - (e_epoch e + LOCK_PERIOD) ∧ 0 < e_payouts e) (all_entries ex_listings).
Proof. apply (undelegation_entries_due 1699 ex_infos ex_listings). by vm_compute. Defined.

Lemma undelegation_report_witness :
  sum_by snd (sorted_items (validator_totals ex_state)) = total ex_state.
Proof. apply (undelegation_report ex_transport 3 ex_args ex_world _ _ ex_undelegation_main). Defined.

Lemma undelegation_terminates_witness :
  ∃ n st, ∀ fuel, (n ≤ fuel)%nat →
    reconcile ex_transport fuel ex_args = Ok (1700, st, result_json ex_args (JStr "0xab") 1700 st).
Proof.
  apply (undelegation_terminates ex_transport ex_args ex_block 1700 (JStr "0xab") ex_infos ex_listings);
    [by vm_compute..|exact ex_listed|by vm_compute].
Defined.
