(* ===== verification/Staking.v ===== *)
(** * The staking claims at a block

    toolkit/scripts/forensics/historical-staking-rpc.py: pages through all validators of an archive node at
    one block (Validators.v) and adds up, for each delegator, the active delegations, the pending
    undelegations and the unclaimed rewards.

    [delegation_step] is the innermost loop, [validator_step] that over the validators of a page; the table is written
    in place, with the csv module's default line terminator. *)
From S2P Require Import Prelude PyStr PyData Files Csv Rpc Bech32 Validators.

(** [claims[address]] *)
Record stake := Stake { active : Z; pending : Z; unclaimed : Z }.

Definition no_stake : stake := Stake 0 0 0.
Definition add_stake (x y : stake) : stake := Stake (active x + active y) (pending x + pending y) (unclaimed x + unclaimed y).

Record state := State { claims : gmap string stake; validators : Z }.

Definition initial : state := State ∅ 0.

Definition add_claim (address : string) (x : stake) (m : gmap string stake) : gmap string stake :=
  <[address := add_stake (default no_stake (m !! address)) x]> m.

(** [sum(int(item["amount"]) for item in delegation["undelegations"])] *)
Definition pending_amount (delegation : json) : result Z :=
  us ← jget "undelegations" delegation;
  us ← jiter us;
  amounts ← mapR (jget_int "amount") us;
  Ok (zsum amounts).

(** The body of the loop over a validator's delegations. *)
Definition delegation_step (st : state) (delegation : json) : result state :=
  a ← jget_str "delegator-address" delegation;
  address ← decode_one1 a;
  amount ← jget_int "amount" delegation;
  undelegated ← pending_amount delegation;
  reward ← jget_int "reward" delegation;
  Ok (State (add_claim address (Stake amount undelegated reward) (claims st)) (validators st)).

(** The body of [for information in batch]. *)
Definition validator_step (st : state) (information : json) : result state :=
  validator ← jget "validator" information;
  ds ← jget "delegations" validator;
  ds ← jiter ds;
  foldM delegation_step st ds.

Definition add_validators (n : Z) (st : state) : state := State (claims st) (validators st + n).

Record args := Args { a_rpc : string; a_block : Z; a_output : string }.

(** [sorted(claims.items())] *)
Definition sorted_claims (m : gmap string stake) : list (string * stake) := sort_by (λ x y, str_leb x.1 y.1) (map_to_list m).

Definition header : list string := ["address"; "active_delegation_atto"; "pending_undelegation_atto"; "unclaimed_reward_atto"].

Definition record_of (ac : string * stake) : list string :=
  [ac.1; str_of_Z (active ac.2); str_of_Z (pending ac.2); str_of_Z (unclaimed ac.2)].

Definition total (f : stake → Z) (m : gmap string stake) : Z := sum_by (λ ac, f ac.2) (map_to_list m).

Definition report_json (a : args) (st : state) : json :=
  JObj [("block", JInt (a_block a)); ("validators", JInt (validators st)); ("delegators", JInt (Z.of_nat (size (claims st))));
        ("active_delegation_atto", JStr (str_of_Z (total active (claims st))));
        ("pending_undelegation_atto", JStr (str_of_Z (total pending (claims st))));
        ("unclaimed_reward_atto", JStr (str_of_Z (total unclaimed (claims st)))); ("output", JStr (a_output a))].

Section node.
Context (transport : nat → string → list json → result json).

(** The loop over the pages, then the table; the report is what is printed. *)
Definition main (fuel : nat) (a : args) : IO (state * json) :=
  st ← lift (scan_validators transport validator_step add_validators fuel (a_block a) 0 initial);
  put_new (a_output a) (csv_line_crlf <$> (header :: (record_of <$> sorted_claims (claims st)))) ≫= λ _,
  mret (st, report_json a st).
End node.

(** ** What the loops are meant to collect *)
Definition claim_of (delegation : json) : result (string * stake) :=
  a ← jget_str "delegator-address" delegation;
  address ← decode_one1 a;
  amount ← jget_int "amount" delegation;
  undelegated ← pending_amount delegation;
  reward ← jget_int "reward" delegation;
  Ok (address, Stake amount undelegated reward).

(** All claims that a validator lists. *)
Definition claims_of (information : json) : result (list (string * stake)) :=
  validator ← jget "validator" information;
  ds ← jget "delegations" validator;
  ds ← jiter ds;
  mapR claim_of ds.

Definition collect (m : gmap string stake) (l : list (string * stake)) : gmap string stake :=
  foldl (λ m ac, add_claim ac.1 ac.2 m) m l.

(** ** Lemmas *)
Lemma stake_delegation_spec st d :
  delegation_step st d = (ac ← claim_of d; Ok (State (add_claim ac.1 ac.2 (claims st)) (validators st))).
Proof.
  unfold delegation_step, claim_of. destruct (jget_str _ d) as [a|]; simpl; [|done]. destruct (decode_one1 a); simpl; [|done].
  destruct (jget_int "amount" d); simpl; [|done]. destruct (pending_amount d); simpl; [|done]. by destruct (jget_int "reward" d).
Qed.

Lemma collect_state st l :
  foldl (λ st ac, State (add_claim ac.1 ac.2 (claims st)) (validators st)) st l = State (collect (claims st) l) (validators st).
Proof. revert st. induction l as [|x l IH]; intros st; [by destruct st|]. cbn [foldl]. by rewrite IH. Qed.

Lemma stake_validator_spec st info :
  validator_step st info = (l ← claims_of info; Ok (State (collect (claims st) l) (validators st))).
Proof.
  unfold validator_step, claims_of. destruct (jget "validator" info) as [v|]; simpl; [|done]. destruct (jget "delegations" v) as [ds|]; simpl; [|done].
  destruct (jiter ds) as [l|]; simpl; [|done].
  rewrite (foldM_mapR _ claim_of (λ st ac, State (add_claim ac.1 ac.2 (claims st)) (validators st))) by (intros; apply stake_delegation_spec).
  destruct (mapR claim_of l) as [acs|]; simpl; [|done]. by rewrite collect_state.
Qed.

Lemma collect_join m ls : foldl collect m ls = collect m (mjoin (M:=list) ls).
Proof.
  revert m. induction ls as [|l ls IH]; intros m; [done|]. cbn [foldl]. rewrite IH. change (mjoin (l :: ls)) with (l ++ mjoin (M:=list) ls).
  unfold collect. by rewrite foldl_app.
Qed.

Lemma validators_spec st infos :
  foldM validator_step st infos = (ls ← mapR claims_of infos; Ok (State (collect (claims st) (mjoin (M:=list) ls)) (validators st))).
Proof.
  rewrite (foldM_mapR _ claims_of (λ st l, State (collect (claims st) l) (validators st))) by (intros; apply stake_validator_spec).
  destruct (mapR claims_of infos) as [ls|]; simpl; [|done]. f_equal. rewrite <-collect_join. generalize st.
  induction ls as [|l ls IH]; intros st1; [by destruct st1|]. cbn [foldl]. by rewrite IH.
Qed.

Lemma add_validators_0 st : add_validators 0 st = st.
Proof. destruct st. unfold add_validators. simpl. by rewrite Z.add_0_r. Qed.

Lemma add_validators_add n m st : add_validators n (add_validators m st) = add_validators (m + n) st.
Proof. unfold add_validators. simpl. f_equal. lia. Qed.

Lemma stake_validator_add n st x : validator_step (add_validators n st) x = add_validators n <$> validator_step st x.
Proof. rewrite !stake_validator_spec. by destruct (claims_of x). Qed.

(** One component of the collected claims is the tally of that component. *)
Lemma collect_tally (f : stake → Z) l :
  f no_stake = 0 → (∀ x y, f (add_stake x y) = f x + f y) → f <$> collect ∅ l = tally fst (f ∘ snd) ∅ l.
Proof.
  intros H0 Hadd. induction l as [|[a x] l IH] using rev_ind; [done|]. rewrite tally_snoc, <-IH. unfold collect. rewrite foldl_app. cbn [foldl fst snd].
  unfold add_claim, madd. rewrite fmap_insert, Hadd, lookup_fmap. cbn [compose fst snd]. f_equal.
  destruct (_ !! a) as [y|]; cbn [fmap option_fmap option_map default]; [done|]. by rewrite H0.
Qed.

Lemma total_msum f m : total f m = msum (f <$> m).
Proof.
  unfold total. induction m as [|k x m Hk IH] using map_ind; [done|]. rewrite fmap_insert, msum_insert_None by (by rewrite lookup_fmap, Hk).
  rewrite (sum_by_Permutation _ _ _ (map_to_list_insert m k x Hk)), sum_by_cons, IH. done.
Qed.

(** ** The table *)
Definition table_text (m : gmap string stake) : string := write_csv_crlf (header :: (record_of <$> sorted_claims m)).

Definition table_row (ac : string * stake) : row := dict_row header (record_of ac).

Lemma header_NoDup : NoDup header.
Proof. apply (bool_decide_unpack _). by vm_compute. Qed.

Lemma table_back m : dict_rows (table_text m) = table_row <$> sorted_claims m.
Proof.
  unfold table_text. rewrite dict_rows_crlf, dict_rows_write_csv; [by rewrite <-list_fmap_compose|]. by apply Forall_fmap, Forall_true.
Qed.

(** The three columns and what they are of. *)
Definition components : list (string * (stake → Z)) :=
  [("active_delegation_atto", active); ("pending_undelegation_atto", pending); ("unclaimed_reward_atto", unclaimed)].

Lemma claims_row_address ac : cell_str (table_row ac) "address" = Ok ac.1.
Proof. apply cell_str_Ok. by apply (dict_row_lookup _ _ 0); [apply header_NoDup|..]. Qed.

Lemma table_row_component ac k f : (k, f) ∈ components → cell_int (table_row ac) k = Ok (f ac.2).
Proof.
  intros Hk. unfold components in Hk. repeat (apply elem_of_cons in Hk as [[= -> ->]|Hk]); [| | |by apply not_elem_of_nil in Hk].
  - by apply (dict_row_int _ _ 1); [apply header_NoDup|..].
  - by apply (dict_row_int _ _ 2); [apply header_NoDup|..].
  - by apply (dict_row_int _ _ 3); [apply header_NoDup|..].
Qed.

Lemma component_laws k f : (k, f) ∈ components → f no_stake = 0 ∧ ∀ x y, f (add_stake x y) = f x + f y.
Proof.
  intros Hk. unfold components in Hk. repeat (apply elem_of_cons in Hk as [[= -> ->]|Hk]); [done..|by apply not_elem_of_nil in Hk].
Qed.

Lemma sorted_claims_keys m : (sorted_claims m).*1 = sort_by str_leb (map_to_list m).*1.
Proof. unfold sorted_claims. apply fmap_sort_by. Qed.

Lemma sorted_claims_sum (f : stake → Z) m : sum_by (λ ac, f ac.2) (sorted_claims m) = total f m.
Proof. apply sum_by_Permutation, sort_by_Permutation. Qed.

Lemma sorted_claims_elem m ac : ac ∈ sorted_claims m ↔ m !! ac.1 = Some ac.2.
Proof. unfold sorted_claims. rewrite (sort_by_Permutation _ _). destruct ac. apply elem_of_map_to_list. Qed.

Lemma column_total m k f : (k, f) ∈ components → sum_by (column k) (dict_rows (table_text m)) = total f m.
Proof.
  intros Hk. rewrite table_back, sum_by_fmap, <-sorted_claims_sum. apply sum_by_ext. intros ac _. unfold compose, column. by rewrite (table_row_component ac k f).
Qed.

Lemma staking_run transport fuel a w st report w' :
  main transport fuel a w = (Ok (st, report), w') →
  ∃ infos ls, listed transport (a_block a) 0 infos ∧ mapR claims_of infos = Ok ls ∧
    claims st = collect ∅ (mjoin (M:=list) ls) ∧ validators st = Z.of_nat (length infos) ∧ report = report_json a st ∧
    files w !! a_output a = None ∧ files w' = <[a_output a := table_text (claims st)]> (files w).
Proof.
  intros H. unfold main in H. apply io_bind_Ok in H as (st1 & w1 & [-> Hs]%lift_Ok & H).
  apply io_bind_Ok in H as (u & w1 & [Hn Hw]%put_new_Ok & H). apply mret_Ok in H as [-> [= <- <-]].
  apply scan_listed in Hs as (infos & st2 & Hl & Hf & ->); [|apply add_validators_0|apply add_validators_add|apply stake_validator_add].
  rewrite validators_spec in Hf. apply bind_Ok in Hf as (ls & Hls & [= <-]). exists infos, ls. split_and!; try done.
  unfold concat_texts in Hw. by rewrite concat_csv_lines_crlf in Hw.
Qed.

(** ** Theorems *)

(** What a finished run reports: the node lists these validators, each delegator has one row, in order, whose three amounts are
    the sums over all delegations to its address, and each of the reported totals, which are those of
    the columns, is the sum over all delegations of all validators. *)
Theorem staking_snapshot transport fuel a w st report w' :
  main transport fuel a w = (Ok (st, report), w') →
  ∃ infos ls, let cs := mjoin (M:=list) ls in
    listed transport (a_block a) 0 infos ∧ mapR claims_of infos = Ok ls ∧ validators st = Z.of_nat (length infos) ∧
    dom (claims st) = list_to_set cs.*1 ∧
    files w !! a_output a = None ∧ files w' = <[a_output a := table_text (claims st)]> (files w) ∧
    let rows := dict_rows (table_text (claims st)) in
    StronglySorted str_lt ((λ r, get EmptyString (cell_str r "address")) <$> rows) ∧
    ∀ k f, (k, f) ∈ components →
      jget k report = Ok (JStr (str_of_Z (sum_by (f ∘ snd) cs))) ∧ sum_by (column k) rows = sum_by (f ∘ snd) cs ∧
      ∀ r, r ∈ rows → ∃ x, cell_str r "address" = Ok x ∧ column k r = sum_by (f ∘ snd) (filter (λ ac, ac.1 = x) cs).
Proof.
  intros (infos & ls & Hl & Hls & Hc & Hv & -> & Hn & Hw)%staking_run. exists infos, ls. cbv zeta.
  assert (Htally : ∀ k f, (k, f) ∈ components → f <$> claims st = tally fst (f ∘ snd) ∅ (mjoin (M:=list) ls)).
  { intros k f Hk. destruct (component_laws k f Hk). rewrite Hc. by apply collect_tally. }
  split_and!; try done.
  - rewrite <-(dom_fmap_L active), (Htally "active_delegation_atto" active) by (by left). apply dom_tally.
  - rewrite table_back, <-list_fmap_compose. rewrite (list_fmap_ext _ fst (sorted_claims (claims st))) by (intros ???; unfold compose; by rewrite claims_row_address).
    rewrite sorted_claims_keys. apply sort_by_str_sorted, NoDup_fst_map_to_list.
  - intros k f Hk. assert (Htot : total f (claims st) = sum_by (f ∘ snd) (mjoin (M:=list) ls)).
    { by rewrite total_msum, (Htally k f Hk), msum_tally, (msum_empty (K := string)), Z.add_0_l. }
    split; [|split; [by rewrite (column_total _ k f)|]].
    + rewrite <-Htot. unfold components in Hk. by repeat (apply elem_of_cons in Hk as [[= -> ->]|Hk]); [..|apply not_elem_of_nil in Hk].
    + intros r Hr. rewrite table_back in Hr. apply list_elem_of_fmap in Hr as (ac & -> & Hin%sorted_claims_elem). exists ac.1.
      split; [apply claims_row_address|]. unfold column. rewrite (table_row_component ac k f Hk). cbn [get].
      assert (Hm : mget (f <$> claims st) ac.1 = f ac.2) by (unfold mget; by rewrite lookup_fmap, Hin).
      rewrite <-Hm, (Htally k f Hk), mget_tally, mget_empty. lia.
Qed.

(** When the node lists its validators on finitely many pages and each can be read, some fuel is enough for the
    loop over the pages, and the run ends with the table in place unless the file exists or an operation on it fails. *)
Theorem staking_terminates transport a infos ls :
  listed transport (a_block a) 0 infos → mapR claims_of infos = Ok ls →
  ∃ n, ∀ fuel w, (n ≤ fuel)%nat → files w !! a_output a = None → fault w = None →
    ∃ st w', main transport fuel a w = (Ok (st, report_json a st), w') ∧ claims st = collect ∅ (mjoin (M:=list) ls).
Proof.
  intros Hl Hls. destruct (scan_enough transport validator_step add_validators add_validators_0 add_validators_add stake_validator_add _ _ _ Hl) as (n & Hn).
  exists n. intros fuel w Hf Hfree Hfault. unfold main.
  assert (Hs := Hn fuel initial Hf). rewrite validators_spec, Hls in Hs. cbn [mbind result_bind fmap result_fmap] in Hs.
  rewrite (lift_bind_eq _ _ _ _ Hs). destruct (put_new_returns (a_output a) (csv_line_crlf <$> (header :: (record_of <$> sorted_claims (collect ∅ (mjoin (M:=list) ls))))) w Hfault Hfree)
    as (w1 & Hw1). cbn [claims add_validators initial]. rewrite (io_bind_eq _ _ _ _ _ Hw1). by eexists _, _.
Qed.

(** ** An example *)
Definition ex_delegation (address : string) (amount : Z) (undelegations : list Z) (reward : Z) : json :=
  JObj [("delegator-address", JStr address); ("amount", JStr (str_of_Z amount));
        ("undelegations", JArr ((λ n, JObj [("amount", JInt n); ("epoch", JInt 1)]) <$> undelegations)); ("reward", JInt reward)].

Definition ex_validator (ds : list json) : json := JObj [("validator", JObj [("delegations", JArr ds)])].

Definition ex_a : string := get EmptyString (to_bech32 "0x0707070707070707070707070707070707070707").
Definition ex_b : string := get EmptyString (to_bech32 "0x0505050505050505050505050505050505050505").

Definition ex_pages : list (list json) :=
  [[ex_validator [ex_delegation ex_a 100 [5; 6] 1; ex_delegation ex_b 20 [] 0]; ex_validator []]; [ex_validator [ex_delegation ex_a 3 [4] 2]]].

(** A node whose first attempt always fails. *)
Definition ex_transport : nat → string → list json → result json := λ attempt method params,
  match attempt, params with
  | O, _ => Err (OSError "reset")
  | _, JInt page :: _ => Ok (JObj [("result", JArr (default [] (ex_pages !! Z.to_nat page)))])
  | _, _ => Err TypeError
  end.

Definition ex_args : args := Args "http://node" 51085312 "claims.csv".
Definition ex_world : world := World ∅ None.
Definition ex_output : state * json := get (initial, JNull) (main ex_transport 3 ex_args ex_world).1.

Lemma ex_main_staking : main ex_transport 3 ex_args ex_world = (Ok (ex_output.1, ex_output.2), (main ex_transport 3 ex_args ex_world).2).
Proof. rewrite <-surjective_pairing. apply run_Ok, get_Ok. by vm_compute. Qed.

Example ex_claims : map_to_list (claims ex_output.1) =
  [("0x0505050505050505050505050505050505050505", Stake 20 0 0); ("0x0707070707070707070707070707070707070707", Stake 103 15 3)] ∨
  map_to_list (claims ex_output.1) =
  [("0x0707070707070707070707070707070707070707", Stake 103 15 3); ("0x0505050505050505050505050505050505050505", Stake 20 0 0)].
Proof. by vm_compute; auto. Qed.

Lemma ex_claims_listed : listed ex_transport 51085312 0 (default [] (ex_pages !! 0%nat) ++ default [] (ex_pages !! 1%nat) ++ []).
Proof.
  apply (listed_page _ _ 0 (JArr (default [] (ex_pages !! 0%nat)))); [by vm_compute..|].
  apply (listed_page _ _ 1 (JArr (default [] (ex_pages !! 1%nat)))); [by vm_compute..|].
  apply (listed_end _ _ 2 (JArr [])); by vm_compute.
Qed.

Lemma staking_snapshot_witness :
  files ex_world !! "claims.csv" = None ∧
  ∃ n, jget "active_delegation_atto" ex_output.2 = Ok (JStr (str_of_Z n)) ∧
       sum_by (column "active_delegation_atto") (dict_rows (table_text (claims ex_output.1))) = n.
Proof.
  destruct (staking_snapshot ex_transport 3 ex_args ex_world _ _ _ ex_main_staking) as (infos & ls & _ & _ & _ & _ & Hn & _ & _ & H).
  split; [exact Hn|]. destruct (H "active_delegation_atto" active) as (Hr & Hc & _); [left|].
  eexists. exact (conj Hr Hc).
Defined.

Lemma staking_terminates_witness :
  ∃ n, ∀ fuel, (n ≤ fuel)%nat → ∃ st w', main ex_transport fuel ex_args ex_world = (Ok (st, report_json ex_args st), w').
Proof.
  destruct (staking_terminates ex_transport ex_args _ (get [] (mapR claims_of (default [] (ex_pages !! 0%nat) ++ default [] (ex_pages !! 1%nat) ++ []))) ex_claims_listed)
    as (n & Hn); [apply get_Ok; by vm_compute|]. exists n. intros fuel Hf. destruct (Hn fuel ex_world Hf eq_refl eq_refl) as (st & w' & H & _). by exists st, w'.
Defined.
