(* ===== verification/ClaimsDiff.v ===== *)
(** * The change of all claims between two blocks

    toolkit/scripts/forensics/historical-claims-diff.py: joins a diff of liquid balances with the staking
    claims at both blocks (the tables of Staking.v), and lists for every address what changed, the largest gain first.

    [liquid_step] and [staking_step] are the loops over the input tables, [compare_step] that over the addresses. *)
From S2P Require Import Prelude PyStr PyData Sha256 Files Csv Staking.

Record liquid := Liquid { secure_key : option string; old_liquid : Z; new_liquid : Z }.

(** The default of [records.get]. *)
Definition no_liquid : liquid := Liquid (Some EmptyString) 0 0.

Record args := Args {
  a_liquid_diff : string;
  a_old_staking : string;
  a_new_staking : string;
  a_output : string;
}.

(** ** Reading *)

(** [claims[row["address"].lower()] = tuple(...)]: the tuple is evaluated first. *)
Definition staking_step (m : gmap string stake) (r : row) : result (gmap string stake) :=
  x ← cell_int r "active_delegation_atto";
  y ← cell_int r "pending_undelegation_atto";
  z ← cell_int r "unclaimed_reward_atto";
  a ← cell_str r "address";
  Ok (<[lower a := Stake x y z]> m).

Definition staking_of (text : string) : result (gmap string stake) := foldM staking_step ∅ (dict_rows text).

Definition read_staking (path : string) : IO (gmap string stake) :=
  text ← read path;
  lift (staking_of text).

Definition liquid_step (m : gmap string liquid) (r : row) : result (gmap string liquid) :=
  a ← cell_str r "address";
  let address := lower a in
  if bool_decide (address = EmptyString) then
    _ ← cell r "secure_key";
    Err (RuntimeError "missing preimage")
  else
    k ← cell r "secure_key";
    o ← cell_int r "old_balance_atto";
    n ← cell_int r "new_balance_atto";
    Ok (<[address := Liquid k o n]> m).

Definition liquid_of (text : string) : result (gmap string liquid) := foldM liquid_step ∅ (dict_rows text).

(** ** Comparing *)
Record change := Change { c_address : string; c_liquid : liquid; c_old : stake; c_new : stake }.

(** [deltas] *)
Definition liquid_delta (c : change) : Z := new_liquid (c_liquid c) - old_liquid (c_liquid c).
Definition stake_delta (f : stake → Z) (c : change) : Z := f (c_new c) - f (c_old c).

Definition deltas (c : change) : list Z := [liquid_delta c; stake_delta active c; stake_delta pending c; stake_delta unclaimed c].

(** [total = sum(deltas)] *)
Definition total_delta (c : change) : Z := zsum (deltas c).

(** [component_totals] *)
Record component_totals := Totals { t_liquid : Z; t_active : Z; t_pending : Z; t_unclaimed : Z; t_total : Z }.

Definition no_totals : component_totals := Totals 0 0 0 0 0.

Definition add_deltas (t : component_totals) (c : change) : component_totals :=
  Totals (t_liquid t + liquid_delta c) (t_active t + stake_delta active c) (t_pending t + stake_delta pending c)
    (t_unclaimed t + stake_delta unclaimed c) (t_total t + total_delta c).

Section tables.
Context (records : gmap string liquid) (old_staking new_staking : gmap string stake).

Definition change_of (address : string) : change :=
  Change address (default no_liquid (records !! address)) (default no_stake (old_staking !! address)) (default no_stake (new_staking !! address)).

(** [set(records) | set(old_staking) | set(new_staking)] *)
Definition addresses : gset string := dom records ∪ dom old_staking ∪ dom new_staking.

(** The body of [for address in addresses]. *)
Definition compare_step (s : list change * component_totals) (address : string) : list change * component_totals :=
  let c := change_of address in
  (s.1 ++ [c], add_deltas s.2 c).

(** [rows.sort(key=lambda row: (row[-1], row[0]), reverse=True)] *)
Definition change_leb (a b : change) : bool :=
  if total_delta b <? total_delta a then true else if total_delta a <? total_delta b then false
  else str_leb (c_address b) (c_address a).

Definition compare : list change * component_totals :=
  let s := foldl compare_step ([], no_totals) (elements addresses) in
  (sort_by change_leb s.1, s.2).
End tables.

(** ** The output *)
Definition diff_header : list string :=
  ["address"; "secure_key"; "old_liquid_atto"; "new_liquid_atto"; "liquid_delta_atto"; "active_delegation_delta_atto";
   "pending_undelegation_delta_atto"; "unclaimed_reward_delta_atto"; "old_active_delegation_atto"; "old_pending_undelegation_atto";
   "old_unclaimed_reward_atto"; "new_active_delegation_atto"; "new_pending_undelegation_atto"; "new_unclaimed_reward_atto";
   "total_claim_delta_atto"].

Definition stake_cells (x : stake) : list string := [str_of_Z (active x); str_of_Z (pending x); str_of_Z (unclaimed x)].

Definition change_record (c : change) : list string :=
  [c_address c; cell_text (secure_key (c_liquid c)); str_of_Z (old_liquid (c_liquid c)); str_of_Z (new_liquid (c_liquid c))] ++
  (str_of_Z <$> deltas c) ++ stake_cells (c_old c) ++ stake_cells (c_new c) ++ [str_of_Z (total_delta c)].

Definition extreme_json (c : change) : json :=
  JObj [("address", JStr (c_address c)); ("total_claim_delta_atto", JStr (str_of_Z (total_delta c)))].

Definition report_json (a : args) (rows : list change) (t : component_totals) (digest : string) : json :=
  JObj [("addresses", JInt (Z.of_nat (length rows))); ("liquid_delta_atto", JStr (str_of_Z (t_liquid t)));
        ("active_delegation_delta_atto", JStr (str_of_Z (t_active t)));
        ("pending_undelegation_delta_atto", JStr (str_of_Z (t_pending t)));
        ("unclaimed_reward_delta_atto", JStr (str_of_Z (t_unclaimed t))); ("total_claim_delta_atto", JStr (str_of_Z (t_total t)));
        ("output", JStr (a_output a)); ("output_sha256", JStr digest);
        ("top_positive", JArr (extreme_json <$> take 20 rows));
        ("top_negative", JArr (extreme_json <$> reverse (drop (length rows - 20) rows)))].

(** The hash is updated with each line as it is written. *)
Definition main (a : args) : IO (list change * component_totals * json) :=
  old_staking ← read_staking (a_old_staking a);
  new_staking ← read_staking (a_new_staking a);
  text ← read (a_liquid_diff a);
  records ← lift (liquid_of text);
  let rt := compare records old_staking new_staking in
  let lines := csv_line <$> (diff_header :: (change_record <$> rt.1)) in
  put_new (a_output a) lines ≫= λ _,
  mret (rt.1, rt.2, report_json a rt.1 rt.2 (hash_chunks (D := sha256_state) lines)).

(** ** Lemmas *)
Definition table_text (rows : list change) : string := write_csv (diff_header :: (change_record <$> rows)).
Definition table_row (c : change) : row := dict_row diff_header (change_record c).

(** A digest that is fed line by line. *)
Lemma hash_lines ts : hash_chunks (D := sha256_state) ts = sha256 (concat_texts ts).
Proof. unfold hash_chunks, concat_texts. rewrite update_chunks. by destruct ts. Qed.

Lemma changes_back rows : dict_rows (table_text rows) = table_row <$> rows.
Proof. unfold table_text. rewrite dict_rows_write_csv; [by rewrite <-list_fmap_compose|]. by apply Forall_fmap, Forall_true. Qed.

Lemma diff_header_NoDup : NoDup diff_header.
Proof. apply (bool_decide_unpack _). by vm_compute. Qed.

(** The columns of the table. *)
Definition columns : list (string * (change → Z)) :=
  [("old_liquid_atto", old_liquid ∘ c_liquid); ("new_liquid_atto", new_liquid ∘ c_liquid); ("liquid_delta_atto", liquid_delta);
   ("active_delegation_delta_atto", stake_delta active); ("pending_undelegation_delta_atto", stake_delta pending);
   ("unclaimed_reward_delta_atto", stake_delta unclaimed); ("old_active_delegation_atto", active ∘ c_old);
   ("old_pending_undelegation_atto", pending ∘ c_old); ("old_unclaimed_reward_atto", unclaimed ∘ c_old);
   ("new_active_delegation_atto", active ∘ c_new); ("new_pending_undelegation_atto", pending ∘ c_new);
   ("new_unclaimed_reward_atto", unclaimed ∘ c_new); ("total_claim_delta_atto", total_delta)].

Lemma column_at c i k f : columns !! i = Some (k, f) → cell_int (table_row c) k = Ok (f c).
Proof.
  intros Hi. apply (dict_row_int _ _ (2 + i)); [apply diff_header_NoDup|done| |];
    do 13 (destruct i as [|i]; [by injection Hi as <- <-|]); done.
Qed.

Lemma row_address c : cell_str (table_row c) "address" = Ok (c_address c).
Proof. apply cell_str_Ok. by apply (dict_row_lookup _ _ 0); [apply diff_header_NoDup|..]. Qed.

Lemma compare_loop records old_staking new_staking l :
  foldl (compare_step records old_staking new_staking) ([], no_totals) l =
  (change_of records old_staking new_staking <$> l, foldl add_deltas no_totals (change_of records old_staking new_staking <$> l)).
Proof.
  induction l as [|x l IH] using rev_ind; [done|]. rewrite foldl_app, IH, fmap_app, foldl_app. done.
Qed.

Lemma totals_sum l :
  foldl add_deltas no_totals l =
  Totals (sum_by liquid_delta l) (sum_by (stake_delta active) l) (sum_by (stake_delta pending) l) (sum_by (stake_delta unclaimed) l) (sum_by total_delta l).
Proof.
  induction l as [|x l IH] using rev_ind; [done|]. rewrite foldl_app, IH, !sum_by_snoc. done.
Qed.

Lemma change_leb_spec a b :
  change_leb a b = true ↔ total_delta b < total_delta a ∨ total_delta a = total_delta b ∧ str_leb (c_address b) (c_address a) = true.
Proof.
  unfold change_leb. destruct (Z.ltb_spec (total_delta b) (total_delta a)); [intuition lia|].
  destruct (Z.ltb_spec (total_delta a) (total_delta b)); intuition lia.
Qed.

Lemma change_leb_total a b : change_leb a b = true ∨ change_leb b a = true.
Proof.
  rewrite !change_leb_spec. destruct (Z.lt_total (total_delta a) (total_delta b)) as [|[|]]; [by right; left| |by left; left].
  destruct (str_leb_total (c_address a) (c_address b)); [right; right; by split|left; right; by split].
Qed.

Lemma change_leb_trans a b c : change_leb a b = true → change_leb b c = true → change_leb a c = true.
Proof.
  rewrite !change_leb_spec. intros [H1|[H1 H1']] [H2|[H2 H2']]; [left; lia..|]. right. split; [lia|]. by eapply str_leb_trans.
Qed.

(** The sum of what a dict has for some keys that include its own. *)
Lemma sum_over_dict {A} (f : A → Z) (d : A) (m : gmap string A) (ks : gset string) :
  f d = 0 → dom m ⊆ ks → sum_by (λ k, f (default d (m !! k))) (elements ks) = msum (f <$> m).
Proof.
  intros Hd Hs. rewrite (msum_keys_sub _ (elements ks)); [|apply NoDup_elements|rewrite dom_fmap_L; set_solver].
  apply sum_by_ext. intros k _. unfold mget. rewrite lookup_fmap. destruct (m !! k); [done|]. simpl. done.
Qed.

Lemma sum_by_sub {A} (f g : A → Z) l : sum_by (λ x, f x - g x) l = sum_by f l - sum_by g l.
Proof. induction l as [|x l IH]; [done|]. rewrite !sum_by_cons, IH. lia. Qed.

Section compare.
Context (records : gmap string liquid) (old_staking new_staking : gmap string stake).
Let ks : list string := elements (addresses records old_staking new_staking).
Let rows := (compare records old_staking new_staking).1.
Let totals := (compare records old_staking new_staking).2.

Lemma compare_rows : rows ≡ₚ change_of records old_staking new_staking <$> ks.
Proof. unfold rows, compare. rewrite compare_loop. apply sort_by_Permutation. Qed.

Lemma compare_addresses : NoDup (c_address <$> rows) ∧ ∀ x, x ∈ c_address <$> rows ↔ x ∈ addresses records old_staking new_staking.
Proof.
  assert (Hk : c_address <$> rows ≡ₚ ks).
  { rewrite compare_rows, <-list_fmap_compose. by rewrite list_fmap_id. }
  split; [rewrite Hk; apply NoDup_elements|]. intros x. rewrite Hk. apply elem_of_elements.
Qed.

Lemma compare_change c : c ∈ rows → c = change_of records old_staking new_staking (c_address c).
Proof. rewrite compare_rows. by intros (x & -> & _)%list_elem_of_fmap. Qed.

Lemma compare_totals :
  totals = Totals (sum_by liquid_delta rows) (sum_by (stake_delta active) rows) (sum_by (stake_delta pending) rows)
             (sum_by (stake_delta unclaimed) rows) (sum_by total_delta rows).
Proof.
  unfold totals, compare. rewrite compare_loop. cbn [snd]. rewrite totals_sum. unfold rows, compare. rewrite compare_loop. cbn [fst].
  f_equal; symmetry; apply sum_by_Permutation, sort_by_Permutation.
Qed.

Lemma sum_stake f : f no_stake = 0 → sum_by (stake_delta f) rows = msum (f <$> new_staking) - msum (f <$> old_staking).
Proof.
  intros H0. rewrite (sum_by_Permutation _ _ _ compare_rows), sum_by_fmap. unfold compose, stake_delta. rewrite sum_by_sub. cbn [change_of c_new c_old].
  unfold ks. rewrite (sum_over_dict f no_stake new_staking), (sum_over_dict f no_stake old_staking); [done|done|unfold addresses; set_solver|done|unfold addresses; set_solver].
Qed.

Lemma sum_liquid : sum_by liquid_delta rows = msum (new_liquid <$> records) - msum (old_liquid <$> records).
Proof.
  rewrite (sum_by_Permutation _ _ _ compare_rows), sum_by_fmap. unfold compose, liquid_delta. rewrite sum_by_sub. cbn [change_of c_liquid].
  unfold ks. rewrite (sum_over_dict new_liquid no_liquid records), (sum_over_dict old_liquid no_liquid records); [done|done|unfold addresses; set_solver|done|unfold addresses; set_solver].
Qed.

Lemma sum_total :
  sum_by total_delta rows = sum_by liquid_delta rows + sum_by (stake_delta active) rows + sum_by (stake_delta pending) rows + sum_by (stake_delta unclaimed) rows.
Proof. rewrite <-!sum_by_add. apply sum_by_ext. intros c _. unfold total_delta, deltas. simpl. lia. Qed.

Lemma compare_sorted : StronglySorted (λ x y, total_delta y ≤ total_delta x) rows.
Proof.
  eapply StronglySorted_weaken; [|apply (sort_by_sorted change_leb change_leb_total change_leb_trans)]. intros x y Hxy%change_leb_spec. lia.
Qed.
End compare.

Lemma main_run_diff a w rows t report w' :
  main a w = (Ok (rows, t, report), w') →
  ∃ old_text new_text text old_staking new_staking records,
    files w !! a_old_staking a = Some old_text ∧ staking_of old_text = Ok old_staking ∧
    files w !! a_new_staking a = Some new_text ∧ staking_of new_text = Ok new_staking ∧
    files w !! a_liquid_diff a = Some text ∧ liquid_of text = Ok records ∧ compare records old_staking new_staking = (rows, t) ∧
    files w !! a_output a = None ∧ files w' = <[a_output a := table_text rows]> (files w) ∧
    report = report_json a rows t (sha256 (table_text rows)).
Proof.
  intros H. unfold main in H. apply io_bind_Ok in H as (o & w1 & Ho & H). apply io_bind_Ok in Ho as (ot & w2 & [-> Hot]%read_Ok & [-> Ho]%lift_Ok).
  apply io_bind_Ok in H as (n & w1 & Hn & H). apply io_bind_Ok in Hn as (nt & w2 & [-> Hnt]%read_Ok & [-> Hn]%lift_Ok).
  apply io_bind_Ok in H as (text & w1 & [-> Ht]%read_Ok & H). apply io_bind_Ok in H as (records & w1 & [-> Hr]%lift_Ok & H). cbv zeta in H.
  apply io_bind_Ok in H as (u & w1 & [Hfree Hw]%put_new_Ok & H). apply mret_Ok in H as [-> H].
  rewrite hash_lines in H. unfold concat_texts in *. rewrite concat_csv_lines in *. fold (table_text (compare records o n).1) in *.
  destruct (compare records o n) as [rs ts] eqn:Hc. cbn [fst snd] in *.
  pose proof (f_equal snd H) as Hrep. pose proof (f_equal (fst ∘ fst) H) as Hrows. pose proof (f_equal (snd ∘ fst) H) as Ht1. cbn [compose fst snd] in *. subst rs ts.
  exists ot, nt, text, o, n, records. by split_and!.
Qed.

(** ** Theorem *)

(** C39 (invariant): what the comparison of two blocks lists: each address of the three tables once, what it held at
    both blocks, and the largest gain first; the five reported totals are the differences between the totals
    of the tables at the two blocks, the last the sum of the other four; the table reads back with
    every column, and the digest reported is its digest. *)
Theorem claims_compared a w rows t report w' :
  main a w = (Ok (rows, t, report), w') →
  ∃ old_text new_text text old_staking new_staking records,
    (files w !! a_old_staking a = Some old_text ∧ staking_of old_text = Ok old_staking) ∧
    (files w !! a_new_staking a = Some new_text ∧ staking_of new_text = Ok new_staking) ∧
    (files w !! a_liquid_diff a = Some text ∧ liquid_of text = Ok records) ∧
    NoDup (c_address <$> rows) ∧ (∀ x, x ∈ c_address <$> rows ↔ x ∈ dom records ∪ dom old_staking ∪ dom new_staking) ∧
    (∀ c, c ∈ rows → c_liquid c = default no_liquid (records !! c_address c) ∧ c_old c = default no_stake (old_staking !! c_address c) ∧
                     c_new c = default no_stake (new_staking !! c_address c)) ∧
    StronglySorted (λ x y, total_delta y ≤ total_delta x) rows ∧
    t_liquid t = msum (new_liquid <$> records) - msum (old_liquid <$> records) ∧
    t_active t = msum (active <$> new_staking) - msum (active <$> old_staking) ∧
    t_pending t = msum (pending <$> new_staking) - msum (pending <$> old_staking) ∧
    t_unclaimed t = msum (unclaimed <$> new_staking) - msum (unclaimed <$> old_staking) ∧
    t_total t = t_liquid t + t_active t + t_pending t + t_unclaimed t ∧
    files w !! a_output a = None ∧ files w' = <[a_output a := table_text rows]> (files w) ∧
    Forall2 (λ c r, cell_str r "address" = Ok (c_address c) ∧ ∀ k f, (k, f) ∈ columns → cell_int r k = Ok (f c)) rows (dict_rows (table_text rows)) ∧
    report = report_json a rows t (sha256 (table_text rows)).
Proof.
  intros (ot & nt & text & o & n & records & Hot & Ho & Hnt & Hn & Ht & Hr & Hc & Hfree & Hw & ->)%main_run_diff.
  exists ot, nt, text, o, n, records.
  pose proof (compare_addresses records o n) as [Hnd Hdom]. pose proof (compare_change records o n) as Hrow.
  pose proof (compare_sorted records o n) as Hs. pose proof (compare_totals records o n) as Htot.
  pose proof (sum_liquid records o n) as H1. pose proof (sum_stake records o n) as H2. pose proof (sum_total records o n) as H3.
  rewrite Hc in *. cbn [fst snd] in *. subst t. cbn [t_liquid t_active t_pending t_unclaimed t_total].
  split_and!; try done; try by apply H2.
  - intros c Hin. rewrite (Hrow c Hin). done.
  - rewrite changes_back. apply Forall2_fmap_r, Forall_Forall2_diag, Forall_true. intros c. split; [apply row_address|].
    intros k f [i Hi]%list_elem_of_lookup. by apply (column_at c i).
Qed.

(** ** An example *)
Definition ex_diff : string := write_csv [["secure_key"; "address"; "old_balance_atto"; "new_balance_atto"]; ["k1"; "0xAA"; "10"; "3"]; ["k2"; "0xbb"; "0"; "9"]].
Definition ex_old : string := write_csv_crlf [header; ["0xaa"; "5"; "0"; "0"]; ["0xcc"; "1"; "2"; "3"]].
Definition ex_new : string := write_csv_crlf [header; ["0xaa"; "0"; "5"; "1"]].

Definition ex_diff_args : args := Args "diff.csv" "old.csv" "new.csv" "claims.csv".
Definition ex_diff_world : world := World (list_to_map [("diff.csv", ex_diff); ("old.csv", ex_old); ("new.csv", ex_new)]) None.
Definition ex_diff_output : list change * component_totals * json := get ([], no_totals, JNull) (main ex_diff_args ex_diff_world).1.

Lemma ex_main_claims :
  main ex_diff_args ex_diff_world = (Ok (ex_diff_output.1.1, ex_diff_output.1.2, ex_diff_output.2), (main ex_diff_args ex_diff_world).2).
Proof. rewrite <-!surjective_pairing. apply run_Ok, get_Ok. by vm_compute. Qed.

Example ex_changes : ex_diff_output.1.2 = Totals 2 (-6) 3 (-2) (-3) ∧
  (λ c, (c_address c, total_delta c)) <$> ex_diff_output.1.1 = [("0xbb", 9); ("0xcc", -6); ("0xaa", -6)].
Proof. split; by vm_compute. Qed.

Lemma claims_compared_witness :
  StronglySorted (λ x y, total_delta y ≤ total_delta x) ex_diff_output.1.1 ∧
  let t := ex_diff_output.1.2 in t_total t = t_liquid t + t_active t + t_pending t + t_unclaimed t.
Proof.
  destruct (claims_compared ex_diff_args ex_diff_world _ _ _ _ ex_main_claims)
    as (ot & nt & text & o & n & records & _ & _ & _ & _ & _ & _ & Hs & _ & _ & _ & _ & Ht & _). exact (conj Hs Ht).
Defined.
