(* ===== verification/RevertLeak.v ===== *)
(** * Withheld revert-leak credit

    toolkit/scripts/addresses/build-revert-leak-retention.py: every destination of a proven
    revert-leak receipt loses the credited amount, capped at what it still holds at the cutoff
    after earlier non-issuance.

    [build] is [main] up to the rows; [main] adds the CSV export and its summary.  The receipts
    come from the source audit (SourceAudit.v), the claims from the ledger (Ledger.v), and the
    non-issuance audit (NonIssuance.v) checks the export again. *)
From S2P Require Import Prelude PyStr PyData Sha256 Files Csv Bech32.

Definition LEAK_CLASSIFICATIONS : list string := ["rollback_leak"; "source_debit_absent"].

(** [INCIDENT_LABELS.get(label, label)] *)
Definition incident_label (label : string) : string :=
  if decide (label = "smaller-2026") then "june-july-2026" else label.

Definition FIELDS : list string :=
  ["address_bech32"; "address_hex"; "incident"; "unbacked_credit_atto"; "leak_receipts";
   "cutoff_native_claim_atto"; "prior_non_issuance_atto"; "retained_cap_atto"; "retained_cap_one";
   "cutoff_block"; "source_evidence"; "migration_treatment"].

Record args := Args {
  a_receipt_audit : list string;
  a_exploit_transactions : string;
  a_claims : string;
  a_prior_retention : list string;
  a_prior_non_issuance : list string;
  a_cutoff_block : Z;
  a_output_csv : string;
  a_summary_output : string;
  a_replace : bool;
}.

Definition file_sha256 : string → IO string := file_sha256_at (Z.to_nat (4 * 1024 * 1024)).

Definition write_atomic (path : string) (texts : list string) (replace : bool) : IO unit :=
  b ← exists_ (partial path);
  lift (raise_when b (FileExistsError (partial path))) ≫= λ _,
  b ← exists_ path;
  lift (raise_when ((b : bool) && negb replace) (FileExistsError path)) ≫= λ _,
  publish path texts.

(** ** The leaks *)
Abbreviation receipt_key := (list (option string)).

Record leaks := Leaks {
  lk_credit : gmap string Z;
  lk_receipts : gmap string Z;
  lk_incidents : gmap string (gset (option string));
  lk_seen : gset receipt_key;
}.

Definition no_leaks : leaks := Leaks ∅ ∅ ∅ ∅.

(** [row.get(k, "")] *)
Definition cell_or_empty (r : row) (k : string) : option string := default (Some EmptyString) (r !! k).

(** [(row.get("source_transaction_hash") or "").lower()] *)
Definition source_tx (r : row) : string := lower (cell_text (cell_get r "source_transaction_hash")).

Definition is_leak (r : row) : bool :=
  match cell_get r "classification" with Some c => bool_decide (c ∈ LEAK_CLASSIFICATIONS) | None => false end.

Definition leak_key (r : row) : result receipt_key :=
  tx ← cell_str r "tx_hash";
  Ok [Some (lower tx); cell_or_empty r "receipt_index"; cell_or_empty r "destination_block"].

(** The body of the loop of [load_leaks]. *)
Definition leak_step (incident_by_tx : gmap string (option string)) (s : leaks) (r : row) : result leaks :=
  if negb (is_leak r) then Ok s
  else
    key ← leak_key r;
    if bool_decide (key ∈ lk_seen s) then Ok s
    else
      to ← cell_str r "to";
      let address := lower to in
      amount ← cell_int r "amount_atto";
      raise_when (amount <=? 0) (ValueError "non-positive leak receipt");;
      let label := default (Some "unattributed") (incident_by_tx !! source_tx r) in
      Ok (Leaks (madd address amount (lk_credit s)) (madd address 1 (lk_receipts s))
            (<[address := {[label]} ∪ default ∅ (lk_incidents s !! address)]> (lk_incidents s))
            ({[key]} ∪ lk_seen s)).

Definition load_leaks (paths : list string) (incident_by_tx : gmap string (option string)) : IO leaks :=
  fold_io (λ s path, text ← read path; lift (foldM (leak_step incident_by_tx) s (dict_rows text)))
    no_leaks paths.

(** ** Earlier non-issuance and claims *)
Definition prior_step (field : string) (amounts : gmap string Z) (r : row) : result (gmap string Z) :=
  a ← cell_str r "address_hex";
  n ← cell_int r field;
  Ok (madd (lower a) n amounts).

Definition load_prior (paths : list string) (field : string) : IO (gmap string Z) :=
  fold_io (λ m path, text ← read path; lift (foldM (prior_step field) m (dict_rows text))) ∅ paths.

(** [for address, amount in other.items(): prior[address] += amount] *)
Definition add_prior (prior other : gmap string Z) : gmap string Z := tally fst snd prior (map_to_list other).

Definition claim_step (wanted : gset string) (claims : gmap string Z) (r : row) : result (gmap string Z) :=
  a ← cell_str r "address";
  let address := lower a in
  if bool_decide (address ∈ wanted) then
    raise_when (bool_decide (is_Some (claims !! address))) (ValueError "duplicate claim row");;
    n ← cell_int r "native_total_claim_atto";
    Ok (<[address := n]> claims)
  else Ok claims.

Definition load_claims (path : string) (wanted : gset string) : IO (gmap string Z) :=
  text ← read path;
  lift (foldM (claim_step wanted) ∅ (dict_rows text)).

(** [incident_by_tx[row["transaction_hash"].lower()] = row["incident"]] *)
Definition incident_step (m : gmap string (option string)) (r : row) : result (gmap string (option string)) :=
  tx ← cell_str r "transaction_hash";
  i ← cell r "incident";
  Ok (<[lower tx := i]> m).

(** ** The rows *)
Record retained := Retained {
  rt_bech32 : string;
  rt_address : string;
  rt_incident : string;
  rt_credit : Z;
  rt_receipts : Z;
  rt_claim : Z;
  rt_prior : Z;
  rt_withheld : Z;
}.

Record stats := Stats { st_recipients : Z; st_credit : Z; st_positive : Z; st_not_issued : Z }.

Definition no_stats : stats := Stats 0 0 0 0.

(** The labels of an address joined; a label that is [None] can be neither sorted nor joined. *)
Definition joined_incident (labels : gset (option string)) : result string :=
  l ← mapR (λ o, of_option o TypeError) (elements labels);
  Ok (join "+" (sort_by str_leb (incident_label <$> l))).

(** [min(credit, max(claim - prior, 0))] *)
Definition withhold (credit claim prior : Z) : Z := Z.min credit (Z.max (claim - prior) 0).

(** The body of [for address in sorted(credit)]. *)
Definition address_step (lk : leaks) (prior claims : gmap string Z) (s : list retained * gmap string stats)
    (address : string) : result (list retained * gmap string stats) :=
  let '(rows, by_incident) := s in
  incident ← joined_incident (default ∅ (lk_incidents lk !! address));
  let credit := mget (lk_credit lk) address in
  let claim := default 0 (claims !! address) in
  let p := mget prior address in
  let withheld := withhold credit claim p in
  let st := default no_stats (by_incident !! incident) in
  if withheld =? 0 then
    Ok (rows, <[incident := Stats (st_recipients st + 1) (st_credit st + credit) (st_positive st) (st_not_issued st)]>
                by_incident)
  else
    bech32 ← to_bech32 address;
    Ok (rows ++ [Retained bech32 address incident credit (mget (lk_receipts lk) address) claim p withheld],
        <[incident := Stats (st_recipients st + 1) (st_credit st + credit) (st_positive st + 1)
                        (st_not_issued st + withheld)]> by_incident).

Definition sorted_addresses (m : gmap string Z) : list string := sort_by str_leb (elements (dom m)).

Record built := Built {
  b_leaks : leaks;
  b_prior : gmap string Z;
  b_claims : gmap string Z;
  b_rows : list retained;
  b_by_incident : gmap string stats;
}.

(** [main] up to the rows. *)
Definition build (a : args) : IO built :=
  text ← read (a_exploit_transactions a);
  incident_by_tx ← lift (foldM incident_step ∅ (dict_rows text));
  lk ← load_leaks (a_receipt_audit a) incident_by_tx;
  retention ← load_prior (a_prior_retention a) "retained_cap_atto";
  non_issuance ← load_prior (a_prior_non_issuance a) "not_issued_atto";
  let prior := add_prior retention non_issuance in
  claims ← load_claims (a_claims a) (dom (lk_credit lk));
  '(rows, by_incident) ← lift (foldM (address_step lk prior claims) ([], ∅) (sorted_addresses (lk_credit lk)));
  mret (Built lk prior claims rows by_incident).

(** ** The export and its summary *)
Definition record_of (cutoff_block : Z) (r : retained) : list string :=
  [rt_bech32 r; rt_address r; rt_incident r; str_of_Z (rt_credit r); str_of_Z (rt_receipts r);
   str_of_Z (rt_claim r); str_of_Z (rt_prior r); str_of_Z (rt_withheld r); display_one (rt_withheld r);
   str_of_Z cutoff_block; "proven revert-leak receipts (cx-source-audit classification)"; "not_issued"].

Definition rows_table (cutoff_block : Z) (rows : list retained) : list (list string) :=
  FIELDS :: (record_of cutoff_block <$> rows).

Definition total_credit (b : built) : Z := msum (lk_credit (b_leaks b)).
Definition total_withheld (b : built) : Z := sum_by rt_withheld (b_rows b).

Definition stats_json (s : stats) : json :=
  JObj [("recipients", JInt (st_recipients s));
        ("unbacked_credit_atto", JStr (str_of_Z (st_credit s)));
        ("unbacked_credit_one", JStr (display_one (st_credit s)));
        ("positive_rows", JInt (st_positive s));
        ("not_issued_atto", JStr (str_of_Z (st_not_issued s)));
        ("not_issued_one", JStr (display_one (st_not_issued s)))].

Definition summary_json (a : args) (b : built) (sources outputs : json) : json :=
  JObj [("status", JStr "passed");
        ("_provenance", JObj
           [("classification", JStr "policy scenario");
            ("factual_input", JStr "proven revert-leak receipts and cutoff-pinned native claims");
            ("note", JStr "the credited amounts are factual; not issuing them is a migration policy")]);
        ("rule", JStr "for each destination credited by a proven revert-leak receipt, do not issue min(total credited, native cutoff claim minus earlier non-issuance)");
        ("leak_classifications", JArr (JStr <$> LEAK_CLASSIFICATIONS));
        ("leak_receipts", JInt (Z.of_nat (size (lk_seen (b_leaks b)))));
        ("credited_recipients", JInt (Z.of_nat (size (lk_credit (b_leaks b)))));
        ("unbacked_credit_atto", JStr (str_of_Z (total_credit b)));
        ("unbacked_credit_one", JStr (display_one (total_credit b)));
        ("positive_rows", JInt (Z.of_nat (length (b_rows b))));
        ("not_issued_atto", JStr (str_of_Z (total_withheld b)));
        ("not_issued_one", JStr (display_one (total_withheld b)));
        ("addresses_with_earlier_non_issuance",
           JArr (JStr <$> filter (λ x, mget (b_prior b) x ≠ 0) (sorted_addresses (lk_credit (b_leaks b)))));
        ("by_incident", JObj (prod_map id stats_json <$> map_to_list (b_by_incident b)));
        ("cutoff_block", JInt (a_cutoff_block a));
        ("sources", sources);
        ("outputs", outputs)].

Section resolve.
Context (resolve : string → list string).

(** [{"name": portable_source_name(Path(p)), "sha256": sha256(p)}] *)
Definition source_entry (path : string) : IO json :=
  digest ← file_sha256 path;
  mret (JObj [("name", JStr (portable_source_name resolve path)); ("sha256", JStr digest)]).

Definition summary (a : args) (b : built) : IO json :=
  receipt_audits ← map_io source_entry (a_receipt_audit a);
  exploit_transactions ← source_entry (a_exploit_transactions a);
  claims ← source_entry (a_claims a);
  prior_retention ← map_io source_entry (a_prior_retention a);
  prior_non_issuance ← map_io source_entry (a_prior_non_issuance a);
  csv_sha256 ← file_sha256 (a_output_csv a);
  mret (summary_json a b
    (JObj [("receipt_audits", JArr receipt_audits); ("exploit_transactions", exploit_transactions);
           ("claims", claims); ("prior_retention", JArr prior_retention);
           ("prior_non_issuance", JArr prior_non_issuance)])
    (JObj [("csv", JStr (file_name (a_output_csv a))); ("csv_sha256", JStr csv_sha256);
           ("rows", JInt (Z.of_nat (length (b_rows b))))])).

Definition main (a : args) : IO built :=
  b ← build a;
  write_atomic (a_output_csv a) (csv_line <$> rows_table (a_cutoff_block a) (b_rows b)) (a_replace a) ≫= λ _,
  s ← summary a b;
  write_atomic (a_summary_output a) [dumps s; newline] (a_replace a) ≫= λ _,
  mret b.
End resolve.

(** ** What the loops are meant to compute *)

(** The first row of each distinct leak receipt, in order. *)
Fixpoint keep_first (seen : gset receipt_key) (rows : list row) : list row :=
  match rows with
  | [] => []
  | r :: rows =>
      let k := get [] (leak_key r) in
      if is_leak r && bool_decide (k ∉ seen) then r :: keep_first ({[k]} ∪ seen) rows
      else keep_first seen rows
  end.

Definition row_key (r : row) : receipt_key := get [] (leak_key r).
Definition row_to (r : row) : string := lower (get EmptyString (cell_str r "to")).
Definition row_amount (r : row) : Z := get 0 (cell_int r "amount_atto").

(** ** Lemmas *)
Lemma keep_first_seen seen rows r : r ∈ keep_first seen rows → r ∈ rows ∧ is_leak r = true ∧ row_key r ∉ seen.
Proof.
  revert seen. induction rows as [|x rows IH]; intros seen; simpl; [by intros ?%not_elem_of_nil|].
  destruct (is_leak x && bool_decide (get [] (leak_key x) ∉ seen)) eqn:E.
  - bool_facts. intros [->|H1]%elem_of_cons; [split_and!; [by left|done|done]|].
    apply IH in H1 as (? & ? & Hs). split_and!; [by right|done|]. intros Hin. apply Hs. by apply elem_of_union_r.
  - intros H1. apply IH in H1 as (? & ? & ?). split_and!; [by right|done|done].
Qed.

Lemma keep_first_NoDup seen rows : NoDup (row_key <$> keep_first seen rows).
Proof.
  revert seen. induction rows as [|x rows IH]; intros seen; simpl; [constructor|].
  destruct (is_leak x && _); [|apply IH]. rewrite fmap_cons. constructor; [|apply IH].
  intros (r & Hr & (_ & _ & Hs)%keep_first_seen)%list_elem_of_fmap. apply Hs, elem_of_union_l.
  rewrite <-Hr. by apply elem_of_singleton.
Qed.

(** Every leak row is represented. *)
Lemma keep_first_complete seen rows r :
  r ∈ rows → is_leak r = true → row_key r ∈ seen ∨ row_key r ∈ row_key <$> keep_first seen rows.
Proof.
  revert seen. induction rows as [|x rows IH]; intros seen Hr Hl; [by apply not_elem_of_nil in Hr|]. simpl.
  apply elem_of_cons in Hr as [->|Hr].
  - rewrite Hl. simpl. case_bool_decide as Hs; [right; rewrite fmap_cons; by left|]. left. exact Hs.
  - destruct (is_leak x && _) eqn:E; [|by apply IH].
    destruct (IH ({[get [] (leak_key x)]} ∪ seen) Hr Hl) as [[->%elem_of_singleton|?]%elem_of_union|?].
    + right. rewrite fmap_cons. by left.
    + by left.
    + right. rewrite fmap_cons. by right.
Qed.

Lemma keep_first_all_seen seen rows :
  (∀ r, r ∈ rows → is_leak r = true → row_key r ∈ seen) → keep_first seen rows = [].
Proof.
  induction rows as [|x rows IH]; intros H; simpl; [done|].
  rewrite IH by (intros; apply H; [by right|done]).
  destruct (is_leak x) eqn:El; simpl; [|done]. rewrite bool_decide_eq_false_2; [done|].
  intros Hn. apply Hn, (H x); [by left|done].
Qed.

(** The state after some rows: the tallies of the rows kept. *)
Record tallied (rows : list row) (s s' : leaks) : Prop := {
  tl_credit : lk_credit s' = tally row_to row_amount (lk_credit s) (keep_first (lk_seen s) rows);
  tl_receipts : lk_receipts s' = tally row_to (λ _, 1) (lk_receipts s) (keep_first (lk_seen s) rows);
  tl_seen : lk_seen s' = list_to_set (row_key <$> keep_first (lk_seen s) rows) ∪ lk_seen s;
  tl_positive : Forall (λ r, 0 < row_amount r) (keep_first (lk_seen s) rows);
}.

Lemma leak_step_Ok m s r s' :
  leak_step m s r = Ok s' →
  (s' = s ∧ keep_first (lk_seen s) [r] = []) ∨
  (keep_first (lk_seen s) [r] = [r] ∧ 0 < row_amount r ∧
   lk_credit s' = madd (row_to r) (row_amount r) (lk_credit s) ∧
   lk_receipts s' = madd (row_to r) 1 (lk_receipts s) ∧ lk_seen s' = {[row_key r]} ∪ lk_seen s).
Proof.
  unfold leak_step, row_to, row_amount, row_key. simpl. destruct (is_leak r); simpl; [|intros [= <-]; by left].
  destruct (leak_key r) as [k|]; simpl; [|done]. case_bool_decide as Hk; intros H.
  - injection H as <-. left. split; [done|]. by rewrite bool_decide_eq_false_2 by tauto.
  - inv_ok H. subst s'. bool_facts. right. rewrite bool_decide_eq_true_2 by done.
    rewrite E, E0. by split_and!.
Qed.

Lemma keep_first_cons seen r rows :
  keep_first seen (r :: rows) =
  match keep_first seen [r] with
  | [] => keep_first seen rows
  | _ => r :: keep_first ({[row_key r]} ∪ seen) rows
  end.
Proof. simpl. by destruct (is_leak r && _). Qed.

Lemma load_rows_Ok m s rows s' : foldM (leak_step m) s rows = Ok s' → tallied rows s s'.
Proof.
  revert s. induction rows as [|r rows IH]; intros s H; cbn [foldM] in H.
  - injection H as <-. split; simpl; [done..|by rewrite union_empty_l_L|constructor].
  - apply bind_Ok in H as (s1 & H1 & H). apply IH in H as [Hc Hr Hs Hp].
    apply leak_step_Ok in H1 as [[-> Hk]|(Hk & Hpos & Hc1 & Hr1 & Hs1)].
    + split; rewrite keep_first_cons, Hk; done.
    + rewrite Hs1 in *. split; rewrite keep_first_cons, Hk; [by rewrite Hc, Hc1|by rewrite Hr, Hr1| |by constructor].
      rewrite Hs, fmap_cons, list_to_set_cons, union_assoc_L. f_equal. apply union_comm_L.
Qed.

Lemma load_leaks_loop m paths s w s' w' :
  fold_io (λ s path, text ← read path; lift (foldM (leak_step m) s (dict_rows text))) s paths w = (Ok s', w') →
  w' = w ∧ ∃ texts, mapR (λ p, (read p w).1) paths = Ok texts ∧
    foldM (leak_step m) s (mjoin (dict_rows <$> texts)) = Ok s'.
Proof.
  revert s w. induction paths as [|p paths IH]; intros s w H; cbn [fold_io] in H.
  - apply mret_Ok in H as [-> ->]. split; [done|]. by exists [].
  - apply io_bind_Ok in H as (s1 & w1 & H1 & H). apply io_bind_Ok in H1 as (t & w2 & Ht & H1).
    apply lift_Ok in H1 as [-> H1]. apply read_Ok in Ht as Ht'. destruct Ht' as [-> Hf].
    apply IH in H as [-> (texts & Hts & Hfold)]. split; [done|]. exists (t :: texts).
    cbn [mapR]. rewrite Ht, Hts. cbn. by rewrite foldM_app, H1.
Qed.

(** A leak row whose key is in [lk_seen] changes nothing. *)
Lemma load_rows_seen m s rows :
  (∀ r, r ∈ rows → is_leak r = true → ∃ k, leak_key r = Ok k ∧ k ∈ lk_seen s) →
  foldM (leak_step m) s rows = Ok s.
Proof.
  induction rows as [|r rows IH]; intros H; cbn [foldM]; [done|].
  assert (leak_step m s r = Ok s) as ->.
  { unfold leak_step. destruct (is_leak r) eqn:El; simpl; [|done].
    destruct (H r) as (k & -> & Hk); [by left|done|]. simpl. by rewrite bool_decide_eq_true_2. }
  apply IH. intros x Hx. apply H. by right.
Qed.

(** A loop that returned has read every leak row's key. *)
Lemma load_rows_keys m s rows s' :
  foldM (leak_step m) s rows = Ok s' →
  ∀ r, r ∈ rows → is_leak r = true → ∃ k, leak_key r = Ok k ∧ k ∈ lk_seen s'.
Proof.
  intros H r Hr Hl. destruct (foldM_Ok_elem _ _ _ _ _ H Hr) as (s1 & s2 & Hs).
  apply load_rows_Ok in H as [_ _ Hseen _]. unfold leak_step in Hs. rewrite Hl in Hs. simpl in Hs.
  destruct (leak_key r) as [k|] eqn:Ek; [|done]. exists k. split; [done|].
  rewrite Hseen. assert (row_key r = k) as <- by (unfold row_key; by rewrite Ek).
  destruct (keep_first_complete (lk_seen s) rows r Hr Hl) as [Hin|Hin]; [by apply elem_of_union_r|].
  apply elem_of_union_l. by apply elem_of_list_to_set.
Qed.

(** Adding the entries of a dict adds the dicts. *)
Lemma sum_map_to_list_key (m : gmap string Z) k :
  sum_by snd (filter (λ kv, kv.1 = k) (map_to_list m)) = mget m k.
Proof.
  induction m as [|i v m Hi IH] using map_ind; [done|].
  rewrite (sum_by_Permutation _ _ ((if decide (i = k) then [(i, v)] else []) ++ filter (λ kv, kv.1 = k) (map_to_list m))).
  - rewrite sum_by_app, IH. unfold mget. case_decide as Hk; [subst|]; rewrite ?sum_by_cons, ?sum_by_nil.
    + rewrite lookup_insert_eq, Hi. simpl. lia.
    + by rewrite lookup_insert_ne.
  - rewrite map_to_list_insert, filter_cons by done. simpl. by case_decide.
Qed.

Lemma mget_add_prior prior other x : mget (add_prior prior other) x = mget prior x + mget other x.
Proof. unfold add_prior. by rewrite mget_tally, sum_map_to_list_key. Qed.

(** The amounts of a table of earlier non-issuance, by lower-case address. *)
Definition row_hex (r : row) : string := lower (get EmptyString (cell_str r "address_hex")).
Definition row_field (field : string) (r : row) : Z := get 0 (cell_int r field).

Lemma prior_loop field m rows m' :
  foldM (prior_step field) m rows = Ok m' → m' = tally row_hex (row_field field) m rows.
Proof.
  revert m. induction rows as [|r rows IH]; intros m H; cbn [foldM] in H; [by injection H|].
  apply bind_Ok in H as (m1 & H1 & H). apply IH in H as ->. unfold prior_step in H1. inv_ok H1. subst m1.
  unfold tally, row_hex, row_field. simpl. by rewrite E, E0.
Qed.

Lemma load_prior_Ok paths field m w m' w' :
  fold_io (λ m path, text ← read path; lift (foldM (prior_step field) m (dict_rows text))) m paths w = (Ok m', w') →
  w' = w ∧ ∃ texts, mapR (λ p, (read p w).1) paths = Ok texts ∧
    m' = tally row_hex (row_field field) m (mjoin (dict_rows <$> texts)).
Proof.
  revert m w. induction paths as [|p paths IH]; intros m w H; cbn [fold_io] in H.
  - apply mret_Ok in H as [-> ->]. split; [done|]. by exists [].
  - apply io_bind_Ok in H as (m1 & w1 & H1 & H). apply io_bind_Ok in H1 as (t & w2 & Ht & H1).
    apply lift_Ok in H1 as [-> H1]. apply read_Ok in Ht as Ht'. destruct Ht' as [-> Hf].
    apply IH in H as [-> (texts & Hts & ->)]. split; [done|]. exists (t :: texts).
    cbn [mapR]. rewrite Ht, Hts. split; [done|]. apply prior_loop in H1 as ->. unfold tally.
    cbn. by rewrite foldl_app.
Qed.

(** The claim of a wanted address: that of its only row, if it has one. *)
Definition claim_rows (rows : list row) (address : string) : list row :=
  filter (λ r, lower (get EmptyString (cell_str r "address")) = address) rows.

Lemma claims_loop wanted rows m :
  foldM (claim_step wanted) ∅ rows = Ok m →
  ∀ x, x ∈ wanted →
    (claim_rows rows x = [] ∧ m !! x = None) ∨
    (∃ r n, claim_rows rows x = [r] ∧ cell_int r "native_total_claim_atto" = Ok n ∧ m !! x = Some n).
Proof.
  intros H. refine (foldM_ind _ (λ pre m, ∀ x, x ∈ wanted → (claim_rows pre x = [] ∧ m !! x = None) ∨
    (∃ r n, claim_rows pre x = [r] ∧ cell_int r "native_total_claim_atto" = Ok n ∧ m !! x = Some n)) ∅ rows m _ _ H).
  { intros x _. left. split; [done|]. apply lookup_empty. }
  intros pre r m1 m2 IH _ Hstep x Hx. unfold claim_rows. rewrite filter_app, filter_cons, filter_nil.
  fold (claim_rows pre x). unfold claim_step in Hstep. inv_ok Hstep. rewrite E. cbn [get].
  case_bool_decide as Hw.
  - inv_ok Hstep. bool_facts. subst m2. apply eq_None_not_Some in E0.
    case_decide as Hx'; [subst x|].
    + destruct (IH _ Hw) as [[Hr _]|(r' & n & _ & _ & Hm)]; [|congruence]. right. exists r, v1.
      by rewrite Hr, lookup_insert_eq.
    + rewrite app_nil_r, lookup_insert_ne by done. by apply IH.
  - injection Hstep as <-. case_decide as Hx'; [by subst x|]. rewrite app_nil_r. by apply IH.
Qed.

Abbreviation contribution := (string * Z * option retained)%type.

(** What one address contributes: its incident and credit, and its row when something is withheld. *)
Definition row_of (lk : leaks) (prior claims : gmap string Z) (address : string) :
    result contribution :=
  incident ← joined_incident (default ∅ (lk_incidents lk !! address));
  let credit := mget (lk_credit lk) address in
  let claim := default 0 (claims !! address) in
  let p := mget prior address in
  if withhold credit claim p =? 0 then Ok (incident, credit, None)
  else
    bech32 ← to_bech32 address;
    Ok (incident, credit, Some (Retained bech32 address incident credit (mget (lk_receipts lk) address) claim p
                                  (withhold credit claim p))).

Definition positive_of (o : option retained) : Z := if o then 1 else 0.
Definition withheld_of (o : option retained) : Z := match o with Some r => rt_withheld r | None => 0 end.

Definition apply_row (s : list retained * gmap string stats) (e : contribution) :
    list retained * gmap string stats :=
  let '(incident, credit, o) := e in
  let st := default no_stats (s.2 !! incident) in
  (s.1 ++ option_list o,
   <[incident := Stats (st_recipients st + 1) (st_credit st + credit)
                   (st_positive st + positive_of o) (st_not_issued st + withheld_of o)]> s.2).

Lemma address_step_spec lk prior claims s x :
  address_step lk prior claims s x = (e ← row_of lk prior claims x; Ok (apply_row s e)).
Proof.
  destruct s as [rows m]. unfold address_step, row_of. destruct (joined_incident _) as [i|]; simpl; [|done].
  destruct (withhold _ _ _ =? 0); simpl; [by rewrite app_nil_r, !Z.add_0_r|].
  by destruct (to_bech32 x).
Qed.

(** The statistics by incident add up. *)
Definition msum_by (f : stats → Z) (m : gmap string stats) : Z := msum (f <$> m).

Lemma msum_by_insert f (m : gmap string stats) k v :
  f no_stats = 0 → msum_by f (<[k := v]> m) = msum_by f m - f (default no_stats (m !! k)) + f v.
Proof. apply msum_fmap_insert. Qed.

Lemma apply_rows_sums es s :
  let s' := foldl apply_row s es in
  s'.1 = s.1 ++ mjoin (option_list <$> (snd <$> es)) ∧
  msum_by st_recipients s'.2 = msum_by st_recipients s.2 + Z.of_nat (length es) ∧
  msum_by st_credit s'.2 = msum_by st_credit s.2 + sum_by (λ e, e.1.2) es ∧
  msum_by st_positive s'.2 = msum_by st_positive s.2 + sum_by (λ e, positive_of e.2) es ∧
  msum_by st_not_issued s'.2 = msum_by st_not_issued s.2 + sum_by (λ e, withheld_of e.2) es.
Proof.
  revert s. induction es as [|[[i c] o] es IH]; intros s; cbn [foldl].
  { rewrite !sum_by_nil. cbn. rewrite app_nil_r. split_and!; [done|lia..]. }
  destruct (IH (apply_row s (i, c, o))) as (H1 & H2 & H3 & H4 & H5). cbv zeta.
  rewrite H1, H2, H3, H4, H5, !sum_by_cons. unfold apply_row. cbn [fst snd].
  rewrite !msum_by_insert by done. cbn [st_recipients st_credit st_positive st_not_issued length].
  split_and!; [|lia..]. rewrite <-app_assoc. done.
Qed.

(** ** A run of [build] *)

Definition entry_row (b : built) (address : string) (r : retained) : Prop :=
  rt_address r = address ∧
  rt_credit r = mget (lk_credit (b_leaks b)) address ∧
  rt_receipts r = mget (lk_receipts (b_leaks b)) address ∧
  rt_claim r = default 0 (b_claims b !! address) ∧
  rt_prior r = mget (b_prior b) address ∧
  rt_withheld r = withhold (rt_credit r) (rt_claim r) (rt_prior r) ∧
  to_bech32 address = Ok (rt_bech32 r).

(** What a run read, and the loop over the addresses it ended with. *)
Record ran (a : args) (w : world) (b : built) : Prop := {
  ra_leaks : ∃ incidents rows, rows_of w (a_receipt_audit a) rows ∧
    foldM (leak_step incidents) no_leaks rows = Ok (b_leaks b);
  ra_prior : ∃ rows1 rows2, rows_of w (a_prior_retention a) rows1 ∧ rows_of w (a_prior_non_issuance a) rows2 ∧
    b_prior b = add_prior (tally row_hex (row_field "retained_cap_atto") ∅ rows1)
                          (tally row_hex (row_field "not_issued_atto") ∅ rows2);
  ra_claims : ∃ text, files w !! a_claims a = Some text ∧
    foldM (claim_step (dom (lk_credit (b_leaks b)))) ∅ (dict_rows text) = Ok (b_claims b);
  ra_rows : ∃ es, mapR (row_of (b_leaks b) (b_prior b) (b_claims b)) (sorted_addresses (lk_credit (b_leaks b))) = Ok es ∧
    (b_rows b, b_by_incident b) = foldl apply_row ([], ∅) es;
}.

Lemma build_Ok a w b w' : build a w = (Ok b, w') → w' = w ∧ ran a w b.
Proof.
  intros H. unfold build in H.
  apply io_bind_Ok in H as (t & w1 & [-> Ht]%read_Ok & H).
  apply io_bind_Ok in H as (m & w1 & [-> Hm]%lift_Ok & H).
  apply io_bind_Ok in H as (lk & w1 & H1 & H). unfold load_leaks in H1.
  apply load_leaks_loop in H1 as (-> & texts & Hts & Hlk).
  apply io_bind_Ok in H as (p1 & w1 & H1 & H). unfold load_prior in H1.
  apply load_prior_Ok in H1 as (-> & texts1 & Hts1 & Hp1).
  apply io_bind_Ok in H as (p2 & w1 & H1 & H). unfold load_prior in H1.
  apply load_prior_Ok in H1 as (-> & texts2 & Hts2 & Hp2).
  apply io_bind_Ok in H as (cl & w1 & Hcl & H).
  unfold load_claims in Hcl. apply io_bind_Ok in Hcl as (t3 & w2 & [-> Ht3]%read_Ok & [-> Hcl]%lift_Ok).
  apply io_bind_Ok in H as ([rows bi] & w1 & [-> Hrows]%lift_Ok & H). apply mret_Ok in H as [-> <-].
  split; [done|]. rewrite (foldM_mapR _ (row_of lk (add_prior p1 p2) cl) apply_row) in Hrows
    by (intros; apply address_step_spec).
  apply bind_Ok in Hrows as (es & Hes & [= Hf]).
  split; simpl.
  - exists m, (mjoin (dict_rows <$> texts)). split; [by exists texts|done].
  - exists (mjoin (dict_rows <$> texts1)), (mjoin (dict_rows <$> texts2)).
    split_and!; [by exists texts1|by exists texts2|by rewrite Hp1, Hp2].
  - by exists t3.
  - exists es. split; [done|]. by rewrite Hf.
Qed.

Lemma row_of_Ok lk prior claims x i c o :
  row_of lk prior claims x = Ok (i, c, o) →
  c = mget (lk_credit lk) x ∧
  (o = None ↔ withhold c (default 0 (claims !! x)) (mget prior x) = 0) ∧
  (∀ r, o = Some r → entry_row (Built lk prior claims [] ∅) x r).
Proof.
  unfold row_of. intros H. apply bind_Ok in H as (inc & _ & H).
  destruct (Z.eqb_spec (withhold (mget (lk_credit lk) x) (default 0 (claims !! x)) (mget prior x)) 0) as [E|E].
  - injection H as <- <- <-. split_and!; [done|done|done].
  - apply bind_Ok in H as (b32 & Hb & [= <- <- <-]). split_and!; [done|by split|].
    intros r [= <-]. by split_and!.
Qed.

Lemma sorted_addresses_spec (m : gmap string Z) :
  StronglySorted str_lt (sorted_addresses m) ∧ ∀ x, x ∈ sorted_addresses m ↔ is_Some (m !! x).
Proof.
  split; [apply sort_by_str_sorted, NoDup_elements|]. intros x. unfold sorted_addresses.
  pose proof (elem_of_Permutation_proper x _ _ (sort_by_Permutation str_leb (elements (dom m)))) as Hp.
  pose proof (elem_of_elements (dom m) x). pose proof (elem_of_dom m x). tauto.
Qed.

(** The rows of the addresses with something withheld, in the order of the addresses. *)
Lemma rows_addresses lk prior claims xs es :
  mapR (row_of lk prior claims) xs = Ok es →
  rt_address <$> mjoin (option_list <$> (snd <$> es)) =
  filter (λ x, withhold (mget (lk_credit lk) x) (default 0 (claims !! x)) (mget prior x) ≠ 0) xs.
Proof.
  revert es. induction xs as [|x xs IH]; intros es; [by intros [= <-]|].
  rewrite mapR_cons_Ok. intros ([[i c] o] & es' & -> & Hx & Hes). apply row_of_Ok in Hx as (-> & Ho & Hr).
  rewrite filter_cons, <-(IH _ Hes). destruct o as [r|].
  - destruct (Hr r eq_refl) as [Ha _]. simpl. rewrite decide_True; [by rewrite Ha|]. intros H0. by apply Ho in H0.
  - simpl. rewrite decide_False; [done|]. intros Hn. apply Hn. by apply Ho.
Qed.

Lemma StronglySorted_filter {A} (R : A → A → Prop) (P : A → Prop) `{∀ x, Decision (P x)} l :
  StronglySorted R l → StronglySorted R (filter P l).
Proof.
  induction 1 as [|x l Hl IH Hx]; [constructor|]. rewrite filter_cons. case_decide; [|done].
  constructor; [done|]. apply Forall_forall. intros y [_ Hy]%list_elem_of_filter.
  rewrite Forall_forall in Hx. by apply Hx.
Qed.

Lemma leaks_kept incidents rows lk :
  foldM (leak_step incidents) no_leaks rows = Ok lk →
  lk_credit lk = tally row_to row_amount ∅ (keep_first ∅ rows) ∧
  lk_seen lk = list_to_set (row_key <$> keep_first ∅ rows) ∧
  Forall (λ r, 0 < row_amount r) (keep_first ∅ rows).
Proof. intros H. apply load_rows_Ok in H as [Hc _ Hs Hp]. split_and!; [done| |done]. rewrite Hs. apply union_empty_r_L. Qed.

Lemma kept_credit incidents rows lk x :
  foldM (leak_step incidents) no_leaks rows = Ok lk →
  mget (lk_credit lk) x = sum_by row_amount (filter (λ r, row_to r = x) (keep_first ∅ rows)) ∧
  0 ≤ mget (lk_credit lk) x.
Proof.
  intros (Hc & _ & Hp)%leaks_kept. rewrite Hc, mget_tally, mget_empty. split; [lia|].
  apply Z.add_nonneg_nonneg; [done|]. apply sum_by_nonneg. intros r [_ Hr]%list_elem_of_filter.
  rewrite Forall_forall in Hp. specialize (Hp r Hr). lia.
Qed.

Lemma withhold_bounds credit claim prior :
  0 ≤ credit → 0 ≤ withhold credit claim prior ≤ credit ∧
  (withhold credit claim prior ≠ 0 → prior + withhold credit claim prior ≤ claim).
Proof. unfold withhold. lia. Qed.

Lemma contributions_rows lk prior claims xs es r :
  mapR (row_of lk prior claims) xs = Ok es → r ∈ mjoin (option_list <$> (snd <$> es)) →
  ∃ x, x ∈ xs ∧ entry_row (Built lk prior claims [] ∅) x r.
Proof.
  revert es. induction xs as [|x xs IH]; intros es; [intros [= <-]; intros H; by apply not_elem_of_nil in H|].
  rewrite mapR_cons_Ok. intros ([[i c] o] & es' & -> & Hx & Hes) Hr. apply row_of_Ok in Hx as (_ & _ & Hrow).
  apply elem_of_app in Hr as [Hr|Hr].
  - exists x. split; [by left|]. apply Hrow. destruct o as [r'|]; simpl in Hr; [|by apply not_elem_of_nil in Hr].
    by apply list_elem_of_singleton in Hr as ->.
  - destruct (IH _ Hes Hr) as (y & Hy & He). exists y. split; [by right|done].
Qed.

(** The rows of a run: sorted, one for each address from which something is withheld. *)
Lemma ran_rows a w b :
  ran a w b →
  StronglySorted str_lt (rt_address <$> b_rows b) ∧
  (∀ r, r ∈ b_rows b → entry_row b (rt_address r) r ∧ rt_withheld r ≠ 0 ∧
     is_Some (lk_credit (b_leaks b) !! rt_address r)) ∧
  (∀ x, is_Some (lk_credit (b_leaks b) !! x) → x ∉ rt_address <$> b_rows b →
     withhold (mget (lk_credit (b_leaks b)) x) (default 0 (b_claims b !! x)) (mget (b_prior b) x) = 0).
Proof.
  intros [_ _ _ (es & Hes & Hf)].
  assert (Hb : b_rows b = mjoin (option_list <$> (snd <$> es))).
  { destruct (apply_rows_sums es ([], ∅)) as (H1 & _). rewrite <-Hf in H1. exact H1. }
  destruct (sorted_addresses_spec (lk_credit (b_leaks b))) as [Hsorted Hin].
  pose proof (rows_addresses _ _ _ _ _ Hes) as Ha. rewrite <-Hb in Ha. split_and!.
  - rewrite Ha. by apply StronglySorted_filter.
  - intros r Hr. assert (Hx : rt_address r ∈ rt_address <$> b_rows b) by (by apply list_elem_of_fmap_2).
    rewrite Ha in Hx. apply list_elem_of_filter in Hx as [Hnz Hx%Hin].
    rewrite Hb in Hr. destruct (contributions_rows _ _ _ _ _ _ Hes Hr) as (x & _ & He). destruct b; simpl in *.
    pose proof He as (<- & E1 & _ & E2 & E3 & E4 & _). simpl in *. split_and!; [exact He| |done].
    by rewrite E4, E1, E2, E3.
  - intros x Hx%Hin Hn. rewrite Ha in Hn.
    destruct (decide (withhold (mget (lk_credit (b_leaks b)) x) (default 0 (b_claims b !! x)) (mget (b_prior b) x) = 0))
      as [|H0]; [done|]. exfalso. apply Hn. by apply list_elem_of_filter.
Qed.

Lemma tally_keys {A} (key : A → string) (val : A → Z) l x : is_Some (tally key val ∅ l !! x) → x ∈ key <$> l.
Proof.
  induction l as [|y l IH] using rev_ind; [cbn; rewrite lookup_empty; by intros []|]. rewrite tally_snoc, fmap_app.
  unfold madd. intros [<-|[_ ?]]%lookup_insert_is_Some; apply elem_of_app; [right; by left|left; auto].
Qed.

(** The addresses are in lower case. *)
Lemma ran_lower a w b x : ran a w b → is_Some (lk_credit (b_leaks b) !! x) → lower x = x.
Proof.
  intros [(inc & rows & _ & Hlk) _ _ _] Hx. apply leaks_kept in Hlk as (Hc & _). rewrite Hc in Hx.
  apply tally_keys, list_elem_of_fmap in Hx as (r & -> & _). apply lower_idem.
Qed.

(** ** Theorems *)

(** C4 (functional): the receipts counted are the leak rows of all audit files, one for each
    distinct receipt, and each has a positive amount.  The export has one row for each address
    from which something is withheld, in increasing order; the amount withheld is the smaller of
    the address's total credit and what it holds at the cutoff beyond earlier non-issuance, so
    that the two together never exceed its claim. *)
Theorem withheld_rule a w b w' :
  build a w = (Ok b, w') →
  ∃ rows, rows_of w (a_receipt_audit a) rows ∧
  let kept := keep_first ∅ rows in
  let credit x := sum_by row_amount (filter (λ r, row_to r = x) kept) in
  NoDup (row_key <$> kept) ∧
  (∀ r, r ∈ kept → r ∈ rows ∧ is_leak r = true ∧ 0 < row_amount r) ∧
  (∀ r, r ∈ rows → is_leak r = true → row_key r ∈ row_key <$> kept) ∧
  StronglySorted str_lt (rt_address <$> b_rows b) ∧
  (∀ r, r ∈ b_rows b →
     rt_credit r = credit (rt_address r) ∧
     rt_claim r = default 0 (b_claims b !! rt_address r) ∧
     rt_prior r = mget (b_prior b) (rt_address r) ∧
     rt_withheld r = Z.min (rt_credit r) (Z.max (rt_claim r - rt_prior r) 0) ∧
     0 < rt_withheld r ∧ rt_prior r + rt_withheld r ≤ rt_claim r) ∧
  (∀ x, 0 < credit x → x ∉ rt_address <$> b_rows b →
     default 0 (b_claims b !! x) ≤ mget (b_prior b) x).
Proof.
  intros [_ Hran]%build_Ok. apply ran_rows in Hran as Hrr. destruct Hrr as (Hsorted & Hr & Hn).
  destruct Hran as [(inc & rows & Hrows & Hlk) _ _ _].
  exists rows. split; [done|]. cbv zeta. pose proof (λ x, proj1 (kept_credit _ _ _ x Hlk)) as Hcr.
  pose proof (λ x, proj2 (kept_credit _ _ _ x Hlk)) as Hpos. apply leaks_kept in Hlk as (_ & _ & Hp).
  split_and!; [apply keep_first_NoDup| | |done| |].
  - intros r Hk. rewrite Forall_forall in Hp. destruct (keep_first_seen _ _ _ Hk) as (? & ? & _). auto.
  - intros r Hk Hl. destruct (keep_first_complete ∅ rows r Hk Hl) as [He|]; [by apply not_elem_of_empty in He|done].
  - intros r (( _ & E1 & _ & E2 & E3 & E4 & _) & Hnz & _)%Hr. rewrite E4 in Hnz.
    destruct (withhold_bounds (rt_credit r) (rt_claim r) (rt_prior r)) as [H1 H2]; [by rewrite E1|].
    specialize (H2 Hnz). rewrite <-Hcr, <-E1. rewrite E4. unfold withhold in *. split_and!; try done; lia.
  - intros x Hx Hnin. rewrite <-Hcr in Hx. specialize (Hn x). unfold withhold in Hn.
    destruct (lk_credit (b_leaks b) !! x) eqn:E.
    + specialize (Hn (mk_is_Some _ _ eq_refl) Hnin). lia.
    + unfold mget in Hx. rewrite E in Hx. simpl in Hx. lia.
Qed.

(** The contributions add up to the credits, and what is withheld to the rows. *)
Lemma contributions_credit lk prior claims xs es :
  mapR (row_of lk prior claims) xs = Ok es → sum_by (λ e, e.1.2) es = sum_by (mget (lk_credit lk)) xs.
Proof.
  revert es. induction xs as [|x xs IH]; intros es; [by intros [= <-]|].
  rewrite mapR_cons_Ok. intros ([[i c] o] & es' & -> & Hx & Hes). apply row_of_Ok in Hx as (-> & _).
  by rewrite !sum_by_cons, (IH _ Hes).
Qed.

Lemma contributions_options (es : list contribution) :
  let rows := mjoin (option_list <$> (snd <$> es)) in
  sum_by (λ e, withheld_of e.2) es = sum_by rt_withheld rows ∧
  sum_by (λ e, positive_of e.2) es = Z.of_nat (length rows).
Proof.
  induction es as [|[p o] es [H1 H2]]; [done|]. cbv zeta in *. rewrite !sum_by_cons, H1, H2, !fmap_cons. cbn [snd].
  change (mjoin (?x :: ?l)) with (x ++ mjoin l). rewrite sum_by_app, length_app.
  destruct o; simpl; rewrite ?sum_by_cons, ?sum_by_nil; lia.
Qed.

Lemma contribution_bounds lk prior claims xs es e :
  (∀ x, 0 ≤ mget (lk_credit lk) x) → mapR (row_of lk prior claims) xs = Ok es → e ∈ es →
  0 ≤ withheld_of e.2 ≤ e.1.2.
Proof.
  intros Hpos Hes He. apply mapR_Ok in Hes. apply list_elem_of_lookup in He as [j Hj].
  destruct (Forall2_lookup_r _ _ _ _ _ Hes Hj) as (x & _ & Hx). destruct e as [[i c] o].
  apply row_of_Ok in Hx as (-> & _ & Hr). specialize (Hpos x).
  destruct o as [r|]; simpl; [|lia]. destruct (Hr r eq_refl) as (_ & E1 & _ & E2 & E3 & E4 & _).
  rewrite E4, E1, E2, E3. cbn. by apply withhold_bounds.
Qed.

(** The total credit is that of the distinct leak receipts and of the incidents
    together; the total withheld is that of the rows and of the incidents, and lies between 0
    and the total credit; receipts, recipients and rows are counted once each. *)
Theorem retention_conserves a w b w' :
  build a w = (Ok b, w') →
  ∃ rows, rows_of w (a_receipt_audit a) rows ∧
  total_credit b = sum_by row_amount (keep_first ∅ rows) ∧
  msum_by st_credit (b_by_incident b) = total_credit b ∧
  msum_by st_not_issued (b_by_incident b) = total_withheld b ∧
  0 ≤ total_withheld b ≤ total_credit b ∧
  size (lk_seen (b_leaks b)) = length (keep_first ∅ rows) ∧
  msum_by st_recipients (b_by_incident b) = Z.of_nat (size (lk_credit (b_leaks b))) ∧
  msum_by st_positive (b_by_incident b) = Z.of_nat (length (b_rows b)).
Proof.
  intros (_ & [(inc & rows & Hrows & Hlk) _ _ (es & Hes & Hf)])%build_Ok.
  exists rows. split; [done|]. pose proof (λ x, proj2 (kept_credit _ _ _ x Hlk)) as Hpos.
  apply leaks_kept in Hlk as (Hc & Hs & _).
  destruct (apply_rows_sums es ([], ∅)) as (H1 & H2 & H3 & H4 & H5). cbv zeta in *. rewrite <-Hf in *. simpl in *.
  destruct (contributions_options es) as [Ho1 Ho2]. cbv zeta in *. rewrite <-H1 in *.
  pose proof (contributions_credit _ _ _ _ _ Hes) as Hsum. rewrite Hsum in H3.
  set (m := lk_credit (b_leaks b)) in *. unfold total_credit, total_withheld. fold m.
  assert (Hm : msum m = sum_by (mget m) (sorted_addresses m)).
  { rewrite (msum_keys m (elements (dom m))); [|apply NoDup_elements|by rewrite list_to_set_elements_L].
    apply sum_by_Permutation. symmetry. apply sort_by_Permutation. }
  assert (Hlen : length es = size m).
  { rewrite (mapR_length _ _ _ Hes). unfold sorted_addresses.
    rewrite (Permutation_length (sort_by_Permutation _ _)). by rewrite <-size_dom. }
  change (msum_by st_credit ∅) with 0 in H3. change (msum_by st_recipients ∅) with 0 in H2.
  change (msum_by st_positive ∅) with 0 in H4. change (msum_by st_not_issued ∅) with 0 in H5.
  pose proof (λ e, contribution_bounds _ _ _ _ _ e Hpos Hes) as Hle.
  split_and!.
  - rewrite Hc, msum_tally. by rewrite msum_empty.
  - rewrite H3, Hm. lia.
  - rewrite H5, Ho1. lia.
  - rewrite <-Ho1. apply sum_by_nonneg. intros e He. by apply Hle.
  - rewrite <-Ho1, Hm, <-Hsum. apply sum_by_le. intros e He. by apply Hle.
  - rewrite Hs, size_list_to_set by apply keep_first_NoDup. by rewrite length_fmap.
  - rewrite H2, Hlen. lia.
  - rewrite H4, Ho2. lia.
Qed.

(** Files whose leak rows have all been seen change nothing. *)
Lemma load_leaks_reload incidents paths texts lk w :
  mapR (λ p, (read p w).1) paths = Ok texts →
  (∀ r, r ∈ mjoin (dict_rows <$> texts) → is_leak r = true → ∃ k, leak_key r = Ok k ∧ k ∈ lk_seen lk) →
  fold_io (λ s path, text ← read path; lift (foldM (leak_step incidents) s (dict_rows text))) lk paths w = (Ok lk, w).
Proof.
  revert texts. induction paths as [|p paths IH]; intros texts Hts Hk; [done|].
  apply mapR_cons_Ok in Hts as (t & ts & -> & Ht & Hts). cbn [fold_io].
  assert (Hr : read p w = (Ok t, w)) by (destruct (read p w) as [r w1] eqn:E; simpl in Ht; subst;
    by apply read_Ok in E as E'; destruct E' as [-> _]).
  unfold mbind, io_bind. rewrite Hr. unfold lift.
  rewrite load_rows_seen by (intros r Hr' Hl; apply Hk; [apply elem_of_app; by left|done]).
  apply (IH ts); [done|]. intros r Hr' Hl. apply Hk; [apply elem_of_app; by right|done].
Qed.

(** Passing every audit file twice changes nothing: a receipt that was
    already counted is skipped. *)
Theorem load_leaks_idempotent paths incidents w lk w' :
  load_leaks paths incidents w = (Ok lk, w') → load_leaks (paths ++ paths) incidents w = (Ok lk, w').
Proof.
  unfold load_leaks. set (f := λ s path, _).
  assert (Happ : ∀ l1 l2 s w, fold_io f s (l1 ++ l2) w =
    match fold_io f s l1 w with (Ok s', w') => fold_io f s' l2 w' | (Err e, w') => (Err e, w') end).
  { induction l1 as [|x l1 IH]; intros l2 s w0; [done|]. simpl. unfold mbind, io_bind at 1.
    unfold io_bind at 1. destruct (f s x w0) as [[s'|e] w1]; [apply IH|done]. }
  intros H. rewrite Happ, H. apply load_leaks_loop in H as (-> & texts & Hts & Hlk).
  apply load_leaks_reload with texts; [done|]. by apply (load_rows_keys incidents no_leaks).
Qed.

(** ** The export *)
Definition exported_row (cutoff_block : Z) (r : retained) : row := dict_row FIELDS (record_of cutoff_block r).

Lemma FIELDS_NoDup : NoDup FIELDS.
Proof. apply (bool_decide_unpack _). by vm_compute. Qed.

Lemma exported_lookup c r i k s :
  FIELDS !! i = Some k → record_of c r !! i = Some s → exported_row c r !! k = Some (Some s).
Proof. intros Hk Hs. by apply (dict_row_lookup FIELDS (record_of c r) i k s); [apply FIELDS_NoDup|..]. Qed.

Lemma exported_int c r i k v :
  FIELDS !! i = Some k → record_of c r !! i = Some (str_of_Z v) → cell_int (exported_row c r) k = Ok v.
Proof. intros Hk Hs. by apply (dict_row_int FIELDS (record_of c r) i k v); [apply FIELDS_NoDup|..]. Qed.

Lemma rows_table_read c rows : dict_rows (write_csv (rows_table c rows)) = exported_row c <$> rows.
Proof.
  unfold rows_table. rewrite dict_rows_write_csv, <-list_fmap_compose; [done|]. by apply Forall_fmap, Forall_true.
Qed.

Lemma write_atomic_Ok p ts replace w w' :
  write_atomic p ts replace w = (Ok tt, w') →
  files w !! partial p = None ∧ (replace = false → files w !! p = None) ∧
  files w' = <[p := concat_texts ts]> (files w).
Proof. exact (write_guarded_Ok p ts replace w w'). Qed.

Lemma reads_only_summary resolve a b : reads_only (summary resolve a b).
Proof.
  assert (Hs : ∀ p, reads_only (source_entry resolve p)) by (intros; repeat (apply reads_only_bind; [auto with py|intros ?]); done).
  assert (Hf : ∀ p, reads_only (file_sha256 p)) by (intros; apply reads_only_file_sha256_at).
  unfold summary. repeat (apply reads_only_bind; [auto using reads_only_map_io|intros ?]). done.
Qed.

(** The digest that the summary gives for the export is that of the file. *)
Lemma summary_digest resolve a b w s w' :
  summary resolve a b w = (Ok s, w') →
  ∃ text sources, files w !! a_output_csv a = Some text ∧
    s = summary_json a b sources
          (JObj [("csv", JStr (file_name (a_output_csv a))); ("csv_sha256", JStr (sha256 text));
                 ("rows", JInt (Z.of_nat (length (b_rows b))))]).
Proof.
  intros H. assert (Hs : ∀ p, reads_only (source_entry resolve p)) by
    (intros; repeat (apply reads_only_bind; [apply reads_only_file_sha256_at|intros ?]); done).
  unfold summary in H.
  apply io_bind_Ok in H as (x1 & w1 & H1 & H). apply reads_only_world in H1 as ->; [|auto with py].
  apply io_bind_Ok in H as (x2 & w1 & H2 & H). apply reads_only_world in H2 as ->; [|auto with py].
  apply io_bind_Ok in H as (x3 & w1 & H3 & H). apply reads_only_world in H3 as ->; [|auto with py].
  apply io_bind_Ok in H as (x4 & w1 & H4 & H). apply reads_only_world in H4 as ->; [|auto with py].
  apply io_bind_Ok in H as (x5 & w1 & H5 & H). apply reads_only_world in H5 as ->; [|auto with py].
  apply io_bind_Ok in H as (d & w1 & H6 & H). apply mret_Ok in H as [_ <-].
  unfold file_sha256 in H6. rewrite file_sha256_at_read in H6 by lia.
  destruct (files w !! a_output_csv a) as [t|]; [|done]. injection H6 as <- _. eauto.
Qed.

(** What a run that returned has done. *)
Lemma main_Ok resolve a w b w' :
  main resolve a w = (Ok b, w') →
  build a w = (Ok b, w) ∧ ran a w b ∧
  let text := write_csv (rows_table (a_cutoff_block a) (b_rows b)) in
  ∃ w2 s sources,
    files w2 = <[a_output_csv a := text]> (files w) ∧ summary resolve a b w2 = (Ok s, w2) ∧
    s = summary_json a b sources
          (JObj [("csv", JStr (file_name (a_output_csv a))); ("csv_sha256", JStr (sha256 text));
                 ("rows", JInt (Z.of_nat (length (b_rows b))))]) ∧
    files w' = <[a_summary_output a := dumps s +:+ newline]> (files w2) ∧
    (a_replace a = false → files w !! a_output_csv a = None ∧ files w2 !! a_summary_output a = None).
Proof.
  intros H. unfold main in H. apply io_bind_Ok in H as (b' & w1 & Hb & H).
  apply build_Ok in Hb as Hw. destruct Hw as [-> Hran].
  apply io_bind_Ok in H as ([] & w2 & (_ & Hr1 & Hw2)%write_atomic_Ok & H).
  apply io_bind_Ok in H as (s & w3 & Hs & H). apply reads_only_world in Hs as Hw; [|apply reads_only_summary]. subst w3.
  apply io_bind_Ok in H as ([] & w4 & (_ & Hr2 & Hw4)%write_atomic_Ok & H). apply mret_Ok in H as [-> ->].
  do 2 (split; [done|]). cbv zeta. unfold concat_texts in *. rewrite concat_csv_lines in Hw2.
  apply summary_digest in Hs as Hd. destruct Hd as (text & sources & Ht & Hjs). rewrite Hw2, lookup_insert_eq in Ht.
  injection Ht as <-. exists w2, s, sources. split_and!; [done..| |auto]. rewrite Hw4. simpl. by rewrite str_app_nil_r.
Qed.

(** A run that returns has written the export and then the summary, and nothing
    else.  Read back, the export has one row for each row built, with its address and the
    integers it was built from, and the summary carries the export's SHA-256, its total and its
    number of rows.  Without [--replace] neither file existed. *)
Theorem retention_export resolve a w b w' :
  main resolve a w = (Ok b, w') →
  build a w = (Ok b, w) ∧
  let text := write_csv (rows_table (a_cutoff_block a) (b_rows b)) in
  (∃ s, files w' = <[a_summary_output a := dumps s +:+ newline]> (<[a_output_csv a := text]> (files w)) ∧
     jget_str "not_issued_atto" s = Ok (str_of_Z (total_withheld b)) ∧
     jget "positive_rows" s = Ok (JInt (Z.of_nat (length (b_rows b)))) ∧
     (o ← jget "outputs" s; jget_str "csv_sha256" o) = Ok (sha256 text)) ∧
  dict_rows text = exported_row (a_cutoff_block a) <$> b_rows b ∧
  (∀ r, let o := exported_row (a_cutoff_block a) r in
     cell_str o "address_hex" = Ok (rt_address r) ∧
     cell_int o "unbacked_credit_atto" = Ok (rt_credit r) ∧
     cell_int o "cutoff_native_claim_atto" = Ok (rt_claim r) ∧
     cell_int o "prior_non_issuance_atto" = Ok (rt_prior r) ∧
     cell_int o "retained_cap_atto" = Ok (rt_withheld r)) ∧
  (a_replace a = false → files w !! a_output_csv a = None ∧
     (a_output_csv a ≠ a_summary_output a → files w !! a_summary_output a = None)).
Proof.
  intros (Hb & _ & w2 & s & sources & Hw2 & _ & -> & Hw' & Hr)%main_Ok. split; [done|]. cbv zeta. split_and!.
  - eexists. split; [by rewrite Hw', Hw2|]. by split_and!.
  - apply rows_table_read.
  - intros r. split_and!; [apply cell_str_Ok; by apply (exported_lookup _ _ 1)|..].
    + by apply (exported_int _ _ 3).
    + by apply (exported_int _ _ 5).
    + by apply (exported_int _ _ 6).
    + by apply (exported_int _ _ 7).
  - intros [Hr1 Hr2]%Hr. split; [done|]. intros Hne. by rewrite Hw2, lookup_insert_ne in Hr2.
Qed.

(** ** Witnesses *)
Definition ex_audit (cls tx index to amount source : string) : list string := [cls; tx; index; to; amount; source].

Definition ex_wallet : string := "0x" +:+ hex (replicate 20 17).
Definition ex_other : string := "0x" +:+ hex (replicate 20 34).

Definition ex_files : gmap string string := list_to_map
  [("audit.csv", write_csv
     [["classification"; "tx_hash"; "receipt_index"; "to"; "amount_atto"; "source_transaction_hash"];
      ex_audit "rollback_leak" "0xA1" "0" ex_wallet "70" "0xS1";
      ex_audit "valid_source_debit" "0xA2" "0" ex_other "900" "0xS2";
      ex_audit "source_debit_absent" "0xa3" "0" ex_wallet "50" "0xs2";
      ex_audit "rollback_leak" "0xa1" "0" ex_wallet "70" "0xS1";
      ex_audit "rollback_leak" "0xa4" "1" ex_other "5" EmptyString]);
   ("exploits.csv", write_csv [["transaction_hash"; "incident"]; ["0xS1"; "may-2025"]; ["0xS2"; "smaller-2026"]]);
   ("claims.csv", write_csv [["address"; "native_total_claim_atto"]; [ex_wallet; "110"]; [ex_other; "3"]]);
   ("prior.csv", write_csv [["address_hex"; "retained_cap_atto"]; [ex_wallet; "20"]; [ex_other; "3"]])].

Definition ex_world : world := World ex_files None.
Definition ex_args : args := Args ["audit.csv"] "exploits.csv" "claims.csv" ["prior.csv"] [] 93623067 "out.csv" "out.json" false.
Definition ex_resolve (p : string) : list string := ["/"; "srv"; "artifacts"; p].
Definition nothing : built := Built no_leaks ∅ ∅ [] ∅.
Definition ex_built : built := get nothing (main ex_resolve ex_args ex_world).1.

Example ex_rows : (λ r, (rt_incident r, rt_credit r, rt_receipts r, rt_claim r, rt_prior r, rt_withheld r)) <$> b_rows ex_built
  = [("june-july-2026+may-2025", 120, 2, 110, 20, 90)].
Proof. by vm_compute. Qed.

Example ex_nonpositive :
  foldM (leak_step ∅) no_leaks (dict_rows (write_csv
    [["classification"; "tx_hash"; "to"; "amount_atto"]; ["rollback_leak"; "0xa"; "0xb"; "0"]])) =
  Err (ValueError "non-positive leak receipt").
Proof. by vm_compute. Qed.

Lemma ex_retention_main : main ex_resolve ex_args ex_world = (Ok ex_built, (main ex_resolve ex_args ex_world).2).
Proof. apply run_Ok, get_Ok. by vm_compute. Qed.

Lemma ex_build : build ex_args ex_world = (Ok ex_built, (build ex_args ex_world).2).
Proof. apply run_Ok. vm_cast_no_check (eq_refl (Ok ex_built)). Qed.

Lemma withheld_rule_witness : StronglySorted str_lt (rt_address <$> b_rows ex_built).
Proof.
  destruct (withheld_rule ex_args ex_world ex_built _ ex_build) as (rows & _ & _ & _ & _ & H & _). exact H.
Defined.

Lemma retention_conserves_witness : msum_by st_credit (b_by_incident ex_built) = total_credit ex_built.
Proof.
  destruct (retention_conserves ex_args ex_world ex_built _ ex_build) as (rows & _ & _ & H & _). exact H.
Defined.

Definition ex_leaks : leaks := get no_leaks (load_leaks ["audit.csv"] ∅ ex_world).1.

Lemma load_leaks_idempotent_witness :
  load_leaks (["audit.csv"] ++ ["audit.csv"]) ∅ ex_world = (Ok ex_leaks, (load_leaks ["audit.csv"] ∅ ex_world).2).
Proof. apply load_leaks_idempotent. apply run_Ok, get_Ok. by vm_compute. Defined.

Lemma retention_export_witness : build ex_args ex_world = (Ok ex_built, ex_world).
Proof. apply (retention_export ex_resolve ex_args ex_world ex_built _ ex_retention_main). Defined.
