(* ===== verification/NonIssuance.v ===== *)
(** * The non-issuance audit

    toolkit/scripts/addresses/build-non-issuance-audit.py: combines the reviewed inventories of
    amounts that are not issued, the balances retained by initial recipients of historical
    unbacked credits, and the withheld revert-leak credits (RevertLeak.v), checks them against
    each other and against the gross claim, and writes the retained rows and a summary.

    [combine] is [main] up to the check against the gross claim; [main] adds the two files.  A
    short CSV row has no value in its last columns, so a category or an incident is an optional
    string.  [resolve] and [relpath] are [Path.resolve] and [os.path.relpath], which depend on
    the working directory and on links.  When several incidents fail their checks, which one is
    reported is not modelled. *)
From S2P Require Import Prelude PyStr PyData Sha256 Files Csv Json Bech32.

Record args := Args {
  a_existing : list string;
  a_retained_balances : string;
  a_retained_summary : string;
  a_claim_summary : string;
  a_revert_leak_retention : option string;
  a_revert_leak_summary : option string;
  a_output_csv : string;
  a_summary_output : string;
  a_replace : bool;
}.

Definition file_sha256 : string → IO string := file_sha256_at (Z.to_nat (4 * 1024 * 1024)).

Definition false_value (value : string) : bool :=
  bool_decide (lower (strip value) ∈ [EmptyString; "0"; "false"; "no"]).

(** [sorted(d.items())] on a dict whose keys are strings or [None], and the keys as JSON writes
    them: [None] cannot be compared with a string. *)
Definition sorted_by_key {A} (m : gmap (option string) A) : result (list (string * A)) :=
  if bool_decide (is_Some (m !! None)) && (1 <? size m)%nat then Err TypeError
  else Ok (sort_by (λ a b, str_leb a.1 b.1) ((λ kv, (default "null" kv.1, kv.2)) <$> map_to_list m)).

(** ** The reviewed inventories *)
Record category := Category { ca_rows : Z; ca_positive : Z; ca_atto : Z }.

Definition no_category : category := Category 0 0 0.

Definition add_category (a b : category) : category :=
  Category (ca_rows a + ca_rows b) (ca_positive a + ca_positive b) (ca_atto a + ca_atto b).

Abbreviation categories := (gmap (option string) category).

Record existing := Existing { ex_rows : list row; ex_seen : gset string; ex_categories : categories }.

Definition no_existing : existing := Existing [] ∅ ∅.

(** The body of the loop of [load_existing]. *)
Definition existing_step (s : existing) (r : row) : result existing :=
  a ← cell_str r "address_hex";
  let address := lower a in
  raise_when (bool_decide (address ∈ ex_seen s)) (ValueError "duplicate address");;
  amount ← cell_int r "not_issued_atto";
  bad ← (if amount <? 0 then Ok true else claim ← cell_int r "cutoff_claim_atto"; Ok (claim <? amount));
  raise_when bad (ValueError "invalid not-issued amount");;
  category ← cell r "category";
  Ok (Existing (ex_rows s ++ [r]) ({[address]} ∪ ex_seen s)
        (<[category := add_category (default no_category (ex_categories s !! category))
                         (Category 1 (Z.b2z (0 <? amount)) amount)]> (ex_categories s))).

Definition load_existing (path : string) : IO existing :=
  text ← read path;
  lift (foldM existing_step no_existing (dict_rows text)).

Definition merge_categories (a b : categories) : categories :=
  union_with (λ x y, Some (add_category x y)) a b.

(** The body of [for existing_path in existing_paths]. *)
Definition join_existing (s : existing) (path : string) : IO existing :=
  e ← load_existing path;
  lift (raise_when (negb (bool_decide (ex_seen s ∩ ex_seen e = ∅)))
          (ValueError "addresses already in another inventory")) ≫= λ _,
  mret (Existing (ex_rows s ++ ex_rows e) (ex_seen s ∪ ex_seen e)
          (merge_categories (ex_categories s) (ex_categories e))).

Definition load_inventories (paths : list string) : IO existing := fold_io join_existing no_existing paths.

(** ** The retained balances *)
Record retained := Retained {
  nr_bech32 : string;
  nr_address : string;
  nr_incident : option string;
  nr_initial : Z;
  nr_cutoff_balance : Z;
  nr_cap : Z;
  nr_cutoff_block : option string;
  nr_verification_block : option string;
  nr_evidence : string;
}.

Record incident := Incident { in_inputs : Z; in_positive : Z; in_cap : Z; in_above : Z }.

Definition no_incident : incident := Incident 0 0 0 0.

Record retained_state := RetainedState {
  re_rows : list retained;
  re_seen : gset string;
  re_incidents : gmap (option string) incident;
  re_blocks : gmap Z Z;
}.

Definition no_retained : retained_state := RetainedState [] ∅ ∅ ∅.

(** What a row of the balances is checked for before its evidence file. *)
Record balance := Balance { ba_address : string; ba_incident : option string; ba_initial : Z; ba_cutoff : Z; ba_cap : Z }.

Definition balance_of (seen : gset string) (r : row) : result balance :=
  a ← cell_str r "address";
  let address := lower a in
  raise_when (bool_decide (address ∈ seen)) (ValueError "duplicate address");;
  incident ← cell r "incident";
  initial ← cell_int r "initial_amount_atto";
  cutoff_balance ← cell_int r "cutoff_balance_atto";
  rpc_balance ← cell_int r "rpc_balance_atto";
  retained ← cell_int r "rpc_retained_cap_atto";
  raise_when (negb (retained =? Z.min initial rpc_balance)) (ValueError "retained cap does not match inputs");;
  changed ← (if negb (cutoff_balance =? rpc_balance) then Ok true
             else v ← cell_str r "balance_changed_from_sep10"; Ok (negb (false_value v)));
  raise_when changed (ValueError "balance changed after cutoff");;
  Ok (Balance address incident initial cutoff_balance retained).

(** The state after a row whose evidence file exists. *)
Definition add_balance (evidence : string) (s : retained_state) (r : row) (b : balance) : result retained_state :=
  block ← cell_int r "rpc_block";
  let st := default no_incident (re_incidents s !! ba_incident b) in
  let seen := {[ba_address b]} ∪ re_seen s in
  let blocks := madd block 1 (re_blocks s) in
  if 0 <? ba_cap b then
    bech32 ← to_bech32 (ba_address b);
    cutoff_block ← cell r "cutoff_block";
    verification_block ← cell r "rpc_block";
    Ok (RetainedState
          (re_rows s ++ [Retained bech32 (ba_address b) (ba_incident b) (ba_initial b) (ba_cutoff b) (ba_cap b)
                           cutoff_block verification_block evidence]) seen
          (<[ba_incident b := Incident (in_inputs st + 1) (in_positive st + 1) (in_cap st + ba_cap b)
                                (in_above st + Z.b2z (1000 * ATTO <? ba_cap b))]> (re_incidents s)) blocks)
  else
    Ok (RetainedState (re_rows s) seen
          (<[ba_incident b := Incident (in_inputs st + 1) (in_positive st) (in_cap st) (in_above st)]> (re_incidents s))
          blocks).

(** The body of the loop of [load_retained]. *)
Definition retained_step (relpath : string → string → string) (path output_directory : string) (s : retained_state) (r : row) : IO retained_state :=
  b ← lift (balance_of (re_seen s) r);
  c ← lift (cell r "raw_file");
  raw_file ← lift (of_option c TypeError);
  let evidence_path := path_join (parent path) raw_file in
  is_file ← exists_ evidence_path;
  lift (raise_when (negb is_file) (FileNotFoundError evidence_path)) ≫= λ _,
  lift (add_balance (relpath evidence_path output_directory) s r b).

Definition load_retained (relpath : string → string → string) (path output_directory : string) : IO (retained_state * Z) :=
  text ← read path;
  s ← fold_io (retained_step relpath path output_directory) no_retained (dict_rows text);
  match map_to_list (re_blocks s) with
  | [(block, _)] => mret (s, block)
  | _ => throw (ValueError "retained balances use multiple RPC blocks")
  end.

(** ** The withheld revert-leak credits *)
Record leak_stats := LeakStats { ls_positive : Z; ls_credit : Z; ls_not_issued : Z }.

Definition no_leak_stats : leak_stats := LeakStats 0 0 0.

Record leak_state := LeakState {
  le_seen : gset string;
  le_incidents : gmap (option string) leak_stats;
  le_overlap : list string;
}.

Definition no_leak : leak_state := LeakState ∅ ∅ [].

(** The body of the loop of [load_revert_leak]. *)
Definition leak_row_step (retained_caps existing_amounts : gmap string Z) (s : leak_state) (r : row) : result leak_state :=
  a ← cell_str r "address_hex";
  let address := lower a in
  raise_when (bool_decide (address ∈ le_seen s)) (ValueError "duplicate address");;
  let prior := mget retained_caps address + mget existing_amounts address in
  p ← cell_int r "prior_non_issuance_atto";
  raise_when (negb (p =? prior)) (ValueError "earlier non-issuance does not match the inventories");;
  withheld ← cell_int r "retained_cap_atto";
  credit ← cell_int r "unbacked_credit_atto";
  claim ← cell_int r "cutoff_native_claim_atto";
  let expected := Z.min credit (Z.max (claim - prior) 0) in
  bad ← (if negb (withheld =? expected) || (withheld <=? 0) then Ok true
         else t ← cell r "migration_treatment"; Ok (negb (bool_decide (t = Some "not_issued"))));
  raise_when bad (ValueError "withheld amount does not follow the rule");;
  incident ← cell r "incident";
  let values := default no_leak_stats (le_incidents s !! incident) in
  Ok (LeakState ({[address]} ∪ le_seen s)
        (<[incident := LeakStats (ls_positive values + 1) (ls_credit values + credit) (ls_not_issued values + withheld)]>
           (le_incidents s))
        (if bool_decide (is_Some (retained_caps !! address)) then le_overlap s ++ [address] else le_overlap s)).

Definition leak_total (s : leak_state) : Z := msum (ls_not_issued <$> le_incidents s).

Definition load_revert_leak (path summary_path : string) (retained_caps existing_amounts : gmap string Z) :
    IO (leak_state * Z * json) :=
  summary ← load_json summary_path;
  status ← lift (jget_opt "status" summary);
  lift (raise_when (negb (jeq_str status "passed")) (ValueError "did not pass")) ≫= λ _,
  o ← lift (jget "outputs" summary);
  recorded ← lift (jget "csv_sha256" o);
  digest ← file_sha256 path;
  lift (raise_when (negb (jeq_str recorded digest)) (ValueError "SHA-256 differs from the summary")) ≫= λ _,
  text ← read path;
  s ← lift (foldM (leak_row_step retained_caps existing_amounts) no_leak (dict_rows text));
  let total := leak_total s in
  n ← lift (jget "not_issued_atto" summary);
  differ ← lift (if negb (jeq_str n (str_of_Z total)) then Ok true
                 else p ← jget "positive_rows" summary; Ok (negb (jeq_int p (Z.of_nat (size (le_seen s))))));
  lift (raise_when differ (ValueError "totals differ from the summary")) ≫= λ _,
  mret (s, total, summary).
(** ** The output files *)

(** [write_csv] and [write_json] refuse in the same way. *)
Definition refuse_unless (path : string) (replace : bool) : IO unit :=
  b1 ← exists_ (partial path);
  b2 ← (if (b1 : bool) then mret true else b ← exists_ path; mret ((b : bool) && negb replace));
  lift (raise_when b2 (FileExistsError path)).

Definition fields : list string :=
  ["address_bech32"; "address_hex"; "incident"; "initial_distribution_atto"; "cutoff_balance_atto";
   "retained_cap_atto"; "retained_cap_one"; "cutoff_block"; "verification_block"; "source_evidence";
   "migration_treatment"].

Definition record_of (r : retained) : list string :=
  [nr_bech32 r; nr_address r; cell_text (nr_incident r); str_of_Z (nr_initial r); str_of_Z (nr_cutoff_balance r);
   str_of_Z (nr_cap r); display_one (nr_cap r); cell_text (nr_cutoff_block r); cell_text (nr_verification_block r);
   nr_evidence r; "not_issued"].

Definition by_address (rows : list retained) : list retained :=
  sort_by (λ a b, str_leb (nr_address a) (nr_address b)) rows.

Definition retained_table (rows : list retained) : list (list string) := fields :: (record_of <$> by_address rows).

Definition write_csv_file (path : string) (rows : list retained) (replace : bool) : IO unit :=
  refuse_unless path replace ≫= λ _,
  publish path (csv_line <$> retained_table rows).

Definition write_json (path : string) (value : json) (replace : bool) : IO unit :=
  refuse_unless path replace ≫= λ _,
  publish path [dumps value; newline].

(** ** [main] *)

(** The check of one incident against the retained summary. *)
Definition incident_check (expected_incidents : json) (kv : option string * incident) : result unit :=
  expected ← match kv.1 with Some i => jget i expected_incidents | None => Err (KeyError "None") end;
  n ← jget "addresses" expected;
  raise_when (negb (jeq_int n (in_inputs kv.2))) (ValueError "input address count mismatch");;
  c ← jget "retained_cap_atto" expected;
  raise_when (negb (jeq_str c (str_of_Z (in_cap kv.2)))) (ValueError "retained cap mismatch");;
  a ← jget "above_1000_one" expected;
  raise_when (negb (jeq_int a (in_above kv.2))) (ValueError "large-address count mismatch").

Definition check_retained_summary (retained_summary : json) (verification_block : Z)
    (incidents : gmap (option string) incident) : result unit :=
  b ← jget "block" retained_summary;
  raise_when (negb (jeq_int b verification_block)) (ValueError "retained summary block does not match balance rows");;
  c ← jget "changed_from_sep10" retained_summary;
  raise_when (negb (jeq_int c 0)) (ValueError "retained summary reports post-cutoff balance changes");;
  foldM (λ _ kv, e ← jget "incidents" retained_summary; incident_check e kv) tt (map_to_list incidents).

(** [{row["address_hex"].lower(): int(row["not_issued_atto"]) for row in existing_rows}] *)
Definition amount_step (m : gmap string Z) (r : row) : result (gmap string Z) :=
  a ← cell_str r "address_hex";
  n ← cell_int r "not_issued_atto";
  Ok (<[lower a := n]> m).

Definition existing_amounts (rows : list row) : result (gmap string Z) := foldM amount_step ∅ rows.

Definition retained_caps (rows : list retained) : gmap string Z :=
  foldl (λ m r, <[nr_address r := nr_cap r]> m) ∅ rows.

(** The part of the summary on the leaks, with its total. *)
Record leak_section := LeakSection {
  lx_state : leak_state;
  lx_total : Z;
  lx_json : json;
  lx_rule : json;
  lx_sources : list (string * json);
}.

Record combined := Combined {
  co_existing : existing;
  co_retained : retained_state;
  co_block : Z;
  co_retained_summary : json;
  co_gross : Z;
  co_leak : option leak_section;
}.

Definition existing_total (c : combined) : Z := msum (ca_atto <$> ex_categories (co_existing c)).
Definition retained_total (c : combined) : Z := msum (in_cap <$> re_incidents (co_retained c)).
Definition leak_total_of (c : combined) : Z := match co_leak c with Some l => lx_total l | None => 0 end.
Definition total (c : combined) : Z := existing_total c + retained_total c + leak_total_of c.

Definition atto (z : Z) : json := JStr (str_of_Z z).
Definition in_one (z : Z) : json := JStr (display_one z).

Definition leak_stats_json (s : leak_stats) : json :=
  JObj [("positive_addresses", JInt (ls_positive s));
        ("unbacked_credit_atto", atto (ls_credit s)); ("unbacked_credit_one", in_one (ls_credit s));
        ("not_issued_atto", atto (ls_not_issued s)); ("not_issued_one", in_one (ls_not_issued s))].

(** [leak_section], from the summary of the leaks. *)
Definition leak_section_json (s : leak_state) (total : Z) (summary : json) : result (json * json) :=
  rule ← jget "rule" summary;
  receipts ← jget "leak_receipts" summary;
  recipients ← jget "credited_recipients" summary;
  credit_atto ← jget "unbacked_credit_atto" summary;
  credit_one ← jget "unbacked_credit_one" summary;
  by_incident ← sorted_by_key (le_incidents s);
  Ok (rule, JObj
    [("rule", rule); ("leak_receipts", receipts); ("credited_recipients", recipients);
     ("unbacked_credit_atto", credit_atto); ("unbacked_credit_one", credit_one);
     ("positive_addresses", JInt (Z.of_nat (size (le_seen s))));
     ("by_incident", JObj ((λ kv, (kv.1, leak_stats_json kv.2)) <$> by_incident));
     ("not_issued_atto", atto total); ("not_issued_one", in_one total);
     ("addresses_also_in_retained_initial_addresses", JArr (JStr <$> sort_by str_leb (le_overlap s)));
     ("overlap_note", JStr "an address in both lists loses its retained cap first and then the revert-leak amount from what remains")]).

Section environment.
Context (resolve : string → list string) (relpath : string → string → string).

(** [{"name": portable_source_name(path), "sha256": sha256(path)}] *)
Definition source_entry (path : string) : IO json :=
  digest ← file_sha256 path;
  mret (JObj [("name", JStr (portable_source_name resolve path)); ("sha256", JStr digest)]).

(** [if args.revert_leak_retention: ...] *)
Definition load_leak_section (a : args) (e : existing) (r : retained_state) : IO (option leak_section) :=
  match output_path (a_revert_leak_retention a) with
  | None => mret None
  | Some leak_path =>
      match output_path (a_revert_leak_summary a) with
      | None => throw (ValueError "--revert-leak-retention needs --revert-leak-summary")
      | Some leak_summary_path =>
          amounts ← lift (existing_amounts (ex_rows e));
          '(s, total, summary) ← load_revert_leak leak_path leak_summary_path (retained_caps (re_rows r)) amounts;
          '(rule, section) ← lift (leak_section_json s total summary);
          src1 ← source_entry leak_path;
          src2 ← source_entry leak_summary_path;
          mret (Some (LeakSection s total section rule
                        [("revert_leak_retention", src1); ("revert_leak_summary", src2)]))
      end
  end.

(** [main] up to the check against the gross claim. *)
Definition combine (a : args) : IO combined :=
  e ← load_inventories (a_existing a);
  '(r, verification_block) ← load_retained relpath (a_retained_balances a) (parent (a_output_csv a));
  lift (raise_when (negb (bool_decide (ex_seen e ∩ list_to_set (nr_address <$> re_rows r) = ∅)))
          (ValueError "retained historical-hack addresses overlap the existing non-issuance inventory")) ≫= λ _,
  retained_summary ← load_json (a_retained_summary a);
  lift (check_retained_summary retained_summary verification_block (re_incidents r)) ≫= λ _,
  claim_summary ← load_json (a_claim_summary a);
  gross_claim ← lift (jget_int "total_claim_atto" claim_summary);
  leak ← load_leak_section a e r;
  let c := Combined e r verification_block retained_summary gross_claim leak in
  lift (raise_when (gross_claim <? total c) (ValueError "combined non-issuance exceeds the gross cutoff claim")) ≫= λ _,
  mret c.

Definition category_json (c : category) : json :=
  JObj [("inventory_rows", JInt (ca_rows c)); ("positive_addresses", JInt (ca_positive c));
        ("not_issued_atto", atto (ca_atto c)); ("not_issued_one", in_one (ca_atto c))].

Definition incident_json (i : incident) : json :=
  JObj [("input_addresses", JInt (in_inputs i)); ("positive_addresses", JInt (in_positive i));
        ("above_1000_one", JInt (in_above i));
        ("not_issued_atto", atto (in_cap i)); ("not_issued_one", in_one (in_cap i))].

(** ["cutoff"] of the summary: it reads the first retained row. *)
Definition cutoff_json (c : combined) : result json :=
  first ← of_option (head (re_rows (co_retained c))) IndexError;
  block ← int_cell (nr_cutoff_block first);
  h ← jget "block_hash" (co_retained_summary c);
  utc ← jget "block_utc" (co_retained_summary c);
  queried ← jget "queried_at_utc" (co_retained_summary c);
  Ok (JObj [("claim_block_shard0", JInt block); ("balance_verification_block", JInt (co_block c));
            ("balance_verification_hash", h); ("balance_verification_utc", utc); ("queried_at_utc", queried);
            ("all_balances_unchanged_from_cutoff", JBool true)]).

Definition policy_json (c : combined) : json :=
  JObj ([("scope", JStr "incident and retained-fund non-issuance component; not the complete staged migration policy");
         ("migration_treatment", JStr "not_issued"); ("old_chain_gross_claim_changed", JBool false);
         ("migration_allocation_reduced", JBool true); ("fixed_erc20_total_supply_changed", JBool false);
         ("treasury_destination", JNull); ("available_for_other_use", JBool false);
         ("composite_policy_summary", JStr "results/2026-09-17/migration-policy-reconciliation.json");
         ("retained_historical_hack_rule", JStr "for each initial recipient, omit min(initial incident-contract distribution, cutoff balance)");
         ("extra_mint_partial_rows", JStr "only the reviewed extra-mint portion is omitted; a legitimate remainder stays eligible under the separate migration policy")]
        ++ match co_leak c with Some l => [("revert_leak_credit_rule", lx_rule l)] | None => [] end).

Definition totals_json (c : combined) : json :=
  JObj [("gross_cutoff_claim_atto", atto (co_gross c)); ("gross_cutoff_claim_one", in_one (co_gross c));
        ("not_issued_atto", atto (total c)); ("not_issued_one", in_one (total c));
        ("remaining_full_claim_after_non_issuance_atto", atto (co_gross c - total c));
        ("remaining_full_claim_after_non_issuance_one", in_one (co_gross c - total c))].

Definition evidence_limits : list string :=
  ["retained cap is balance-supported incident provenance, not proof that every address is controlled by one person";
   "the incident-contract distribution included some seed or pre-existing value, so the cap is a migration-policy amount rather than a claim that every retained unit was newly created";
   "exchange reserves and downstream mixed-fund balances are not added to the retained initial-recipient amount";
   "reported victims are not omitted merely because they appear in an investigation report"].

Definition summary (a : args) (c : combined) : IO json :=
  cutoff ← lift (cutoff_json c);
  existing_by ← lift (sorted_by_key (ex_categories (co_existing c)));
  retained_by ← lift (sorted_by_key (re_incidents (co_retained c)));
  csv_sha256 ← file_sha256 (a_output_csv a);
  existing_sources ← map_io source_entry (a_existing a);
  balances_source ← source_entry (a_retained_balances a);
  retained_source ← source_entry (a_retained_summary a);
  claim_source ← source_entry (a_claim_summary a);
  let rows := Z.of_nat (length (re_rows (co_retained c))) in
  mret (JObj (
    [("_provenance", JObj
        [("classification", JStr "policy scenario");
         ("factual_input", JStr "RPC-derived fixed-block balances capped by incident-contract distribution amounts");
         ("note", JStr "The retained-balance measurement is factual; treating the capped amount as not issued is a migration policy.")]);
     ("schema_version", JInt 1); ("status", JStr "passed"); ("cutoff", cutoff); ("policy", policy_json c);
     ("existing_non_issuance", JObj
        [("inventory_rows", JInt (Z.of_nat (length (ex_rows (co_existing c)))));
         ("positive_addresses", JInt (msum (ca_positive <$> ex_categories (co_existing c))));
         ("categories", JObj ((λ kv, (kv.1, category_json kv.2)) <$> existing_by));
         ("not_issued_atto", atto (existing_total c)); ("not_issued_one", in_one (existing_total c))]);
     ("historical_hack_retained_initial_addresses", JObj
        [("positive_addresses", JInt rows);
         ("by_incident", JObj ((λ kv, (kv.1, incident_json kv.2)) <$> retained_by));
         ("not_issued_atto", atto (retained_total c)); ("not_issued_one", in_one (retained_total c));
         ("overlap_with_existing_non_issuance_addresses", JInt 0)])]
    ++ match co_leak c with Some l => [("revert_leak_credited_recipients", lx_json l)] | None => [] end ++
    [("totals", totals_json c);
     ("evidence_limits", JArr (JStr <$> evidence_limits));
     ("outputs", JObj
        [("retained_not_issued_csv", JStr (file_name (a_output_csv a)));
         ("retained_not_issued_csv_sha256", JStr csv_sha256); ("retained_not_issued_rows", JInt rows)]);
     ("sources", JObj (
        [("existing_non_issuance", JArr existing_sources); ("retained_balances", balances_source);
         ("retained_summary", retained_source); ("cutoff_claim_summary", claim_source)]
        ++ match co_leak c with Some l => lx_sources l | None => [] end))])).

Definition main (a : args) : IO combined :=
  c ← combine a;
  write_csv_file (a_output_csv a) (re_rows (co_retained c)) (a_replace a) ≫= λ _,
  s ← summary a c;
  write_json (a_summary_output a) s (a_replace a) ≫= λ _,
  mret c.
End environment.

(** ** Lemmas: the inventories *)
Definition row_address (r : row) : string := lower (get EmptyString (cell_str r "address_hex")).
Definition row_not_issued (r : row) : Z := get 0 (cell_int r "not_issued_atto").
Definition row_claim (r : row) : Z := get 0 (cell_int r "cutoff_claim_atto").

(** What the checks of the inventories establish. *)
Record inventory (s : existing) : Prop := {
  iv_seen : ex_seen s = list_to_set (row_address <$> ex_rows s);
  iv_distinct : NoDup (row_address <$> ex_rows s);
  iv_rows : Forall (λ r, cell_int r "not_issued_atto" = Ok (row_not_issued r) ∧ is_ok (cell_str r "address_hex") = true ∧
                         0 ≤ row_not_issued r ≤ row_claim r) (ex_rows s);
  iv_total : msum (ca_atto <$> ex_categories s) = sum_by row_not_issued (ex_rows s);
  iv_count : msum (ca_rows <$> ex_categories s) = Z.of_nat (length (ex_rows s));
}.

Lemma inventory_empty : inventory no_existing.
Proof. split; simpl; try constructor; by rewrite fmap_empty, msum_empty. Qed.

Lemma existing_step_inventory s r s' : inventory s → existing_step s r = Ok s' → inventory s'.
Proof.
  intros [Hs Hd Hr Ht Hc] H. unfold existing_step in H. inv_ok H. subst s'. bool_facts.
  assert (Hb : 0 ≤ v1 ≤ row_claim r).
  { unfold row_claim. destruct (Z.ltb_spec v1 0); [congruence|]. apply bind_Ok in E2 as (claim & -> & [= <-]).
    bool_facts. simpl. lia. }
  assert (Ha : row_address r = lower v) by (unfold row_address; by rewrite E).
  assert (Hn : row_not_issued r = v1) by (unfold row_not_issued; by rewrite E1).
  split; simpl.
  - rewrite fmap_app, list_to_set_app_L, <-Hs. simpl. rewrite Ha, union_empty_r_L. apply union_comm_L.
  - rewrite fmap_app. apply NoDup_snoc; [done|]. rewrite Ha. intros Hin. apply E0. rewrite Hs. by apply elem_of_list_to_set.
  - apply Forall_app_2; [done|]. apply Forall_singleton. rewrite Hn, E, E1. done.
  - rewrite (msum_fmap_insert _ no_category), Ht, sum_by_snoc, Hn by done. simpl. lia.
  - rewrite (msum_fmap_insert _ no_category), Hc, length_app by done. simpl. lia.
Qed.

Lemma load_existing_Ok path w e w' : load_existing path w = (Ok e, w') → w' = w ∧ inventory e.
Proof.
  intros H. unfold load_existing in H. apply io_bind_Ok in H as (t & w1 & [-> Ht]%read_Ok & [-> H]%lift_Ok).
  split; [done|]. apply (foldM_inv _ inventory) in H; [done|apply inventory_empty|].
  intros. by eapply existing_step_inventory.
Qed.

Lemma join_existing_Ok s path w s' w' : inventory s → join_existing s path w = (Ok s', w') → w' = w ∧ inventory s'.
Proof.
  intros [Hs Hd Hr Ht Hc] H. unfold join_existing in H.
  apply io_bind_Ok in H as (e & w1 & (-> & [Hs2 Hd2 Hr2 Ht2 Hc2])%load_existing_Ok & H).
  apply io_bind_Ok in H as ([] & w2 & [-> Hg%raise_when_Ok]%lift_Ok & H). apply mret_Ok in H as [-> <-].
  split; [done|]. bool_facts. unfold merge_categories. split; simpl.
  - by rewrite fmap_app, list_to_set_app_L, Hs, Hs2.
  - rewrite fmap_app. apply NoDup_app. split_and!; [done| |done]. intros x Hx Hy.
    apply (not_elem_of_empty (C := gset string) x). rewrite <-Hg, Hs, Hs2.
    apply elem_of_intersection. split; by apply elem_of_list_to_set.
  - by apply Forall_app_2.
  - by rewrite msum_fmap_union_with, Ht, Ht2, sum_by_app.
  - rewrite msum_fmap_union_with, Hc, Hc2, length_app by done. lia.
Qed.

Lemma load_inventories_Ok paths w e w' : load_inventories paths w = (Ok e, w') → w' = w ∧ inventory e.
Proof. apply fold_io_inv; [intros; by eapply join_existing_Ok|apply inventory_empty]. Qed.

(** ** Lemmas: the retained balances *)

(** What the checks of the balances establish of a row kept: [o] is the row it came from. *)
Record kept (w : world) (path : string) (r : retained) : Prop := {
  kp_cap : nr_cap r = Z.min (nr_initial r) (nr_cutoff_balance r);
  kp_positive : 0 < nr_cap r;
  kp_bech32 : to_bech32 (nr_address r) = Ok (nr_bech32 r);
  kp_evidence : ∃ raw, is_Some (files w !! path_join (parent path) raw);
}.

Record balances (w : world) (path : string) (s : retained_state) : Prop := {
  bl_seen : ∀ r, r ∈ re_rows s → nr_address r ∈ re_seen s;
  bl_distinct : NoDup (nr_address <$> re_rows s);
  bl_rows : Forall (kept w path) (re_rows s);
  bl_total : msum (in_cap <$> re_incidents s) = sum_by nr_cap (re_rows s);
  bl_count : msum (in_positive <$> re_incidents s) = Z.of_nat (length (re_rows s));
}.

Lemma balances_empty w path : balances w path no_retained.
Proof.
  split; simpl; try constructor; try (by rewrite fmap_empty, msum_empty). intros r Hr. by apply not_elem_of_nil in Hr.
Qed.

Lemma balance_of_Ok seen r b :
  balance_of seen r = Ok b → ba_address b ∉ seen ∧ ba_cap b = Z.min (ba_initial b) (ba_cutoff b).
Proof.
  unfold balance_of. intros H. inv_ok H. subst b. bool_facts. simpl. split; [done|].
  match goal with E : (if negb (?a =? ?b) then _ else _) = Ok _ |- _ => destruct (Z.eqb_spec a b) as [->|] end; [done|].
  simpl in *. congruence.
Qed.

Lemma add_balance_balances evidence w path s r b s' raw :
  balances w path s → ba_address b ∉ re_seen s → ba_cap b = Z.min (ba_initial b) (ba_cutoff b) →
  is_Some (files w !! path_join (parent path) raw) →
  add_balance evidence s r b = Ok s' → balances w path s'.
Proof.
  intros [Hs Hd Hr Ht Hc] Hfresh Hcap Hev H. unfold add_balance in H. inv_ok H.
  destruct (Z.ltb_spec 0 (ba_cap b)) as [Hpos|Hpos].
  - inv_ok H. subst s'. split; simpl.
    + intros x [Hx|Hx%list_elem_of_singleton]%elem_of_app; [apply elem_of_union_r; auto|]. subst x. simpl. set_solver.
    + rewrite fmap_app. apply NoDup_snoc; [done|]. simpl. intros (x & Hx & Hin)%list_elem_of_fmap.
      apply Hfresh. rewrite Hx. by apply Hs.
    + apply Forall_app_2; [done|]. apply Forall_singleton. split; simpl; [done..|by exists raw].
    + rewrite (msum_fmap_insert _ no_incident), Ht, sum_by_snoc by done. simpl. lia.
    + rewrite (msum_fmap_insert _ no_incident), Hc, length_app by done. simpl. lia.
  - injection H as <-. split; simpl; [|done|done| |].
    + intros x Hx. apply elem_of_union_r. auto.
    + rewrite (msum_fmap_insert _ no_incident), Ht by done. simpl. lia.
    + rewrite (msum_fmap_insert _ no_incident), Hc by done. simpl. lia.
Qed.

Lemma load_retained_Ok relpath path dir w s block w' :
  load_retained relpath path dir w = (Ok (s, block), w') → w' = w ∧ balances w path s ∧ dom (re_blocks s) = {[block]}.
Proof.
  intros H. unfold load_retained in H. apply io_bind_Ok in H as (t & w1 & [-> Ht]%read_Ok & H).
  apply io_bind_Ok in H as (s1 & w1 & Hf & H).
  apply (fold_io_inv _ (balances w path)) in Hf as [-> Hb]; [| |apply balances_empty].
  - destruct (map_to_list (re_blocks s1)) as [|[b n] [|]] eqn:E; try done. apply mret_Ok in H as [-> [= -> ->]].
    split_and!; [done..|]. apply (f_equal (list_to_map (M := gmap Z Z))) in E. rewrite list_to_map_to_list in E.
    rewrite E. simpl. by rewrite insert_empty, dom_singleton_L.
  - clear. intros s r s' w' Hb H. unfold retained_step in H.
    apply io_bind_Ok in H as (b & w1 & [-> Hbal]%lift_Ok & H).
    apply io_bind_Ok in H as (c & w1 & [-> Hc]%lift_Ok & H).
    apply io_bind_Ok in H as (raw & w1 & [-> Hraw]%lift_Ok & H).
    apply io_bind_Ok in H as (is_file & w1 & [= <- <-] & H).
    apply io_bind_Ok in H as ([] & w1 & [-> Hfile%raise_when_Ok]%lift_Ok & H). apply lift_Ok in H as [-> H].
    apply balance_of_Ok in Hbal as [Hfresh Hcap]. bool_facts. split; [done|].
    exact (add_balance_balances _ w path s r b s' raw Hb Hfresh Hcap Hfile H).
Qed.


(** ** Lemmas: the withheld credits *)
Definition leak_withheld (r : row) : Z := get 0 (cell_int r "retained_cap_atto").
Definition leak_credit (r : row) : Z := get 0 (cell_int r "unbacked_credit_atto").
Definition leak_claim (r : row) : Z := get 0 (cell_int r "cutoff_native_claim_atto").

(** A row of the export that follows the rule. *)
Definition leak_row_ok (caps amounts : gmap string Z) (r : row) : Prop :=
  let prior := mget caps (row_address r) + mget amounts (row_address r) in
  is_ok (cell_str r "address_hex") = true ∧
  cell_int r "prior_non_issuance_atto" = Ok prior ∧
  cell_int r "retained_cap_atto" = Ok (leak_withheld r) ∧
  cell_int r "unbacked_credit_atto" = Ok (leak_credit r) ∧
  cell_int r "cutoff_native_claim_atto" = Ok (leak_claim r) ∧
  leak_withheld r = Z.min (leak_credit r) (Z.max (leak_claim r - prior) 0) ∧ 0 < leak_withheld r ∧
  r !! "migration_treatment" = Some (Some "not_issued") ∧ is_Some (r !! "incident").

Record leak_checked (caps amounts : gmap string Z) (rows : list row) (s : leak_state) : Prop := {
  lc_seen : le_seen s = list_to_set (row_address <$> rows);
  lc_distinct : NoDup (row_address <$> rows);
  lc_rows : Forall (leak_row_ok caps amounts) rows;
  lc_total : leak_total s = sum_by leak_withheld rows;
}.

(** The check accepts exactly the rows that follow the rule and whose address is new. *)
Lemma leak_row_step_Ok caps amounts s r s' :
  leak_row_step caps amounts s r = Ok s' →
  row_address r ∉ le_seen s ∧ leak_row_ok caps amounts r ∧
  le_seen s' = {[row_address r]} ∪ le_seen s ∧ leak_total s' = leak_total s + leak_withheld r.
Proof.
  unfold leak_row_step. intros H. inv_ok H. subst s'. bool_facts.
  match goal with E : (if ?b then _ else _) = Ok _ |- _ => destruct b eqn:Erule; [congruence|] end.
  match goal with E : (_ ≫= _) = Ok _ |- _ => apply bind_Ok in E as (t & Et & [= <-]) end. bool_facts. subst.
  unfold cell in *. repeat match goal with E : of_option _ _ = Ok _ |- _ => apply of_option_Ok in E end.
  unfold leak_row_ok, row_address, leak_withheld, leak_credit, leak_claim, leak_total.
  repeat match goal with E : cell_int _ _ = Ok _ |- _ => rewrite !E; clear E
                       | E : cell_str _ _ = Ok _ |- _ => rewrite !E; clear E end.
  cbn [get is_ok le_seen le_incidents]. split_and!; try done; try lia.
  rewrite (msum_fmap_insert _ no_leak_stats) by done. simpl. lia.
Qed.

Lemma leak_row_step_total caps amounts s r :
  row_address r ∉ le_seen s → leak_row_ok caps amounts r → ∃ s', leak_row_step caps amounts s r = Ok s'.
Proof.
  unfold leak_row_ok, row_address. cbv zeta. intros Hs (Ha & Hp & Hw & Hc & Hl & Hr & Hpos & Ht & [i Hi]).
  unfold leak_row_step. destruct (cell_str r "address_hex") as [a|]; [|done]. simpl in Hs, Hp, Hr, Hpos |- *.
  rewrite (bool_decide_eq_false_2 (lower a ∈ le_seen s)) by done. simpl. rewrite Hp. simpl. rewrite Z.eqb_refl. simpl.
  rewrite Hw. simpl. rewrite Hc. simpl. rewrite Hl. simpl. rewrite <-Hr, Z.eqb_refl.
  rewrite (proj2 (Z.leb_gt _ _) Hpos). unfold cell. simpl. rewrite Ht. simpl. rewrite Hi. simpl. by eexists.
Qed.

Lemma leak_rows_Ok caps amounts rows s :
  foldM (leak_row_step caps amounts) no_leak rows = Ok s → leak_checked caps amounts rows s.
Proof.
  apply (foldM_ind _ (leak_checked caps amounts)).
  - split; simpl; by constructor.
  - intros pre r s1 s2 [Hs Hd Hr Ht] _ (Hn & Hok & Hs2 & Ht2)%leak_row_step_Ok. split.
    + rewrite Hs2, Hs, fmap_app, list_to_set_app_L. simpl. rewrite union_empty_r_L. apply union_comm_L.
    + rewrite fmap_app. apply NoDup_snoc; [done|]. intros Hin. apply Hn. rewrite Hs. by apply elem_of_list_to_set.
    + apply Forall_app_2; [done|]. by apply Forall_singleton.
    + by rewrite Ht2, Ht, sum_by_snoc.
Qed.

(** Rows that follow the rule at distinct addresses are all accepted. *)
Lemma leak_rows_total caps amounts rows s :
  NoDup (row_address <$> rows) → (∀ r, r ∈ rows → row_address r ∉ le_seen s) →
  Forall (leak_row_ok caps amounts) rows → ∃ s', foldM (leak_row_step caps amounts) s rows = Ok s'.
Proof.
  revert s. induction rows as [|r rows IH]; intros s Hd Hs Hr; [by eexists|].
  rewrite fmap_cons in Hd. apply NoDup_cons in Hd as [Hn Hd]. apply Forall_cons in Hr as [H1 Hr].
  destruct (leak_row_step_total caps amounts s r) as [s1 H]; [apply Hs; by left|done|]. simpl. rewrite H. simpl.
  apply IH; [done| |done]. intros x Hx. apply leak_row_step_Ok in H as (_ & _ & -> & _).
  intros [Hin%elem_of_singleton|Hin]%elem_of_union; [|by apply (Hs x); [right|]].
  apply Hn. rewrite <-Hin. by apply list_elem_of_fmap_2.
Qed.

(** ** Lemmas: the whole run *)
Lemma load_existing_rows path w e w' :
  load_existing path w = (Ok e, w') → ∃ text, files w !! path = Some text ∧ ex_rows e = dict_rows text.
Proof.
  intros H. unfold load_existing in H. apply io_bind_Ok in H as (t & w1 & [-> Ht]%read_Ok & [-> H]%lift_Ok).
  exists t. split; [done|]. apply (foldM_ind _ (λ l s, ex_rows s = l)) in H; [done..|].
  intros pre r s1 s2 Hs _ Hr. unfold existing_step in Hr. inv_ok Hr. subst s2. simpl. by rewrite Hs.
Qed.

Lemma load_inventories_rows paths w e w' :
  load_inventories paths w = (Ok e, w') → rows_of w paths (ex_rows e).
Proof.
  unfold load_inventories. enough (Hgen : ∀ s, fold_io join_existing s paths w = (Ok e, w') →
    ∃ rows, rows_of w paths rows ∧ ex_rows e = ex_rows s ++ rows).
  { intros (rows & Hr & ->)%Hgen. done. }
  revert w. induction paths as [|p paths IH]; intros w s H; cbn [fold_io] in H.
  - apply mret_Ok in H as [-> <-]. exists []. rewrite app_nil_r. split; [by exists []|done].
  - apply io_bind_Ok in H as (s1 & w1 & H1 & H). unfold join_existing in H1.
    apply io_bind_Ok in H1 as (e1 & w2 & He & H1). apply load_existing_Ok in He as Hw. destruct Hw as [-> _].
    apply load_existing_rows in He as (t & Ht & He).
    apply io_bind_Ok in H1 as ([] & w3 & [-> _]%lift_Ok & H1). apply mret_Ok in H1 as [-> <-].
    apply IH in H as (rows & (texts & Hts & ->) & ->). exists (dict_rows t ++ mjoin (dict_rows <$> texts)).
    split; [|simpl; by rewrite He, app_assoc]. exists (t :: texts). split; [|done]. cbn [mapR].
    assert (read p w = (Ok t, w)) as -> by (unfold read; by rewrite Ht). by rewrite Hts.
Qed.

(** The earlier non-issuance of an address. *)
Definition issued_before (e : existing) (r : retained_state) (x : string) : Z :=
  sum_by row_not_issued (filter (λ r, row_address r = x) (ex_rows e)) +
  sum_by nr_cap (filter (λ r, nr_address r = x) (re_rows r)).

Lemma existing_amounts_Ok rows m :
  NoDup (row_address <$> rows) → existing_amounts rows = Ok m → m = tally row_address row_not_issued ∅ rows.
Proof.
  intros Hd H. rewrite <-foldl_insert_tally by done. unfold existing_amounts in H.
  apply (foldM_ind _ (λ l m, m = foldl (λ m r, <[row_address r := row_not_issued r]> m) ∅ l)) in H; [done..|].
  intros pre r m1 m2 -> _ Hr. unfold amount_step in Hr. inv_ok Hr. subst m2. rewrite foldl_app. simpl.
  unfold row_address, row_not_issued. by rewrite E, E0.
Qed.

Lemma prior_amount e r amounts x :
  NoDup (row_address <$> ex_rows e) → NoDup (nr_address <$> re_rows r) → existing_amounts (ex_rows e) = Ok amounts →
  mget (retained_caps (re_rows r)) x + mget amounts x = issued_before e r x.
Proof.
  intros He Hr ->%existing_amounts_Ok; [|done]. unfold retained_caps, issued_before.
  rewrite (foldl_insert_tally nr_address nr_cap) by done. rewrite !mget_tally, !mget_empty. lia.
Qed.

Lemma load_revert_leak_Ok path summary_path caps amounts w s t summary w' :
  load_revert_leak path summary_path caps amounts w = (Ok (s, t, summary), w') →
  w' = w ∧ t = leak_total s ∧ ∃ text, files w !! path = Some text ∧ leak_checked caps amounts (dict_rows text) s ∧
    ∃ o d n, jget "outputs" summary = Ok o ∧ jget "csv_sha256" o = Ok d ∧ jeq_str d (sha256 text) = true ∧
      jget "not_issued_atto" summary = Ok n ∧ jeq_str n (str_of_Z t) = true.
Proof.
  intros H. unfold load_revert_leak in H.
  apply io_bind_Ok in H as (sm & w1 & H1 & H). unfold load_json in H1.
  apply io_bind_Ok in H1 as (t0 & w2 & [-> _]%read_Ok & [-> _]%lift_Ok).
  apply io_bind_Ok in H as (st & w2 & [-> _]%lift_Ok & H). apply io_bind_Ok in H as ([] & w2 & [-> _]%lift_Ok & H).
  apply io_bind_Ok in H as (o & w2 & [-> Ho]%lift_Ok & H). apply io_bind_Ok in H as (d & w2 & [-> Hd]%lift_Ok & H).
  apply io_bind_Ok in H as (dg & w2 & Hdg & H). unfold file_sha256 in Hdg.
  rewrite file_sha256_at_read in Hdg by lia. destruct (files w !! path) as [text|] eqn:Ht; [|done].
  injection Hdg as <- <-.
  apply io_bind_Ok in H as ([] & w2 & [-> Heq%raise_when_Ok]%lift_Ok & H).
  apply io_bind_Ok in H as (text' & w2 & [-> Ht']%read_Ok & H). simplify_eq.
  apply io_bind_Ok in H as (s' & w2 & [-> Hs]%lift_Ok & H).
  apply io_bind_Ok in H as (n & w2 & [-> Hn]%lift_Ok & H).
  apply io_bind_Ok in H as (b & w2 & [-> Hb]%lift_Ok & H).
  apply io_bind_Ok in H as ([] & w2 & [-> ->%raise_when_Ok]%lift_Ok & H). apply mret_Ok in H as [-> [= <- <- <-]].
  split_and!; [done..|]. exists text. split_and!; [done|by apply leak_rows_Ok|].
  exists o, d, n. apply negb_false_iff in Heq. split_and!; [done..|].
  destruct (jeq_str n _); [done|]. simpl in Hb. congruence.
Qed.

(** The rows of the withheld revert-leak credits, none without the option. *)
Definition leak_rows (a : args) (w : world) : list row :=
  match output_path (a_revert_leak_retention a) with
  | Some p => dict_rows (default EmptyString (files w !! p))
  | None => []
  end.

(** What a run up to the check against the gross claim establishes. *)
Record checked (a : args) (w : world) (c : combined) : Prop := {
  ck_existing : inventory (co_existing c);
  ck_rows : rows_of w (a_existing a) (ex_rows (co_existing c));
  ck_retained : balances w (a_retained_balances a) (co_retained c);
  ck_disjoint : ex_seen (co_existing c) ∩ list_to_set (nr_address <$> re_rows (co_retained c)) = ∅;
  ck_leaks : ∃ amounts s, existing_amounts (ex_rows (co_existing c)) = Ok amounts ∧
    leak_checked (retained_caps (re_rows (co_retained c))) amounts (leak_rows a w) s ∧ leak_total_of c = leak_total s;
  ck_bound : total c ≤ co_gross c;
}.

(** Amounts of rows that were accepted can be read again. *)
Lemma existing_amounts_total s : inventory s → ∃ m, existing_amounts (ex_rows s) = Ok m.
Proof.
  intros Hi. destruct (foldM_total amount_step (λ _, True) ∅ (ex_rows s)) as (m & Hm & _); [done| |by exists m].
  intros r m _ Hr. pose proof (iv_rows _ Hi) as Hf. rewrite Forall_forall in Hf. destruct (Hf r Hr) as (Hn & Ha & _).
  unfold amount_step. destruct (cell_str r "address_hex"); [|done]. simpl. rewrite Hn. by eexists.
Qed.

Lemma no_leak_checked caps amounts : leak_checked caps amounts [] no_leak.
Proof. split; by constructor. Qed.

Lemma load_leak_section_Ok resolve a e r w l w' :
  inventory e → load_leak_section resolve a e r w = (Ok l, w') →
  w' = w ∧ ∃ amounts s, existing_amounts (ex_rows e) = Ok amounts ∧
    leak_checked (retained_caps (re_rows r)) amounts (leak_rows a w) s ∧
    match l with Some l => lx_total l | None => 0 end = leak_total s.
Proof.
  intros Hi H. assert (Hs : ∀ p, reads_only (source_entry resolve p)) by
    (intros p; apply reads_only_bind; [apply reads_only_file_sha256_at|done]).
  unfold load_leak_section, leak_rows in *. destruct (output_path (a_revert_leak_retention a)) as [p|].
  - destruct (output_path (a_revert_leak_summary a)) as [p2|]; [|done].
    apply io_bind_Ok in H as (amounts & w1 & [-> Ha]%lift_Ok & H).
    apply io_bind_Ok in H as ([[s t] sm] & w1 & (-> & -> & text & Ht & Hc & _)%load_revert_leak_Ok & H).
    apply io_bind_Ok in H as ([rule sec] & w1 & [-> _]%lift_Ok & H).
    apply io_bind_Ok in H as (j1 & w1 & ->%reads_only_world & H); [|done].
    apply io_bind_Ok in H as (j2 & w1 & ->%reads_only_world & H); [|done]. apply mret_Ok in H as [-> <-].
    split; [done|]. exists amounts, s. rewrite Ht. by split_and!.
  - apply mret_Ok in H as [-> <-]. destruct (existing_amounts_total e Hi) as [m Hm]. split; [done|].
    exists m, no_leak. split_and!; [done|apply no_leak_checked|done].
Qed.

Lemma combine_Ok resolve relpath a w c w' : combine resolve relpath a w = (Ok c, w') → w' = w ∧ checked a w c.
Proof.
  intros H. unfold combine in H.
  apply io_bind_Ok in H as (e & w1 & He & H). apply load_inventories_Ok in He as Hi. destruct Hi as [-> Hi].
  apply load_inventories_rows in He.
  apply io_bind_Ok in H as ([r block] & w1 & (-> & Hr & _)%load_retained_Ok & H).
  apply io_bind_Ok in H as ([] & w1 & [-> Hd%raise_when_Ok]%lift_Ok & H).
  apply io_bind_Ok in H as (rs & w1 & H1 & H). unfold load_json in H1.
  apply io_bind_Ok in H1 as (t1 & w2 & [-> _]%read_Ok & [-> _]%lift_Ok).
  apply io_bind_Ok in H as ([] & w1 & [-> _]%lift_Ok & H).
  apply io_bind_Ok in H as (cs & w1 & H1 & H). unfold load_json in H1.
  apply io_bind_Ok in H1 as (t2 & w2 & [-> _]%read_Ok & [-> _]%lift_Ok).
  apply io_bind_Ok in H as (gross & w1 & [-> _]%lift_Ok & H).
  apply io_bind_Ok in H as (l & w1 & [-> Hl]%load_leak_section_Ok & H); [|done].
  apply io_bind_Ok in H as ([] & w1 & [-> Hg%raise_when_Ok]%lift_Ok & H). apply mret_Ok in H as [-> <-].
  bool_facts. split; [done|]. split; simpl; [done..| |lia]. exact Hl.
Qed.

Lemma leak_withheld_sound caps amounts r : leak_row_ok caps amounts r →
  leak_withheld r = Z.min (leak_credit r) (Z.max (leak_claim r - (mget caps (row_address r) + mget amounts (row_address r))) 0) ∧
  0 < leak_withheld r.
Proof. unfold leak_row_ok. cbv zeta. tauto. Qed.

Lemma inventory_row s r : inventory s → r ∈ ex_rows s → 0 ≤ row_not_issued r ≤ row_claim r.
Proof. intros Hi Hr. by destruct (proj1 (Forall_forall _ _) (iv_rows _ Hi) r Hr) as (_ & _ & ?). Qed.

Lemma balances_row w path s r :
  balances w path s → r ∈ re_rows s → 0 < nr_cap r ∧ nr_cap r = Z.min (nr_initial r) (nr_cutoff_balance r).
Proof. intros Hb Hr. by destruct (proj1 (Forall_forall _ _) (bl_rows _ _ _ Hb) r Hr). Qed.

Lemma leak_checked_row caps amounts rows s r : leak_checked caps amounts rows s → r ∈ rows → leak_row_ok caps amounts r.
Proof. intros Hl. exact (proj1 (Forall_forall _ _) (lc_rows _ _ _ _ Hl) r). Qed.

Lemma checked_total a w c : checked a w c →
  total c = sum_by row_not_issued (ex_rows (co_existing c)) + sum_by nr_cap (re_rows (co_retained c)) +
            sum_by leak_withheld (leak_rows a w).
Proof.
  intros [Hi _ Hr _ (amounts & s & _ & Hl & Ht) _]. unfold total, existing_total, retained_total.
  by rewrite (iv_total _ Hi), (bl_total _ _ _ Hr), Ht, (lc_total _ _ _ _ Hl).
Qed.

(** C7 (invariant): the amount not issued is the sum of the rows of the reviewed inventories, of the
    caps of the retained balances and of the withheld leak credits; it is not negative and does
    not exceed the gross claim, and the run up to that point touches no file. *)
Theorem non_issuance_totals resolve relpath a w c w' :
  combine resolve relpath a w = (Ok c, w') →
  w' = w ∧
  rows_of w (a_existing a) (ex_rows (co_existing c)) ∧
  total c = sum_by row_not_issued (ex_rows (co_existing c)) + sum_by nr_cap (re_rows (co_retained c)) +
            sum_by leak_withheld (leak_rows a w) ∧
  0 ≤ total c ≤ co_gross c ∧
  msum (ca_rows <$> ex_categories (co_existing c)) = Z.of_nat (length (ex_rows (co_existing c))) ∧
  msum (in_positive <$> re_incidents (co_retained c)) = Z.of_nat (length (re_rows (co_retained c))).
Proof.
  intros [-> Hc]%combine_Ok. pose proof (checked_total a w c Hc) as Ht.
  destruct Hc as [Hi Hrows Hr _ (amounts & s & _ & Hl & _) Hb].
  split_and!; [done|done|done| |done|by apply iv_count|by eapply bl_count].
  rewrite Ht.
  assert (0 ≤ sum_by row_not_issued (ex_rows (co_existing c))) by (apply sum_by_nonneg; intros x Hx; by apply (inventory_row _ _ Hi)).
  assert (0 ≤ sum_by nr_cap (re_rows (co_retained c))) by (apply sum_by_nonneg; intros x Hx; pose proof (balances_row _ _ _ _ Hr Hx); lia).
  assert (0 ≤ sum_by leak_withheld (leak_rows a w))
    by (apply sum_by_nonneg; intros x Hx; pose proof (leak_withheld_sound _ _ _ (leak_checked_row _ _ _ _ _ Hl Hx)); lia).
  lia.
Qed.

(** C6 (safety): no amount is left out twice.  An address has one row over all the inventories
    and the retained balances together and at most one withheld credit.  An inventory row takes
    no more than the claim, a retained balance takes the smaller of the distribution and the
    cutoff balance, and a leak credit takes, after what its address already loses, no more than
    what is left of the claim. *)
Theorem no_double_issue resolve relpath a w c w' :
  combine resolve relpath a w = (Ok c, w') →
  let e := co_existing c in let r := co_retained c in
  NoDup ((row_address <$> ex_rows e) ++ (nr_address <$> re_rows r)) ∧
  NoDup (row_address <$> leak_rows a w) ∧
  (∀ x, x ∈ ex_rows e → 0 ≤ row_not_issued x ≤ row_claim x) ∧
  (∀ x, x ∈ re_rows r → 0 < nr_cap x ∧ nr_cap x = Z.min (nr_initial x) (nr_cutoff_balance x)) ∧
  (∀ x, x ∈ leak_rows a w →
     let prior := issued_before e r (row_address x) in
     cell_int x "prior_non_issuance_atto" = Ok prior ∧
     leak_withheld x = Z.min (leak_credit x) (Z.max (leak_claim x - prior) 0) ∧
     0 < leak_withheld x ∧ prior + leak_withheld x ≤ leak_claim x).
Proof.
  intros [-> [Hi _ Hr Hd (amounts & s & Ha & Hl & _) _]]%combine_Ok. cbv zeta.
  split_and!.
  - apply NoDup_app. split_and!; [apply (iv_distinct _ Hi)| |apply (bl_distinct _ _ _ Hr)]. intros x Hx Hy.
    apply (not_elem_of_empty (C := gset string) x). rewrite <-Hd, (iv_seen _ Hi).
    apply elem_of_intersection. split; by apply elem_of_list_to_set.
  - apply (lc_distinct _ _ _ _ Hl).
  - intros x. by apply inventory_row.
  - intros x. by eapply balances_row.
  - intros x Hx. pose proof (leak_checked_row _ _ _ _ _ Hl Hx) as H3. pose proof (leak_withheld_sound _ _ _ H3) as [Hw Hp].
    rewrite (prior_amount _ _ _ _ (iv_distinct _ Hi) (bl_distinct _ _ _ Hr) Ha) in Hw.
    destruct H3 as (_ & Hprior & _). rewrite (prior_amount _ _ _ _ (iv_distinct _ Hi) (bl_distinct _ _ _ Hr) Ha) in Hprior.
    split_and!; [done..|]. lia.
Qed.

(** ** The output *)
Lemma refuse_publish_Ok p ts replace w w' :
  (refuse_unless p replace ≫= λ _, publish p ts) w = (Ok tt, w') →
  files w !! partial p = None ∧ (replace = false → files w !! p = None) ∧ files w' = <[p := concat_texts ts]> (files w).
Proof.
  intros H. enough (wp (refuse_unless p replace ≫= λ _, publish p ts) w (λ r w', r = Ok tt →
    files w !! partial p = None ∧ (replace = false → files w !! p = None) ∧ files w' = <[p := concat_texts ts]> (files w))) as Hwp.
  { unfold wp in Hwp. rewrite H in Hwp. by apply Hwp. }
  unfold refuse_unless. apply wp_bind, wp_bind, wp_exists. case_bool_decide as H1; apply wp_bind; [by apply wp_ret, wp_lift|].
  apply wp_bind, wp_exists, wp_ret, wp_lift. apply eq_None_not_Some in H1.
  destruct (bool_decide _ && negb replace) eqn:E; simpl; [done|].
  apply wp_publish; [done|]. intros w1 _ Hw _. split_and!; [done| |done]. intros ->.
  rewrite andb_true_r in E. apply bool_decide_eq_false in E. by apply eq_None_not_Some.
Qed.

Lemma reads_only_source_entry resolve p : reads_only (source_entry resolve p).
Proof. apply reads_only_bind; [apply reads_only_file_sha256_at|done]. Qed.

Lemma summary_reads_only resolve a c : reads_only (summary resolve a c).
Proof.
  pose proof (reads_only_source_entry resolve) as Hs.
  assert (Hf : ∀ p, reads_only (file_sha256 p)) by (intros; apply reads_only_file_sha256_at).
  unfold summary. repeat (apply reads_only_bind; [auto using reads_only_map_io, reads_only_lift|intros ?]). done.
Qed.

(** What a summary says of the totals and of the file of retained rows. *)
Definition reported (s : json) (c : combined) (text : string) : Prop :=
  (t ← jget "totals" s; jget_str "gross_cutoff_claim_atto" t) = Ok (str_of_Z (co_gross c)) ∧
  (t ← jget "totals" s; jget_str "not_issued_atto" t) = Ok (str_of_Z (total c)) ∧
  (t ← jget "totals" s; jget_str "remaining_full_claim_after_non_issuance_atto" t) = Ok (str_of_Z (co_gross c - total c)) ∧
  (o ← jget "outputs" s; jget_str "retained_not_issued_csv_sha256" o) = Ok (sha256 text) ∧
  (o ← jget "outputs" s; jget "retained_not_issued_rows" o) = Ok (JInt (Z.of_nat (length (re_rows (co_retained c))))).

Lemma summary_reports resolve a c w s w' :
  summary resolve a c w = (Ok s, w') →
  re_rows (co_retained c) ≠ [] ∧ ∃ text, files w !! a_output_csv a = Some text ∧ reported s c text.
Proof.
  intros H. pose proof (reads_only_source_entry resolve) as Hs. unfold summary in H.
  apply io_bind_Ok in H as (x1 & w1 & [-> Hc]%lift_Ok & H).
  apply io_bind_Ok in H as (x2 & w1 & [-> _]%lift_Ok & H).
  apply io_bind_Ok in H as (x3 & w1 & [-> _]%lift_Ok & H).
  apply io_bind_Ok in H as (d & w1 & Hd & H). unfold file_sha256 in Hd. rewrite file_sha256_at_read in Hd by lia.
  destruct (files w !! a_output_csv a) as [t|]; [|done]. injection Hd as <- <-.
  apply io_bind_Ok in H as (x4 & w1 & ->%reads_only_world & H); [|auto with py].
  apply io_bind_Ok in H as (x5 & w1 & ->%reads_only_world & H); [|done].
  apply io_bind_Ok in H as (x6 & w1 & ->%reads_only_world & H); [|done].
  apply io_bind_Ok in H as (x7 & w1 & ->%reads_only_world & H); [|done]. apply mret_Ok in H as [_ <-].
  split.
  - intros E. unfold cutoff_json in Hc. by rewrite E in Hc.
  - exists t. split; [done|]. unfold reported. by destruct (co_leak c).
Qed.

Definition exported_row (r : retained) : row := dict_row fields (record_of r).

Lemma fields_NoDup : NoDup fields.
Proof. apply (bool_decide_unpack _). by vm_compute. Qed.

Lemma retained_table_read rows : dict_rows (write_csv (retained_table rows)) = exported_row <$> by_address rows.
Proof.
  unfold retained_table. rewrite dict_rows_write_csv, <-list_fmap_compose; [done|]. by apply Forall_fmap, Forall_true.
Qed.

(** A run that returns has written the retained rows and then the summary, and nothing
    else; without [--replace] the rows' file did not exist.  The rows read back sorted by address,
    each once, with their caps; the summary carries the SHA-256 of their file, the totals, and a
    remaining claim that is the gross claim less the amount not issued.  At least one balance is
    retained. *)
Theorem non_issuance_output resolve relpath a w c w' :
  main resolve relpath a w = (Ok c, w') →
  combine resolve relpath a w = (Ok c, w) ∧
  let rows := re_rows (co_retained c) in
  let text := write_csv (retained_table rows) in
  rows ≠ [] ∧
  (∃ s, files w' = <[a_summary_output a := dumps s +:+ newline]> (<[a_output_csv a := text]> (files w)) ∧ reported s c text) ∧
  dict_rows text = exported_row <$> by_address rows ∧
  by_address rows ≡ₚ rows ∧ StronglySorted str_lt (nr_address <$> by_address rows) ∧
  (∀ r, cell_str (exported_row r) "address_hex" = Ok (nr_address r) ∧
        cell_int (exported_row r) "retained_cap_atto" = Ok (nr_cap r)) ∧
  (a_replace a = false → files w !! a_output_csv a = None).
Proof.
  intros H. unfold main in H. apply io_bind_Ok in H as (c' & w1 & Hc & H).
  apply combine_Ok in Hc as Hk. destruct Hk as [-> Hk].
  apply io_bind_Ok in H as ([] & w2 & (_ & Hr & Hw2)%refuse_publish_Ok & H).
  apply io_bind_Ok in H as (s & w3 & Hs & H). apply reads_only_world in Hs as Hw; [|apply summary_reads_only]. subst w3.
  apply io_bind_Ok in H as ([] & w4 & (_ & _ & Hw4)%refuse_publish_Ok & H). apply mret_Ok in H as [-> ->].
  split; [done|]. cbv zeta. unfold concat_texts in *. rewrite concat_csv_lines in Hw2.
  apply summary_reports in Hs as (Hne & text & Ht & Hrep). rewrite Hw2, lookup_insert_eq in Ht. injection Ht as <-.
  split_and!; [done| |apply retained_table_read|apply sort_by_Permutation| | |done].
  - exists s. split; [|done]. rewrite Hw4, Hw2. simpl. by rewrite str_app_nil_r.
  - unfold by_address. rewrite (fmap_sort_by nr_address str_leb). apply sort_by_str_sorted.
    apply (bl_distinct _ _ _ (ck_retained _ _ _ Hk)).
  - intros r. split; [apply cell_str_Ok|].
    + by apply (dict_row_lookup fields (record_of r) 1); [apply fields_NoDup|..].
    + by apply (dict_row_int fields (record_of r) 5); [apply fields_NoDup|..].
Qed.

(** ** Witnesses *)
Definition ex_address (n : Z) : string := "0x" +:+ hex (replicate 20 n).

Definition ex_inventory : string := write_csv
  [["address_hex"; "category"; "cutoff_claim_atto"; "not_issued_atto"];
   [ex_address 1; "exploit"; "90"; "40"]; [ex_address 2; "exploit"; "7"; "0"]; [ex_address 3; "extra-mint"; "500"; "500"]].

Definition ex_balances (distributed : string) : string := write_csv
  [["address"; "incident"; "initial_amount_atto"; "cutoff_balance_atto"; "rpc_balance_atto"; "rpc_retained_cap_atto";
    "balance_changed_from_sep10"; "rpc_block"; "cutoff_block"; "raw_file"];
   [ex_address 17; "june"; distributed; "60"; "60"; distributed; "false"; "9"; "8"; "raw.json"];
   [ex_address 18; "june"; "70"; "0"; "0"; "0"; "False"; "9"; "8"; "raw.json"]].

Definition ex_incidents (distributed : string) : json :=
  JObj [("block", JInt 9); ("changed_from_sep10", JInt 0); ("block_hash", JStr "0xhash"); ("block_utc", JStr "utc");
        ("queried_at_utc", JStr "utc");
        ("incidents", JObj [("june", JObj [("addresses", JInt 2); ("retained_cap_atto", JStr distributed);
                                           ("above_1000_one", JInt 0)])])].

Definition ex_leak_table : string := write_csv
  [["address_hex"; "incident"; "unbacked_credit_atto"; "cutoff_native_claim_atto"; "prior_non_issuance_atto";
    "retained_cap_atto"; "migration_treatment"];
   [ex_address 1; "may"; "1000"; "90"; "40"; "50"; "not_issued"];
   [ex_address 17; "may"; "5"; "60"; "20"; "5"; "not_issued"]].

Definition ex_leak_summary : json :=
  JObj [("status", JStr "passed"); ("rule", JStr "rule"); ("leak_receipts", JInt 3); ("credited_recipients", JInt 2);
        ("unbacked_credit_atto", JStr "1005"); ("unbacked_credit_one", JStr "0.000000000000001005");
        ("not_issued_atto", JStr "55"); ("positive_rows", JInt 2);
        ("outputs", JObj [("csv_sha256", JStr (sha256 ex_leak_table))])].

Definition ex_world (distributed : string) : world := World (list_to_map
  [("inventory.csv", ex_inventory); ("data/balances.csv", ex_balances distributed); ("data/raw.json", "{}");
   ("retained.json", dumps (ex_incidents distributed));
   ("claims.json", dumps (JObj [("total_claim_atto", JStr "1000")]));
   ("leak.csv", ex_leak_table); ("leak.json", dumps ex_leak_summary)]) None.

Definition ex_args : args :=
  Args ["inventory.csv"] "data/balances.csv" "retained.json" "claims.json" (Some "leak.csv") (Some "leak.json")
    "out/rows.csv" "out/summary.json" false.

Definition ex_resolve (p : string) : list string := ["/"; "srv"; "data"; p].
Definition ex_relpath (p _ : string) : string := "../" +:+ p.
Definition ex_nothing : combined := Combined no_existing no_retained 0 JNull 0 None.
Definition ex_combined : combined := get ex_nothing (combine ex_resolve ex_relpath ex_args (ex_world "20")).1.

Lemma ex_combine : combine ex_resolve ex_relpath ex_args (ex_world "20") =
  (Ok ex_combined, (combine ex_resolve ex_relpath ex_args (ex_world "20")).2).
Proof. apply run_Ok, get_Ok. by vm_compute. Qed.

Example ex_combined_totals : (total ex_combined, co_gross ex_combined, leak_total_of ex_combined) = (615, 1000, 55).
Proof. by vm_compute. Qed.

Lemma non_issuance_totals_witness : 0 ≤ total ex_combined ≤ co_gross ex_combined.
Proof. apply (non_issuance_totals ex_resolve ex_relpath ex_args (ex_world "20") ex_combined _ ex_combine). Defined.

Lemma no_double_issue_witness : NoDup (row_address <$> leak_rows ex_args (ex_world "20")).
Proof. apply (no_double_issue ex_resolve ex_relpath ex_args (ex_world "20") ex_combined _ ex_combine). Defined.

Definition ex_output : combined := get ex_nothing (main ex_resolve ex_relpath ex_args (ex_world "20")).1.

Lemma ex_main : main ex_resolve ex_relpath ex_args (ex_world "20") =
  (Ok ex_output, (main ex_resolve ex_relpath ex_args (ex_world "20")).2).
Proof. apply run_Ok, get_Ok. by vm_compute. Qed.

Lemma non_issuance_output_witness : re_rows (co_retained ex_output) ≠ [].
Proof. apply (non_issuance_output ex_resolve ex_relpath ex_args (ex_world "20") ex_output _ ex_main). Defined.

(** When no balance is retained the run fails after the rows' file is in place: the summary reads
    the first row. *)
Definition ex_empty_args : args :=
  Args ["inventory.csv"] "data/balances.csv" "retained.json" "claims.json" None None "out/rows.csv" "out/summary.json" false.

Example nothing_retained :
  let r := main ex_resolve ex_relpath ex_empty_args (ex_world "0") in
  r.1 = Err IndexError ∧ files r.2 !! "out/rows.csv" = Some (csv_line fields) ∧ files r.2 !! "out/summary.json" = None.
Proof. by vm_compute. Qed.
