(* ===== verification/Interval.v ===== *)
(** * The canonical interval audit

    toolkit/scripts/cutoff/canonical-interval-audit.py: reads every block of an interval from an
    archive node, in chunks, and checks that the blocks form one chain: consecutive numbers,
    each parent hash that of the block before, timestamps that do not fall.  It exports the
    transactions and the blocks that matter, and digests all headers.

    [read_block] is the part of the loop's body that checks a block and reads its fields,
    [block_step] the whole body with its writes, [scan] the loop over the chunks, and [audit]
    the part of [main] inside [try].  The two tables are open at the same time, so a write to
    one may come between two writes to the other. *)
From S2P Require Import Prelude PyStr PyData Sha256 Files Csv Rpc.

Definition EMPTY_ROOT : string := "0x56e81f171bcc55a6ff8345e692c0f86e5b48e01b996cadc001622fb5e363b421".

Record args := Args {
  a_rpc : string;
  a_shard : Z;
  a_start : Z;
  a_end : Z;
  a_material_blocks : string;
  a_transactions : string;
  a_summary : string;
  a_chunk_size : Z;
}.

Definition file_sha256 : string → IO string := file_sha256_at (Z.to_nat (4 * 1024 * 1024)).

(** ** Transactions *)

(** [transaction_value(transaction, *names)] *)
Fixpoint transaction_value (transaction : json) (names : list string) : result json :=
  match names with
  | [] => Ok (JStr EmptyString)
  | name :: names =>
      present ← jin name transaction;
      if (present : bool) then
        v ← jget name transaction;
        match v with JNull => transaction_value transaction names | _ => Ok v end
      else transaction_value transaction names
  end.

Definition transaction_fields : list string :=
  ["shard"; "block_number"; "block_hash"; "timestamp"; "kind"; "index"; "transaction_hash"; "from"; "to"; "from_shard";
   "to_shard"; "value"; "nonce"; "transaction_json"].

(** The row that [write_transaction] writes. *)
Definition transaction_row (shard : Z) (block : json) (kind : string) (index : Z) (transaction : json) : result (list json) :=
  number ← jget "number" block;
  hash ← jget "hash" block;
  timestamp ← jget "timestamp" block;
  transaction_hash ← transaction_value transaction ["hash"; "transactionHash"];
  from ← transaction_value transaction ["from"];
  to ← transaction_value transaction ["to"];
  from_shard ← transaction_value transaction ["shardID"; "fromShard"];
  to_shard ← transaction_value transaction ["toShardID"; "toShard"];
  value ← transaction_value transaction ["value"; "amount"];
  nonce ← transaction_value transaction ["nonce"];
  Ok [JInt shard; number; hash; timestamp; JStr kind; JInt index; transaction_hash; from; to; from_shard; to_shard; value;
      nonce; JStr (dumps_compact transaction)].

Definition row_line (row : list json) : string := csv_line (csv_value <$> row).

Definition write_transaction (path : string) (shard : Z) (block : json) (kind : string) (index : Z) (transaction : json) : IO unit :=
  row ← lift (transaction_row shard block kind index transaction);
  write path (row_line row).

(** [from_shard != "" and to_shard != "" and int(from_shard) != int(to_shard)] *)
Definition crosses (transaction : json) : result bool :=
  from_shard ← transaction_value transaction ["shardID"; "fromShard"];
  to_shard ← transaction_value transaction ["toShardID"; "toShard"];
  if jeq_str from_shard EmptyString || jeq_str to_shard EmptyString then Ok false
  else
    f ← jint from_shard;
    t ← jint to_shard;
    Ok (negb (f =? t)).

(** ** One block *)

(** [bool(root) and root.lower() != EMPTY_ROOT.lower()] *)
Definition nonempty (root : json) : result bool :=
  if truthy root then s ← jstr root; Ok (negb (bool_decide (lower s = lower EMPTY_ROOT))) else Ok false.

(** What the loop's body reads of a block before it writes. *)
Record facts := Facts {
  f_number : Z;
  f_parent : string;
  f_timestamp : Z;
  f_transactions : list json;
  f_staking : list json;
  f_root : string;
  f_changed : bool;
  f_tx_root : json;
  f_receipt_root : json;
  f_outgoing_root : json;
  f_incoming_root : json;
  f_gas : Z;
  f_receipts : bool;
  f_outgoing : bool;
  f_incoming : bool;
}.

Definition read_block (next : Z) (expected_parent previous_root previous_timestamp block : json) : result facts :=
  number ← jget_int "number" block;
  raise_when (negb (number =? next)) (RuntimeError "expected block");;
  parent ← jget_str "parentHash" block;
  expected ← jstr expected_parent;
  raise_when (negb (bool_decide (lower parent = lower expected))) (RuntimeError "parent mismatch");;
  timestamp ← jget_int "timestamp" block;
  previous ← jint previous_timestamp;
  raise_when (timestamp <? previous) (RuntimeError "timestamp regressed");;
  transactions ← jget_or "transactions" (JArr []) block;
  staking ← jget_or "stakingTransactions" (JArr []) block;
  root ← jget_str "stateRoot" block;
  before ← jstr previous_root;
  let state_changed := negb (bool_decide (lower root = lower before)) in
  tx_root ← jget_or "transactionsRoot" (JStr EmptyString) block;
  receipt_root ← jget_or "receiptsRoot" (JStr EmptyString) block;
  outgoing_root ← jget_or "outgoingReceiptsRoot" (JStr EmptyString) block;
  incoming_root ← jget_or "incomingReceiptsRoot" (JStr EmptyString) block;
  g ← jget_or "gasUsed" (JInt 0) block;
  gas_used ← jint g;
  ts ← jiter transactions;
  ss ← jiter staking;
  receipts ← nonempty receipt_root;
  outgoing ← nonempty outgoing_root;
  incoming ← nonempty incoming_root;
  Ok (Facts number parent timestamp ts ss root state_changed tx_root receipt_root outgoing_root incoming_root gas_used
        receipts outgoing incoming).

Definition material (f : facts) : bool :=
  f_changed f || negb (length (f_transactions f) =? 0)%nat || negb (length (f_staking f) =? 0)%nat || negb (f_gas f =? 0)
  || f_receipts f || f_outgoing f || f_incoming f.

Definition material_fields : list string :=
  ["shard"; "number"; "hash"; "parent_hash"; "timestamp"; "state_root"; "transactions_root"; "receipts_root";
   "outgoing_receipts_root"; "incoming_receipts_root"; "gas_used"; "transaction_count"; "staking_transaction_count";
   "state_root_changed"].

Definition material_row (shard : Z) (hash : json) (f : facts) : list json :=
  [JInt shard; JInt (f_number f); hash; JStr (f_parent f); JInt (f_timestamp f); JStr (f_root f); f_tx_root f; f_receipt_root f;
   f_outgoing_root f; f_incoming_root f; JInt (f_gas f); JInt (Z.of_nat (length (f_transactions f)));
   JInt (Z.of_nat (length (f_staking f))); JStr (if f_changed f then "true" else "false")].

(** The header line that is digested. *)
Definition header_line (f : facts) (hash tx_root receipt_root : string) : string :=
  str_of_Z (f_number f) +:+ "|" +:+ lower hash +:+ "|" +:+ lower (f_parent f) +:+ "|" +:+ str_of_Z (f_timestamp f) +:+ "|" +:+
  lower (f_root f) +:+ "|" +:+ lower tx_root +:+ "|" +:+ lower receipt_root +:+ newline.

(** ** The loop *)
Record counts := Counts {
  blocks : Z;
  material_blocks : Z;
  state_root_changes : Z;
  normal_transactions : Z;
  staking_transactions : Z;
  cross_shard_transactions : Z;
  nonempty_receipts_roots : Z;
  nonempty_outgoing_receipts_roots : Z;
  nonempty_incoming_receipts_roots : Z;
  gas_used : Z;
}.

Definition no_counts : counts := Counts 0 0 0 0 0 0 0 0 0 0.

Definition count_block (f : facts) (cross : Z) (c : counts) : counts :=
  Counts (blocks c + 1) (material_blocks c + Z.b2z (material f)) (state_root_changes c + Z.b2z (f_changed f))
    (normal_transactions c + Z.of_nat (length (f_transactions f))) (staking_transactions c + Z.of_nat (length (f_staking f)))
    (cross_shard_transactions c + cross) (nonempty_receipts_roots c + Z.b2z (f_receipts f))
    (nonempty_outgoing_receipts_roots c + Z.b2z (f_outgoing f)) (nonempty_incoming_receipts_roots c + Z.b2z (f_incoming f))
    (gas_used c + f_gas f).

(** [distinct_roots] holds texts: a predecessor's root that is no text fails at the first block. *)
Record state := State {
  next_number : Z;
  expected_parent : json;
  previous_root : json;
  previous_timestamp : json;
  header_digest : sha256_state;
  distinct_roots : gset string;
  tally_of : counts;
}.

Definition enumerate {A} (l : list A) : list (Z * A) := imap (λ i x, (Z.of_nat i, x)) l.

Definition material_partial (a : args) : string := partial (a_material_blocks a).
Definition transactions_partial (a : args) : string := partial (a_transactions a).

(** [for index, transaction in enumerate(transactions)]: it returns how many cross shards. *)
Definition regular_step (a : args) (block : json) (cross : Z) (it : Z * json) : IO Z :=
  write_transaction (transactions_partial a) (a_shard a) block "regular" it.1 it.2 ≫= λ _,
  c ← lift (crosses it.2);
  mret (cross + Z.b2z c).

(** The body of [for block in blocks]. *)
Definition block_step (a : args) (s : state) (block : json) : IO state :=
  f ← lift (read_block (next_number s) (expected_parent s) (previous_root s) (previous_timestamp s) block);
  cross ← fold_io (regular_step a block) 0 (enumerate (f_transactions f));
  for_io (λ it, write_transaction (transactions_partial a) (a_shard a) block "staking" it.1 it.2)
    (enumerate (f_staking f)) ≫= λ _,
  (if material f then
     hash ← lift (jget "hash" block);
     write (material_partial a) (row_line (material_row (a_shard a) hash f))
   else mret tt) ≫= λ _,
  hash ← lift (jget_str "hash" block);
  tx_root ← lift (jstr (f_tx_root f));
  receipt_root ← lift (jstr (f_receipt_root f));
  mret (State (next_number s + 1) (JStr hash) (JStr (f_root f)) (JInt (f_timestamp f))
          (digest_update (header_digest s) (header_line f hash tx_root receipt_root))
          ({[f_root f]} ∪ distinct_roots s) (count_block f cross (tally_of s))).

Section node.
Context (transport : nat → string → list json → result json).

(** [for attempt in range(6)]: every exception is retried. *)
Fixpoint rpc_from (remaining attempt : nat) (method : string) (params : list json) : result json :=
  match rpc_once transport attempt method params with
  | Ok v => Ok v
  | Err _ =>
      match remaining with
      | O => Err (RuntimeError (method +:+ " failed after retries"))
      | S remaining => rpc_from remaining (S attempt) method params
      end
  end.

Definition rpc (method : string) (params : list json) : result json := rpc_from 5 0 method params.

Definition header_options : json := JObj [("fullTx", JBool false); ("inclStaking", JBool false)].
Definition block_options : json := JObj [("fullTx", JBool true); ("inclStaking", JBool true); ("withSigners", JBool false)].

Definition get_blocks (first last : Z) : result json := rpc "hmyv2_getBlocks" [JInt first; JInt last; block_options].

(** [while next_number <= args.end] *)
Fixpoint scan (fuel : nat) (a : args) (s : state) : IO state :=
  match fuel with
  | O => throw OutOfFuel
  | S fuel =>
      if next_number s <=? a_end a then
        let chunk_end := Z.min (a_end a) (next_number s + a_chunk_size a - 1) in
        answer ← lift (get_blocks (next_number s) chunk_end);
        n ← lift (jlen answer);
        lift (raise_when (negb (n =? chunk_end - next_number s + 1)) (RuntimeError "wrong number of blocks")) ≫= λ _,
        l ← lift (jiter answer);
        s' ← fold_io (block_step a) s l;
        scan fuel a s'
      else mret s
  end.

Definition scan_fuel (a : args) : nat := Z.to_nat (a_end a - a_start a + 2).

(** A value that may be an element of a set. *)
Definition hashable (v : json) : result unit :=
  raise_when (match v with JArr _ | JObj _ => true | _ => false end) TypeError.

Definition first_state (a : args) (predecessor : json) : result state :=
  hash ← jget "hash" predecessor;
  root ← jget "stateRoot" predecessor;
  timestamp ← jget "timestamp" predecessor;
  hashable root;;
  Ok (State (a_start a) hash root timestamp digest_new (match root with JStr s => {[s]} | _ => ∅ end) no_counts).

Definition summary_json (a : args) (predecessor_hash predecessor_root first_hash : json) (material_sha transactions_sha : string)
    (s : state) : json :=
  let c := tally_of s in
  JObj [("rpc", JStr (a_rpc a)); ("shard", JInt (a_shard a)); ("start", JInt (a_start a)); ("end", JInt (a_end a));
        ("predecessor_number", JInt (a_start a - 1)); ("predecessor_hash", predecessor_hash);
        ("predecessor_state_root", predecessor_root); ("blocks", JInt (blocks c)); ("material_blocks", JInt (material_blocks c));
        ("state_root_changes", JInt (state_root_changes c)); ("normal_transactions", JInt (normal_transactions c));
        ("staking_transactions", JInt (staking_transactions c)); ("cross_shard_transactions", JInt (cross_shard_transactions c));
        ("nonempty_receipts_roots", JInt (nonempty_receipts_roots c));
        ("nonempty_outgoing_receipts_roots", JInt (nonempty_outgoing_receipts_roots c));
        ("nonempty_incoming_receipts_roots", JInt (nonempty_incoming_receipts_roots c)); ("gas_used", JInt (gas_used c));
        ("first_hash", first_hash); ("last_hash", expected_parent s); ("last_state_root", previous_root s);
        ("last_timestamp", previous_timestamp s); ("distinct_state_roots", JInt (Z.of_nat (size (distinct_roots s))));
        ("canonical_header_digest_sha256", JStr (hexdigest (header_digest s)));
        ("material_blocks_path", JStr (a_material_blocks a)); ("material_blocks_sha256", JStr material_sha);
        ("transactions_path", JStr (a_transactions a)); ("transactions_sha256", JStr transactions_sha)].

(** The body of [try]: the two tables, their renaming, and the summary. *)
Definition collect (a : args) (s0 : state) : IO state :=
  create (material_partial a) ≫= λ _,
  create (transactions_partial a) ≫= λ _,
  write (material_partial a) (csv_line material_fields) ≫= λ _,
  write (transactions_partial a) (csv_line transaction_fields) ≫= λ _,
  s ← scan (scan_fuel a) a s0;
  sync ≫= λ _,
  sync ≫= λ _,
  mret s.

Definition install (a : args) : IO unit :=
  replace (material_partial a) (a_material_blocks a) ≫= λ _,
  replace (transactions_partial a) (a_transactions a).

Definition report (a : args) (s0 s : state) : IO json :=
  first ← lift (rpc "hmyv2_getBlockByNumber" [JInt (a_start a); header_options]);
  first_hash ← lift (jget "hash" first);
  material_sha ← file_sha256 (a_material_blocks a);
  transactions_sha ← file_sha256 (a_transactions a);
  let summary := summary_json a (expected_parent s0) (previous_root s0) first_hash material_sha transactions_sha s in
  publish (a_summary a) [dumps summary; newline] ≫= λ _,
  mret summary.

Definition audit (a : args) (s0 : state) : IO (state * json) :=
  s ← collect a s0;
  install a ≫= λ _,
  summary ← report a s0 s;
  mret (s, summary).

Definition check_args (a : args) : result unit :=
  raise_when (negb ((a_shard a =? 0) || (a_shard a =? 1))) (ValueError "shard must be 0 or 1");;
  raise_when ((a_start a <=? 0) || (a_end a <? a_start a)) (ValueError "invalid block range");;
  raise_when ((a_chunk_size a <? 1) || (1024 <? a_chunk_size a)) (ValueError "chunk size must be between 1 and 1024").

Definition outputs (a : args) : list string := [a_material_blocks a; a_transactions a; a_summary a].

Definition main (a : args) : IO (state * json) :=
  lift (check_args a) ≫= λ _,
  for_io refuse_existing (outputs a) ≫= λ _,
  predecessor ← lift (rpc "hmyv2_getBlockByNumber" [JInt (a_start a - 1); header_options]);
  s0 ← lift (first_state a predecessor);
  on_exception (audit a s0) (for_io remove_quiet (partial <$> outputs a)).
End node.

(** ** The reference: what a run has read *)

(** A block that was accepted: its fields, the texts its header is digested from, how many of its transactions
    cross shards, and the rows of the transaction table. *)
Record entry := Entry {
  n_facts : facts;
  n_hash : string;
  n_tx_root : string;
  n_receipt_root : string;
  n_cross : Z;
  n_rows : list (list json);
}.

Definition rows_of_kind (shard : Z) (block : json) (kind : string) (l : list json) : result (list (list json)) :=
  mapR (λ it, transaction_row shard block kind it.1 it.2) (enumerate l).

(** [block_step] without its writes. *)
Definition entry_of (shard : Z) (s : state) (block : json) : result entry :=
  f ← read_block (next_number s) (expected_parent s) (previous_root s) (previous_timestamp s) block;
  regular ← rows_of_kind shard block "regular" (f_transactions f);
  cs ← mapR crosses (f_transactions f);
  staking ← rows_of_kind shard block "staking" (f_staking f);
  hash ← jget_str "hash" block;
  tx_root ← jstr (f_tx_root f);
  receipt_root ← jstr (f_receipt_root f);
  Ok (Entry f hash tx_root receipt_root (sum_by Z.b2z cs) (regular ++ staking)).

Definition entry_line (n : entry) : string := header_line (n_facts n) (n_hash n) (n_tx_root n) (n_receipt_root n).

Definition advance (s : state) (n : entry) : state :=
  let f := n_facts n in
  State (next_number s + 1) (JStr (n_hash n)) (JStr (f_root f)) (JInt (f_timestamp f))
    (digest_update (header_digest s) (entry_line n)) ({[f_root f]} ∪ distinct_roots s) (count_block f (n_cross n) (tally_of s)).

(** The entries of some blocks, each read in the state that those before it have led to. *)
Fixpoint read_all (shard : Z) (s : state) (l : list json) (ns : list entry) : Prop :=
  match l, ns with
  | [], [] => True
  | b :: l, n :: ns => entry_of shard s b = Ok n ∧ read_all shard (advance s n) l ns
  | _, _ => False
  end.

Definition is_material (n : entry) : bool := material (n_facts n).

Definition material_rows (shard : Z) (ns : list entry) : list (list json) :=
  (λ n, material_row shard (JStr (n_hash n)) (n_facts n)) <$> filter (λ n, is_material n = true) ns.

Definition transaction_rows (ns : list entry) : list (list json) := mjoin (n_rows <$> ns).

Definition lines_text (rows : list (list json)) : string := concat_texts (row_line <$> rows).

(** ** Lemmas: the two open tables *)
Lemma lines_text_app l k : lines_text (l ++ k) = lines_text l +:+ lines_text k.
Proof. unfold lines_text. by rewrite fmap_app, concat_texts_app. Qed.

Lemma lines_text_one r : lines_text [r] = row_line r.
Proof. unfold lines_text, concat_texts. simpl. by rewrite str_app_nil_r. Qed.

(** The world in which the two tables hold [m] and [t], over the files [base]. *)
Definition tables (a : args) (base : gmap string string) (m t : string) (w : world) : Prop :=
  files w = <[material_partial a := m]> (<[transactions_partial a := t]> base).

Section tables.
Context (a : args) (base : gmap string string).
Hypothesis partials_differ : material_partial a ≠ transactions_partial a.

Lemma write_material m t s w u w' :
  tables a base m t w → write (material_partial a) s w = (Ok u, w') → tables a base (m +:+ s) t w'.
Proof. unfold tables. intros Hw ->%write_Ok. rewrite Hw, lookup_insert_eq. simpl. by rewrite insert_insert_eq. Qed.

Lemma write_transactions m t s w u w' :
  tables a base m t w → write (transactions_partial a) s w = (Ok u, w') → tables a base m (t +:+ s) w'.
Proof.
  unfold tables. intros Hw ->%write_Ok. rewrite Hw, lookup_insert_ne, lookup_insert_eq by done. simpl.
  by rewrite insert_insert_ne, insert_insert_eq.
Qed.

Lemma write_transaction_Ok m t shard block kind i x w u w' :
  tables a base m t w → write_transaction (transactions_partial a) shard block kind i x w = (Ok u, w') →
  ∃ row, transaction_row shard block kind i x = Ok row ∧ tables a base m (t +:+ row_line row) w'.
Proof.
  intros Hw (row & w1 & [-> Hr]%lift_Ok & H)%io_bind_Ok. exists row. split; [done|]. by eapply write_transactions.
Qed.

Lemma regular_Ok m t block l c0 w c w' :
  tables a base m t w → fold_io (regular_step a block) c0 l w = (Ok c, w') →
  ∃ rows cs, mapR (λ it, transaction_row (a_shard a) block "regular" it.1 it.2) l = Ok rows ∧ mapR crosses (snd <$> l) = Ok cs ∧
    c = c0 + sum_by Z.b2z cs ∧ tables a base m (t +:+ lines_text rows) w'.
Proof.
  revert t c0 w. induction l as [|it l IH]; intros t c0 w Hw H; cbn [fold_io] in H.
  - apply mret_Ok in H as [-> <-]. exists [], []. rewrite sum_by_nil. split_and!; [done|done|lia|].
    unfold lines_text, concat_texts. simpl. by rewrite str_app_nil_r.
  - apply io_bind_Ok in H as (c1 & w1 & H1 & H). unfold regular_step in H1.
    apply io_bind_Ok in H1 as (u & w2 & (row & Hrow & Hw2)%(write_transaction_Ok m t) & H1); [|done].
    apply io_bind_Ok in H1 as (b & w3 & [-> Hb]%lift_Ok & H1). apply mret_Ok in H1 as [-> <-].
    destruct (IH _ _ _ Hw2 H) as (rows & cs & Hrows & Hcs & -> & Hw'). exists (row :: rows), (b :: cs).
    rewrite fmap_cons, !mapR_cons_Ok, sum_by_cons. split_and!; [by exists row, rows|by exists b, cs|lia|].
    change (row :: rows) with ([row] ++ rows). rewrite lines_text_app, lines_text_one, str_app_assoc. done.
Qed.

Lemma staking_Ok m t block l w u w' :
  tables a base m t w →
  for_io (λ it, write_transaction (transactions_partial a) (a_shard a) block "staking" it.1 it.2) l w = (Ok u, w') →
  ∃ rows, mapR (λ it, transaction_row (a_shard a) block "staking" it.1 it.2) l = Ok rows ∧
    tables a base m (t +:+ lines_text rows) w'.
Proof.
  revert t w. induction l as [|it l IH]; intros t w Hw H; cbn [for_io] in H.
  - apply mret_Ok in H as [-> _]. exists []. unfold lines_text, concat_texts. simpl. by rewrite str_app_nil_r.
  - apply io_bind_Ok in H as (v & w1 & (row & Hrow & Hw1)%(write_transaction_Ok m t) & H); [|done].
    destruct (IH _ _ Hw1 H) as (rows & Hrows & Hw'). exists (row :: rows). rewrite mapR_cons_Ok. split; [by exists row, rows|].
    change (row :: rows) with ([row] ++ rows). by rewrite lines_text_app, lines_text_one, str_app_assoc.
Qed.

Lemma snd_enumerate {A} (l : list A) : snd <$> enumerate l = l.
Proof. unfold enumerate. rewrite fmap_imap. apply list_eq. intros i. rewrite list_lookup_imap. by destruct (l !! i). Qed.

Lemma block_step_Ok m t s b w s' w' :
  tables a base m t w → block_step a s b w = (Ok s', w') →
  ∃ n, entry_of (a_shard a) s b = Ok n ∧ s' = advance s n ∧
    tables a base (m +:+ lines_text (material_rows (a_shard a) [n])) (t +:+ lines_text (n_rows n)) w'.
Proof.
  intros Hw H. unfold block_step in H. apply io_bind_Ok in H as (f & w1 & [-> Hf]%lift_Ok & H).
  apply io_bind_Ok in H as (c & w1 & (rows & cs & Hrows & Hcs & -> & Hw1)%(regular_Ok m t) & H); [|done].
  rewrite snd_enumerate in Hcs.
  apply io_bind_Ok in H as (u & w2 & (srows & Hsrows & Hw2)%(staking_Ok m (t +:+ lines_text rows)) & H); [|exact Hw1].
  rewrite <-str_app_assoc, <-lines_text_app in Hw2.
  apply io_bind_Ok in H as (u' & w3 & Hm & H). apply io_bind_Ok in H as (hash & w4 & [-> Hh]%lift_Ok & H).
  apply io_bind_Ok in H as (tx & w4 & [-> Htx]%lift_Ok & H). apply io_bind_Ok in H as (rr & w4 & [-> Hrr]%lift_Ok & H).
  apply mret_Ok in H as [-> <-]. exists (Entry f hash tx rr (sum_by Z.b2z cs) (rows ++ srows)). split_and!.
  - unfold entry_of, rows_of_kind. by rewrite Hf; simpl; rewrite Hrows; simpl; rewrite Hcs; simpl; rewrite Hsrows; simpl; rewrite Hh; simpl; rewrite Htx; simpl; rewrite Hrr.
  - unfold advance. simpl. by rewrite Z.add_0_l.
  - unfold material_rows. rewrite filter_cons. unfold is_material. simpl. destruct (material f) eqn:E.
    + rewrite decide_True by done. simpl. rewrite lines_text_one. apply io_bind_Ok in Hm as (j & w4 & [-> Hj]%lift_Ok & Hm).
      assert (j = JStr hash) as ->.
      { unfold jget_str in Hh. rewrite Hj in Hh. simpl in Hh. destruct j; simpl in Hh; congruence. }
      by eapply write_material.
    + rewrite decide_False by done. simpl. apply mret_Ok in Hm as [-> _]. unfold lines_text at 1, concat_texts. simpl. by rewrite str_app_nil_r.
Qed.

Lemma blocks_Ok l m t s w s' w' :
  tables a base m t w → fold_io (block_step a) s l w = (Ok s', w') →
  ∃ ns, read_all (a_shard a) s l ns ∧ s' = foldl advance s ns ∧
    tables a base (m +:+ lines_text (material_rows (a_shard a) ns)) (t +:+ lines_text (transaction_rows ns)) w'.
Proof.
  revert m t s w. induction l as [|b l IH]; intros m t s w Hw H; cbn [fold_io] in H.
  - apply mret_Ok in H as [-> <-]. exists []. unfold material_rows, transaction_rows, lines_text, concat_texts. simpl.
    by rewrite !str_app_nil_r.
  - apply io_bind_Ok in H as (s1 & w1 & (n & Hn & -> & Hw1)%(block_step_Ok m t) & H); [|done].
    destruct (IH _ _ _ _ Hw1 H) as (ns & Hns & -> & Hw'). exists (n :: ns). split_and!; [done|done|].
    unfold transaction_rows in *. rewrite fmap_cons. cbn [mjoin list_join]. unfold material_rows in *. change (n :: ns) with ([n] ++ ns).
    rewrite filter_app, fmap_app, !lines_text_app, !str_app_assoc. done.
Qed.
End tables.

(** ** Lemmas: the blocks of a run *)
Lemma read_all_app shard s l1 l2 ns1 ns2 :
  read_all shard s l1 ns1 → read_all shard (foldl advance s ns1) l2 ns2 → read_all shard s (l1 ++ l2) (ns1 ++ ns2).
Proof.
  revert s ns1. induction l1 as [|b l1 IH]; intros s [|n ns1] H1 H2; try done.
  destruct H1 as [Hn H1]. split; [done|]. by apply IH.
Qed.

Lemma read_all_length shard s l ns : read_all shard s l ns → length l = length ns.
Proof. revert s ns. induction l as [|b l IH]; intros s [|n ns]; simpl; try done. intros [_ H%IH]. by rewrite H. Qed.

Lemma next_advance ns s : next_number (foldl advance s ns) = next_number s + Z.of_nat (length ns).
Proof. revert s. induction ns as [|n ns IH]; intros s; simpl; [lia|]. rewrite IH. simpl. lia. Qed.

Section served.
Context (transport : nat → string → list json → result json).

(** The blocks from [next] to the end of the interval, as the node served them chunk by chunk. *)
Inductive served (a : args) : Z → list json → Prop :=
  | served_end next : a_end a < next → served a next []
  | served_chunk next last answer l rest :
      next ≤ a_end a → last = Z.min (a_end a) (next + a_chunk_size a - 1) →
      get_blocks transport next last = Ok answer → jiter answer = Ok l → Z.of_nat (length l) = last - next + 1 →
      served a (last + 1) rest → served a next (l ++ rest).

Lemma served_length a next l : served a next l → next ≤ a_end a + 1 → Z.of_nat (length l) = a_end a - next + 1.
Proof.
  induction 1 as [next H|next last answer l rest H -> _ _ Hl _ IH]; intros Hn; [simpl; lia|].
  rewrite length_app. rewrite Nat2Z.inj_add, IH; lia.
Qed.

Lemma scan_Ok a base fuel m t s w s' w' :
  material_partial a ≠ transactions_partial a →
  tables a base m t w → scan transport fuel a s w = (Ok s', w') →
  ∃ l ns, served a (next_number s) l ∧ read_all (a_shard a) s l ns ∧ s' = foldl advance s ns ∧
    tables a base (m +:+ lines_text (material_rows (a_shard a) ns)) (t +:+ lines_text (transaction_rows ns)) w'.
Proof.
  intros Hne. revert m t s w. induction fuel as [|fuel IH]; intros m t s w Hw H; cbn [scan] in H; [done|].
  destruct (Z.leb_spec (next_number s) (a_end a)) as [Hle|Hgt].
  2:{ apply mret_Ok in H as [-> <-]. exists [], []. split_and!; [by constructor|done|done|].
      unfold material_rows, transaction_rows, lines_text, concat_texts. simpl. by rewrite !str_app_nil_r. }
  apply io_bind_Ok in H as (answer & w1 & [-> Ha]%lift_Ok & H). apply io_bind_Ok in H as (n & w1 & [-> Hn]%lift_Ok & H).
  apply io_bind_Ok in H as ([] & w1 & [-> Hc%raise_when_Ok]%lift_Ok & H). apply io_bind_Ok in H as (l & w1 & [-> Hl]%lift_Ok & H).
  apply io_bind_Ok in H as (s1 & w1 & (ns & Hns & -> & Hw1)%(blocks_Ok a base Hne l m t) & H); [|done].
  rewrite (jiter_jlen _ _ Hl) in Hn. injection Hn as <-. bool_facts.
  destruct (IH _ _ _ _ Hw1 H) as (l' & ns' & Hs & Hr & -> & Hw'). exists (l ++ l'), (ns ++ ns').
  pose proof (read_all_length _ _ _ _ Hns) as Hlen. rewrite next_advance in Hs. split_and!.
  - econstructor; [done|reflexivity|done|done|lia|]. match goal with |- served _ ?x _ => replace x with (next_number s + Z.of_nat (length ns)) by lia end. done.
  - by apply read_all_app.
  - by rewrite foldl_app.
  - unfold material_rows, transaction_rows in *. rewrite filter_app, !fmap_app, join_app, !lines_text_app, !str_app_assoc. done.
Qed.
End served.

(** ** Lemmas: what the entries show *)

(** Blocks that continue a chain whose last block has the given number, hash, timestamp and state root. *)
Fixpoint linked (number : Z) (hash : string) (time : Z) (root : string) (ns : list entry) : Prop :=
  match ns with
  | [] => True
  | n :: ns =>
      let f := n_facts n in
      f_number f = number + 1 ∧ lower (f_parent f) = lower hash ∧ time ≤ f_timestamp f ∧
      (f_changed f = true ↔ lower (f_root f) ≠ lower root) ∧
      linked (f_number f) (n_hash n) (f_timestamp f) (f_root f) ns
  end.

Lemma entry_of_facts shard s b n :
  entry_of shard s b = Ok n →
  read_block (next_number s) (expected_parent s) (previous_root s) (previous_timestamp s) b = Ok (n_facts n) ∧
  jget_str "hash" b = Ok (n_hash n).
Proof. unfold entry_of. intros H. inv_ok H. by subst n. Qed.

Lemma read_block_Ok next p r t b f :
  read_block next p r t b = Ok f →
  ∃ hash root time, p = JStr hash ∧ r = JStr root ∧ jint t = Ok time ∧
    f_number f = next ∧ lower (f_parent f) = lower hash ∧ time ≤ f_timestamp f ∧
    (f_changed f = true ↔ lower (f_root f) ≠ lower root) ∧
    jget_int "number" b = Ok next ∧ jget_str "parentHash" b = Ok (f_parent f) ∧ jget_int "timestamp" b = Ok (f_timestamp f) ∧
    jget_str "stateRoot" b = Ok (f_root f).
Proof.
  unfold read_block. intros H. inv_ok H. subst f.
  destruct p as [| | |hash| |]; try discriminate. destruct r as [| | |root| |]; try discriminate.
  repeat match goal with E : jstr (JStr _) = Ok _ |- _ => injection E as <- end. bool_facts. subst.
  exists hash, root. eexists. split_and!; try done; try lia. simpl. by rewrite negb_true_iff, bool_decide_eq_false.
Qed.

Lemma read_all_linked shard s l ns hash root time :
  read_all shard s l ns → expected_parent s = JStr hash → previous_root s = JStr root → jint (previous_timestamp s) = Ok time →
  linked (next_number s - 1) hash time root ns.
Proof.
  revert s ns hash root time. induction l as [|b l IH]; intros s [|n ns] hash root time H Hp Hr Ht; try done.
  destruct H as [Hn H]. apply entry_of_facts in Hn as [Hf Hh].
  apply read_block_Ok in Hf as (h' & r' & t' & Hp' & Hr' & Ht' & Hnum & Hlink & Hle & Hch & _).
  rewrite Hp' in Hp. rewrite Hr' in Hr. rewrite Ht' in Ht. simplify_eq. cbn [linked].
  split; [lia|]. do 3 (split; [done|]). apply (IH _ _ (n_hash n) (f_root (n_facts n)) (f_timestamp (n_facts n))) in H; try done.
  simpl in H. rewrite Z.add_simpl_r, <-Hnum in H. done.
Qed.

(** The counters are sums over the blocks. *)
Definition counted (ns : list entry) (c : counts) : Prop :=
  let total (g : facts → Z) := sum_by (λ n, g (n_facts n)) ns in
  blocks c = Z.of_nat (length ns) ∧ material_blocks c = total (λ f, Z.b2z (material f)) ∧
  state_root_changes c = total (λ f, Z.b2z (f_changed f)) ∧
  normal_transactions c = total (λ f, Z.of_nat (length (f_transactions f))) ∧
  staking_transactions c = total (λ f, Z.of_nat (length (f_staking f))) ∧
  cross_shard_transactions c = sum_by n_cross ns ∧ gas_used c = total f_gas.

Lemma advance_app ns s :
  let s' := foldl advance s ns in
  header_digest s' = foldl digest_update (header_digest s) (entry_line <$> ns) ∧
  distinct_roots s' = list_to_set ((λ n, f_root (n_facts n)) <$> ns) ∪ distinct_roots s ∧
  tally_of s' = foldl (λ c n, count_block (n_facts n) (n_cross n) c) (tally_of s) ns ∧
  expected_parent s' = default (expected_parent s) ((λ n, JStr (n_hash n)) <$> last ns) ∧
  previous_root s' = default (previous_root s) ((λ n, JStr (f_root (n_facts n))) <$> last ns).
Proof.
  revert s. induction ns as [|n ns IH]; intros s; [simpl; by rewrite union_empty_l_L|]. rewrite last_cons. simpl.
  destruct (IH (advance s n)) as (-> & -> & -> & -> & ->). simpl.
  split_and!; [done|set_solver|done|by destruct (last ns)..].
Qed.

Lemma counted_fold ns : counted ns (foldl (λ c n, count_block (n_facts n) (n_cross n) c) no_counts ns).
Proof.
  induction ns as [|n ns IH] using rev_ind; [by split_and!|]. rewrite foldl_snoc. unfold counted in *. rewrite !sum_by_snoc, length_app.
  destruct IH as (H1 & H2 & H3 & H4 & H5 & H6 & H7). simpl. rewrite H1, H2, H3, H4, H5, H6, H7. split_and!; try done. lia.
Qed.

(** ** Lemmas: [main] *)
Definition distinct_paths (a : args) : Prop := NoDup (outputs a ++ (partial <$> outputs a)).

Definition cells (row : list json) : list string := csv_value <$> row.

Definition table_text (fields : list string) (rows : list (list json)) : string :=
  write_csv (fields :: (cells <$> rows)).

Definition material_text (a : args) (ns : list entry) : string := table_text material_fields (material_rows (a_shard a) ns).
Definition transactions_text (ns : list entry) : string := table_text transaction_fields (transaction_rows ns).

Lemma table_text_eq fields rows : csv_line fields +:+ lines_text rows = table_text fields rows.
Proof.
  unfold table_text, lines_text, concat_texts, row_line. simpl. f_equal.
  rewrite <-(concat_csv_lines (cells <$> rows)), <-list_fmap_compose. done.
Qed.

(** The fields of a block that link it. *)
Definition fields_of (b : json) (n : entry) : Prop :=
  jget_int "number" b = Ok (f_number (n_facts n)) ∧ jget_str "hash" b = Ok (n_hash n) ∧
  jget_str "parentHash" b = Ok (f_parent (n_facts n)) ∧ jget_int "timestamp" b = Ok (f_timestamp (n_facts n)) ∧
  jget_str "stateRoot" b = Ok (f_root (n_facts n)).

Lemma read_all_fields shard s l ns : read_all shard s l ns → Forall2 fields_of l ns.
Proof.
  revert s ns. induction l as [|b l IH]; intros s [|n ns]; try done. intros [[Hf Hh]%entry_of_facts H].
  constructor; [|by eapply IH]. apply read_block_Ok in Hf as (h & r & t & _ & _ & _ & Hn & _ & _ & _ & ? & ? & ? & ?).
  unfold fields_of. rewrite Hn. by split_and!.
Qed.

Section main.
Context (transport : nat → string → list json → result json).

Lemma first_state_next a p s0 : first_state a p = Ok s0 → next_number s0 = a_start a.
Proof. unfold first_state. intros H. inv_ok H. by subst s0. Qed.

(** The world in which both tables are in place. *)
Definition installed (a : args) (base : gmap string string) (m t : string) : gmap string string :=
  <[a_transactions a := t]> (<[a_material_blocks a := m]> base).

Lemma collect_Ok a s0 w s w' :
  next_number s0 = a_start a → collect transport a s0 w = (Ok s, w') →
  material_partial a ≠ transactions_partial a ∧
  ∃ l ns, served transport a (a_start a) l ∧ read_all (a_shard a) s0 l ns ∧ s = foldl advance s0 ns ∧
    files w !! transactions_partial a = None ∧ tables a (files w) (material_text a ns) (transactions_text ns) w'.
Proof.
  intros H0 H. unfold collect in H.
  apply io_bind_Ok in H as (u1 & w1 & [Hm Hw1]%create_Ok & H). apply io_bind_Ok in H as (u2 & w2 & [Ht Hw2]%create_Ok & H).
  rewrite Hw1 in Ht, Hw2. apply lookup_insert_None in Ht as [Ht Hne].
  assert (Htab : tables a (files w) EmptyString EmptyString w2) by (unfold tables; rewrite Hw2; by apply insert_insert_ne).
  apply io_bind_Ok in H as (u3 & w3 & Hw3 & H). eapply write_material in Hw3; [|exact Htab].
  apply io_bind_Ok in H as (u4 & w4 & Hw4 & H). eapply write_transactions in Hw4; [|done|exact Hw3].
  apply io_bind_Ok in H as (s1 & w5 & (l & ns & Hs & Hr & -> & Hw5)%(scan_Ok _ _ (files w) _ _ _ _ _ _ _ Hne Hw4) & H).
  rewrite H0 in Hs. rewrite !str_app_nil_l, !table_text_eq in Hw5.
  apply io_bind_Ok in H as (u5 & w6 & Hw6%sync_Ok & H). apply io_bind_Ok in H as (u6 & w7 & Hw7%sync_Ok & H).
  apply mret_Ok in H as [-> <-]. split; [done|]. exists l, ns. split_and!; [done..|]. unfold tables in *. by rewrite Hw7, Hw6, Hw5.
Qed.

Lemma paths_distinct a :
  distinct_paths a →
  a_material_blocks a ≠ a_transactions a ∧ a_material_blocks a ≠ a_summary a ∧ a_transactions a ≠ a_summary a ∧
  material_partial a ≠ transactions_partial a ∧ material_partial a ≠ a_material_blocks a ∧ material_partial a ≠ a_transactions a ∧
  transactions_partial a ≠ a_material_blocks a ∧ transactions_partial a ≠ a_transactions a ∧
  material_partial a ≠ a_summary a ∧ transactions_partial a ≠ a_summary a ∧
  partial (a_summary a) ≠ a_material_blocks a ∧ partial (a_summary a) ≠ a_transactions a ∧ partial (a_summary a) ≠ a_summary a.
Proof.
  intros Hd. unfold distinct_paths, outputs, material_partial, transactions_partial in *. simpl in Hd.
  repeat setoid_rewrite NoDup_cons in Hd. set_solver.
Qed.


Section paths.
Context (a : args) (base : gmap string string).
Hypothesis paths_differ : distinct_paths a.
Hypothesis partials_absent : base !! material_partial a = None ∧ base !! transactions_partial a = None.

Lemma install_first m t w u w' :
  tables a base m t w → replace (material_partial a) (a_material_blocks a) w = (Ok u, w') →
  files w' = <[transactions_partial a := t]> (<[a_material_blocks a := m]> base).
Proof.
  destruct (paths_distinct a paths_differ) as (?&?&?&?&?&?&?&?&?&?&?&?&?). destruct partials_absent. unfold tables. intros Hw (x & Hx & Hw')%replace_Ok.
  rewrite Hw, lookup_insert_eq in Hx. injection Hx as <-.
  rewrite Hw', Hw, delete_insert_eq, delete_insert_ne, delete_id by done. by apply insert_insert_ne.
Qed.

Lemma install_Ok m t w u w' : tables a base m t w → install a w = (Ok u, w') → files w' = installed a base m t.
Proof.
  destruct (paths_distinct a paths_differ) as (?&?&?&?&?&?&?&?&?&?&?&?&?). destruct partials_absent as [_ Hp].
  intros Hw (v & w1 & Hw1%(install_first m t) & (x & Hx & Hw')%replace_Ok)%io_bind_Ok; [|done].
  rewrite Hw1, lookup_insert_eq in Hx. injection Hx as <-. rewrite Hw', Hw1, delete_insert_eq, delete_id; [done|].
  by rewrite lookup_insert_ne.
Qed.

Lemma report_Ok s0 s m t w summary w' :
  files w = installed a base m t → report transport a s0 s w = (Ok summary, w') →
  (∃ first_hash, summary = summary_json a (expected_parent s0) (previous_root s0) first_hash (sha256 m) (sha256 t) s) ∧
  files w' = <[a_summary a := dumps summary +:+ newline]> (files w).
Proof.
  intros Hw H. destruct (paths_distinct a paths_differ) as (?&?&?&?&?&?&?&?&?&?&?&?&?). unfold installed in *. unfold report in H.
  apply io_bind_Ok in H as (j & w1 & [-> _]%lift_Ok & H). apply io_bind_Ok in H as (fh & w1 & [-> _]%lift_Ok & H).
  unfold file_sha256 in H. apply io_bind_Ok in H as (d1 & w1 & Hd1 & H). rewrite file_sha256_at_read in Hd1 by lia.
  apply io_bind_Ok in H as (d2 & w2 & Hd2 & H). rewrite file_sha256_at_read in Hd2 by lia. cbv zeta in H.
  apply io_bind_Ok in H as (u & w3 & [_ Hw3]%publish_Ok & H). apply mret_Ok in H as [-> <-].
  rewrite Hw, lookup_insert_ne, lookup_insert_eq in Hd1 by done. injection Hd1 as <- <-.
  rewrite Hw, lookup_insert_eq in Hd2. injection Hd2 as <- <-.
  split; [by exists fh|]. rewrite Hw3. unfold concat_texts. simpl foldr. by rewrite str_app_nil_r.
Qed.
End paths.

(** What a run that returned has read and written. *)
Record completed (a : args) (w w' : world) (s : state) (summary predecessor : json) (s0 : state) (l : list json) (ns : list entry) :
    Prop := {
  co_fresh : Forall (λ p, files w !! p = None ∧ files w !! partial p = None) (outputs a);
  co_predecessor : rpc transport "hmyv2_getBlockByNumber" [JInt (a_start a - 1); header_options] = Ok predecessor;
  co_first : first_state a predecessor = Ok s0;
  co_served : served transport a (a_start a) l;
  co_read : read_all (a_shard a) s0 l ns;
  co_bounds : 0 < a_start a ≤ a_end a;
  co_state : s = foldl advance s0 ns;
  co_summary : ∃ first_hash, summary = summary_json a (expected_parent s0) (previous_root s0) first_hash
    (sha256 (material_text a ns)) (sha256 (transactions_text ns)) s;
  co_files : files w' = <[a_summary a := dumps summary +:+ newline]>
    (<[a_transactions a := transactions_text ns]> (<[a_material_blocks a := material_text a ns]> (files w)));
}.

Lemma summary_last a h r fh m t s : jget_opt "last_hash" (summary_json a h r fh m t s) = Ok (expected_parent s).
Proof. done. Qed.

Lemma main_completed a w s summary w' :
  distinct_paths a → main transport a w = (Ok (s, summary), w') →
  ∃ predecessor s0 l ns, completed a w w' s summary predecessor s0 l ns.
Proof.
  intros Hd H. unfold main in H. apply io_bind_Ok in H as (u & w1 & [-> Hc]%lift_Ok & H).
  apply io_bind_Ok in H as (u1 & w1 & [-> Hf]%refuse_all_Ok & H). apply io_bind_Ok in H as (p & w1 & [-> Hp]%lift_Ok & H).
  apply io_bind_Ok in H as (s0 & w1 & [-> Hs0]%lift_Ok & H). apply on_exception_Ok in H. unfold audit in H.
  apply io_bind_Ok in H as (s1 & w1 & (_ & l & ns & Hs & Hr & Hst & Ht & Hw1)%collect_Ok & H); [|by eapply first_state_next].
  pose proof Hf as [[_ Hm0] [[_ Ht0] _]%Forall_cons]%Forall_cons.
  apply io_bind_Ok in H as (u2 & w2 & Hw2%(install_Ok a (files w) Hd (conj Hm0 Ht0) _ _ _ _ _ Hw1) & H).
  apply io_bind_Ok in H as (sm & w3 & [Hsum Hw3]%(report_Ok a (files w) Hd _ _ _ _ _ _ _ Hw2) & H).
  apply mret_Ok in H as [-> [= <- <-]]. exists p, s0, l, ns. unfold check_args in Hc. inv_ok Hc. bool_facts.
  split; try done. by rewrite Hw3, Hw2.
Qed.

Lemma completed_length a w w' s summary p s0 l ns :
  completed a w w' s summary p s0 l ns → Z.of_nat (length ns) = a_end a - a_start a + 1 ∧ length l = length ns.
Proof.
  intros [_ _ _ Hs Hr Hb _ _ _]. pose proof (read_all_length _ _ _ _ Hr) as Hl. split; [|done].
  rewrite <-Hl. apply (served_length _ _ _ _ Hs). lia.
Qed.

(** ** Properties: a run that returns *)

(** C9 (safety): A finished audit has seen one chain.  The node was asked for consecutive ranges from
    the first to the last block of the interval and answered each with as many blocks as it has;
    the blocks carry the numbers of the interval in order, each names its predecessor's hash (the
    first one that of the block before the interval) up to case, no timestamp falls, a root
    is counted as changed exactly when it differs from the one before, and the summary's last hash
    is that of the last block. *)
Theorem interval_chain a w s summary w' :
  distinct_paths a → main transport a w = (Ok (s, summary), w') →
  ∃ predecessor l ns hash root time,
    rpc transport "hmyv2_getBlockByNumber" [JInt (a_start a - 1); header_options] = Ok predecessor ∧
    jget "hash" predecessor = Ok (JStr hash) ∧ jget "stateRoot" predecessor = Ok (JStr root) ∧
    jget_int "timestamp" predecessor = Ok time ∧
    served transport a (a_start a) l ∧ Z.of_nat (length l) = a_end a - a_start a + 1 ∧
    Forall2 fields_of l ns ∧
    linked (a_start a - 1) hash time root ns ∧
    jget_opt "last_hash" summary = Ok (default JNull ((λ n, JStr (n_hash n)) <$> last ns)).
Proof.
  intros Hd H. destruct (main_completed _ _ _ _ _ Hd H) as (p & s0 & l & ns & Hc).
  destruct (completed_length _ _ _ _ _ _ _ _ _ Hc) as [Hlen Hl]. destruct Hc as [_ Hp Hs0 Hs Hr Hb -> (fh & Hsum) _].
  destruct ns as [|n ns]; [simpl in Hlen; lia|]. destruct l as [|b l]; [done|].
  pose proof Hr as [Hn _]. apply entry_of_facts in Hn as [Hf _].
  apply read_block_Ok in Hf as (hash & root & time & Eh & Er & Et & _).
  pose proof (read_all_linked _ _ _ _ _ _ _ Hr Eh Er Et) as Hlink. rewrite (first_state_next _ _ _ Hs0) in Hlink.
  destruct (advance_app (n :: ns) s0) as (_ & _ & _ & Hlast & _).
  unfold first_state in Hs0. inv_ok Hs0. subst s0. simpl in Eh, Er, Et. subst.
  exists p, (b :: l), (n :: ns), hash, root, time. unfold jget_int at 1. rewrite E1. simpl mbind.
  split_and!; try done; [lia| |].
  - by eapply read_all_fields.
  - rewrite summary_last, Hlast, last_cons. by destruct (last ns).
Qed.

Lemma entry_rows shard s b n :
  entry_of shard s b = Ok n →
  length (n_rows n) = (length (f_transactions (n_facts n)) + length (f_staking (n_facts n)))%nat.
Proof.
  unfold entry_of, rows_of_kind. intros H. inv_ok H. subst n. simpl.
  repeat match goal with E : mapR _ _ = Ok _ |- _ => apply mapR_length in E end.
  unfold enumerate in *. rewrite !length_imap in *. rewrite length_app. lia.
Qed.

Lemma read_all_rows shard s l ns : read_all shard s l ns →
  Z.of_nat (length (transaction_rows ns)) =
    sum_by (λ n, Z.of_nat (length (f_transactions (n_facts n)))) ns + sum_by (λ n, Z.of_nat (length (f_staking (n_facts n)))) ns.
Proof.
  revert s ns. induction l as [|b l IH]; intros s [|n ns]; try done. intros [Hn%entry_rows H].
  rewrite !sum_by_cons. change (transaction_rows (n :: ns)) with (n_rows n ++ transaction_rows ns). rewrite length_app.
  specialize (IH _ _ H). lia.
Qed.

Lemma material_rows_count shard ns :
  Z.of_nat (length (material_rows shard ns)) = sum_by (λ n, Z.b2z (material (n_facts n))) ns.
Proof.
  unfold material_rows. rewrite length_fmap. induction ns as [|n ns IH]; [done|]. rewrite filter_cons, sum_by_cons.
  change (material (n_facts n)) with (is_material n). case_decide as E; [|apply not_true_is_false in E]; rewrite E; simpl; lia.
Qed.

(** What a finished audit reports.  Its counters are the sums over the blocks of the
    interval, its header digest is the SHA-256 of the header lines of all of them, in order,
    and its two tables, whose digests the summary carries, read back as one row per transaction
    (regular ones before staking ones in each block) and one row per block that matters; nothing
    else is written. *)
Theorem interval_report a w s summary w' :
  distinct_paths a → main transport a w = (Ok (s, summary), w') →
  ∃ l ns, served transport a (a_start a) l ∧ Forall2 fields_of l ns ∧ counted ns (tally_of s) ∧
    jget "canonical_header_digest_sha256" summary = Ok (JStr (sha256 (concat_texts (entry_line <$> ns)))) ∧
    jget "material_blocks_sha256" summary = Ok (JStr (sha256 (material_text a ns))) ∧
    jget "transactions_sha256" summary = Ok (JStr (sha256 (transactions_text ns))) ∧
    read_csv (material_text a ns) = material_fields :: (cells <$> material_rows (a_shard a) ns) ∧
    read_csv (transactions_text ns) = transaction_fields :: (cells <$> transaction_rows ns) ∧
    Z.of_nat (length (material_rows (a_shard a) ns)) = material_blocks (tally_of s) ∧
    Z.of_nat (length (transaction_rows ns)) = normal_transactions (tally_of s) + staking_transactions (tally_of s) ∧
    files w' = <[a_summary a := dumps summary +:+ newline]>
      (<[a_transactions a := transactions_text ns]> (<[a_material_blocks a := material_text a ns]> (files w))).
Proof.
  intros Hd H. destruct (main_completed _ _ _ _ _ Hd H) as (p & s0 & l & ns & [_ _ Hs0 Hs Hr _ Hst (fh & Hsum) Hw]).
  destruct (advance_app ns s0) as (Hdig & _ & Htal & _). rewrite <-Hst in Hdig, Htal.
  assert (H0 : header_digest s0 = digest_new ∧ tally_of s0 = no_counts) by (unfold first_state in Hs0; inv_ok Hs0; by subst s0).
  destruct H0 as [Hd0 Ht0]. rewrite Hd0, update_chunks in Hdig. rewrite Ht0 in Htal. pose proof (counted_fold ns) as Hc. rewrite <-Htal in Hc.
  exists l, ns. split_and!; try done.
  - by eapply read_all_fields.
  - rewrite Hsum. unfold summary_json, jget. cbn -[sha256 hexdigest]. rewrite Hdig. by destruct ns.
  - by rewrite Hsum.
  - by rewrite Hsum.
  - apply read_csv_write_csv.
  - apply read_csv_write_csv.
  - rewrite material_rows_count. symmetry. apply Hc.
  - rewrite (read_all_rows _ _ _ _ Hr). destruct Hc as (_ & _ & _ & -> & -> & _). done.
Qed.

(** ** Properties: every run *)

(** [a] with another chunk size. *)
Definition with_chunks (n : Z) (a : args) : args :=
  Args (a_rpc a) (a_shard a) (a_start a) (a_end a) (a_material_blocks a) (a_transactions a) (a_summary a) n.

Lemma fold_io_app {S A} (f : S → A → IO S) s l k w : fold_io f s (l ++ k) w = (s' ← fold_io f s l; fold_io f s' k) w.
Proof.
  revert s w. induction l as [|x l IH]; intros s w; [done|]. cbn [fold_io app]. unfold mbind, io_bind.
  destruct (f s x w) as [[s1|e] w1]; [|done]. apply IH.
Qed.

Lemma block_step_next a s b w s' w' : block_step a s b w = (Ok s', w') → next_number s' = next_number s + 1.
Proof.
  unfold block_step. intros H. repeat (apply io_bind_Ok in H as (? & ? & _ & H)). by apply mret_Ok in H as [_ <-].
Qed.

Lemma fold_next a l s w s' w' :
  fold_io (block_step a) s l w = (Ok s', w') → next_number s' = next_number s + Z.of_nat (length l).
Proof.
  revert s w. induction l as [|b l IH]; intros s w H; cbn [fold_io] in H.
  - apply mret_Ok in H as [_ <-]. simpl. lia.
  - apply io_bind_Ok in H as (s1 & w1 & H1%block_step_next & H%IH). simpl length. lia.
Qed.

(** A node whose ranges, between [lo] and [hi], are ranges of one chain. *)
Definition consistent_node (block_at : Z → json) (lo hi : Z) : Prop :=
  ∀ first last, lo ≤ first → first ≤ last → last ≤ hi →
    get_blocks transport first last = Ok (JArr (block_at <$> seqZ first (last - first + 1))).

(** With such a node the loop reads the blocks one by one. *)
Lemma scan_blocks block_at lo a fuel s w :
  consistent_node block_at lo (a_end a) → lo ≤ next_number s →
  1 ≤ a_chunk_size a → 0 ≤ a_end a - next_number s + 1 < Z.of_nat fuel →
  scan transport fuel a s w = fold_io (block_step a) s (block_at <$> seqZ (next_number s) (a_end a - next_number s + 1)) w.
Proof.
  intros Hnode Hlo Hc. revert s w Hlo. induction fuel as [|fuel IH]; intros s w Hlo Hf; [simpl in Hf; lia|].
  cbn [scan]. destruct (Z.leb_spec (next_number s) (a_end a)) as [Hle|Hgt]; [|by rewrite seqZ_nil by lia].
  cbv zeta. remember (Z.min (a_end a) (next_number s + a_chunk_size a - 1)) as n eqn:Hn.
  rewrite (lift_bind_eq _ _ _ _ (Hnode (next_number s) n ltac:(lia) ltac:(lia) ltac:(lia))). simpl jlen. simpl jiter.
  rewrite (lift_bind_eq _ _ _ _ eq_refl). rewrite length_fmap, length_seqZ.
  rewrite guard_bind_eq by (apply negb_false_iff, Z.eqb_eq; lia). rewrite (lift_bind_eq _ _ _ _ eq_refl).
  replace (a_end a - next_number s + 1) with ((n - next_number s + 1) + (a_end a - n)) by lia.
  rewrite (seqZ_app _ (n - next_number s + 1) (a_end a - n)), fmap_app, fold_io_app by lia. unfold mbind, io_bind.
  destruct (fold_io _ s _ w) as [[s1|e] w1] eqn:E; [|done]. apply fold_next in E. rewrite length_fmap, length_seqZ in E.
  rewrite IH by lia. do 2 f_equal. f_equal; lia.
Qed.

Lemma scan_chunks block_at n a s w :
  consistent_node block_at (a_start a) (a_end a) → next_number s = a_start a → a_start a ≤ a_end a →
  1 ≤ a_chunk_size a → 1 ≤ n →
  scan transport (scan_fuel (with_chunks n a)) (with_chunks n a) s w = scan transport (scan_fuel a) a s w.
Proof.
  intros Hnode Hs Hle Hc Hn. unfold scan_fuel.
  rewrite !(scan_blocks block_at (a_start a)); try done; simpl; lia.
Qed.

(** C10 (equivalence): the chunk size does not matter.  If the node's answers to ranges within the interval are
    ranges of one chain of blocks, then two audits that differ in their chunk size, each within its
    bounds, make the same operations: they return the same or raise the same, with the same
    summary, and leave the same files, whatever the blocks hold and wherever an I/O operation
    fails. *)
Theorem chunk_size_irrelevant block_at n a w :
  consistent_node block_at (a_start a) (a_end a) → 1 ≤ a_chunk_size a ≤ 1024 → 1 ≤ n ≤ 1024 →
  main transport (with_chunks n a) w = main transport a w.
Proof.
  intros Hnode Hc Hn. unfold main.
  assert (Hck : check_args (with_chunks n a) = check_args a).
  { unfold check_args. simpl. rewrite !(proj2 (Z.ltb_ge _ 1)), !(proj2 (Z.ltb_ge 1024 _)) by lia. done. }
  rewrite Hck. destruct (check_args a) as [u|e] eqn:Hca; [|done].
  unfold check_args in Hca. inv_ok Hca. bool_facts.
  change (outputs (with_chunks n a)) with (outputs a). change (a_start (with_chunks n a)) with (a_start a).
  unfold mbind, io_bind, lift. destruct (for_io refuse_existing (outputs a) w) as [[u1|e] w1]; [|done].
  destruct (rpc transport _ [JInt (a_start a - 1); _]) as [p|e]; [|done].
  change (first_state (with_chunks n a) p) with (first_state a p). destruct (first_state a p) as [s0|e] eqn:Hs0; [|done].
  unfold on_exception. assert (Hau : audit transport (with_chunks n a) s0 w1 = audit transport a s0 w1); [|by rewrite Hau].
  unfold audit. assert (Hco : collect transport (with_chunks n a) s0 w1 = collect transport a s0 w1).
  { unfold collect, mbind, io_bind. change (material_partial (with_chunks n a)) with (material_partial a).
    change (transactions_partial (with_chunks n a)) with (transactions_partial a).
    do 4 (case_match; case_match; [|done]).
    rewrite (scan_chunks block_at) by (first [done|lia|by eapply first_state_next]). done. }
  unfold mbind, io_bind. rewrite Hco. done.
Qed.

Lemma returns_transaction_value x names : returns (transaction_value x names).
Proof.
  induction names as [|k names IH]; simpl; [done|]. apply returns_bind.
  { unfold jin. by destruct x. }
  intros [] _; [|done]. apply returns_bind; [auto with py|]. by intros [] _.
Qed.

Lemma returns_jget_or k d v : returns (jget_or k d v).
Proof. unfold jget_or. apply returns_bind; auto with py. Qed.

Lemma returns_nonempty v : returns (nonempty v).
Proof. unfold nonempty. destruct (truthy v); [|done]. apply returns_bind; auto with py. Qed.

Lemma returns_read_block next p r t b : returns (read_block next p r t b).
Proof.
  unfold read_block. repeat first [apply returns_bind; [auto using returns_jget_or, returns_nonempty with py|intros ? _]
    | by apply returns_raise_when | apply returns_Ok].
Qed.

Lemma io_returns_write_transaction path shard b kind i x : io_returns (write_transaction path shard b kind i x).
Proof.
  unfold write_transaction. apply io_returns_bind; [apply io_returns_lift|auto with py]. unfold transaction_row.
  repeat (apply returns_bind; [auto using returns_transaction_value with py|intros ? _]). apply returns_Ok.
Qed.

Lemma io_returns_block_step a s b : io_returns (block_step a s b).
Proof.
  unfold block_step. apply io_returns_bind; [apply io_returns_lift, returns_read_block|intros f].
  apply io_returns_bind.
  { apply io_returns_fold_io. intros c it. unfold regular_step. apply io_returns_bind; [apply io_returns_write_transaction|intros _].
    apply io_returns_bind; [|auto with py]. apply io_returns_lift. unfold crosses.
    do 2 (apply returns_bind; [apply returns_transaction_value|intros ? _]). case_match; [apply returns_Ok|].
    do 2 (apply returns_bind; [auto with py|intros ? _]). apply returns_Ok. }
  intros c. apply io_returns_bind; [apply io_returns_for_io; intros; apply io_returns_write_transaction|intros _].
  apply io_returns_bind; [case_match; [apply io_returns_bind|]; auto with py|intros _].
  do 3 (apply io_returns_bind; [auto with py|intros ?]). auto with py.
Qed.

Lemma returns_rpc6 method params : returns (rpc transport method params).
Proof.
  enough (H : ∀ k n, returns (rpc_from transport k n method params)) by apply H.
  induction k as [|k IH]; intros n; cbn [rpc_from]; destruct (rpc_once _ _ _ _);
    first [apply returns_Ok|apply IH|by apply returns_Err].
Qed.

Lemma io_returns_scan a fuel s :
  1 ≤ a_chunk_size a → Z.max 0 (a_end a - next_number s + 1) < Z.of_nat fuel → io_returns (scan transport fuel a s).
Proof.
  intros Hc. revert s. induction fuel as [|fuel IH]; intros s Hf; [simpl in Hf; lia|]. cbn [scan].
  destruct (Z.leb_spec (next_number s) (a_end a)) as [Hle|Hgt]; [|auto with py]. cbv zeta.
  apply io_returns_bind; [apply io_returns_lift, returns_rpc6|intros answer].
  destruct (jiter answer) as [l|e] eqn:Hl.
  - rewrite (jiter_jlen _ _ Hl). intros w. rewrite (lift_bind_eq _ _ _ _ eq_refl).
    destruct (negb _) eqn:Hn; [done|]. rewrite guard_bind_eq by done. rewrite (lift_bind_eq _ _ _ _ eq_refl). bool_facts.
    pose proof (io_returns_fold_io _ s l (io_returns_block_step a) w) as Hr. unfold mbind, io_bind.
    destruct (fold_io (block_step a) s l w) as [[s1|e] w1] eqn:E; [|simpl in *; intros [= ->]; by apply Hr].
    apply fold_next in E. apply IH. lia.
  - destruct (jlen answer) as [n|e'] eqn:Hj; [apply jlen_jiter in Hj as [l Hj]; congruence|].
    assert (Hr : returns (jlen answer)) by by destruct answer. rewrite Hj in Hr. intros w. unfold mbind, io_bind, lift. simpl.
    intros [= ->]. by apply Hr.
Qed.

(** The audit ends: its loop over the chunks has fuel for every block of the
    interval, each chunk that is accepted moves it on by at least one block, and so the fuel is
    never used up, whatever the node answers and whatever fails. *)
Theorem interval_terminates a w : (main transport a w).1 ≠ Err OutOfFuel.
Proof.
  enough (H : io_returns (main transport a)) by apply H.
  unfold main. intros w0. destruct (check_args a) as [u|e] eqn:Hc.
  2: { assert (Hr : returns (check_args a)) by (unfold check_args; auto using returns_bind with py). rewrite Hc in Hr. simpl.
       intros [= ->]. by apply Hr. }
  rewrite (lift_bind_eq _ _ _ u eq_refl). revert w0. unfold check_args in Hc. inv_ok Hc. bool_facts.
  apply io_returns_bind; [apply io_returns_for_io; auto with py|intros _].
  apply io_returns_bind; [apply io_returns_lift, returns_rpc6|intros p].
  intros w0. destruct (first_state a p) as [s0|e] eqn:Hs0.
  2: { assert (Hr : returns (first_state a p)).
       { unfold first_state, hashable. repeat (apply returns_bind; [auto with py|intros ? _]). apply returns_Ok. }
       rewrite Hs0 in Hr. simpl. intros [= ->]. by apply Hr. }
  rewrite (lift_bind_eq _ _ _ s0 eq_refl). revert w0. apply first_state_next in Hs0.
  apply io_returns_on_exception; [|apply io_returns_for_io; done].
  unfold audit. apply io_returns_bind; [|intros s; apply io_returns_bind; [|intros _; apply io_returns_bind]].
  - unfold collect. repeat (apply io_returns_bind; [auto with py|intros ?]); auto with py. apply io_returns_scan; [done|].
    unfold scan_fuel. lia.
  - unfold install. apply io_returns_bind; auto with py.
  - unfold report. apply io_returns_bind; [apply io_returns_lift, returns_rpc6|intros ?].
    unfold file_sha256. repeat (apply io_returns_bind; [auto with py|intros ?]). auto with py.
  - auto with py.
Qed.

(** ** Properties: a run that raises *)
Lemma confined_block_step a s b : confined [material_partial a; transactions_partial a] (block_step a s b).
Proof.
  assert (Hw : ∀ kind i x, confined [material_partial a; transactions_partial a]
    (write_transaction (transactions_partial a) (a_shard a) b kind i x)).
  { intros kind i x. apply confined_bind; [done|]. intros. apply confined_write. set_solver. }
  unfold block_step. apply confined_bind; [done|intros f]. apply confined_bind.
  { apply confined_fold_io. intros c it. apply confined_bind; [apply Hw|]. intros. by apply confined_bind. }
  intros c. apply confined_bind; [apply confined_for_io; intros; apply Hw|intros _]. apply confined_bind.
  { destruct (material f); [|done]. apply confined_bind; [done|]. intros. apply confined_write. set_solver. }
  intros _. repeat (apply confined_bind; [done|intros ?]). done.
Qed.

Lemma confined_scan a fuel s : confined [material_partial a; transactions_partial a] (scan transport fuel a s).
Proof.
  revert s. induction fuel as [|fuel IH]; intros s; cbn [scan]; [done|]. destruct (_ <=? _); [|done]. cbv zeta.
  do 4 (apply confined_bind; [done|intros ?]). apply confined_bind; [apply confined_fold_io; apply confined_block_step|done].
Qed.

Lemma confined_collect a s0 : confined [material_partial a; transactions_partial a] (collect transport a s0).
Proof.
  unfold collect. do 2 (apply confined_bind; [apply confined_create; set_solver|intros _]).
  do 2 (apply confined_bind; [apply confined_write; set_solver|intros _]). apply confined_bind; [apply confined_scan|intros s].
  repeat (apply confined_bind; [apply confined_sync|intros _]). done.
Qed.

(** What an output may be after an error: as before, or the complete table. *)
Definition whole_or_same (a : args) (base f : gmap string string) (p : string) (text : list entry → string) : Prop :=
  f !! p = base !! p ∨
  ∃ l ns, served transport a (a_start a) l ∧ Forall2 fields_of l ns ∧ f !! p = Some (text ns).

Definition partials (a : args) : list string := partial <$> outputs a.

Definition settled (a : args) (base f : gmap string string) : Prop :=
  (∀ p, p ∉ partials a → p ≠ a_material_blocks a → p ≠ a_transactions a → f !! p = base !! p) ∧
  whole_or_same a base f (a_material_blocks a) (material_text a) ∧
  whole_or_same a base f (a_transactions a) transactions_text.

Lemma report_Err a s0 s w e w' p : report transport a s0 s w = (Err e, w') → p ∉ partials a → files w' !! p = files w !! p.
Proof.
  intros H Hp. unfold report in H. apply io_bind_Err in H as [[= _ <-]|(j & w1 & [-> _]%lift_Ok & H)]; [done|].
  apply io_bind_Err in H as [[= _ <-]|(fh & w1 & [-> _]%lift_Ok & H)]; [done|].
  apply io_bind_Err in H as [H|(d1 & w1 & H1 & H)].
  { by apply reads_only_world in H as ->; [|apply reads_only_file_sha256_at]. }
  apply reads_only_world in H1 as ->; [|apply reads_only_file_sha256_at]. apply io_bind_Err in H as [H|(d2 & w1 & H1 & H)].
  { by apply reads_only_world in H as ->; [|apply reads_only_file_sha256_at]. }
  apply reads_only_world in H1 as ->; [|apply reads_only_file_sha256_at]. cbv zeta in H.
  apply io_bind_Err in H as [H|(u & w1 & H1 & [=])]. eapply publish_Err; [done|]. unfold partials, outputs in Hp. set_solver.
Qed.

Section settled.
Context (a : args) (base : gmap string string).
Hypothesis paths_differ : distinct_paths a.
Hypothesis partials_absent : base !! material_partial a = None ∧ base !! transactions_partial a = None.

Lemma settled_same f : (∀ p, p ∉ partials a → f !! p = base !! p) → settled a base f.
Proof.
  intros H. pose proof (paths_distinct a paths_differ) as (?&?&?&?&?&?&?&?&?&?&?&?&?). split; [|split; left; apply H]; [by intros; apply H| |]; unfold partials, outputs, material_partial, transactions_partial in *; set_solver.
Qed.

Lemma settled_tables l ns f :
  served transport a (a_start a) l → Forall2 fields_of l ns →
  (∀ p, p ∉ partials a → p ≠ a_transactions a → f !! p = <[a_material_blocks a := material_text a ns]> base !! p) →
  (f !! a_transactions a = base !! a_transactions a ∨ f !! a_transactions a = Some (transactions_text ns)) → settled a base f.
Proof.
  pose proof (paths_distinct a paths_differ) as (?&?&?&?&?&?&?&?&?&?&?&?&?).
  intros Hs Hf Hp Ht. split; [|split].
  - intros p Hp1 Hp2 Hp3. by rewrite Hp, lookup_insert_ne.
  - right. exists l, ns. split_and!; [done..|]. rewrite Hp, lookup_insert_eq; [done| |done].
    unfold partials, outputs, material_partial, transactions_partial in *. set_solver.
  - unfold whole_or_same. destruct Ht as [->| ->]; [by left|right; by exists l, ns].
Qed.

Lemma install_Err l ns w e w' :
  served transport a (a_start a) l → Forall2 fields_of l ns → tables a base (material_text a ns) (transactions_text ns) w →
  install a w = (Err e, w') → settled a base (files w').
Proof.
  pose proof (paths_distinct a paths_differ) as (?&?&?&?&?&?&?&?&?&?&?&?&?). intros Hs Hf Hw Hi.
  apply io_bind_Err in Hi as [Hi%replace_Err|(u & w1 & Hf1%(install_first a base paths_differ partials_absent _ _ _ _ _ Hw) & Hf2%replace_Err)].
  - apply settled_same. intros p Hp. rewrite Hi, Hw. unfold partials, outputs, material_partial, transactions_partial in *.
    rewrite !lookup_insert_ne by set_solver. done.
  - apply (settled_tables l ns); [done|done| |].
    + intros p Hp Hp'. rewrite Hf2, Hf1, lookup_insert_ne; [done|]. unfold partials, outputs, transactions_partial in *. set_solver.
    + left. rewrite Hf2, Hf1, !lookup_insert_ne; done.
Qed.

End settled.

Lemma audit_Err a s0 w e w' :
  distinct_paths a → files w !! material_partial a = None ∧ files w !! transactions_partial a = None →
  next_number s0 = a_start a → audit transport a s0 w = (Err e, w') → settled a (files w) (files w').
Proof.
  intros Hd Hp H0 H. unfold audit in H. apply io_bind_Err in H as [H|(s & w1 & H1 & H)].
  { apply (settled_same a (files w) Hd Hp). intros p Hout. pose proof (confined_collect a s0 w p) as Hc. rewrite H in Hc. apply Hc.
    unfold partials, outputs, material_partial, transactions_partial in *. set_solver. }
  apply collect_Ok in H1 as (_ & l & ns & Hs & Hr & _ & _ & Hw1); [|done]. apply read_all_fields in Hr.
  apply io_bind_Err in H as [H|(u & w2 & Hw2%(install_Ok a (files w) Hd Hp _ _ _ _ _ Hw1) & H)]; [by eapply install_Err|].
  apply io_bind_Err in H as [H|(sm & w3 & _ & [=])].
  pose proof (paths_distinct a Hd) as (?&?&?&?&?&?&?&?&?&?&?&?&?).
  apply (settled_tables a (files w) Hd Hp l ns); [done|done| |].
  - intros p Hout Hne. rewrite (report_Err _ _ _ _ _ _ _ H) by done. rewrite Hw2. unfold installed. by rewrite lookup_insert_ne.
  - right. rewrite (report_Err _ _ _ _ _ _ _ H), Hw2; [apply lookup_insert_eq|].
    unfold partials, outputs, material_partial, transactions_partial in *. set_solver.
Qed.

(** An audit that raises leaves no summary and no partial file: every file is as it was, except
    that the table of blocks and the table of transactions may have been put in place, and
    then each is the complete table of an interval whose blocks the node served in full. *)
Theorem interval_error a w e w' :
  distinct_paths a → main transport a w = (Err e, w') →
  (∀ p, p ≠ a_material_blocks a → p ≠ a_transactions a → files w' !! p = files w !! p) ∧
  whole_or_same a (files w) (files w') (a_material_blocks a) (material_text a) ∧
  whole_or_same a (files w) (files w') (a_transactions a) transactions_text.
Proof.
  intros Hd H. assert (Hsame : w' = w → (∀ p, p ≠ a_material_blocks a → p ≠ a_transactions a → files w' !! p = files w !! p) ∧
    whole_or_same a (files w) (files w') (a_material_blocks a) (material_text a) ∧
    whole_or_same a (files w) (files w') (a_transactions a) transactions_text) by (intros ->; split_and!; [done|by left|by left]).
  unfold main in H. apply io_bind_Err in H as [[= _ <-]|(u & w1 & [-> _]%lift_Ok & H)]; [by apply Hsame|].
  apply io_bind_Err in H as [H|(u1 & w1 & [-> Hf]%refuse_all_Ok & H)].
  { apply Hsame. eapply reads_only_world; [|exact H]. apply reads_only_refuse_all. }
  apply io_bind_Err in H as [[= _ <-]|(p & w1 & [-> _]%lift_Ok & H)]; [by apply Hsame|].
  apply io_bind_Err in H as [[= _ <-]|(s0 & w1 & [-> Hs0]%lift_Ok & H)]; [by apply Hsame|].
  unfold on_exception in H. destruct (audit transport a s0 w) as [[x|e1] w1] eqn:Ha; [done|].
  destruct (remove_all (partial <$> outputs a) w1) as (w2 & Hw2 & Hrm). rewrite Hw2 in H. injection H as <- <-.
  pose proof Hf as [[_ Hm0] [[_ Ht0] [[_ Hs1] _]%Forall_cons]%Forall_cons]%Forall_cons.
  apply audit_Err in Ha as (H1 & H2 & H3); [|done|done|by eapply first_state_next].
  pose proof (paths_distinct a Hd) as (?&?&?&?&?&?&?&?&?&?&?&?&?).
  assert (Hin : ∀ q, q ∈ partials a → files w !! q = None) by (intros q; unfold partials, outputs; set_solver).
  assert (Hout : a_material_blocks a ∉ partials a ∧ a_transactions a ∉ partials a)
    by (unfold partials, outputs, material_partial, transactions_partial in *; set_solver).
  unfold whole_or_same in *. split_and!.
  - intros q Hq1 Hq2. rewrite Hrm. case_decide as Hq; [by rewrite Hin|]. by apply H1.
  - rewrite Hrm, decide_False by apply Hout. exact H2.
  - rewrite Hrm, decide_False by apply Hout. exact H3.
Qed.
End main.

(** ** Witnesses *)
Definition ex_hash (n : Z) : string := "0xA" +:+ str_of_Z n.

Definition ex_transaction (from to : Z) : json :=
  JObj [("hash", JStr "0xt1"); ("from", JStr "one1a"); ("to", JNull); ("shardID", JInt from); ("toShardID", JInt to);
        ("value", JInt 12); ("nonce", JInt 3)].

(** Blocks 4 to 7: the second and third are of one state, the last holds transactions. *)
Definition ex_block (n : Z) : json :=
  JObj [("number", JInt n); ("hash", JStr (ex_hash n)); ("parentHash", JStr (lower (ex_hash (n - 1)))); ("timestamp", JInt (1000 + 2 * n));
        ("stateRoot", JStr (if n <=? 6 then "0xroot" else "0xother")); ("transactionsRoot", JStr "0xtr");
        ("receiptsRoot", JStr EMPTY_ROOT);
        ("transactions", if n =? 7 then JArr [ex_transaction 0 0; ex_transaction 0 1] else JArr []);
        ("stakingTransactions", if n =? 7 then JArr [ex_transaction 0 0] else JNull); ("gasUsed", JInt (if n =? 7 then 63000 else 0))].

Definition answer (v : json) : result json := Ok (JObj [("result", v)]).

Definition ex_transport (attempt : nat) (method : string) (params : list json) : result json :=
  match params with
  | [JInt n; JObj _] => answer (ex_block n)
  | [JInt first; JInt last; _] => answer (JArr (ex_block <$> seqZ first (last - first + 1)))
  | _ => Err TypeError
  end.

Definition ex_args : args := Args "http://node" 0 5 7 "blocks.csv" "transactions.csv" "summary.json" 2.
Definition ex_world : world := World ∅ None.

Definition ex_empty : state * json := (State 0 JNull JNull JNull digest_new ∅ no_counts, JNull).
Definition ex_result : state * json := get ex_empty (main ex_transport ex_args ex_world).1.

Lemma ex_distinct : distinct_paths ex_args.
Proof. apply (bool_decide_unpack _). by vm_compute. Qed.

Lemma ex_audit : main ex_transport ex_args ex_world = (Ok (ex_result.1, ex_result.2), (main ex_transport ex_args ex_world).2).
Proof. rewrite <-surjective_pairing. apply run_Ok, get_Ok. by vm_compute. Qed.

Example ex_counts : tally_of ex_result.1 = Counts 3 1 1 2 1 1 0 0 0 63000.
Proof. by vm_compute. Qed.

Lemma interval_chain_witness : ∃ l, served ex_transport ex_args 5 l ∧ Z.of_nat (length l) = 3.
Proof.
  destruct (interval_chain ex_transport ex_args ex_world _ _ _ ex_distinct ex_audit)
    as (_ & l & _ & _ & _ & _ & _ & _ & _ & _ & Hs & Hl & _).
  exists l. exact (conj Hs Hl).
Defined.

Lemma interval_report_witness : ∃ ns, counted ns (tally_of ex_result.1) ∧
  Z.of_nat (length (transaction_rows ns)) = normal_transactions (tally_of ex_result.1) + staking_transactions (tally_of ex_result.1).
Proof.
  destruct (interval_report ex_transport ex_args ex_world _ _ _ ex_distinct ex_audit)
    as (_ & ns & _ & _ & Hc & _ & _ & _ & _ & _ & _ & Hl & _).
  exists ns. exact (conj Hc Hl).
Defined.

Lemma ex_consistent : consistent_node ex_transport ex_block 5 7.
Proof. by intros first last _ _ _. Qed.

Lemma chunk_size_irrelevant_witness : main ex_transport (with_chunks 3 ex_args) ex_world = main ex_transport ex_args ex_world.
Proof. apply (chunk_size_irrelevant ex_transport ex_block 3 ex_args ex_world ex_consistent); split; by vm_compute. Defined.

(** The node breaks the chain at the second chunk. *)
Definition broken_transport (attempt : nat) (method : string) (params : list json) : result json :=
  match params with
  | [JInt 7; JInt 7; _] => answer (JArr [ex_block 6])
  | _ => ex_transport attempt method params
  end.

Definition ex_broken : world := (main broken_transport ex_args ex_world).2.

Lemma ex_breaks : main broken_transport ex_args ex_world = (Err (RuntimeError "expected block"), ex_broken).
Proof.
  unfold ex_broken. destruct (main broken_transport ex_args ex_world) as [r w] eqn:E. simpl. f_equal.
  change r with (r, w).1. rewrite <-E. by vm_compute.
Qed.

Lemma interval_error_witness : files ex_broken !! "summary.json" = None.
Proof.
  destruct (interval_error broken_transport ex_args ex_world _ _ ex_distinct ex_breaks) as [H _].
  rewrite (H "summary.json"); by vm_compute.
Defined.
