(* ===== verification/Blacklist.v ===== *)
(** * The audit of a list of addresses

    toolkit/scripts/addresses/blacklisted-address-audit.py: joins a list of bech32 addresses to the
    table of cutoff claims (Ledger.v) and reports, per address and in total, what each holds.

    [load_addresses] reads the list, [load_claims] the rows of the table that belong to it,
    [audit] joins them; [main] adds the export and its summary.  A row of the
    export is an [audited]; its [au_values] are in the order of [COMPONENTS]. *)
From S2P Require Import Prelude PyStr PyData Sha256 Files Csv Bech32.

Definition COMPONENTS : list string :=
  ["liquid_shard0"; "liquid_shard1"; "active_staked_or_delegated"; "pending_undelegation"; "unclaimed_staking_reward";
   "pending_cross_shard"; "total_claim"].

Record args := Args {
  a_addresses : string;
  a_claims : string;
  a_claims_sha256 : string;
  a_csv_output : string;
  a_summary_output : string;
}.

Definition file_sha256 : string → IO string := file_sha256_at (Z.to_nat (4 * 1024 * 1024)).

(** ** The addresses *)

(** [for line in source]: a line ends at a line break of any kind (empty lines play no part). *)
Fixpoint lines (s : string) : list string :=
  match s with
  | EmptyString => [EmptyString]
  | String c s =>
      if line_break c then EmptyString :: lines s
      else match lines s with t :: ts => String c t :: ts | [] => [String c EmptyString] end
  end.

(** [[line.strip() for line in source if line.strip() and not line.lstrip().startswith("#")]] *)
Definition input_addresses (text : string) : list string :=
  filter (λ s, s ≠ EmptyString ∧ startswith "#" s = false) (strip <$> lines text).

(** [list(dict.fromkeys(l))] *)
Fixpoint distinct (seen : gset string) (l : list string) : list string :=
  match l with
  | [] => []
  | x :: l => if decide (x ∈ seen) then distinct seen l else x :: distinct ({[x]} ∪ seen) l
  end.

Definition unique_addresses (input : list string) : list string := distinct ∅ input.

(** [Counter(input_addresses)] *)
Definition counts (input : list string) : gmap string Z := tally id (λ _, 1) ∅ input.

Record addresses := Addresses { ad_input : list string; ad_hex : list (string * string) }.

(** [ad_hex] lists the distinct addresses with their decoded form. *)
Definition decode_all (input : list string) : result addresses :=
  l ← mapR (λ a, h ← decode_bech32 a; Ok (a, h)) (unique_addresses input);
  raise_when (negb (size (list_to_set (snd <$> l) : gset string) =? length l)%nat)
    (ValueError "different input strings decode to the same 20-byte address");;
  Ok (Addresses input l).

(** ** The claims *)
Definition required_fields : list string :=
  ["secure_key"; "address"; "claims_shard0_block"; "claims_shard1_block"; "nonce_shard0"; "nonce_shard1"; "code_hash_shard0";
   "code_hash_shard1"] ++ ((λ c, c +:+ "_atto") <$> COMPONENTS) ++ ((λ c, c +:+ "_one") <$> COMPONENTS).

Definition missing (text : string) : list string :=
  let header := default [] (head (read_csv text)) in
  filter (λ f, f ∉ header) required_fields.

Record found := Found { fd_rows : gmap string row; fd_pairs : gset (Z * Z) }.

Definition nothing_found : found := Found ∅ ∅.

(** The body of the loop over the claims. *)
Definition claim_step (wanted : gset string) (s : found) (r : row) : result found :=
  a ← cell_str r "address";
  let address := lower a in
  if bool_decide (address ∈ wanted) then
    raise_when (bool_decide (is_Some (fd_rows s !! address))) (ValueError "duplicate claim row");;
    b0 ← cell_int r "claims_shard0_block";
    b1 ← cell_int r "claims_shard1_block";
    Ok (Found (<[address := r]> (fd_rows s)) ({[(b0, b1)]} ∪ fd_pairs s))
  else Ok s.

Definition the_pair (pairs : gset (Z * Z)) : result (Z * Z) :=
  match elements pairs with [p] => Ok p | _ => Err (ValueError "unexpected cutoff pairs") end.

(** ** The rows *)
Record audited := Audited {
  au_address : string;
  au_hex : string;
  au_count : Z;
  au_claim : option row;
  au_cells : list (option string);
  au_values : list Z;
}.

(** [claim[k]] of the columns that are copied, in the order in which they are read. *)
Definition copied : list string := ["secure_key"; "nonce_shard0"; "nonce_shard1"; "code_hash_shard0"; "code_hash_shard1"].

Definition claim_cells (claim : option row) : result (list (option string)) :=
  match claim with
  | Some r => mapR (cell r) copied
  | None => Ok (replicate 5 (Some EmptyString))
  end.

Definition component_value (claim : option row) (component : string) : result Z :=
  match claim with
  | None => Ok 0
  | Some r =>
      value ← cell_int r (component +:+ "_atto");
      text ← cell r (component +:+ "_one");
      raise_when (negb (bool_decide (text = Some (one value)))) (ValueError "atto/ONE mismatch");;
      Ok value
  end.

(** The body of the loop over the distinct addresses. *)
Definition audit_address (cs : gmap string Z) (rows : gmap string row) (ah : string * string) : result audited :=
  let claim := rows !! ah.2 in
  cells ← claim_cells claim;
  values ← mapR (component_value claim) COMPONENTS;
  Ok (Audited ah.1 ah.2 (mget cs ah.1) claim cells values).

(** [totals], as [(component, total)] *)
Definition component_of (i : nat) (r : audited) : Z := nth i (au_values r) 0.
Definition totals (rows : list audited) : list (string * Z) := imap (λ i c, (c, sum_by (component_of i) rows)) COMPONENTS.

Definition total_claim (r : audited) : Z := component_of 6 r.

Record audit_result := AuditResult {
  rs_addresses : addresses;
  rs_found : found;
  rs_pair : Z * Z;
  rs_rows : list audited;
}.

(** [main] up to the rows. *)
Definition audit (a : args) : IO audit_result :=
  text ← read (a_addresses a);
  ad ← lift (decode_all (input_addresses text));
  claims ← read (a_claims a);
  lift (raise_when (negb (bool_decide (missing claims = []))) (ValueError "claim CSV is missing fields")) ≫= λ _,
  f ← lift (foldM (claim_step (list_to_set (snd <$> ad_hex ad))) nothing_found (dict_rows claims));
  p ← lift (the_pair (fd_pairs f));
  rows ← lift (mapR (audit_address (counts (ad_input ad)) (fd_rows f)) (ad_hex ad));
  mret (AuditResult ad f p rows).

(** ** The output *)
Definition fieldnames : list string :=
  ["input_order"; "address_bech32"; "address_hex"; "duplicate_count_in_input"; "cutoff_row_present"; "secure_key"] ++
  ((λ c, c +:+ "_atto") <$> COMPONENTS) ++ ((λ c, c +:+ "_one") <$> COMPONENTS) ++
  ["nonce_shard0"; "nonce_shard1"; "code_hash_shard0"; "code_hash_shard1"; "migration_action"].

Definition cell_at (i : nat) (r : audited) : string := cell_text (nth i (au_cells r) None).

Definition record_of (index : nat) (r : audited) : list string :=
  [str_of_Z (Z.of_nat index + 1); au_address r; au_hex r; str_of_Z (au_count r);
   (match au_claim r with Some _ => "true" | None => "false" end); cell_at 0 r] ++
  (str_of_Z <$> au_values r) ++ (one <$> au_values r) ++
  [cell_at 1 r; cell_at 2 r; cell_at 3 r; cell_at 4 r; "not_set_by_balance_audit"].

Definition csv_rows (rows : list audited) : list (list string) := imap record_of rows.

Definition is_positive (r : audited) : bool := 0 <? total_claim r.

(** The key [(-int(row["total_claim_atto"]), row["address_bech32"])]. *)
Definition top_leb (r s : audited) : bool :=
  if total_claim s <? total_claim r then true
  else if total_claim r <? total_claim s then false
  else str_leb (au_address r) (au_address s).

Definition top_rows (rows : list audited) : list audited :=
  take 10 (sort_by top_leb (filter (λ r, is_positive r = true) rows)).

Definition top_json (r : audited) : json :=
  JObj [("address_bech32", JStr (au_address r)); ("address_hex", JStr (au_hex r));
        ("total_claim_atto", JStr (str_of_Z (total_claim r))); ("total_claim_one", JStr (one (total_claim r)))].

Definition duplicates (cs : gmap string Z) : list (string * json) :=
  prod_map id JInt <$> sort_by (λ x y, str_leb x.1 y.1) (filter (λ kn, 1 < kn.2) (map_to_list cs)).

Definition summary_json (a : args) (r : audit_result) (addresses_sha csv_sha : string) : json :=
  let rows := rs_rows r in
  let positive := filter (λ r, is_positive r = true) rows in
  JObj [("status", JStr "passed"); ("addresses_input", JStr (a_addresses a)); ("addresses_input_sha256", JStr addresses_sha);
        ("claims_input", JStr (a_claims a)); ("claims_input_sha256_from_cutoff_manifest", JStr (lower (a_claims_sha256 a)));
        ("cutoff", JObj [("shard0_block", JInt (rs_pair r).1); ("shard1_block", JInt (rs_pair r).2)]);
        ("input_entries", JInt (Z.of_nat (length (ad_input (rs_addresses r)))));
        ("unique_addresses", JInt (Z.of_nat (length rows)));
        ("duplicate_entries", JObj (duplicates (counts (ad_input (rs_addresses r)))));
        ("positive_claim_addresses", JInt (Z.of_nat (length positive)));
        ("zero_or_absent_addresses", JInt (Z.of_nat (length rows) - Z.of_nat (length positive)));
        ("cutoff_rows_present", JInt (Z.of_nat (size (fd_rows (rs_found r)))));
        ("component_totals_atto", JObj (prod_map id (JStr ∘ str_of_Z) <$> totals rows));
        ("component_totals_one", JObj (prod_map id (JStr ∘ one) <$> totals rows));
        ("zero_or_absent_address_list", JArr ((JStr ∘ au_address) <$> filter (λ r, total_claim r = 0) rows));
        ("top_ten_by_total_claim", JArr (top_json <$> top_rows rows));
        ("migration_policy", JObj
           [("action", JStr "none; join this balance audit to incident-specific evidence before routing");
            ("deduct_from_total_claim", JBool false)]);
        ("csv_output", JStr (a_csv_output a)); ("csv_output_sha256", JStr csv_sha)].

(** The body of [try]. *)
Definition write_outputs (a : args) (r : audit_result) : IO json :=
  publish (a_csv_output a) (csv_line <$> (fieldnames :: csv_rows (rs_rows r))) ≫= λ _,
  addresses_sha ← file_sha256 (a_addresses a);
  csv_sha ← file_sha256 (a_csv_output a);
  let summary := summary_json a r addresses_sha csv_sha in
  publish (a_summary_output a) [dumps summary; newline] ≫= λ _,
  mret summary.

Definition main (a : args) : IO (audit_result * json) :=
  for_io refuse_existing [a_csv_output a; a_summary_output a] ≫= λ _,
  r ← audit a;
  summary ← on_exception (write_outputs a r) (for_io remove_quiet [partial (a_csv_output a); partial (a_summary_output a)]);
  mret (r, summary).

(** ** Lemmas: the addresses *)
Lemma distinct_spec seen l : NoDup (distinct seen l) ∧ ∀ x, x ∈ distinct seen l ↔ x ∈ l ∧ x ∉ seen.
Proof.
  revert seen. induction l as [|y l IH]; intros seen; simpl.
  - split; [constructor|]. intros x. split; [by intros ?%not_elem_of_nil|by intros [?%not_elem_of_nil _]].
  - case_decide as Hy.
    + destruct (IH seen) as [Hnd Hin]. split; [done|]. intros x. rewrite Hin. split; [set_solver|].
      intros [[->|Hx]%elem_of_cons Hs]; [done|by split].
    + destruct (IH ({[y]} ∪ seen)) as [Hnd Hin]. split.
      * constructor; [|done]. rewrite Hin. set_solver.
      * intros x. rewrite elem_of_cons, Hin. destruct (decide (x = y)) as [->|Hne]; [set_solver|]. set_solver.
Qed.

(** Every entry of the input is counted once. *)
Lemma counts_total input : sum_by (mget (counts input)) (unique_addresses input) = Z.of_nat (length input).
Proof.
  destruct (distinct_spec ∅ input) as [Hnd Hin]. unfold unique_addresses.
  rewrite <-msum_keys; [|done|]; unfold counts.
  - by rewrite msum_tally, msum_empty, sum_ones.
  - rewrite dom_tally, list_fmap_id. apply set_eq. intros x. rewrite !elem_of_list_to_set, Hin. set_solver.
Qed.

(** The count of an address is its number of occurrences. *)
Lemma counts_at input x : mget (counts input) x = Z.of_nat (length (filter (λ y, y = x) input)).
Proof. unfold counts. by rewrite mget_tally, mget_empty, Z.add_0_l, sum_ones. Qed.

Lemma decode_all_Ok input ad :
  decode_all input = Ok ad →
  ad_input ad = input ∧ (ad_hex ad).*1 = unique_addresses input ∧ NoDup (ad_hex ad).*2 ∧
  Forall (λ ah, decode_bech32 ah.1 = Ok ah.2) (ad_hex ad).
Proof.
  unfold decode_all. intros H. inv_ok H. subst ad. bool_facts. simpl. apply mapR_Ok in E.
  split; [done|]. split; [|split].
  - clear -E. induction E as [|x y l k Hx E IH]; [done|]. rewrite fmap_cons, IH. inv_ok Hx. by subst y.
  - apply size_NoDup. by rewrite length_fmap.
  - clear -E. induction E as [|x y l k Hx E IH]; [constructor|]. constructor; [|done]. inv_ok Hx. by subst y.
Qed.

(** ** Lemmas: the claims *)
Definition claim_address (r : row) : string := lower (get EmptyString (cell_str r "address")).
Definition pair_of (r : row) : Z * Z := (column "claims_shard0_block" r, column "claims_shard1_block" r).

(** The rows of the claims that belong to a listed address. *)
Definition listed (wanted : gset string) (rows : list row) : list row := filter (λ r, claim_address r ∈ wanted) rows.

Record claims_read (wanted : gset string) (rows : list row) (f : found) : Prop := {
  cr_distinct : NoDup (claim_address <$> listed wanted rows);
  cr_rows : ∀ h r, fd_rows f !! h = Some r ↔ r ∈ listed wanted rows ∧ claim_address r = h;
  cr_pairs : fd_pairs f = list_to_set (pair_of <$> listed wanted rows);
}.

Lemma claims_read_all wanted rows f : foldM (claim_step wanted) nothing_found rows = Ok f → claims_read wanted rows f.
Proof.
  apply (foldM_ind _ (claims_read wanted)).
  - split; [constructor| |done]. intros h r. simpl. rewrite lookup_empty. split; [done|]. by intros [?%not_elem_of_nil _].
  - intros pre r s1 s2 [Hd Hr Hp] _ Hs. unfold claim_step in Hs. apply bind_Ok in Hs as (ad & Ha & Hs). cbv zeta in Hs.
    assert (Haddr : claim_address r = lower ad) by (unfold claim_address; by rewrite Ha).
    assert (Hl : listed wanted (pre ++ [r]) = listed wanted pre ++ if decide (claim_address r ∈ wanted) then [r] else []).
    { unfold listed. by rewrite filter_app, keep_one. }
    case_bool_decide as Hw.
    + inv_ok Hs. bool_facts. subst s2. apply eq_None_not_Some in E. rewrite decide_True in Hl by by rewrite Haddr.
      assert (Hfresh : claim_address r ∉ claim_address <$> listed wanted pre).
      { intros (r' & Hr' & Hin)%list_elem_of_fmap. assert (fd_rows s1 !! lower ad = Some r') as Hx; [|by rewrite E in Hx].
        apply Hr. split; [done|congruence]. }
      split; rewrite Hl.
      * rewrite fmap_app. by apply NoDup_snoc.
      * intros h r'. simpl. rewrite lookup_insert_Some, Hr. split.
        -- intros [[<- <-]|[_ [Hin <-]]]; [set_solver|set_solver].
        -- intros [[Hin|Hin%list_elem_of_singleton]%elem_of_app <-]; [right|left; by subst]. split; [|done].
           rewrite <-Haddr. intros Heq. apply Hfresh. rewrite Heq. by apply list_elem_of_fmap_2.
      * simpl. rewrite Hp, fmap_app, list_to_set_app_L. unfold pair_of at 3, column. simpl. rewrite E0, E1. simpl. set_solver.
    + injection Hs as <-. rewrite decide_False, app_nil_r in Hl by by rewrite Haddr. by split; rewrite Hl.
Qed.

Lemma listed_unique wanted rows f h :
  claims_read wanted rows f → h ∈ wanted →
  filter (λ r, claim_address r = h) rows = match fd_rows f !! h with Some r => [r] | None => [] end.
Proof.
  intros [Hd Hr _] Hh.
  assert (Hl : filter (λ r, claim_address r = h) rows = filter (λ r, claim_address r = h) (listed wanted rows)).
  { unfold listed. rewrite list_filter_filter. apply list_filter_iff. intros r. split; [intros H; split; [exact H|by rewrite H]|intros [H _]; exact H]. }
  assert (Hone : NoDup (claim_address <$> filter (λ r, claim_address r = h) (listed wanted rows))).
  { eapply sublist_NoDup; [exact Hd|]. apply fmap_sublist. apply sublist_filter. }
  rewrite Hl. clear Hl. set (k := filter _ (listed wanted rows)) in *. assert (Hk : ∀ r, r ∈ k ↔ fd_rows f !! h = Some r).
  { intros r. unfold k. rewrite list_elem_of_filter, Hr. tauto. }
  assert (Hall : ∀ r, r ∈ k → claim_address r = h) by (intros r Hin; unfold k in Hin; by apply list_elem_of_filter in Hin as [? _]).
  destruct k as [|r1 [|r2 k]].
  - destruct (fd_rows f !! h) as [r|] eqn:E; [|done]. specialize (Hk r). rewrite <-E in Hk. set_solver.
  - by rewrite (proj1 (Hk r1)) by set_solver.
  - exfalso. rewrite !fmap_cons, (Hall r1), (Hall r2) in Hone by set_solver. inversion Hone. set_solver.
Qed.

(** ** Lemmas: the rows *)
Definition value_of (component : string) (claim : option row) : Z :=
  match claim with Some r => column (component +:+ "_atto") r | None => 0 end.

Lemma component_value_Ok claim c z : component_value claim c = Ok z → z = value_of c claim.
Proof.
  destruct claim as [r|]; cbn [component_value value_of]; intros H; inv_ok H; subst; [|reflexivity]. unfold column. by rewrite E.
Qed.

Record audited_for (cs : gmap string Z) (rows : gmap string row) (ah : string * string) (o : audited) : Prop := {
  af_address : au_address o = ah.1;
  af_hex : au_hex o = ah.2;
  af_count : au_count o = mget cs ah.1;
  af_claim : au_claim o = rows !! ah.2;
  af_values : au_values o = (λ c, value_of c (rows !! ah.2)) <$> COMPONENTS;
}.

Lemma audit_address_Ok cs rows ah o : audit_address cs rows ah = Ok o → audited_for cs rows ah o.
Proof.
  unfold audit_address. cbv zeta. intros H. inv_ok H. subst o. split; [done..|].
  cbn [au_values]. eapply mapR_values; [|exact E0]. intros c z. apply component_value_Ok.
Qed.

Lemma audited_all cs rows l os : mapR (audit_address cs rows) l = Ok os → Forall2 (audited_for cs rows) l os.
Proof. intros H%mapR_Ok. eapply Forall2_impl; [exact H|]. intros ? ?. apply audit_address_Ok. Qed.

Lemma audited_keys cs rows l os : Forall2 (audited_for cs rows) l os → l = zip (au_address <$> os) (au_hex <$> os).
Proof.
  induction 1 as [|[a h] o l k [Ha Hh _ _ _] _ IH]; [done|]. rewrite !fmap_cons. cbn [zip zip_with].
  rewrite Ha, Hh. by f_equal.
Qed.

(** A component summed over the rows of the export is the column summed over the listed claims. *)
Lemma sum_component wanted rows f hs c :
  claims_read wanted rows f → NoDup hs → wanted = list_to_set hs →
  sum_by (λ h, value_of c (fd_rows f !! h)) hs = sum_by (column (c +:+ "_atto")) (listed wanted rows).
Proof.
  intros Hc Hnd Hw. pose proof Hc as [Hd Hr _].
  set (m := value_of c ∘ Some <$> fd_rows f).
  transitivity (sum_by (mget m) hs).
  { apply sum_by_ext. intros h _. unfold mget, m. rewrite lookup_fmap. by destruct (fd_rows f !! h). }
  rewrite <-msum_keys_sub; [|done|].
  2:{ intros h Hh. unfold m in Hh. rewrite dom_fmap_L in Hh. apply elem_of_dom in Hh as [r Hx]. apply Hr in Hx as [Hin <-].
      unfold listed in Hin. apply list_elem_of_filter in Hin as [Hin _]. by rewrite <-Hw. }
  rewrite (msum_keys m (claim_address <$> listed wanted rows)); [|done|].
  - rewrite sum_by_fmap. apply sum_by_ext. intros r Hin. unfold mget, m. cbn [compose]. rewrite lookup_fmap.
    assert (fd_rows f !! claim_address r = Some r) as -> by by apply Hr. done.
  - unfold m. rewrite dom_fmap_L. apply set_eq. intros h. rewrite elem_of_dom, elem_of_list_to_set, list_elem_of_fmap. split.
    + intros [r [Hin <-]%Hr]. eauto.
    + intros (r & -> & Hin). exists r. by apply Hr.
Qed.

Lemma component_total cs rows l os i c :
  Forall2 (audited_for cs rows) l os → COMPONENTS !! i = Some c →
  sum_by (component_of i) os = sum_by (λ h, value_of c (rows !! h)) (au_hex <$> os).
Proof.
  intros H Hi. induction H as [|ah o l k [_ Hh _ _ Hv] _ IH]; [done|]. rewrite fmap_cons, !sum_by_cons, IH. f_equal.
  unfold component_of. rewrite Hv, Hh. rewrite nth_lookup, list_lookup_fmap, Hi. done.
Qed.

Lemma the_pair_Ok pairs p : the_pair pairs = Ok p → pairs = {[p]}.
Proof.
  unfold the_pair. destruct (elements pairs) as [|q [|? ?]] eqn:E; [done| |done]. intros [= ->].
  apply set_eq. intros x. rewrite <-elem_of_elements, E. set_solver.
Qed.

(** ** The audit *)
Lemma load_pairs wanted rows f p :
  claims_read wanted rows f → fd_pairs f = {[p]} → ∀ r, r ∈ listed wanted rows → pair_of r = p.
Proof.
  intros [_ _ Hp] Hs r Hr. assert (pair_of r ∈ fd_pairs f) as H; [|rewrite Hs in H; by apply elem_of_singleton in H].
  rewrite Hp. by apply elem_of_list_to_set, list_elem_of_fmap_2.
Qed.

Lemma audit_Ok a w r w' :
  audit a w = (Ok r, w') →
  w' = w ∧ ∃ text claims,
    files w !! a_addresses a = Some text ∧ files w !! a_claims a = Some claims ∧
    decode_all (input_addresses text) = Ok (rs_addresses r) ∧ missing claims = [] ∧
    claims_read (list_to_set (ad_hex (rs_addresses r)).*2) (dict_rows claims) (rs_found r) ∧
    fd_pairs (rs_found r) = {[rs_pair r]} ∧
    Forall2 (audited_for (counts (input_addresses text)) (fd_rows (rs_found r))) (ad_hex (rs_addresses r)) (rs_rows r).
Proof.
  unfold audit. intros H.
  apply io_bind_Ok in H as (text & w1 & [-> Ht]%read_Ok & H). apply io_bind_Ok in H as (ad & w1 & [-> Had]%lift_Ok & H).
  apply io_bind_Ok in H as (claims & w1 & [-> Hc]%read_Ok & H). cbn beta in H.
  apply io_bind_Ok in H as (u & w1 & [-> Hm%raise_when_Ok]%lift_Ok & H).
  apply io_bind_Ok in H as (f & w1 & [-> Hf%claims_read_all]%lift_Ok & H).
  apply io_bind_Ok in H as (p & w1 & [-> Hp%the_pair_Ok]%lift_Ok & H).
  apply io_bind_Ok in H as (rows & w1 & [-> Hr%audited_all]%lift_Ok & H). apply mret_Ok in H as [-> <-].
  split; [done|]. exists text, claims. cbn [rs_addresses rs_found rs_pair rs_rows]. bool_facts.
  pose proof (decode_all_Ok _ _ Had) as (Hi & _). rewrite Hi in Hr. done.
Qed.

(** C35 (functional): what the audit of an address list reports: one row per distinct address of the list, with its
    decoded form (no two alike) and the number of times the list holds it; these numbers
    add up to the length of the list; the claim of a row is the only row of the claims with
    that address, all the claims used are of the one reported pair of blocks, and the total of
    each component is its column summed over the claims of the listed addresses. *)
Theorem blacklist_totals a w r w' :
  audit a w = (Ok r, w') →
  w' = w ∧ ∃ text claims,
    files w !! a_addresses a = Some text ∧ files w !! a_claims a = Some claims ∧
    let rows := rs_rows r in
    let wanted := list_to_set (au_hex <$> rows) in
    au_address <$> rows = unique_addresses (input_addresses text) ∧
    (∀ o, o ∈ rows → decode_bech32 (au_address o) = Ok (au_hex o)) ∧ NoDup (au_hex <$> rows) ∧
    (∀ o, o ∈ rows → au_count o = Z.of_nat (length (filter (λ x, x = au_address o) (input_addresses text)))) ∧
    sum_by au_count rows = Z.of_nat (length (input_addresses text)) ∧
    (∀ o, o ∈ rows → filter (λ c, claim_address c = au_hex o) (dict_rows claims) = match au_claim o with Some c => [c] | None => [] end) ∧
    (∀ c, c ∈ listed wanted (dict_rows claims) → pair_of c = rs_pair r) ∧
    totals rows = (λ c, (c, sum_by (column (c +:+ "_atto")) (listed wanted (dict_rows claims)))) <$> COMPONENTS.
Proof.
  intros (-> & text & claims & Ht & Hc & Had & _ & Hf & Hp & Hr)%audit_Ok. split; [done|]. exists text, claims.
  apply decode_all_Ok in Had as (_ & Hkeys & Hnd & Hdec).
  pose proof (audited_keys _ _ _ _ Hr) as Hz.
  assert (Hlen : length (au_address <$> rs_rows r) = length (au_hex <$> rs_rows r)) by by rewrite !length_fmap.
  rewrite Hz, fst_zip in Hkeys by lia. rewrite Hz, snd_zip in Hnd, Hf by lia.
  assert (Hin : ∀ o, o ∈ rs_rows r → ∃ ah, ah ∈ ad_hex (rs_addresses r) ∧ audited_for (counts (input_addresses text)) (fd_rows (rs_found r)) ah o).
  { intros o Ho. apply list_elem_of_lookup in Ho as [i Hi]. destruct (Forall2_lookup_r _ _ _ _ _ Hr Hi) as (ah & Hl & Hx).
    exists ah. split; [by eapply list_elem_of_lookup_2|done]. }
  cbv zeta. split_and!; [done..| | | | | | |].
  - intros o (ah & Hl & [-> -> _ _ _])%Hin. by apply (proj1 (Forall_forall _ _) Hdec ah).
  - done.
  - intros o (ah & _ & [-> _ -> _ _])%Hin. apply counts_at.
  - rewrite <-counts_total, <-Hkeys, sum_by_fmap. apply sum_by_ext. intros o (ah & _ & [Ha _ Hn _ _])%Hin.
    cbn [compose]. by rewrite Ha, Hn.
  - intros o Ho. destruct (Hin o Ho) as (ah & _ & [_ Hh _ -> _]). rewrite <-Hh.
    apply (listed_unique _ _ _ _ Hf). apply elem_of_list_to_set. by apply list_elem_of_fmap_2.
  - by apply (load_pairs _ _ (rs_found r)).
  - apply list_eq. intros i. unfold totals. rewrite list_lookup_imap, list_lookup_fmap. destruct (COMPONENTS !! i) as [c|] eqn:Hi; [|done].
    simpl. do 2 f_equal. rewrite (component_total _ _ _ _ i c Hr Hi). by apply sum_component.
Qed.

(** ** The output *)
Lemma reads_only_audit a : reads_only (audit a).
Proof. unfold audit. repeat (apply reads_only_bind; [first [apply reads_only_read | apply reads_only_lift]|intros ?]). done. Qed.

Lemma write_outputs_Ok a r w summary w' :
  write_outputs a r w = (Ok summary, w') →
  ∃ d, let text := write_csv (fieldnames :: csv_rows (rs_rows r)) in
    files w' = <[a_summary_output a := dumps summary +:+ newline]> (<[a_csv_output a := text]> (files w)) ∧
    summary = summary_json a r d (sha256 text).
Proof.
  unfold write_outputs. intros H. apply io_bind_Ok in H as (u & w1 & [_ Hw1]%publish_Ok & H).
  apply io_bind_Ok in H as (d & w2 & Hd & H). apply reads_only_world in Hd as Hw2; [|apply reads_only_file_sha256_at]. subst w2.
  apply io_bind_Ok in H as (d2 & w2 & Hd2 & H). unfold file_sha256 in Hd2. rewrite file_sha256_at_read in Hd2 by lia.
  rewrite Hw1, lookup_insert_eq in Hd2. injection Hd2 as <- <-. cbv zeta in H.
  apply io_bind_Ok in H as (u2 & w3 & [_ Hw3]%publish_Ok & H). apply mret_Ok in H as [-> <-].
  unfold concat_texts in *. rewrite concat_csv_lines in *. exists d. cbv zeta. split; [|done].
  rewrite Hw3, Hw1. simpl. by rewrite str_app_nil_r.
Qed.

Definition table_text (r : audit_result) : string := write_csv (fieldnames :: csv_rows (rs_rows r)).

Lemma write_outputs_Err a r w e w' q :
  write_outputs a r w = (Err e, w') → q ≠ partial (a_csv_output a) → q ≠ partial (a_summary_output a) →
  files w' !! q = files w !! q ∨ q = a_csv_output a ∧ files w' !! q = Some (table_text r).
Proof.
  intros H Hq1 Hq2. unfold write_outputs in H.
  apply io_bind_Err in H as [H|(u & w1 & [_ Hw1]%publish_Ok & H)]; [left; by eapply publish_Err|].
  unfold concat_texts in Hw1. rewrite concat_csv_lines in Hw1. fold (table_text r) in Hw1.
  assert (Hkeep : files w1 !! q = files w !! q ∨ q = a_csv_output a ∧ files w1 !! q = Some (table_text r)).
  { rewrite Hw1. destruct (decide (q = a_csv_output a)) as [->|Hne]; [right; by rewrite lookup_insert_eq|left; by rewrite lookup_insert_ne]. }
  apply io_bind_Err in H as [H|(d & w2 & Hd & H)].
  { apply reads_only_world in H as ->; [done|apply reads_only_file_sha256_at]. }
  apply reads_only_world in Hd as ->; [|apply reads_only_file_sha256_at].
  apply io_bind_Err in H as [H|(d2 & w2 & Hd & H)].
  { apply reads_only_world in H as ->; [done|apply reads_only_file_sha256_at]. }
  apply reads_only_world in Hd as ->; [|apply reads_only_file_sha256_at]. cbv zeta in H.
  apply io_bind_Err in H as [H|(u2 & w3 & _ & [=])]. by rewrite (publish_Err _ _ _ _ _ q H).
Qed.

Lemma audited_values_length cs rows l os o : Forall2 (audited_for cs rows) l os → o ∈ os → length (au_values o) = 7%nat.
Proof.
  intros Hr Ho. apply list_elem_of_lookup in Ho as [i Hi]. destruct (Forall2_lookup_r _ _ _ _ _ Hr Hi) as (ah & _ & [_ _ _ _ ->]).
  done.
Qed.

Definition table_row (i : nat) (o : audited) : row := dict_row fieldnames (record_of i o).

Lemma fieldnames_NoDup : NoDup fieldnames.
Proof. apply (bool_decide_unpack _). by vm_compute. Qed.

Lemma record_length i o : length (au_values o) = 7%nat → length (record_of i o) = length fieldnames.
Proof. intros H. unfold record_of. rewrite !length_app, !length_fmap, H. done. Qed.

(** Reading a row of the export. *)
Lemma table_row_value i o j c :
  length (au_values o) = 7%nat → COMPONENTS !! j = Some c → column (c +:+ "_atto") (table_row i o) = component_of j o.
Proof.
  intros Hlen Hj. unfold column, table_row. rewrite (dict_row_int fieldnames (record_of i o) (6 + j) _ (component_of j o)).
  - done.
  - apply fieldnames_NoDup.
  - by apply record_length.
  - clear -Hj. do 7 (destruct j as [|j]; [by injection Hj as <-|]). done.
  - unfold record_of. change (6 + j)%nat with (length [EmptyString; EmptyString; EmptyString; EmptyString; EmptyString; EmptyString] + j)%nat.
    rewrite lookup_app_r by (simpl; lia). simpl length.
    replace (6 + j - 6)%nat with j by lia.
    assert (Hlt : (j < 7)%nat) by (apply lookup_lt_Some in Hj; done).
    rewrite lookup_app_l by (rewrite length_fmap; lia). rewrite list_lookup_fmap.
    destruct (lookup_lt_is_Some_2 (au_values o) j) as [z Hz]; [lia|]. rewrite Hz. unfold component_of. by rewrite nth_lookup, Hz.
Qed.

Lemma table_row_address i o : length (au_values o) = 7%nat → cell_str (table_row i o) "address_bech32" = Ok (au_address o).
Proof.
  intros H. apply cell_str_Ok. apply (dict_row_lookup fieldnames (record_of i o) 1).
  - apply fieldnames_NoDup.
  - by apply record_length.
  - done.
  - done.
Qed.

Lemma table_rows_back r : dict_rows (table_text r) = imap table_row (rs_rows r).
Proof.
  unfold table_text. rewrite dict_rows_write_csv.
  - unfold csv_rows. apply list_eq. intros i. by rewrite list_lookup_fmap, !list_lookup_imap; destruct (rs_rows r !! i).
  - apply Forall_lookup_2. intros i x Hx. unfold csv_rows in Hx. rewrite list_lookup_imap in Hx.
    destruct (rs_rows r !! i); simplify_eq/=. done.
Qed.

Lemma sum_imap {A B} (f : B → Z) (h : nat → A → B) (g : A → Z) l :
  (∀ i x, x ∈ l → f (h i x) = g x) → sum_by f (imap h l) = sum_by g l.
Proof.
  revert h. induction l as [|x l IH]; intros h Hf; [done|]. simpl. rewrite !sum_by_cons, Hf by set_solver. f_equal.
  apply IH. intros i y Hy. apply Hf. set_solver.
Qed.

(** The export of an address audit: when the run returns, the table did not exist before, is read back row by
    row as the rows of the audit (the address, and each component, whose column adds up to the
    reported total), and the summary written next to it names the digest of exactly this
    table; when it raises, no summary and no partial file is left, and every file is as it was except
    that the table may have been put in place, and is then complete. *)
Theorem blacklist_output a w res w' :
  NoDup [a_csv_output a; partial (a_csv_output a); a_summary_output a; partial (a_summary_output a)] →
  main a w = (res, w') →
  match res with
  | Ok (r, summary) =>
      audit a w = (Ok r, w) ∧ files w !! a_csv_output a = None ∧ files w !! a_summary_output a = None ∧
      (∃ d, summary = summary_json a r d (sha256 (table_text r))) ∧
      files w' = <[a_summary_output a := dumps summary +:+ newline]> (<[a_csv_output a := table_text r]> (files w)) ∧
      Forall2 (λ o t, cell_str t "address_bech32" = Ok (au_address o) ∧
                      ∀ j c, COMPONENTS !! j = Some c → column (c +:+ "_atto") t = component_of j o) (rs_rows r) (dict_rows (table_text r)) ∧
      totals (rs_rows r) = (λ c, (c, sum_by (column (c +:+ "_atto")) (dict_rows (table_text r)))) <$> COMPONENTS
  | Err e =>
      ∀ p, files w' !! p = files w !! p ∨
           p = a_csv_output a ∧ files w !! p = None ∧ ∃ r, audit a w = (Ok r, w) ∧ files w' !! p = Some (table_text r)
  end.
Proof.
  intros Hnd H. unfold main in H. destruct res as [[r summary]|e].
  - apply io_bind_Ok in H as (u & w1 & [-> [[Hc _] [[Hs _] _]%Forall_cons]%Forall_cons]%refuse_all_Ok & H).
    apply io_bind_Ok in H as (r1 & w1 & Ha & H). apply reads_only_world in Ha as Hw; [|apply reads_only_audit]. subst w1.
    apply io_bind_Ok in H as (s1 & w2 & (d & Hw2 & Hsum)%on_exception_Ok%write_outputs_Ok & H). apply mret_Ok in H as [-> [= <- <-]].
    fold (table_text r1) in Hw2, Hsum. pose proof Ha as (_ & text & claims & _ & _ & _ & _ & _ & _ & Hr)%audit_Ok.
    assert (Hlen : ∀ o, o ∈ rs_rows r1 → length (au_values o) = 7%nat) by (intros o; by apply (audited_values_length _ _ _ _ _ Hr)).
    split_and!; [done..|by exists d|done| |]; rewrite table_rows_back.
    + apply Forall2_same_length_lookup_2; [by rewrite length_imap|]. intros i o t Ho Ht. rewrite list_lookup_imap, Ho in Ht.
      injection Ht as <-. apply list_elem_of_lookup_2 in Ho. split; [by apply table_row_address, Hlen|].
      intros j c Hj. by apply table_row_value; [apply Hlen|].
    + apply list_eq. intros i. unfold totals. rewrite list_lookup_imap, list_lookup_fmap. destruct (COMPONENTS !! i) as [c|] eqn:Hi; [|done].
      simpl. do 2 f_equal. symmetry. apply sum_imap. intros k o Ho. by apply table_row_value; [apply Hlen|].
  - intros p. apply io_bind_Err in H as [H|(u & w1 & [-> [[Hc Hcp] [[Hs Hsp] _]%Forall_cons]%Forall_cons]%refuse_all_Ok & H)].
    { left. apply reads_only_world in H as ->; [done|apply reads_only_refuse_all]. }
    apply io_bind_Err in H as [H|(r & w1 & Ha & H)].
    { left. by apply reads_only_world in H as ->; [|apply reads_only_audit]. }
    apply reads_only_world in Ha as Hw; [|apply reads_only_audit]. subst w1.
    apply io_bind_Err in H as [H|(s & w1 & _ & [=])].
    unfold on_exception in H. destruct (write_outputs a r w) as [[s|e1] w1] eqn:Hwr; [done|].
    destruct (remove_all [partial (a_csv_output a); partial (a_summary_output a)] w1) as (w2 & Hw2 & Hrm). rewrite Hw2 in H. injection H as <- <-.
    rewrite Hrm. case_decide as Hp.
    + left. symmetry. apply elem_of_cons in Hp as [->|Hp%list_elem_of_singleton]; [done|by subst].
    + destruct (write_outputs_Err _ _ _ _ _ p Hwr) as [Hx|[-> Hx]]; [set_solver|set_solver|by left|].
      right. split_and!; [done..|]. by exists r.
Qed.

(** ** Witnesses *)
Definition ex_hex1 : string := "0x15e5bf28ee8516bb8b4eed5f1a85bec970dd821c".
Definition ex_hex2 : string := "0x" +:+ hex (replicate 20 200).
Definition ex_hex3 : string := "0x" +:+ hex (replicate 20 9).
Definition ex_bech (h : string) : string := get EmptyString (to_bech32 h).

(** Three addresses, the first twice; the second has no claim. *)
Definition ex_addresses : string :=
  "# reported" +:+ newline +:+ ex_bech ex_hex1 +:+ newline +:+ " " +:+ ex_bech ex_hex2 +:+ newline +:+ newline +:+
  ex_bech ex_hex3 +:+ newline +:+ ex_bech ex_hex1 +:+ newline.

Definition ex_claim (key address : string) (amounts : list Z) : list string :=
  [key; address; "100"; "90"; "1"; "0"; "0xc"; "0xc"] ++ (str_of_Z <$> amounts) ++ (one <$> amounts).

Definition ex_claims : string := write_csv
  [required_fields;
   ex_claim "0x01" (upper ex_hex1) [5; 0; 7 * ATTO; 0; 1; 0; 7 * ATTO + 6];
   ex_claim "0x02" "0xother" [1; 1; 1; 1; 1; 1; 6];
   ex_claim "0x03" ex_hex3 [2; 1; 0; 0; 0; 0; 3]].

Definition ex_args : args := Args "list.txt" "claims.csv" "AB" "audit.csv" "audit.json".

Definition ex_world : world := World (list_to_map [("list.txt", ex_addresses); ("claims.csv", ex_claims)]) None.

Definition ex_nothing : audit_result := AuditResult (Addresses [] []) nothing_found (0, 0) [].
Definition ex_result : audit_result := get ex_nothing (audit ex_args ex_world).1.

Lemma ex_audit_blacklist : audit ex_args ex_world = (Ok ex_result, (audit ex_args ex_world).2).
Proof. apply run_Ok, get_Ok. by vm_compute. Qed.

Example ex_totals_blacklist : (snd <$> totals (rs_rows ex_result)) = [7; 1; 7 * ATTO; 0; 1; 0; 7 * ATTO + 9] ∧ rs_pair ex_result = (100, 90).
Proof. by vm_compute. Qed.

Lemma blacklist_totals_witness :
  (audit ex_args ex_world).2 = ex_world ∧ sum_by au_count (rs_rows ex_result) = 4 ∧
  ∀ o, o ∈ rs_rows ex_result → au_count o = Z.of_nat (length (filter (λ x, x = au_address o) (input_addresses ex_addresses))).
Proof.
  destruct (blacklist_totals ex_args ex_world _ _ ex_audit_blacklist) as (Hw & text & _ & Ht & _ & _ & _ & _ & Hn & Hs & _).
  split; [exact Hw|]. change (Some ex_addresses = Some text) in Ht. injection Ht as <-. split; [rewrite Hs; by vm_compute|exact Hn].
Defined.

(** The address that the list holds twice. *)
Example ex_counts_blacklist : au_count <$> rs_rows ex_result = [2; 1; 1].
Proof. by vm_compute. Qed.

Definition ex_output : audit_result * json := get (ex_nothing, JNull) (main ex_args ex_world).1.

Lemma ex_main_blacklist : main ex_args ex_world = (Ok ex_output, (main ex_args ex_world).2).
Proof. apply run_Ok, get_Ok. by vm_compute. Qed.

Lemma blacklist_output_witness :
  NoDup ["audit.csv"; "audit.csv.partial"; "audit.json"; "audit.json.partial"] ∧
  files (main ex_args ex_world).2 !! "audit.csv" = Some (table_text ex_output.1).
Proof.
  assert (Hnd : NoDup ["audit.csv"; "audit.csv.partial"; "audit.json"; "audit.json.partial"]) by (apply (bool_decide_unpack _); by vm_compute).
  split; [exact Hnd|]. pose proof (blacklist_output ex_args ex_world (Ok (ex_output.1, ex_output.2)) (main ex_args ex_world).2 Hnd) as H.
  destruct H as (_ & _ & _ & _ & -> & _); [rewrite <-surjective_pairing; exact ex_main_blacklist|].
  rewrite lookup_insert_ne by done. apply lookup_insert_eq.
Defined.

(** A second row of a listed address is refused. *)
Example duplicate_claim :
  foldM (claim_step {[ex_hex3]}) nothing_found (dict_rows (ex_claims +:+ csv_line (ex_claim "0x04" ex_hex3 [0; 0; 0; 0; 0; 0; 0]))) =
  Err (ValueError "duplicate claim row").
Proof. by vm_compute. Qed.
