(* ===== verification/FlowRecords.v ===== *)
(** * The records of the flow export

    toolkit/scripts/forensics/historical-exploit-flow-export.py, first part: the records of
    transactions, keyed by shard and hash, as they are filled from the two source audits, from the
    node and from the histories of the accounts of an incident.

    A record is split by what writes it: [tx] is what [merge_transaction] replaces and the rest
    what it preserves.  The dict of records is a [store], which keeps the order of insertion. *)
From S2P Require Import Prelude PyStr PyData Files Csv Bech32 Batch.

(** ** Constants *)
Record incident_config := IncidentConfig {
  c_root : string;
  c_root_cutoff : Z;
  c_contract : string;
  c_drain_start : Z;
  c_drain_end : Z;
}.

Definition INCIDENTS : list (string * incident_config) :=
  [("may-2025", IncidentConfig "0x68a0313e0919ab6f4574ab4f16477b776e096b43" 73386866
                  "0x70a217631472a276976ab572d48959dc74f6065a" 73386869 73386956);
   ("april-2026", IncidentConfig "0x113f0d7cfdcdf59be960905e0a86b09b28cc3cb6" 87337195
                    "0x5d229bc02eae8c46225425a1dd7d37047b61c148" 87337199 87337269)].

Definition KUCOIN_PATH_HASHES : list string :=
  ["0xca05532a6b8a7c63d96b30ab58c9a2bae96c976cf0a91b3808806a29e65b8fac";
   "0x78acdfb9817c99414784cd029e97e99621e0259b303592dc5e24992fb92f74dc";
   "0xc7e8196bad209ffda9c7d5a46e58fcb3d5605aeb13b373a9c5a93da92927cac2";
   "0x250848d9ebfbd59be5a264f49867ea852d11c9b9da1157fb5adb18f9d7b53907";
   "0x24e75eabdcacc53331bd3537f303823e58c6ac43b11acaf02f2899ad005dce93";
   "0xd92bb9ad207dfde425531cea52ce3252b0122ee77f0d0f11bc28785c29fd5adb"].

(** [decode_address(value)] *)
Definition decode_json_address (value : json) : result string :=
  if truthy value then
    match value with
    | JStr s => if startswith "0x" s then Ok (lower s) else decode_one1 s
    | _ => Err AttributeError
    end
  else Ok EmptyString.

(** ** Records *)
Record tx := Tx {
  shard_id : Z;
  block_number : Z;
  transaction_index : Z;
  transaction_hash : string;
  eth_hash : string;
  timestamp_unix : Z;
  from : string;
  to : string;
  value_atto : Z;
  nonce : Z;
  input_selector : json;
  status : string;
}.

(** The sets of labels.  A classification is [None] where a row is shorter than its header. *)
Record labels := Labels {
  roles : gset string;
  incidents : gset string;
  trace_methods : gset string;
  receipt_classifications : gset (option string);
  classification_sources : gset string;
  replay_classifications : gset string;
  evidence_references : gset string;
  evidence_sha256 : gset string;
  receipt_directions : gset string;
}.

Record receipts := Receipts {
  receipt_count : Z;
  receipt_amount : Z;
  precompile_calls : Z;
  failed_precompile_paths : Z;
}.

Record trace_counts := TraceCounts {
  root_error : json;
  call_count : Z;
  failed_call_count : Z;
  positive_edge_count : Z;
  effective_edge_count : Z;
  effective_atto : Z;
  selfdestruct_edge_count : Z;
  selfdestruct_atto : Z;
}.

Record record := Record {
  rc_tx : tx;
  rc_labels : labels;
  rc_receipts : receipts;
  rc_trace : trace_counts;
}.

Definition no_labels : labels := Labels ∅ ∅ ∅ ∅ ∅ ∅ ∅ ∅ ∅.
Definition no_trace : trace_counts := TraceCounts (JStr EmptyString) 0 0 0 0 0 0 0.

Definition blank_record (shard : Z) (hash : string) (block : Z) : record :=
  Record (Tx shard block 0 (lower hash) EmptyString 0 EmptyString EmptyString 0 0 (JStr EmptyString) EmptyString)
    no_labels (Receipts 0 0 0 0) no_trace.

(** ** The dict of records *)
Abbreviation key := (Z * string)%type.

Record store := Store { order : list key; recs : gmap key record }.

Definition no_records : store := Store [] ∅.

(** [records.values()] *)
Definition values (s : store) : list record := omap (λ k, recs s !! k) (order s).

(** [get_record]: the record is there afterwards, at the returned key. *)
Definition record_key (shard : Z) (hash : string) : key := (shard, lower hash).

Definition get_record (s : store) (shard : Z) (hash : string) (block : Z) : store :=
  let k := record_key shard hash in
  match recs s !! k with
  | Some _ => s
  | None => Store (order s ++ [k]) (<[k := blank_record shard hash block]> (recs s))
  end.

(** A change of the record at a key. *)
Definition update (k : key) (f : record → record) (s : store) : store := Store (order s) (alter f k (recs s)).

(** [merge_transaction(record, transaction)] *)
Definition with_status (t : tx) (st : string) : tx :=
  Tx (shard_id t) (block_number t) (transaction_index t) (transaction_hash t) (eth_hash t) (timestamp_unix t) (from t) (to t)
    (value_atto t) (nonce t) (input_selector t) st.

Definition merge_transaction (t : tx) (r : record) : record :=
  let prior_status := status (rc_tx r) in
  Record (if negb (bool_decide (prior_status = EmptyString)) && bool_decide (status t = EmptyString)
          then with_status t prior_status else t)
    (rc_labels r) (rc_receipts r) (rc_trace r).

Definition with_labels (f : labels → labels) (r : record) : record := Record (rc_tx r) (f (rc_labels r)) (rc_receipts r) (rc_trace r).

(** [record["roles"].add(role)], [record["incidents"].add(incident)], [record["trace_methods"].add(...)] *)
Definition add_labels (new_roles new_incidents methods : gset string) (l : labels) : labels :=
  Labels (new_roles ∪ roles l) (new_incidents ∪ incidents l) (methods ∪ trace_methods l) (receipt_classifications l)
    (classification_sources l) (replay_classifications l) (evidence_references l) (evidence_sha256 l) (receipt_directions l).

(** ** Transactions of the node *)

(** [v[:10]] *)
Definition slice10 (v : json) : result json :=
  match v with
  | JStr s => Ok (JStr (str_take 10 s))
  | JArr l => Ok (JArr (take 10 l))
  | _ => Err TypeError
  end.

Definition normalize_transaction (transaction : json) (shard : Z) : result tx :=
  s ← jget_default "shardID" (JInt shard) transaction; s ← jint s;
  block ← jget_int "blockNumber" transaction;
  i ← jget_default "transactionIndex" (JInt 0) transaction; i ← jint i;
  hash ← jget_str "hash" transaction;
  eth ← jget_default "ethHash" (JStr EmptyString) transaction; eth ← jstr eth;
  t ← jget_default "timestamp" (JInt 0) transaction; t ← jint t;
  f ← jget_opt "from" transaction; f ← decode_json_address f;
  d ← jget_opt "to" transaction; d ← decode_json_address d;
  v ← jget_default "value" (JInt 0) transaction; v ← jint v;
  n ← jget_default "nonce" (JInt 0) transaction; n ← jint n;
  input ← jget_default "input" (JStr EmptyString) transaction; input ← slice10 input;
  Ok (Tx s block i (lower hash) (lower eth) t f d v n input EmptyString).

(** ** The source audits *)
Definition incident_for_source_row (r : row) : result string :=
  f ← cell_str r "from";
  let address := lower f in
  if bool_decide (address = "0x68a0313e0919ab6f4574ab4f16477b776e096b43") then Ok "may-2025"
  else if bool_decide (address = "0x113f0d7cfdcdf59be960905e0a86b09b28cc3cb6") then Ok "april-2026"
  else
    c ← cell r "classification";
    Ok (if bool_decide (c = Some "rollback_leak") then "smaller-2026"
        else if bool_decide (c = Some "source_debit_absent") then "source-debit-absent"
        else "valid-control").

(** [int(row.get(a) or row.get(b) or ... or otherwise)] *)
Definition int_or (r : row) (names : list string) (otherwise : result Z) : result Z :=
  match first_text r names with Some s => int_str s | None => otherwise end.

Definition text_of (r : row) (name : string) : string := cell_text (cell_get r name).

Definition singleton_when (c : bool) (x : string) : gset string := if c then {[x]} else ∅.

(** The trace methods that a row's classification source stands for. *)
Definition source_methods (source : string) : gset string :=
  if bool_decide (source = EmptyString) then {["legacy-source-audit"]}
  else singleton_when (contains "independent" source) "independent-source-debit-evidence" ∪
       singleton_when (contains "compatible_replay" source) "compatible-source-replay" ∪
       singleton_when (contains "direct_transaction" source) "direct-source-transaction" ∪
       singleton_when (bool_decide (source = "unresolved")) "incompatible-or-inconclusive-source-replay".

Definition nonempty_set (s : string) : gset string := singleton_when (negb (bool_decide (s = EmptyString))) s.

Definition direction (shard : Z) : string := str_of_Z shard +:+ "->" +:+ str_of_Z (if shard =? 0 then 1 else 0).

(** What a row adds to the labels of its record. *)
Definition source_labels (shard : Z) (incident : string) (classification : option string) (r : row) (l : labels) : labels :=
  let source := text_of r "classification_source" in
  Labels ({["receipt-source"]} ∪ roles l) ({[incident]} ∪ incidents l)
    ({["existing-source-audit"]} ∪ source_methods source ∪ trace_methods l)
    ({[classification]} ∪ receipt_classifications l) (nonempty_set source ∪ classification_sources l)
    (nonempty_set (text_of r "replay_classification") ∪ replay_classifications l)
    (nonempty_set (text_of r "independent_evidence_reference") ∪ evidence_references l)
    (nonempty_set (text_of r "independent_evidence_sha256") ∪ evidence_sha256 l)
    ({[direction shard]} ∪ receipt_directions l).

Definition cell_json (c : option string) : json := match c with Some s => JStr s | None => JNull end.

(** What a row says of the transaction itself. *)
Definition source_tx (st f d : string) (v : Z) (selector : json) (t : tx) : tx :=
  Tx (shard_id t) (block_number t) (transaction_index t) (transaction_hash t) (eth_hash t) (timestamp_unix t) f d v (nonce t) selector
    (if bool_decide (st = EmptyString) then status t else st).

Definition add_receipt (amount calls paths : Z) (x : receipts) : receipts :=
  Receipts (receipt_count x + 1) (receipt_amount x + amount) (precompile_calls x + calls) (failed_precompile_paths x + paths).

(** The body of the loop of [load_source_audit]. *)
Definition source_step (shard : Z) (s : store) (r : row) : result store :=
  h ← cell_str r "source_transaction_hash";
  block ← int_or r ["audit_source_block"; "signed_source_block"] (cell_int r "source_block");
  let k := record_key shard (lower h) in
  let s := get_record s shard (lower h) block in
  incident ← incident_for_source_row r;
  classification ← cell r "classification";
  amount ← cell_int r "amount_atto";
  calls ← int_or r ["precompile_call_count"] (Ok 0);
  paths ← int_or r ["failed_precompile_path_count"] (Ok 0);
  f ← cell_str r "source_transaction_from";
  d ← cell_str r "source_transaction_to";
  v ← int_or r ["source_transaction_value_atto"] (cell_int r "amount_atto");
  selector ← cell r "source_input_selector";
  Ok (update k (λ x, Record (source_tx (text_of r "source_transaction_status") (lower f) (lower d) v (cell_json selector) (rc_tx x))
                       (source_labels shard incident classification r (rc_labels x)) (add_receipt amount calls paths (rc_receipts x))
                       (rc_trace x)) s).

Definition load_source_audit (path : string) (shard : Z) (s : store) : IO store :=
  text ← read path;
  lift (foldM (source_step shard) s (dict_rows text)).

Section node.
Context (transport : nat → string → json → result json).

(** ** Requests *)
Definition request_json (url : string) (payload : json) : result json :=
  retry os_error 6 (λ attempt, transport attempt url payload).

Definition rpc (url method : string) (params : list json) : result json :=
  response ← request_json url (request 1 method params);
  result_of response.

(** One chunk of [rpc_batch]. *)
Definition batch_chunk (url method : string) (chunk : list (list json)) : result (list json) :=
  response ← request_json url (requests 0 ((λ p, (method, p)) <$> chunk));
  m ← by_id response;
  mapR (λ i, item ← checked_answer m i; jget_opt "result" item) (seqZ 0 (Z.of_nat (length chunk))).

Definition rpc_batch (url method : string) (parameters : list (list json)) (chunk_size : nat) : result (list json) :=
  results ← mapR (λ c, batch_chunk url method c.2) (chunks chunk_size parameters);
  Ok (mjoin (M:=list) results).

Definition history_query (address tx_type : string) (page : Z) : json :=
  JObj [("address", JStr address); ("pageIndex", JInt page); ("pageSize", JInt 1000); ("fullTx", JBool true); ("txType", JStr tx_type);
        ("order", JStr "ASC")].

(** [for page in range(1000)], with [pages] pages to come. *)
Fixpoint history_from (url address tx_type : string) (pages : nat) (page : Z) (transactions : list json) : result (list json) :=
  match pages with
  | O => Err (RuntimeError "transaction history exceeded pagination bound")
  | S pages =>
      r ← rpc url "hmyv2_getTransactionsHistory" [history_query address tx_type page];
      t ← jget "transactions" r;
      batch ← jiter t;
      let transactions := transactions ++ batch in
      if (length batch <? 1000)%nat then Ok transactions
      else history_from url address tx_type pages (page + 1) transactions
  end.

Definition transaction_history (url address tx_type : string) : result (list json) := history_from url address tx_type 1000 0 [].

(** ** Records from the node *)
Definition merge_answer (shard : Z) (s : store) (kt : key * json) : result store :=
  raise_when (match kt.2 with JNull => true | _ => false end) (RuntimeError "missing transaction");;
  t ← normalize_transaction kt.2 shard;
  Ok (update kt.1 (merge_transaction t) s).

(** The keys of a shard's records that have no [eth_hash] yet, with what the node is asked about them. *)
Definition to_enrich (shard : Z) (s : store) : list key :=
  filter (λ k, k.1 = shard ∧ (λ r, eth_hash (rc_tx r)) <$> recs s !! k = Some EmptyString) (order s).

Definition hash_at (s : store) (k : key) : string :=
  match recs s !! k with Some r => transaction_hash (rc_tx r) | None => EmptyString end.

(** The body of the loop of [enrich_records]. *)
Definition enrich_shard (s : store) (su : Z * string) : result store :=
  match to_enrich su.1 s with
  | [] => Ok s
  | ks =>
      results ← rpc_batch su.2 "hmyv2_getTransactionByHash" ((λ k, [JStr (hash_at s k)]) <$> ks) 50;
      foldM (merge_answer su.1) s (zip ks results)
  end.

Definition enrich_records (urls : list (Z * string)) (s : store) : result store := foldM enrich_shard s urls.

(** What the loops over the histories share: a transaction in scope is merged into its record,
    which gets a role and an incident, and its key is to be traced. *)
Definition add_transaction (role incident : string) (sk : store * gset key) (transaction : json) : result (store * gset key) :=
  t ← normalize_transaction transaction 0;
  let k := record_key 0 (transaction_hash t) in
  let s := get_record sk.1 0 (transaction_hash t) (block_number t) in
  Ok (update k (with_labels (add_labels {[role]} {[incident]} ∅) ∘ merge_transaction t) s, {[(0, transaction_hash t)]} ∪ sk.2).

Definition root_step (incident : string) (config : incident_config) (sk : store * gset key) (transaction : json) :
    result (store * gset key) :=
  block ← jget_int "blockNumber" transaction;
  if block <=? c_root_cutoff config then Ok sk else add_transaction "root-post-mint" incident sk transaction.

Definition contract_step (incident : string) (config : incident_config) (sk : store * gset key) (transaction : json) :
    result (store * gset key) :=
  block ← jget_int "blockNumber" transaction;
  if (c_drain_start config <=? block) && (block <=? c_drain_end config)
  then add_transaction "initial-distribution-call" incident sk transaction else Ok sk.

(** The body of the loop of [add_history_scopes]. *)
Definition scope_step (url : string) (sk : store * gset key) (ic : string * incident_config) : result (store * gset key) :=
  root_history ← transaction_history url (c_root ic.2) "SENT";
  sk ← foldM (root_step ic.1 ic.2) sk root_history;
  contract_history ← transaction_history url (c_contract ic.2) "RECEIVED";
  foldM (contract_step ic.1 ic.2) sk contract_history.

Definition add_history_scopes (url : string) (s : store) : result (store * gset key) := foldM (scope_step url) (s, ∅) INCIDENTS.

Definition kucoin_step (sk : store * gset key) (transaction : json) : result (store * gset key) :=
  raise_when (match transaction with JNull => true | _ => false end) (RuntimeError "missing KuCoin path transaction");;
  add_transaction "confirmed-kucoin-path" "may-2025" sk transaction.

(** [add_kucoin_path], with the keys to trace in hand. *)
Definition add_kucoin_path (url : string) (sk : store * gset key) : result (store * gset key) :=
  results ← rpc_batch url "hmyv2_getTransactionByHash" ((λ h, [JStr h]) <$> KUCOIN_PATH_HASHES) 50;
  foldM kucoin_step sk results.
End node.

(** ** The store *)
Record store_ok (s : store) : Prop := {
  so_order : NoDup (order s);
  so_dom : dom (recs s) = list_to_set (order s);
}.

(** [f] summed over the records. *)
Definition total (f : record → Z) (s : store) : Z := msum (f <$> recs s).

Lemma no_records_ok : store_ok no_records.
Proof. split; [constructor|done]. Qed.

Lemma values_total f s : store_ok s → sum_by f (values s) = total f s.
Proof.
  intros [Hnd Hd]. unfold total. rewrite (msum_keys _ (order s)); [|done|by rewrite dom_fmap_L].
  unfold values. assert (Hin : ∀ k, k ∈ order s → is_Some (recs s !! k)).
  { intros k Hk. apply elem_of_dom. rewrite Hd. by apply elem_of_list_to_set. }
  clear Hnd Hd. induction (order s) as [|k l IH]; [done|]. rewrite sum_by_cons, <-IH by (intros; apply Hin; by right). cbn [omap list_omap].
  unfold mget. rewrite lookup_fmap. destruct (Hin k) as [r Hr]; [by left|]. rewrite Hr. by rewrite sum_by_cons.
Qed.

Lemma get_record_lookup s shard h b k :
  recs (get_record s shard h b) !! k =
  if decide (k = record_key shard h) then Some (default (blank_record shard h b) (recs s !! k)) else recs s !! k.
Proof.
  unfold get_record. destruct (recs s !! record_key shard h) as [r|] eqn:E; simpl.
  - case_decide as Hk; [by rewrite Hk, E|done].
  - case_decide as Hk; [subst; by rewrite lookup_insert_eq, E|by rewrite lookup_insert_ne].
Qed.

Lemma get_record_ok s shard h b : store_ok s → store_ok (get_record s shard h b).
Proof.
  intros [Hnd Hd]. unfold get_record. destruct (recs s !! record_key shard h) as [r|] eqn:E; [done|]. split; simpl.
  - apply NoDup_snoc; [done|]. intros Hk. apply not_elem_of_dom in E. apply E. rewrite Hd. by apply elem_of_list_to_set.
  - rewrite dom_insert_L, Hd, list_to_set_app_L. set_solver.
Qed.

Lemma update_ok k f s : store_ok s → store_ok (update k f s).
Proof. intros [Hnd Hd]. split; simpl; [done|by rewrite dom_alter_L]. Qed.

Lemma update_lookup k f s k' : recs (update k f s) !! k' = if decide (k' = k) then f <$> recs s !! k' else recs s !! k'.
Proof. unfold update. simpl. case_decide as Hk; [subst; apply lookup_alter_eq|by apply lookup_alter_ne]. Qed.

Lemma total_get_record f s shard h b :
  f (blank_record shard h b) = 0 → total f (get_record s shard h b) = total f s.
Proof.
  intros Hb. unfold get_record, total. destruct (recs s !! record_key shard h) as [r|] eqn:E; simpl; [done|].
  rewrite fmap_insert, msum_insert_None by (by rewrite lookup_fmap, E). lia.
Qed.

Lemma total_update f k g s r : recs s !! k = Some r → total f (update k g s) = total f s + (f (g r) - f r).
Proof.
  intros Hr. unfold total, update. simpl.
  assert (alter g k (recs s) = <[k := g r]> (recs s)) as ->.
  { apply map_eq. intros k'. destruct (decide (k' = k)) as [->|Hne].
    - by rewrite lookup_alter_eq, lookup_insert_eq, Hr.
    - by rewrite lookup_alter_ne, lookup_insert_ne by done. }
  rewrite fmap_insert, msum_insert. unfold mget. rewrite lookup_fmap, Hr. simpl. lia.
Qed.

Lemma total_update_same f k g s : (∀ r, f (g r) = f r) → total f (update k g s) = total f s.
Proof.
  intros Hg. destruct (recs s !! k) as [r|] eqn:E.
  - rewrite (total_update _ _ _ _ r E), Hg. lia.
  - unfold total, update. simpl. f_equal. apply map_eq. intros k'. rewrite !lookup_fmap. destruct (decide (k' = k)) as [->|Hne].
    + by rewrite lookup_alter_eq, E.
    + by rewrite lookup_alter_ne.
Qed.

(** ** What every operation after the source audits keeps *)

(** The records that are there stay there, with their receipts; a new one has none. *)
Record extends (s s' : store) : Prop := {
  ex_ok : store_ok s → store_ok s';
  ex_dom : ∀ k, is_Some (recs s !! k) → is_Some (recs s' !! k);
  ex_receipts : ∀ g, g (Receipts 0 0 0 0) = 0 → total (g ∘ rc_receipts) s' = total (g ∘ rc_receipts) s;
  ex_trace : (∀ k r, recs s !! k = Some r → rc_trace r = no_trace) → ∀ k r, recs s' !! k = Some r → rc_trace r = no_trace;
}.

#[export] Instance extends_preorder : PreOrder extends.
Proof.
  split.
  - intros s. by split.
  - intros s1 s2 s3 [H1 H2 H3 H4] [K1 K2 K3 K4]. split.
    + intros H. by apply K1, H1.
    + intros k H. by apply K2, H2.
    + intros g Hg. by rewrite K3, H3.
    + intros H. by apply K4, H4.
Qed.

Lemma extends_get_record s shard h b : extends s (get_record s shard h b).
Proof.
  split; [apply get_record_ok| | |].
  - intros k Hk. rewrite get_record_lookup. by case_decide.
  - intros g Hg. by apply total_get_record.
  - intros Hs k r. rewrite get_record_lookup. case_decide as Hk; [|apply Hs]. intros [= <-].
    destruct (recs s !! k) as [x|] eqn:E; [by eapply Hs|done].
Qed.

Lemma extends_update k f s : (∀ r, rc_receipts (f r) = rc_receipts r ∧ rc_trace (f r) = rc_trace r) → extends s (update k f s).
Proof.
  intros Hf. split; [apply update_ok| | |].
  - intros k' Hk. rewrite update_lookup. case_decide; [by rewrite fmap_is_Some|done].
  - intros g _. apply total_update_same. intros r. unfold compose. by rewrite (proj1 (Hf r)).
  - intros Hs k' r. rewrite update_lookup. case_decide; [|apply Hs]. intros (x & Hx & ->)%fmap_Some.
    rewrite (proj2 (Hf x)). by eapply Hs.
Qed.

Lemma foldM_extends {A B} (f : B → A → result B) (st : B → store) b l b' :
  (∀ b x b', f b x = Ok b' → extends (st b) (st b')) → foldM f b l = Ok b' → extends (st b) (st b').
Proof.
  intros Hf. revert b. induction l as [|x l IH]; intros b; [by intros [= <-]|]. cbn [foldM]. intros H.
  apply bind_Ok in H as (b1 & H1 & H). etransitivity; [by eapply Hf|by apply IH].
Qed.

Section node.
Context (transport : nat → string → json → result json).

Lemma merge_answer_extends shard s kt s' : merge_answer shard s kt = Ok s' → extends s s'.
Proof. unfold merge_answer. intros H. inv_ok H. subst s'. by apply extends_update. Qed.

Lemma enrich_extends urls s s' : enrich_records transport urls s = Ok s' → extends s s'.
Proof.
  apply (foldM_extends _ id). intros s1 su s2. unfold enrich_shard, id. destruct (to_enrich su.1 s1); [by intros [= <-]|].
  intros H. apply bind_Ok in H as (rs & _ & H). revert H. apply (foldM_extends _ id). intros ???. apply merge_answer_extends.
Qed.

Lemma normalize_hash transaction shard t : normalize_transaction transaction shard = Ok t → lower (transaction_hash t) = transaction_hash t.
Proof. unfold normalize_transaction. intros H. inv_ok H. subst t. apply lower_idem. Qed.

(** A key to be traced is that of a record of shard 0 that has this hash. *)
Definition traceable (s : store) (k : key) : Prop :=
  k.1 = 0 ∧ ∃ r, recs s !! k = Some r ∧ transaction_hash (rc_tx r) = k.2.

(** What a step of the scopes does: the store grows and the keys stay traceable. *)
Definition scope_ok (sk sk' : store * gset key) : Prop :=
  extends sk.1 sk'.1 ∧ ((∀ k, k ∈ sk.2 → traceable sk.1 k) → ∀ k, k ∈ sk'.2 → traceable sk'.1 k).

#[local] Instance scope_ok_preorder : PreOrder scope_ok.
Proof.
  split.
  - intros sk. by split.
  - intros a b c [H1 H2] [K1 K2]. split; [by etransitivity|auto].
Qed.

Lemma foldM_scope {A} (f : store * gset key → A → result (store * gset key)) sk l sk' :
  (∀ a x b, f a x = Ok b → scope_ok a b) → foldM f sk l = Ok sk' → scope_ok sk sk'.
Proof.
  intros Hf. revert sk. induction l as [|x l IH]; intros sk; [by intros [= <-]|]. cbn [foldM]. intros H.
  apply bind_Ok in H as (b1 & H1 & H). etransitivity; [by eapply Hf|by apply IH].
Qed.

Lemma merge_hash t r : transaction_hash (rc_tx (merge_transaction t r)) = transaction_hash t.
Proof. unfold merge_transaction. simpl. by case_match. Qed.

Lemma add_transaction_scope role incident sk transaction sk' :
  add_transaction role incident sk transaction = Ok sk' → scope_ok sk sk'.
Proof.
  unfold add_transaction. intros H. apply bind_Ok in H as (t & Ht & [= <-]). apply normalize_hash in Ht. split; simpl.
  - etransitivity; [apply extends_get_record|]. by apply extends_update.
  - intros Hk k [->%elem_of_singleton|Hin]%elem_of_union.
    + split; [done|]. rewrite update_lookup, get_record_lookup. unfold record_key. rewrite Ht, !decide_True by done.
      eexists. split; [done|]. exact (merge_hash t _).
    + destruct (Hk k Hin) as (H0 & r & Hr & Hh). split; [done|]. rewrite update_lookup, get_record_lookup. unfold record_key. rewrite Ht.
      destruct (decide (k = (0, transaction_hash t))) as [->|Hne]; [|by exists r].
      rewrite Hr. eexists. split; [done|]. exact (merge_hash t _).
Qed.

Lemma add_history_scope url s sk : add_history_scopes transport url s = Ok sk → scope_ok (s, ∅) sk.
Proof.
  apply foldM_scope. intros a ic b. unfold scope_step. intros H. apply bind_Ok in H as (h1 & _ & H).
  apply bind_Ok in H as (m & H1 & H). apply bind_Ok in H as (h2 & _ & H2).
  transitivity m; [revert H1|revert H2]; apply foldM_scope; intros x tr y.
  - unfold root_step. intros H. apply bind_Ok in H as (n & _ & H). case_match; [by injection H as <-|by eapply add_transaction_scope].
  - unfold contract_step. intros H. apply bind_Ok in H as (n & _ & H). case_match; [by eapply add_transaction_scope|by injection H as <-].
Qed.

Lemma add_kucoin_scope url sk sk' : add_kucoin_path transport url sk = Ok sk' → scope_ok sk sk'.
Proof.
  unfold add_kucoin_path. intros H. apply bind_Ok in H as (rs & _ & H). revert H. apply foldM_scope. intros a x b. unfold kucoin_step.
  intros H. apply bind_Ok in H as (u & _ & H). by eapply add_transaction_scope.
Qed.
End node.

(** ** The receipts of the source audits *)
Definition audit_amount (r : row) : Z := get 0 (cell_int r "amount_atto").

Lemma source_step_Ok shard s r s' :
  source_step shard s r = Ok s' →
  (store_ok s → store_ok s') ∧
  (∀ k x, recs s' !! k = Some x → rc_trace x = no_trace ∨ ∃ y, recs s !! k = Some y ∧ rc_trace x = rc_trace y) ∧
  total (receipt_count ∘ rc_receipts) s' = total (receipt_count ∘ rc_receipts) s + 1 ∧
  total (receipt_amount ∘ rc_receipts) s' = total (receipt_amount ∘ rc_receipts) s + audit_amount r.
Proof.
  unfold source_step. intros H. inv_ok H. subst s'. unfold audit_amount. rewrite E3. cbn [get].
  set (k := record_key shard (lower (lower v))). set (s1 := get_record s shard (lower v) v0).
  assert (Hk : ∃ x, recs s1 !! record_key shard (lower v) = Some x).
  { unfold s1. rewrite get_record_lookup, decide_True by done. eauto. }
  destruct Hk as [x Hx]. assert (Hg : ∀ f, f (blank_record shard (lower v) v0) = 0 → total f s1 = total f s) by (intros f Hf; by apply total_get_record).
  split_and!.
  - intros Hok. by apply update_ok, get_record_ok.
  - intros k' y. rewrite update_lookup. assert (Hold : ∀ z, recs s1 !! k' = Some z → rc_trace z = no_trace ∨ ∃ y, recs s !! k' = Some y ∧ rc_trace z = rc_trace y).
    { intros z. unfold s1. rewrite get_record_lookup. case_decide; [|eauto]. intros [= <-]. destruct (recs s !! k') as [q|]; [eauto|by left]. }
    case_decide; [|apply Hold]. intros (z & Hz & ->)%fmap_Some. by apply Hold in Hz.
  - rewrite (total_update _ _ _ _ x) by done. rewrite Hg by done. unfold compose, add_receipt. simpl. lia.
  - rewrite (total_update _ _ _ _ x) by done. rewrite Hg by done. unfold compose, add_receipt. simpl. lia.
Qed.

Record audited_rows (rows : list row) (s s' : store) : Prop := {
  ar_ok : store_ok s → store_ok s';
  ar_trace : (∀ k x, recs s !! k = Some x → rc_trace x = no_trace) → ∀ k x, recs s' !! k = Some x → rc_trace x = no_trace;
  ar_count : total (receipt_count ∘ rc_receipts) s' = total (receipt_count ∘ rc_receipts) s + Z.of_nat (length rows);
  ar_amount : total (receipt_amount ∘ rc_receipts) s' = total (receipt_amount ∘ rc_receipts) s + sum_by audit_amount rows;
}.

Lemma source_rows shard s rows s' : foldM (source_step shard) s rows = Ok s' → audited_rows rows s s'.
Proof.
  apply (foldM_ind _ (λ l, audited_rows l s)).
  - split; [done|done|simpl; lia|rewrite sum_by_nil; lia].
  - intros pre r s1 s2 [H1 H2 H3 H4] _ (K1 & K2 & K3 & K4)%source_step_Ok. split; [auto| | |].
    + intros Hs k x Hx. destruct (K2 k x Hx) as [?|(y & Hy & ->)]; [done|by eapply H2].
    + rewrite K3, H3, length_app. simpl. lia.
    + rewrite K4, H4, sum_by_snoc. lia.
Qed.

(** ** Requests *)
Section requests.
Context (transport : nat → string → json → result json) (url : string).

(** What a batch returns is what the node gives for each of its calls, in their order. *)
Lemma batch_chunk_gives f method chunk values :
  gives transport url f → batch_chunk transport url method chunk = Ok values → values = f method <$> chunk.
Proof.
  intros Hf H. unfold batch_chunk, request_json in H. apply bind_Ok in H as (response & (n & _ & Hr)%retry_Ok & H).
  apply bind_Ok in H as (m & Hm & H%mapR_Ok). pose proof (Forall2_length _ _ _ H) as Hlen. rewrite length_seqZ in Hlen.
  apply list_eq_same_length with (length chunk); [by rewrite length_fmap|lia|]. intros i v x Hi Hv Hx.
  apply list_lookup_fmap_Some in Hx as (p & -> & Hp).
  assert (Hs : seqZ 0 (Z.of_nat (length chunk)) !! i = Some (Z.of_nat i)) by (apply lookup_seqZ; lia).
  destruct (Forall2_lookup_l _ _ _ _ _ H Hs) as (y & Hy & Hit). rewrite Hv in Hy. injection Hy as <-.
  apply bind_Ok in Hit as (item & Hit & Hres).
  eapply (gives_answer _ _ _ _ _ _ _ i method p item); [exact Hf|exact Hr|exact Hm| |exact Hit|exact Hres]. by rewrite list_lookup_fmap, Hp.
Qed.

Lemma rpc_batch_gives f method parameters n values :
  (0 < n)%nat → gives transport url f → rpc_batch transport url method parameters n = Ok values → values = f method <$> parameters.
Proof.
  intros Hn Hf H. unfold rpc_batch in H. apply bind_Ok in H as (k & H & [= <-]).
  apply (chunks_mapR n parameters _ (λ p v, v = f method p)) in H; [|done|].
  - symmetry. induction H as [|p v ps vs -> _ IH]; [done|]. by rewrite fmap_cons, IH.
  - intros c y ->%(batch_chunk_gives f); [|done]. by apply Forall2_fmap_r, Forall_Forall2_diag, Forall_true.
Qed.

(** A node that answers a batch with one item for each call: its number, no error, and what [f] says of the call as its
    result.  The items come in any order. *)
Definition answers (f : string → list json → json) : Prop :=
  ∀ attempt calls, ∃ items replies,
    transport attempt url (requests 0 calls) = Ok (JArr items) ∧ items ≡ₚ replies ∧ replies_to f calls replies.

Lemma batch_chunk_answers f method chunk : answers f → batch_chunk transport url method chunk = Ok (f method <$> chunk).
Proof.
  intros Hf. unfold batch_chunk, request_json.
  destruct (Hf 0%nat ((λ p, (method, p)) <$> chunk)) as (items & replies & Hr & Hp & Hi).
  destruct (replies_found f _ items replies Hp Hi) as (m & Hm & Hl). rewrite (retry_first _ _ _ _ Hr). cbn [mbind result_bind]. rewrite Hm.
  cbn [mbind result_bind]. apply mapR_Ok, Forall2_same_length_lookup_2; [rewrite length_seqZ, length_fmap; lia|]. intros i j v Hj Hv.
  apply lookup_seqZ in Hj as [-> Hlt]. apply list_lookup_fmap_Some in Hv as (p & -> & Hx). rewrite Z.add_0_l.
  destruct (Hl i method p) as (item & Hit & Hres); [by rewrite list_lookup_fmap, Hx|]. rewrite Hit. by apply jget_opt_of.
Qed.

(** C36 (equivalence): A batch against a node that answers every call, each answer with the number of its call and the answers in any
    order: the results are the node's results of the calls, in the order of the calls, whatever the size of the chunks. *)
Theorem batch_order_irrelevant f method parameters n :
  (0 < n)%nat → answers f → rpc_batch transport url method parameters n = Ok (f method <$> parameters).
Proof.
  intros Hn Hf. unfold rpc_batch.
  assert (mapR (λ c, batch_chunk transport url method c.2) (chunks n parameters) = Ok ((λ c, f method <$> c.2) <$> chunks n parameters)) as ->.
  { apply mapR_Ok, Forall2_fmap_r, Forall_Forall2_diag, Forall_true. intros c. by apply batch_chunk_answers. }
  cbn [mbind result_bind]. f_equal. rewrite <-(chunks_concat n parameters Hn) at 2. generalize (chunks n parameters) as cs.
  induction cs as [|c cs IH]; [done|]. rewrite !fmap_cons.
  transitivity ((f method <$> c.2) ++ (f method <$> mjoin (snd <$> cs))); [rewrite <-IH; reflexivity|by rewrite <-fmap_app].
Qed.

(** A node that serves the history [l] of an account in pages. *)
Definition serves (address tx_type : string) (l : list json) : Prop :=
  ∀ attempt page, 0 ≤ page →
    transport attempt url (request 1 "hmyv2_getTransactionsHistory" [history_query address tx_type page]) =
    Ok (JObj [("result", JObj [("transactions", JArr (take 1000 (drop (1000 * Z.to_nat page) l)))])]).

Lemma history_page address tx_type l page :
  serves address tx_type l → 0 ≤ page →
  (r ← rpc transport url "hmyv2_getTransactionsHistory" [history_query address tx_type page]; t ← jget "transactions" r; jiter t) =
  Ok (take 1000 (drop (1000 * Z.to_nat page) l)).
Proof.
  intros Hs Hp. unfold rpc, request_json. by rewrite (retry_first _ _ _ _ (Hs 0%nat page Hp)).
Qed.

Lemma history_from_serves address tx_type l pages page :
  serves address tx_type l → 0 ≤ page → (1000 * Z.to_nat page ≤ length l)%nat →
  history_from transport url address tx_type pages page (take (1000 * Z.to_nat page) l) =
  if (length l <? 1000 * (Z.to_nat page + pages))%nat then Ok l else Err (RuntimeError "transaction history exceeded pagination bound").
Proof.
  intros Hs. revert page. induction pages as [|pages IH]; intros page Hp Hl; cbn [history_from].
  - by rewrite (proj2 (Nat.ltb_ge _ _)) by lia.
  - pose proof (history_page address tx_type l page Hs Hp) as Hb.
    apply bind_Ok in Hb as (r & Hr & Hb). apply bind_Ok in Hb as (t & Ht & Hb). rewrite Hr. cbn [mbind result_bind]. rewrite Ht.
    cbn [mbind result_bind]. rewrite Hb. cbn [mbind result_bind]. set (n := (1000 * Z.to_nat page)%nat) in *.
    assert (Hnext : take n l ++ take 1000 (drop n l) = take (n + 1000) l) by (by rewrite take_take_drop).
    rewrite Hnext, length_take, length_drop. destruct (1000 `min` (length l - n) <? 1000)%nat eqn:Hlt; bool_facts.
    + rewrite take_ge by lia. by rewrite (proj2 (Nat.ltb_lt _ _)) by lia.
    + replace (n + 1000)%nat with (1000 * Z.to_nat (page + 1))%nat by (unfold n; lia). rewrite IH by lia.
      by replace (1000 * (Z.to_nat (page + 1) + pages))%nat with (1000 * (Z.to_nat page + S pages))%nat by lia.
Qed.

(** Reading a history page by page ends after at most 1000 pages, and returns the whole history in order when it is
    shorter than 1,000,000 transactions; a longer one is refused, none is cut short. *)
Theorem history_complete address tx_type l :
  serves address tx_type l →
  transaction_history transport url address tx_type =
  if Z.of_nat (length l) <? 1000000 then Ok l else Err (RuntimeError "transaction history exceeded pagination bound").
Proof.
  intros Hs. unfold transaction_history. pose proof (history_from_serves address tx_type l 1000 0 Hs) as H. rewrite Z2Nat.inj_0, Nat.mul_0_r, Nat.add_0_l in H.
  rewrite take_0 in H. rewrite H by lia. clear. destruct (_ <? _)%nat eqn:E; bool_facts.
  - by rewrite (proj2 (Z.ltb_lt _ _)) by lia.
  - by rewrite (proj2 (Z.ltb_ge _ _)) by lia.
Qed.
End requests.

(** ** Witnesses *)

(** A node that answers with the call itself, the last call first. *)
Definition ex_reply (payload : json) : json :=
  match payload with
  | JObj [_; (_, id); (_, method); (_, JArr params)] => JObj [("id", id); ("result", JArr (method :: params))]
  | _ => JNull
  end.

Definition ex_echo (attempt : nat) (url : string) (payload : json) : result json :=
  match payload with JArr calls => Ok (JArr (rev (ex_reply <$> calls))) | _ => Err TypeError end.

Definition echo (method : string) (params : list json) : json := JArr (JStr method :: params).

Lemma ex_echo_answers : answers ex_echo "node" echo.
Proof.
  intros attempt calls. set (replies := imap (λ i c, JObj [("id", JInt (Z.of_nat i)); ("result", echo c.1 c.2)]) calls).
  exists (rev replies), replies. split; [|split; [by rewrite <-Permutation_rev|split]].
  - unfold ex_echo, requests. do 3 f_equal. unfold replies. apply list_eq. intros i. rewrite !list_lookup_fmap, !list_lookup_imap.
    by destruct (calls !! i).
  - apply length_imap.
  - intros i method params Hi. eexists. unfold replies. rewrite list_lookup_imap, Hi. split; [done|]. split; [done|]. split; [by exists JNull|done].
Qed.

(** The answers of the node to a chunk of two, as they come. *)
Example ex_echo_order :
  ex_echo 0 "node" (requests 0 [("m", [JInt 1]); ("m", [JInt 2])]) =
  Ok (JArr [JObj [("id", JInt 1); ("result", echo "m" [JInt 2])]; JObj [("id", JInt 0); ("result", echo "m" [JInt 1])]]).
Proof. reflexivity. Qed.

Lemma batch_order_irrelevant_witness :
  (0 < 2)%nat ∧ rpc_batch ex_echo "node" "m" [[JInt 1]; [JInt 2]; [JInt 3]] 2 = Ok (echo "m" <$> [[JInt 1]; [JInt 2]; [JInt 3]]).
Proof. split; [lia|]. apply (batch_order_irrelevant ex_echo "node" echo "m" _ 2); [lia|exact ex_echo_answers]. Defined.

(** A node that has two transactions of every account. *)
Definition ex_pages (attempt : nat) (url : string) (payload : json) : result json :=
  params ← jget "params" payload;
  match params with
  | JArr [q] =>
      page ← jget_int "pageIndex" q;
      Ok (JObj [("result", JObj [("transactions", JArr (take 1000 (drop (1000 * Z.to_nat page) [JInt 7; JInt 8])))])])
  | _ => Err TypeError
  end.

Lemma history_complete_witness : transaction_history ex_pages "node" "one1" "SENT" = Ok [JInt 7; JInt 8].
Proof. apply (history_complete ex_pages "node" "one1" "SENT" [JInt 7; JInt 8]). by intros attempt page _. Defined.
