(* ===== verification/FlowTrace.v ===== *)
(** * The call traces of the flow export

    toolkit/scripts/forensics/historical-exploit-flow-export.py, second part: [trace_transactions]
    walks the call tree of each transaction in scope and exports every call that carries value;
    [add_receipt_statuses] completes the status of the traced records.

    The inner function [walk] is recursive; it is proved equal to one pass over the list of the calls in the
    order of the walk, each with the calls above it ([walk_preorder]), so that a call's transfer is
    effective exactly when neither it nor a call above it failed. *)
From S2P Require Import Prelude PyStr PyData Base16 Batch FlowRecords.

Record edge := Edge {
  e_incident : string;
  e_shard : Z;
  e_block : Z;
  e_hash : string;
  e_index : Z;
  e_depth : Z;
  e_type : json;
  e_from : string;
  e_to : string;
  e_value : Z;
  e_effective : bool;
  e_error : json;
}.

(** [";".join(sorted(s))] *)
Definition joined (s : gset string) : string := join ";" (sort_by str_leb (elements s)).

(** The part of a record's state that the walk changes, with the edges and their counter. *)
Record walk_state := WalkState { ws_index : Z; ws_trace : trace_counts; ws_edges : list edge }.

(** [int(value_raw, 16) if isinstance(value_raw, str) else int(value_raw or 0)] *)
Definition call_value (node : json) : result Z :=
  v ← jget_default "value" (JStr "0x0") node;
  match v with
  | JStr _ => jint16 v
  | _ => if truthy v then jint v else Ok 0
  end.

Definition has_error (node : json) : result bool := e ← jget_opt "error" node; Ok (truthy e).

(** What the calls counters become at a call with no value, and at one with value. *)
Definition count_node (error : bool) (t : trace_counts) : trace_counts :=
  TraceCounts (root_error t) (call_count t + 1) (failed_call_count t + Z.b2z error) (positive_edge_count t) (effective_edge_count t)
    (effective_atto t) (selfdestruct_edge_count t) (selfdestruct_atto t).

Definition count_edge (e : edge) (t : trace_counts) : trace_counts :=
  let effective := Z.b2z (e_effective e) in
  let selfdestruct := Z.b2z (e_effective e && jeq_str (e_type e) "SELFDESTRUCT") in
  TraceCounts (root_error t) (call_count t) (failed_call_count t) (positive_edge_count t + 1) (effective_edge_count t + effective)
    (effective_atto t + effective * e_value e) (selfdestruct_edge_count t + selfdestruct)
    (selfdestruct_atto t + selfdestruct * e_value e).

Definition edge_of (r : record) (index depth : Z) (failed : bool) (value : Z) (node : json) : result edge :=
  call_type ← jget_default "type" (JStr EmptyString) node;
  f ← jget_default "from" (JStr EmptyString) node; f ← jstr f;
  d ← jget_default "to" (JStr EmptyString) node; d ← jstr d;
  error ← jget_default "error" (JStr EmptyString) node;
  Ok (Edge (joined (incidents (rc_labels r))) (shard_id (rc_tx r)) (block_number (rc_tx r)) (transaction_hash (rc_tx r)) index depth
        call_type (lower f) (lower d) value (negb failed) error).

(** The body of [walk] for the call itself. *)
Definition visit_node (r : record) (failed_ancestor : bool) (depth : Z) (st : walk_state) (node : json) : result walk_state :=
  let index := ws_index st + 1 in
  error ← has_error node;
  let t := count_node error (ws_trace st) in
  value ← call_value node;
  if 0 <? value then
    e ← edge_of r index depth (failed_ancestor || error) value node;
    Ok (WalkState index (count_edge e t) (ws_edges st ++ [e]))
  else Ok (WalkState index t (ws_edges st)).

Definition calls_of (node : json) : result (list json) := v ← jget_default "calls" (JArr []) node; jiter v.

(** [walk(node, failed_ancestor, depth)] *)
Fixpoint walk (fuel : nat) (r : record) (failed_ancestor : bool) (depth : Z) (st : walk_state) (node : json) : result walk_state :=
  match fuel with
  | O => Err OutOfFuel
  | S fuel =>
      st ← visit_node r failed_ancestor depth st node;
      error ← has_error node;
      calls ← calls_of node;
      foldM (walk fuel r (failed_ancestor || error) (depth + 1)) st calls
  end.

Definition walk_fuel (trace : json) : nat := S (PyData.depth trace).

Section node.
Context (transport : nat → string → json → result json).

Definition set_root_error (v : json) (t : trace_counts) : trace_counts :=
  TraceCounts v (call_count t) (failed_call_count t) (positive_edge_count t) (effective_edge_count t)
    (effective_atto t) (selfdestruct_edge_count t) (selfdestruct_atto t).

Definition tracer : json := JObj [("tracer", JStr "callTracer"); ("timeout", JStr "120s")].

(** The body of the loop of [trace_transactions]. *)
Definition trace_step (url : string) (se : store * list edge) (k : key) : result (store * list edge) :=
  r ← of_option (recs se.1 !! k) (KeyError "record");
  trace ← rpc transport url "debug_traceTransaction" [JStr (transaction_hash (rc_tx r)); tracer];
  root ← jget_default "error" (JStr EmptyString) trace;
  st ← walk (walk_fuel trace) r false 0 (WalkState 0 (set_root_error root (rc_trace r)) se.2) trace;
  Ok (update k (λ x, Record (rc_tx x) (add_labels ∅ ∅ {["callTracer"]} (rc_labels x)) (rc_receipts x) (ws_trace st)) se.1, ws_edges st).

(** The sort key [(block_number, transaction_index, key[1])]. *)
Definition trace_leb (x y : Z * Z * string) : bool :=
  if x.1.1 <? y.1.1 then true else if y.1.1 <? x.1.1 then false
  else if x.1.2 <? y.1.2 then true else if y.1.2 <? x.1.2 then false
  else str_leb x.2 y.2.

Definition sort_key (s : store) (k : key) : result (Z * Z * string) :=
  r ← of_option (recs s !! k) (KeyError "record");
  Ok (block_number (rc_tx r), transaction_index (rc_tx r), k.2).

Definition ordered (s : store) (ks : list key) : result (list key) :=
  l ← mapR (λ k, x ← sort_key s k; Ok (x, k)) ks;
  Ok (snd <$> sort_by (λ a b, trace_leb a.1 b.1) l).

Definition trace_transactions (url : string) (s : store) (trace_keys : gset key) : result (store * list edge) :=
  ks ← ordered s (elements trace_keys);
  foldM (trace_step url) (s, []) ks.

(** ** The statuses *)
Definition candidate (r : record) : bool :=
  bool_decide ("callTracer" ∈ trace_methods (rc_labels r)) && bool_decide (status (rc_tx r) = EmptyString).

Definition candidates (s : store) : list key := filter (λ k, candidate <$> recs s !! k = Some true) (order s).

Definition status_step (s : store) (kr : key * json) : result store :=
  match kr.2 with
  | JNull => Ok s
  | receipt =>
      v ← jget_default "status" (JStr EmptyString) receipt;
      Ok (update kr.1 (λ x, Record (with_status (rc_tx x) (py_str v)) (rc_labels x) (rc_receipts x) (rc_trace x)) s)
  end.

Definition add_receipt_statuses (url : string) (s : store) : result store :=
  results ← rpc_batch transport url "hmyv2_getTransactionReceipt" ((λ k, [JStr (hash_at s k)]) <$> candidates s) 50;
  foldM status_step s (zip (candidates s) results).
End node.

(** ** The calls in the order of the walk *)
Definition children (node : json) : list json := get [] (calls_of node).
Definition failed (node : json) : bool := get false (has_error node).

(** Every call with the calls above it, the root first. *)
Fixpoint preorder (fuel : nat) (above : list json) (node : json) : list (list json * json) :=
  match fuel with
  | O => []
  | S fuel => (above, node) :: mjoin (preorder fuel (above ++ [node]) <$> children node)
  end.

(** The same calls without an order: a call with the calls above it. *)
Inductive call_path (root : json) : list json → json → Prop :=
  | path_root : call_path root [] root
  | path_call above node call :
      call_path root above node → call ∈ children node → call_path root (above ++ [node]) call.

Definition visit_path (r : record) (st : walk_state) (an : list json * json) : result walk_state :=
  visit_node r (existsb failed an.1) (Z.of_nat (length an.1)) st an.2.

Lemma failed_snoc above node e : has_error node = Ok e → existsb failed (above ++ [node]) = existsb failed above || e.
Proof. intros H. rewrite existsb_app. simpl. unfold failed at 2. rewrite H. by rewrite orb_false_r. Qed.

(** The walk is one pass over the calls. *)
Lemma walk_preorder fuel r above st node st' :
  walk fuel r (existsb failed above) (Z.of_nat (length above)) st node = Ok st' →
  foldM (visit_path r) st (preorder fuel above node) = Ok st'.
Proof.
  revert above st node st'. induction fuel as [|fuel IH]; intros above st node st' H; [done|]. cbn [walk] in H.
  apply bind_Ok in H as (st1 & H1 & H). apply bind_Ok in H as (e & He & H). apply bind_Ok in H as (cs & Hc & H).
  cbn [preorder foldM]. change (visit_path r st (above, node)) with (visit_node r (existsb failed above) (Z.of_nat (length above)) st node).
  rewrite H1. cbn [mbind result_bind].
  unfold children. rewrite Hc. cbn [get]. rewrite foldM_concat, foldM_fmap. eapply foldM_weaken; [|exact H].
  intros s x s' _ Hw. apply IH. rewrite (failed_snoc _ _ _ He), length_app. simpl length. by rewrite Nat2Z.inj_add.
Qed.

(** ** What the walk reports *)
Definition is_effective (an : list json * json) : bool := negb (existsb failed (an.1 ++ [an.2])).

(** The edge of the call at position [i]. *)
Definition edge_at (r : record) (i : Z) (an : list json * json) : list edge :=
  match call_value an.2 with
  | Ok v => if 0 <? v then match edge_of r i (Z.of_nat (length an.1)) (negb (is_effective an)) v an.2 with Ok e => [e] | Err _ => [] end
            else []
  | Err _ => []
  end.

Definition edges_at (r : record) (start : Z) (l : list (list json * json)) : list edge :=
  mjoin (imap (λ i an, edge_at r (start + Z.of_nat i + 1) an) l).

Definition selfdestructs (e : edge) : bool := e_effective e && jeq_str (e_type e) "SELFDESTRUCT".
Definition value_if (c : edge → bool) (e : edge) : Z := Z.b2z (c e) * e_value e.

Definition counted (t : trace_counts) (l : list (list json * json)) (es : list edge) : trace_counts :=
  TraceCounts (root_error t) (call_count t + Z.of_nat (length l)) (failed_call_count t + sum_by (λ an, Z.b2z (failed an.2)) l)
    (positive_edge_count t + Z.of_nat (length es)) (effective_edge_count t + sum_by (Z.b2z ∘ e_effective) es)
    (effective_atto t + sum_by (value_if e_effective) es) (selfdestruct_edge_count t + sum_by (Z.b2z ∘ selfdestructs) es)
    (selfdestruct_atto t + sum_by (value_if selfdestructs) es).

Lemma counted_nil t : counted t [] [] = t.
Proof. destruct t. unfold counted. rewrite !sum_by_nil. simpl. by rewrite !Z.add_0_r. Qed.

Lemma visit_path_Ok r st an st' :
  visit_path r st an = Ok st' →
  ws_index st' = ws_index st + 1 ∧ ws_edges st' = ws_edges st ++ edge_at r (ws_index st + 1) an ∧
  ws_trace st' = counted (ws_trace st) [an] (edge_at r (ws_index st + 1) an) ∧
  ∃ v, call_value an.2 = Ok v ∧ (0 < v → is_ok (edge_of r (ws_index st + 1) (Z.of_nat (length an.1)) (negb (is_effective an)) v an.2) = true) ∧
       is_ok (has_error an.2) = true.
Proof.
  unfold visit_path, visit_node. cbv zeta. intros H. apply bind_Ok in H as (e & He & H). apply bind_Ok in H as (v & Hv & H).
  assert (Hf : existsb failed an.1 || e = negb (is_effective an)).
  { unfold is_effective. by rewrite negb_involutive, (failed_snoc _ _ e). }
  rewrite Hf in H. assert (Hfe : failed an.2 = e) by (unfold failed; by rewrite He).
  unfold edge_at. rewrite Hv. destruct (0 <? v) eqn:Hpos.
  - apply bind_Ok in H as (x & Hx & [= <-]). cbn [ws_index ws_edges ws_trace]. rewrite Hx. split_and!; [done..| |].
    + unfold counted, count_edge, count_node. rewrite !sum_by_cons, !sum_by_nil, Hfe. simpl. unfold value_if, selfdestructs.
      f_equal; lia.
    + exists v. rewrite He, Hx. done.
  - injection H as <-. cbn [ws_index ws_edges ws_trace]. rewrite app_nil_r. split_and!; [done..| |].
    + unfold counted, count_node. rewrite !sum_by_cons, !sum_by_nil, Hfe. simpl. f_equal; lia.
    + exists v. rewrite He. split; [done|]. split; [bool_facts; lia|done].
Qed.

Lemma counted_app t l1 l2 e1 e2 : counted (counted t l1 e1) l2 e2 = counted t (l1 ++ l2) (e1 ++ e2).
Proof. unfold counted. cbn. rewrite !sum_by_app, !length_app. f_equal; lia. Qed.

Lemma edges_at_cons r start an l : edges_at r start (an :: l) = edge_at r (start + 1) an ++ edges_at r (start + 1) l.
Proof.
  unfold edges_at. cbn [imap mjoin list_join]. rewrite Z.add_0_r. f_equal. f_equal. apply imap_ext. intros i x _. cbn.
  f_equal. lia.
Qed.

Lemma visits_Ok r l st st' :
  foldM (visit_path r) st l = Ok st' →
  ws_edges st' = ws_edges st ++ edges_at r (ws_index st) l ∧ ws_trace st' = counted (ws_trace st) l (edges_at r (ws_index st) l).
Proof.
  revert st. induction l as [|an l IH]; intros st.
  - intros [= <-]. cbn. by rewrite app_nil_r, counted_nil.
  - cbn [foldM]. intros H. apply bind_Ok in H as (s1 & (Hi & He & Ht & _)%visit_path_Ok & H). apply IH in H as [-> ->].
    rewrite Hi, He, Ht, edges_at_cons, counted_app, <-app_assoc. done.
Qed.

(** ** Every call is visited *)
Lemma children_depth node call : call ∈ children node → (PyData.depth call < PyData.depth node)%nat.
Proof.
  unfold children. destruct (calls_of node) as [cs|] eqn:E; [|by intros ?%not_elem_of_nil]. cbn [get]. intros Hc.
  unfold calls_of in E. apply bind_Ok in E as (v & Hv & E). destruct node as [| | | | |m]; try done. injection Hv as Hv.
  destruct (assoc "calls" m) as [x|] eqn:Ea; simpl in Hv; subst v.
  - apply assoc_depth in Ea. destruct (jiter_depth _ _ _ E Hc); lia.
  - injection E as <-. by apply not_elem_of_nil in Hc.
Qed.

Lemma preorder_root fuel above node : (0 < fuel)%nat → (above, node) ∈ preorder fuel above node.
Proof. destruct fuel; [lia|]. intros _. cbn [preorder]. by left. Qed.

Lemma preorder_child fuel above root a n call :
  (PyData.depth root < fuel)%nat → (a, n) ∈ preorder fuel above root → call ∈ children n → (a ++ [n], call) ∈ preorder fuel above root.
Proof.
  revert above root. induction fuel as [|fuel IH]; intros above root Hf; [lia|]. cbn [preorder]. intros [[= -> ->]|H]%elem_of_cons Hc.
  - right. apply list_elem_of_join. exists (preorder fuel (above ++ [root]) call). split; [|by apply list_elem_of_fmap_2].
    apply preorder_root. apply children_depth in Hc. lia.
  - right. apply list_elem_of_join in H as (l & Hl & Hin). apply list_elem_of_join. exists l. split; [|done].
    apply list_elem_of_fmap in Hin as (x & -> & Hx). apply IH; [|done..]. apply children_depth in Hx. lia.
Qed.

Lemma preorder_paths fuel root above node an :
  call_path root above node → an ∈ preorder fuel above node → call_path root an.1 an.2.
Proof.
  revert above node. induction fuel as [|fuel IH]; intros above node Hp; [by intros ?%not_elem_of_nil|]. cbn [preorder].
  intros [->|H]%elem_of_cons; [done|]. apply list_elem_of_join in H as (l & Hl & Hin).
  apply list_elem_of_fmap in Hin as (x & -> & Hx). eapply IH; [|exact Hl]. by constructor.
Qed.

(** The list of the walk holds each call of the trace. *)
Lemma preorder_spec root above node : (above, node) ∈ preorder (walk_fuel root) [] root ↔ call_path root above node.
Proof.
  split; [intros H; by apply (preorder_paths _ root [] root (above, node)) in H; [|constructor]|].
  induction 1 as [|above node call _ IH Hc]; [apply preorder_root; unfold walk_fuel; lia|].
  apply preorder_child; [unfold walk_fuel; lia|done..].
Qed.

Lemma edge_of_Ok r i d f v node e :
  edge_of r i d f v node = Ok e →
  e_index e = i ∧ e_depth e = d ∧ e_effective e = negb f ∧ e_value e = v ∧ e_hash e = transaction_hash (rc_tx r) ∧
  e_incident e = joined (incidents (rc_labels r)).
Proof. unfold edge_of. intros H. inv_ok H. by subst e. Qed.

Lemma edge_at_spec r i an e :
  e ∈ edge_at r i an ↔ ∃ v, call_value an.2 = Ok v ∧ 0 < v ∧ edge_of r i (Z.of_nat (length an.1)) (negb (is_effective an)) v an.2 = Ok e.
Proof.
  unfold edge_at. destruct (call_value an.2) as [v|x]; [|split; [by intros ?%not_elem_of_nil|by intros (? & ? & _)]].
  destruct (0 <? v) eqn:Hpos; bool_facts.
  - destruct (edge_of _ _ _ _ _ _) as [e'|x] eqn:Ee.
    + rewrite list_elem_of_singleton. split; [intros ->; exists v; by rewrite Ee|]. intros (v' & [= <-] & _ & H). congruence.
    + split; [by intros ?%not_elem_of_nil|]. intros (v' & [= <-] & _ & H). congruence.
  - split; [by intros ?%not_elem_of_nil|]. intros (v' & [= <-] & ? & _). lia.
Qed.

Lemma edges_at_elem r start l e : e ∈ edges_at r start l ↔ ∃ i an, l !! i = Some an ∧ e ∈ edge_at r (start + Z.of_nat i + 1) an.
Proof.
  unfold edges_at. rewrite list_elem_of_join. split.
  - intros (k & He & Hk). apply list_elem_of_lookup in Hk as [i Hi]. rewrite list_lookup_imap in Hi.
    destruct (l !! i) as [an|] eqn:E; [|done]. injection Hi as <-. by exists i, an.
  - intros (i & an & Hi & He). exists (edge_at r (start + Z.of_nat i + 1) an). split; [done|].
    apply list_elem_of_lookup. exists i. by rewrite list_lookup_imap, Hi.
Qed.

(** All calls below a call that the walk went through could be read. *)
Lemma visits_read r l st st' :
  foldM (visit_path r) st l = Ok st' → ∀ i an, l !! i = Some an → ∃ v, call_value an.2 = Ok v ∧
    (0 < v → is_ok (edge_of r (ws_index st + Z.of_nat i + 1) (Z.of_nat (length an.1)) (negb (is_effective an)) v an.2) = true) ∧
    is_ok (has_error an.2) = true.
Proof.
  revert st. induction l as [|x l IH]; intros st H i an Hi; [done|]. cbn [foldM] in H.
  apply bind_Ok in H as (s1 & (Hx & _ & _ & Hv)%visit_path_Ok & H). destruct i as [|i]; simpl in Hi.
  - injection Hi as ->. change (Z.of_nat 0) with 0. by rewrite Z.add_0_r.
  - destruct (IH _ H i an Hi) as (v & ? & Hok & ?). exists v. rewrite Hx in Hok. split_and!; [done| |done].
    replace (ws_index st + Z.of_nat (S i) + 1) with (ws_index st + 1 + Z.of_nat i + 1) by lia. done.
Qed.

Lemma is_effective_spec an :
  (∀ n, n ∈ an.1 ++ [an.2] → is_ok (has_error n) = true) →
  is_effective an = true ↔ Forall (λ n, has_error n = Ok false) (an.1 ++ [an.2]).
Proof.
  intros Hr. unfold is_effective. rewrite negb_true_iff. revert Hr. generalize (an.1 ++ [an.2]). intros l Hr. rewrite Forall_forall. split.
  - intros He n Hn. specialize (Hr n Hn). apply get_Ok with (d := false) in Hr. rewrite Hr. f_equal.
    destruct (get false (has_error n)) eqn:E; [|done]. exfalso.
    assert (existsb failed l = true) as Ht; [|congruence]. apply existsb_exists. exists n. by rewrite <-list_elem_of_In.
  - intros Hn. destruct (existsb failed l) eqn:E; [|done]. apply existsb_exists in E as (n & Hin & Hf).
    apply list_elem_of_In, Hn in Hin. unfold failed in Hf. by rewrite Hin in Hf.
Qed.

(** The calls above a call are calls themselves. *)
Lemma path_above root above node : call_path root above node → ∀ n, n ∈ above ++ [node] → ∃ a, call_path root a n.
Proof.
  induction 1 as [|above node call Hp IH Hc]; intros n.
  - intros ->%list_elem_of_singleton. exists []. constructor.
  - intros [H| ->%list_elem_of_singleton]%elem_of_app; [by apply IH|]. exists (above ++ [node]). by constructor.
Qed.

(** ** Termination *)
Lemma returns_visit r fa d st node : returns (visit_node r fa d st node).
Proof.
  unfold visit_node, has_error, call_value, edge_of. cbv zeta.
  assert (Hd : ∀ k x, returns (jget_default k x node)) by (intros k x; destruct node; simpl; auto with py).
  apply returns_bind; [auto with py|intros e _]. apply returns_bind.
  - apply returns_bind; [apply Hd|intros v _]. destruct v; simpl; try case_match; auto with py.
  - intros v _. case_match; [|auto with py]. apply returns_bind; [|auto with py].
    repeat (apply returns_bind; [first [apply Hd|auto with py]|intros ? _]). auto with py.
Qed.

Lemma returns_walk fuel r fa d st node : (PyData.depth node < fuel)%nat → returns (walk fuel r fa d st node).
Proof.
  revert fa d st node. induction fuel as [|fuel IH]; intros fa d st node Hf; [lia|]. cbn [walk].
  apply returns_bind; [apply returns_visit|intros s1 _]. apply returns_bind; [unfold has_error; auto with py|intros e _].
  apply returns_bind; [unfold calls_of; apply returns_bind; [destruct node; simpl; auto with py|auto with py]|intros cs Hc].
  apply returns_foldM. intros s x Hx. apply IH.
  assert (x ∈ children node) as Hin by (unfold children; by rewrite Hc). apply children_depth in Hin. lia.
Qed.

(** ** Theorem *)

(** C28 (equivalence): the recursive walk over a call trace against the set of its calls: it always ends; the calls are visited
    once each (the root first), every call that carries value is exported with its depth and its position, and
    nothing else is; a transfer is marked effective exactly when neither its call nor any call
    above it has an error; and the counters are the numbers and the sums over these edges. *)
Theorem walk_edges r trace st :
  walk (walk_fuel trace) r false 0 st trace ≠ Err OutOfFuel ∧
  ∀ st', walk (walk_fuel trace) r false 0 st trace = Ok st' →
  let l := preorder (walk_fuel trace) [] trace in
  let es := edges_at r (ws_index st) l in
  (∀ above node, (above, node) ∈ l ↔ call_path trace above node) ∧
  ws_edges st' = ws_edges st ++ es ∧ ws_trace st' = counted (ws_trace st) l es ∧
  (∀ e, e ∈ es → ∃ above node, call_path trace above node ∧ e_depth e = Z.of_nat (length above) ∧
     call_value node = Ok (e_value e) ∧ 0 < e_value e ∧
     (e_effective e = true ↔ Forall (λ n, has_error n = Ok false) (above ++ [node]))) ∧
  (∀ above node v, call_path trace above node → call_value node = Ok v → 0 < v →
     ∃ e, e ∈ es ∧ e_value e = v ∧ e_depth e = Z.of_nat (length above)).
Proof.
  split; [by apply returns_walk; unfold walk_fuel; lia|]. intros st' H.
  apply (walk_preorder _ _ []) in H. pose proof (visits_Ok _ _ _ _ H) as [He Ht]. pose proof (visits_read _ _ _ _ H) as Hr.
  cbv zeta. split_and!; [intros; apply preorder_spec|done|done| |].
  - intros e (i & [above node] & Hi & Hin)%edges_at_elem. apply edge_at_spec in Hin as (v & Hv & Hpos & Ho).
    apply edge_of_Ok in Ho as (_ & Hd & Heff & <- & _). apply list_elem_of_lookup_2 in Hi. apply preorder_spec in Hi.
    exists above, node. split_and!; [done..|]. rewrite Heff, negb_involutive. apply (is_effective_spec (above, node)).
    intros n Hn. destruct (path_above _ _ _ Hi n Hn) as (a & Hp). apply preorder_spec, list_elem_of_lookup in Hp as [j Hj].
    by destruct (Hr j (a, n) Hj) as (_ & _ & _ & ?).
  - intros above node v Hp Hv Hpos. apply preorder_spec, list_elem_of_lookup in Hp as [i Hi].
    destruct (Hr i (above, node) Hi) as (v' & Hv' & Hok & _). cbn [snd fst] in *. rewrite Hv in Hv'. injection Hv' as <-.
    specialize (Hok Hpos). destruct (edge_of _ _ _ _ _ _) as [e|] eqn:Ee; [|done]. exists e.
    pose proof (edge_of_Ok _ _ _ _ _ _ _ Ee) as (_ & ? & _ & ? & _). split_and!; [|done..].
    apply edges_at_elem. exists i, (above, node). split; [done|]. apply edge_at_spec. by exists v.
Qed.

(** ** The loop over the transactions *)

(** The edges of one transaction, and what its record counts of them. *)
Definition mine (k : key) (es : list edge) : list edge := filter (λ e, e_hash e = k.2) es.

Record counts_edges (t : trace_counts) (es : list edge) : Prop := {
  ce_positive : positive_edge_count t = Z.of_nat (length es);
  ce_effective : effective_edge_count t = sum_by (Z.b2z ∘ e_effective) es;
  ce_atto : effective_atto t = sum_by (value_if e_effective) es;
  ce_selfdestruct : selfdestruct_edge_count t = sum_by (Z.b2z ∘ selfdestructs) es;
  ce_selfdestruct_atto : selfdestruct_atto t = sum_by (value_if selfdestructs) es;
}.

Lemma counted_counts root t l es : t = counted (set_root_error root no_trace) l es → counts_edges t es.
Proof. intros ->. by split. Qed.

(** The edges that the walk exports are those of its record. *)
Lemma walk_own r trace st st' :
  walk (walk_fuel trace) r false 0 st trace = Ok st' →
  ∃ l es, ws_edges st' = ws_edges st ++ es ∧ ws_trace st' = counted (ws_trace st) l es ∧
  Forall (λ e, e_hash e = transaction_hash (rc_tx r) ∧ e_incident e = joined (incidents (rc_labels r)) ∧ 0 < e_value e) es.
Proof.
  intros H. apply (walk_preorder _ _ []) in H. destruct (visits_Ok _ _ _ _ H) as [He Ht].
  exists (preorder (walk_fuel trace) [] trace), (edges_at r (ws_index st) (preorder (walk_fuel trace) [] trace)).
  split; [done|]. split; [done|]. apply Forall_forall. intros e (i & an & _ & Hin)%edges_at_elem.
  apply edge_at_spec in Hin as (v & _ & Hpos & Ho). apply edge_of_Ok in Ho as (_ & _ & _ & <- & ? & ?). done.
Qed.

(** What tracing does not change of a record. *)
Definition untouched (r : record) : tx * gset string * gset string * receipts :=
  (rc_tx r, incidents (rc_labels r), roles (rc_labels r), rc_receipts r).

Record traced (s s' : store) (pre : list key) (es : list edge) : Prop := {
  td_order : order s' = order s;
  td_same : ∀ k, untouched <$> recs s' !! k = untouched <$> recs s !! k;
  td_done : ∀ k r, k ∈ pre → recs s' !! k = Some r → counts_edges (rc_trace r) (mine k es);
  td_todo : ∀ k r, k ∉ pre → recs s' !! k = Some r → rc_trace r = no_trace;
  td_edges : ∀ e, e ∈ es → 0 < e_value e ∧ ∃ k r, k ∈ pre ∧ recs s' !! k = Some r ∧ e_hash e = k.2 ∧
               e_incident e = joined (incidents (rc_labels r));
}.

Lemma mine_app (k : key) es fs : mine k (es ++ fs) = mine k es ++ mine k fs.
Proof. apply filter_app. Qed.

Lemma mine_none (k : key) (es : list edge) : (∀ e, e ∈ es → e_hash e ≠ k.2) → mine k es = [].
Proof.
  intros H. unfold mine. induction es as [|e es IH]; [done|]. rewrite filter_cons_False by (apply H; by left).
  apply IH. intros. apply H. by right.
Qed.

Lemma mine_all (k : key) (es : list edge) : Forall (λ e, e_hash e = k.2) es → mine k es = es.
Proof. intros H. unfold mine. induction H as [|e es He _ IH]; [done|]. rewrite filter_cons_True by done. by f_equal. Qed.

Section loop.
Context (transport : nat → string → json → result json) (url : string).

Lemma trace_step_Ok se k se' :
  trace_step transport url se k = Ok se' →
  ∃ r t es root l, recs se.1 !! k = Some r ∧ se'.2 = se.2 ++ es ∧ t = counted (set_root_error root (rc_trace r)) l es ∧
    se'.1 = update k (λ x, Record (rc_tx x) (add_labels ∅ ∅ {["callTracer"]} (rc_labels x)) (rc_receipts x) t) se.1 ∧
    Forall (λ e, e_hash e = transaction_hash (rc_tx r) ∧ e_incident e = joined (incidents (rc_labels r)) ∧ 0 < e_value e) es.
Proof.
  unfold trace_step. intros H. apply bind_Ok in H as (r & Hr%of_option_Ok & H). apply bind_Ok in H as (trace & _ & H).
  apply bind_Ok in H as (root & _ & H). apply bind_Ok in H as (st & (l & es & He & Ht & Hf)%walk_own & [= <-]).
  exists r, (ws_trace st), es, root, l. done.
Qed.

Lemma untouched_labels r l t : incidents l = incidents (rc_labels r) → roles l = roles (rc_labels r) →
  untouched (Record (rc_tx r) l (rc_receipts r) t) = untouched r.
Proof. unfold untouched. simpl. by intros -> ->. Qed.

Lemma trace_step_traced s se pre k se' :
  (∀ k', k' ∈ k :: pre → traceable s k') → k ∉ pre → traced s se.1 pre se.2 →
  trace_step transport url se k = Ok se' → traced s se'.1 (pre ++ [k]) se'.2.
Proof.
  intros Hk Hnew [Ho Hs Hd Ht He] (r & t & es & root & l & Hr & He' & Hcount & Hs' & Hf)%trace_step_Ok.
  rewrite (Ht k r Hnew Hr) in Hcount.
  assert (Hhash : ∀ k' r', k' ∈ k :: pre → recs se.1 !! k' = Some r' → transaction_hash (rc_tx r') = k'.2).
  { intros k' r' Hin Hr'. destruct (Hk k' Hin) as (_ & x & Hx & <-). specialize (Hs k'). rewrite Hr', Hx in Hs. by injection Hs as ->. }
  assert (Hown : Forall (λ e, e_hash e = k.2) es).
  { eapply Forall_impl; [exact Hf|]. intros e (-> & _ & _). apply Hhash; [by left|done]. }
  assert (Hne : ∀ k', k' ∈ pre → k'.2 ≠ k.2).
  { intros k' Hin Heq. destruct (Hk k') as [H0 _]; [by right|]. destruct (Hk k) as [H0' _]; [by left|].
    apply Hnew. destruct k, k'. simpl in *. by subst. }
  rewrite He', Hs'. split.
  - done.
  - intros k'. rewrite update_lookup. case_decide as Hk'; [|apply Hs]. rewrite <-Hs, <-option_fmap_compose.
    destruct (recs se.1 !! k') as [x|]; [|done]. simpl. f_equal. by apply untouched_labels; simpl; set_solver.
  - intros k' x Hin. rewrite update_lookup, mine_app. case_decide as Hk'.
    + subst k'. intros (y & Hy & ->)%fmap_Some. simpl. rewrite (mine_all k es) by done.
      assert (mine k se.2 = []) as ->; [|by eapply counted_counts].
      apply mine_none. intros e Hine Hh. destruct (He e Hine) as (_ & k' & _ & Hk'in & _ & Hh' & _).
      apply (Hne k' Hk'in). congruence.
    + assert (k' ∈ pre) as Hin' by set_solver. intros Hx. rewrite (mine_none k' es), app_nil_r; [by apply Hd|].
      intros e Hine Hh. apply (Hne k' Hin'). rewrite <-Hh. by apply (proj1 (Forall_forall _ _) Hown).
  - intros k' x Hin. rewrite update_lookup. rewrite decide_False by set_solver. apply Ht. set_solver.
  - intros e [Hin|Hin]%elem_of_app.
    + destruct (He e Hin) as (Hpos & k' & x & Hk' & Hx & Hh & Hi). split; [done|].
      destruct (decide (k' = k)) as [->|Hkk]; [done|]. exists k', x. rewrite update_lookup, decide_False by done. split_and!; [set_solver|done..].
    + pose proof (proj1 (Forall_forall _ _) Hf e Hin) as (Hh & Hi & Hpos). split; [done|].
      eexists k, _. rewrite update_lookup, decide_True, Hr by done. split_and!; [set_solver|done| |].
      * rewrite Hh. apply Hhash; [by left|done].
      * rewrite Hi. simpl. by rewrite union_empty_l_L.
Qed.

Lemma traced_start s : (∀ k r, recs s !! k = Some r → rc_trace r = no_trace) → traced s s [] [].
Proof. intros H. split; [done|done|by intros ?? ?%not_elem_of_nil|by intros; eapply H|by intros ? ?%not_elem_of_nil]. Qed.

Lemma trace_loop s ks se :
  (∀ k r, recs s !! k = Some r → rc_trace r = no_trace) → (∀ k, k ∈ ks → traceable s k) → NoDup ks →
  foldM (trace_step transport url) (s, []) ks = Ok se → traced s se.1 ks se.2.
Proof.
  intros Hs Hk Hnd H. enough (Hgen : ∀ l pre se0, NoDup (pre ++ l) → (∀ k, k ∈ pre ++ l → traceable s k) → traced s se0.1 pre se0.2 →
    foldM (trace_step transport url) se0 l = Ok se → traced s se.1 (pre ++ l) se.2).
  { by apply (Hgen ks [] (s, [])); [| |apply traced_start|]. }
  clear H. intros l. induction l as [|k l IH]; intros pre se0 Hn Hp Ht H; [injection H as <-; by rewrite app_nil_r|].
  cbn [foldM] in H. apply bind_Ok in H as (s1 & H1 & H). rewrite (cons_middle k pre l), app_assoc in *.
  apply (IH _ s1); [done|done| |done]. eapply trace_step_traced; [| |exact Ht|exact H1].
  - intros k' Hk'. apply Hp. set_solver.
  - intros Hin. apply NoDup_app in Hn as (Hn & _ & _). apply NoDup_app in Hn as (_ & Hn & _). apply (Hn k Hin). by left.
Qed.

Lemma ordered_Permutation s ks l : ordered s ks = Ok l → l ≡ₚ ks.
Proof.
  unfold ordered. intros H. apply bind_Ok in H as (m & Hm%mapR_Ok & [= <-]). rewrite sort_by_Permutation.
  apply reflexive_eq. induction Hm as [|k x ks m Hx _ IH]; [done|]. apply bind_Ok in Hx as (y & _ & [= <-]). rewrite fmap_cons. simpl. by f_equal.
Qed.

Lemma trace_transactions_Ok s keys se :
  (∀ k r, recs s !! k = Some r → rc_trace r = no_trace) → (∀ k, k ∈ keys → traceable s k) →
  trace_transactions transport url s keys = Ok se → ∃ ks, (∀ k, k ∈ ks ↔ k ∈ keys) ∧ traced s se.1 ks se.2.
Proof.
  intros Hs Hk H. unfold trace_transactions in H. apply bind_Ok in H as (ks & Hp%ordered_Permutation & H).
  assert (Hin : ∀ k, k ∈ ks ↔ k ∈ keys) by (intros k; by rewrite Hp, elem_of_elements).
  exists ks. split; [done|]. apply (trace_loop s ks se); [done| | |done].
  - intros k ?%Hin. by apply Hk.
  - rewrite Hp. apply NoDup_elements.
Qed.

(** The statuses change nothing else. *)
Definition same_but_status (r r' : record) : Prop :=
  rc_trace r' = rc_trace r ∧ rc_labels r' = rc_labels r ∧ rc_receipts r' = rc_receipts r ∧
  transaction_hash (rc_tx r') = transaction_hash (rc_tx r) ∧ shard_id (rc_tx r') = shard_id (rc_tx r) ∧
  block_number (rc_tx r') = block_number (rc_tx r).

Lemma statuses_Ok s s' :
  add_receipt_statuses transport url s = Ok s' → order s' = order s ∧
  ∀ k, match recs s !! k, recs s' !! k with Some r, Some r' => same_but_status r r' | None, None => True | _, _ => False end.
Proof.
  unfold add_receipt_statuses. intros H. apply bind_Ok in H as (rs & _ & H). revert H.
  apply (foldM_inv _ (λ s', order s' = order s ∧ ∀ k, match recs s !! k, recs s' !! k with
    Some r, Some r' => same_but_status r r' | None, None => True | _, _ => False end)).
  - split; [done|]. intros k. by destruct (recs s !! k).
  - intros [k v] s1 s2 [Ho Hs] _ H. unfold status_step in H. cbn [snd fst] in H.
    destruct v; [injection H as <-; done|..]; apply bind_Ok in H as (y & _ & [= <-]); split; [done| |done| |done| |done| |done|];
      intros k'; specialize (Hs k'); rewrite update_lookup; case_decide; [|done| |done| |done| |done| |done];
      destruct (recs s !! k') as [r|], (recs s1 !! k') as [r'|]; try done; simpl;
      destruct Hs as (? & ? & ? & ? & ? & ?); by split_and!.
Qed.
End loop.

(** ** Witness *)
Definition ex_call (error : list (string * json)) (value : json) (calls : list json) : json :=
  JObj ([("type", JStr "CALL"); ("from", JStr "0xA"); ("to", JStr "0xB"); ("value", value); ("calls", JArr calls)] ++ error).

(** Four calls that carry value, two of them at or below a failed call. *)
Definition ex_walk : json :=
  ex_call [] (JStr "0x5")
    [ex_call [("error", JStr "reverted")] (JInt 7) [ex_call [] (JStr "0x0") [ex_call [] (JStr "0x9") []]]; ex_call [] (JStr "0xb") []].

Definition ex_start : walk_state := WalkState 0 no_trace [].
Definition ex_walked : walk_state := get ex_start (walk (walk_fuel ex_walk) (blank_record 0 "0xT" 1) false 0 ex_start ex_walk).

Lemma ex_walk_Ok : walk (walk_fuel ex_walk) (blank_record 0 "0xT" 1) false 0 ex_start ex_walk = Ok ex_walked.
Proof. apply get_Ok. by vm_compute. Qed.

Example ex_walk_counts :
  ws_trace ex_walked = TraceCounts (JStr EmptyString) 5 1 4 2 16 0 0 ∧
  (λ e, (e_index e, e_depth e, e_value e, e_effective e)) <$> ws_edges ex_walked =
    [(1, 0, 5, true); (2, 1, 7, false); (4, 3, 9, false); (5, 1, 11, true)].
Proof. by vm_compute. Qed.

Lemma walk_edges_witness : length (preorder (walk_fuel ex_walk) [] ex_walk) = 5%nat ∧
  ws_edges ex_walked = edges_at (blank_record 0 "0xT" 1) 0 (preorder (walk_fuel ex_walk) [] ex_walk).
Proof.
  split; [by vm_compute|].
  destruct (walk_edges (blank_record 0 "0xT" 1) ex_walk ex_start) as [_ H]. destruct (H _ ex_walk_Ok) as (_ & He & _). exact He.
Defined.
