(* ===== verification/Flow.v ===== *)
(** * The flow export

    toolkit/scripts/forensics/historical-exploit-flow-export.py, third part: what the first recipients of
    an incident's distribution still hold, the tables of transactions and of internal transfers, and
    [main].

    The records and their traces are in FlowRecords.v and FlowTrace.v. *)
From S2P Require Import Prelude PyStr PyData Sha256 Files Csv Base16 Batch FlowRecords FlowTrace.

(** ** The distribution *)

(** The guard of the loop over the edges; the role is only looked up when the rest holds. *)
Definition is_distribution (incident : string) (config : incident_config) (s : store) (e : edge) : result bool :=
  if e_effective e && bool_decide (e_from e = c_contract config) && bool_decide (incident ∈ split_on ";" (e_incident e)) then
    r ← of_option (recs s !! (0, e_hash e)) (KeyError "record");
    Ok (bool_decide ("initial-distribution-call" ∈ roles (rc_labels r)))
  else Ok false.

Definition received_step (incident : string) (config : incident_config) (s : store) (m : gmap string Z) (e : edge) : result (gmap string Z) :=
  c ← is_distribution incident config s e;
  Ok (if (c : bool) then madd (e_to e) (e_value e) m else m).

(** [received] of one incident *)
Definition received_by (s : store) (edges : list edge) (ic : string * incident_config) : result (string * gmap string Z) :=
  m ← foldM (received_step ic.1 ic.2 s) ∅ edges;
  Ok (ic.1, m).

Record distribution := Distribution {
  d_recipients : Z;
  d_distributed : Z;
  d_held : Z;
  d_moved : Z;
  d_intact : Z;
  d_zero : Z;
  d_partial : Z;
  d_nonce_zero : Z;
  d_nonce_positive : Z;
}.

(** The sum of [f] over [received.items()], and the number of items for which [c] holds. *)
Definition over (f : string → Z → Z) (received : gmap string Z) : Z := sum_by (λ av, f av.1 av.2) (map_to_list received).
Definition count (c : string → Z → bool) : gmap string Z → Z := over (λ a v, Z.b2z (c a v)).

(** [summaries[incident]]; every recipient has a balance and a nonce, since the node was asked for all of them. *)
Definition summarize (balances nonces : gmap string Z) (received : gmap string Z) : distribution :=
  let held := over (λ a amount, Z.min amount (mget balances a)) received in
  let distributed := over (λ _ amount, amount) received in
  Distribution (Z.of_nat (size received)) distributed held (distributed - held)
    (count (λ a amount, amount <=? mget balances a) received)
    (count (λ a _, mget balances a =? 0) received)
    (count (λ a amount, (0 <? mget balances a) && (mget balances a <? amount)) received)
    (count (λ a amount, (mget balances a <? amount) && (mget nonces a =? 0)) received)
    (count (λ a amount, (mget balances a <? amount) && (0 <? mget nonces a)) received).

(** ** The tables *)
Definition ENTITY_NOTES : list (string * string) :=
  [("0x15e5bf28ee8516bb8b4eed5f1a85bec970dd821c", "KuCoin-linked Harmony hot/payout wallet");
   ("0x2933782b5a8d72f2754103d1489614f29bfa4625", "publicly attributed KuCoin wallet");
   ("0xd6216fc19db775df9774a6e33526131da7d19a2c", "publicly attributed KuCoin wallet")].

Definition entity_note (field address : string) : list string :=
  match assoc address ENTITY_NOTES with Some note => [field +:+ ": " +:+ note] | None => [] end.

Definition entity_notes (r : record) : string :=
  join "; " (entity_note "from" (from (rc_tx r)) ++ entity_note "to" (to (rc_tx r))).

(** [";".join(sorted(s))] of a set that may hold [None]: neither [sorted] nor [join] takes it. *)
Definition joined_opt (s : gset (option string)) : result string :=
  raise_when (bool_decide (None ∈ s)) TypeError;;
  Ok (join ";" (sort_by str_leb (default EmptyString <$> elements s))).

Definition transaction_fields : list string :=
  ["incident"; "shard_id"; "block_number"; "timestamp_unix"; "transaction_index"; "transaction_hash"; "eth_hash"; "from"; "to";
   "value_atto"; "nonce"; "status"; "input_selector"; "roles"; "trace_methods"; "trace_root_error"; "trace_call_count";
   "trace_failed_call_count"; "trace_positive_value_edge_count"; "trace_effective_value_edge_count"; "trace_effective_value_atto";
   "trace_selfdestruct_edge_count"; "trace_selfdestruct_value_atto"; "receipt_count"; "receipt_amount_atto";
   "receipt_classifications"; "receipt_directions"; "source_audit_classification_sources"; "source_audit_replay_classifications";
   "source_audit_evidence_references"; "source_audit_evidence_sha256"; "source_audit_precompile_calls";
   "source_audit_failed_precompile_paths"; "entity_notes"].

Definition transaction_record (r : record) : result (list string) :=
  let t := rc_tx r in
  let l := rc_labels r in
  let x := rc_receipts r in
  let c := rc_trace r in
  classifications ← joined_opt (receipt_classifications l);
  Ok [joined (incidents l); str_of_Z (shard_id t); str_of_Z (block_number t); str_of_Z (timestamp_unix t);
      str_of_Z (transaction_index t); transaction_hash t; eth_hash t; from t; to t; str_of_Z (value_atto t); str_of_Z (nonce t);
      status t; csv_value (input_selector t); joined (roles l); joined (trace_methods l); csv_value (root_error c);
      str_of_Z (call_count c); str_of_Z (failed_call_count c); str_of_Z (positive_edge_count c); str_of_Z (effective_edge_count c);
      str_of_Z (effective_atto c); str_of_Z (selfdestruct_edge_count c); str_of_Z (selfdestruct_atto c);
      str_of_Z (receipt_count x); str_of_Z (receipt_amount x); classifications; joined (receipt_directions l);
      joined (classification_sources l); joined (replay_classifications l); joined (evidence_references l);
      joined (evidence_sha256 l); str_of_Z (precompile_calls x); str_of_Z (failed_precompile_paths x); entity_notes r].

(** The sort key [(shard_id, block_number, transaction_index, transaction_hash)]. *)
Definition record_leb (r s : record) : bool :=
  let a := rc_tx r in
  let b := rc_tx s in
  if shard_id a <? shard_id b then true else if shard_id b <? shard_id a then false
  else if block_number a <? block_number b then true else if block_number b <? block_number a then false
  else if transaction_index a <? transaction_index b then true else if transaction_index b <? transaction_index a then false
  else str_leb (transaction_hash a) (transaction_hash b).

Definition sorted_records (s : store) : list record := sort_by record_leb (values s).

Definition edge_fields : list string :=
  ["incident"; "shard_id"; "block_number"; "transaction_hash"; "edge_index"; "depth"; "call_type"; "from"; "to"; "value_atto";
   "effective"; "error"].

Definition edge_record (e : edge) : list string :=
  [e_incident e; str_of_Z (e_shard e); str_of_Z (e_block e); e_hash e; str_of_Z (e_index e); str_of_Z (e_depth e);
   csv_value (e_type e); e_from e; e_to e; str_of_Z (e_value e); (if e_effective e then "True" else "False"); csv_value (e_error e)].

(** [write_csv_atomic] up to the digest, and the summary's file: no [fsync]. *)
Definition put_file (p : string) (texts : list string) : IO unit :=
  create (partial p) ≫= λ _,
  for_io (write (partial p)) texts ≫= λ _,
  replace (partial p) p.

Definition write_csv_atomic (p : string) (fieldnames : list string) (records : list (list string)) : IO string :=
  put_file p (csv_line <$> (fieldnames :: records)) ≫= λ _,
  file_sha256_at (Z.to_nat (4 * 1024 * 1024)) p.

(** ** The summary *)
Definition label_counts (label : record → gset string) (rs : list record) : gmap string Z :=
  foldl (λ m r, foldl (λ m x, madd x 1 m) m (elements (label r))) ∅ rs.

Definition counts_json (m : gmap string Z) : json := JObj (prod_map id JInt <$> sort_by (λ x y, str_leb x.1 y.1) (map_to_list m)).

Definition at_boundary (r : record) : bool :=
  bool_decide ("confirmed-kucoin-path" ∈ roles (rc_labels r)) &&
  bool_decide (to (rc_tx r) = "0x15e5bf28ee8516bb8b4eed5f1a85bec970dd821c").

Definition kucoin_boundary (rs : list record) : Z := sum_by (λ r, value_atto (rc_tx r)) (filter (λ r, at_boundary r = true) rs).

Definition distribution_json (d : distribution) : json :=
  JObj [("recipients", JInt (d_recipients d)); ("distributed_atto", JStr (str_of_Z (d_distributed d)));
        ("held_cap_atto", JStr (str_of_Z (d_held d))); ("moved_or_spent_atto", JStr (str_of_Z (d_moved d)));
        ("intact_count", JInt (d_intact d)); ("zero_balance_count", JInt (d_zero d)); ("partial_count", JInt (d_partial d));
        ("nonce_zero_moved_count", JInt (d_nonce_zero d)); ("nonce_positive_moved_count", JInt (d_nonce_positive d))].

Record args := Args {
  a_shard0_rpc : string;
  a_shard1_rpc : string;
  a_shard0_source_audit : string;
  a_shard1_source_audit : string;
  a_transactions_output : string;
  a_edges_output : string;
  a_summary_output : string;
}.

Definition limitations : list string :=
  ["Source-audit rows retain their existing callTracer classification summary; individual source-audit internal edges are not re-exported.";
   "The KuCoin amount is an exact on-chain path to a KuCoin-linked custody boundary, not proof of customer credit or sale.";
   "Current-balance retention is capped at original first-hop receipt amount and does not identify ownership."].

Record flows := Flows {
  fl_records : store;
  fl_edges : list edge;
  fl_head : json;
  fl_distributions : list (string * distribution);
}.

Definition summary_json (a : args) (now head : Z) (f : flows) (transactions_sha edges_sha : string) : json :=
  let rs := values (fl_records f) in
  JObj [("generated_at_unix", JInt now); ("balance_reference_block", JInt head); ("transaction_rows", JInt (Z.of_nat (length rs)));
        ("internal_value_edge_rows", JInt (Z.of_nat (length (fl_edges f))));
        ("role_counts", counts_json (label_counts (λ r, roles (rc_labels r)) rs));
        ("incident_counts", counts_json (label_counts (λ r, incidents (rc_labels r)) rs));
        ("distribution", JObj (prod_map id distribution_json <$> fl_distributions f));
        ("confirmed_kucoin_boundary_atto", JStr (str_of_Z (kucoin_boundary rs)));
        ("transactions_output", JStr (a_transactions_output a)); ("transactions_sha256", JStr transactions_sha);
        ("edges_output", JStr (a_edges_output a)); ("edges_sha256", JStr edges_sha);
        ("source_audits", JObj [("shard0", JStr (a_shard0_source_audit a)); ("shard1", JStr (a_shard1_source_audit a))]);
        ("limitations", JArr (JStr <$> limitations))].

Section node.
Context (transport : nat → string → json → result json).

(** [batch_account_field] *)
Definition batch_account_field (url method : string) (addresses : list string) (block : json) : result (gmap string Z) :=
  results ← rpc_batch transport url method ((λ a, [JStr a; block]) <$> addresses) 100;
  l ← mapR (λ av, v ← jint16 av.2; Ok (av.1, v)) (zip addresses results);
  Ok (list_to_map l).

(** [sorted(all_recipients)] *)
Definition all_recipients (l : list (string * gmap string Z)) : list string :=
  sort_by str_leb (elements (⋃ ((λ ir, dom ir.2) <$> l) : gset string)).

(** [distribution_summary] *)
Definition distribution_summary (url : string) (s : store) (edges : list edge) : result (json * list (string * distribution)) :=
  head_hex ← rpc transport url "eth_blockNumber" [];
  received ← mapR (received_by s edges) INCIDENTS;
  let addresses := all_recipients received in
  balances ← batch_account_field url "eth_getBalance" addresses head_hex;
  nonces ← batch_account_field url "eth_getTransactionCount" addresses head_hex;
  Ok (head_hex, (λ ir, (ir.1, summarize balances nonces ir.2)) <$> received).

(** [main] between the source audits and the tables. *)
Definition follow (a : args) (s : store) : result flows :=
  s ← enrich_records transport [(0, a_shard0_rpc a); (1, a_shard1_rpc a)] s;
  sk ← add_history_scopes transport (a_shard0_rpc a) s;
  sk ← add_kucoin_path transport (a_shard0_rpc a) sk;
  se ← trace_transactions transport (a_shard0_rpc a) sk.1 sk.2;
  s ← add_receipt_statuses transport (a_shard0_rpc a) se.1;
  hd ← distribution_summary (a_shard0_rpc a) s se.2;
  Ok (Flows s se.2 hd.1 hd.2).

(** [main] from the tables on. *)
Definition export (a : args) (now : Z) (f : flows) : IO json :=
  rows ← lift (mapR transaction_record (sorted_records (fl_records f)));
  transactions_sha ← write_csv_atomic (a_transactions_output a) transaction_fields rows;
  edges_sha ← write_csv_atomic (a_edges_output a) edge_fields (edge_record <$> fl_edges f);
  head ← lift (jint16 (fl_head f));
  let summary := summary_json a now head f transactions_sha edges_sha in
  put_file (a_summary_output a) [dumps summary; newline] ≫= λ _,
  mret summary.

Definition main (now : Z) (a : args) : IO (flows * json) :=
  for_io refuse_existing [a_transactions_output a; a_edges_output a; a_summary_output a] ≫= λ _,
  s ← load_source_audit (a_shard0_source_audit a) 0 no_records;
  s ← load_source_audit (a_shard1_source_audit a) 1 s;
  f ← lift (follow a s);
  summary ← export a now f;
  mret (f, summary).
End node.

(** ** The records and the edges together *)

(** Every edge is that of a record of shard 0, which carries its hash and its incidents, and every record
    of shard 0 counts exactly its edges. *)
Record tables_ok (s : store) (es : list edge) : Prop := {
  tb_store : store_ok s;
  tb_edges : ∀ e, e ∈ es → 0 < e_value e ∧ ∃ r, recs s !! (0, e_hash e) = Some r ∧ e_incident e = joined (incidents (rc_labels r));
  tb_counts : ∀ k r, recs s !! k = Some r → k.1 = 0 → counts_edges (rc_trace r) (mine k es);
  tb_others : ∀ k r, recs s !! k = Some r → k.1 ≠ 0 → rc_trace r = no_trace;
}.

Lemma counts_no_edges k es : mine k es = [] → counts_edges no_trace (mine k es).
Proof. intros ->. by split. Qed.

Lemma same_shape {B} (f : record → B) s s' : (∀ k, f <$> recs s' !! k = f <$> recs s !! k) → f <$> recs s' = f <$> recs s.
Proof. intros H. apply map_eq. intros k. rewrite !lookup_fmap. apply H. Qed.

Lemma same_shape_ok {B} (f : record → B) s s' :
  order s' = order s → (∀ k, f <$> recs s' !! k = f <$> recs s !! k) → store_ok s → store_ok s'.
Proof.
  intros Ho Hs [Hnd Hd]. split; [by rewrite Ho|]. rewrite Ho, <-Hd. apply set_eq. intros k. rewrite !elem_of_dom.
  rewrite <-(fmap_is_Some f (recs s' !! k)), <-(fmap_is_Some f (recs s !! k)). by rewrite Hs.
Qed.

Lemma traced_tables (s s' : store) (keys : gset key) (ks : list key) (es : list edge) :
  store_ok s → (∀ k r, recs s !! k = Some r → rc_trace r = no_trace) →
  (∀ k, k ∈ keys → traceable s k) → (∀ k, k ∈ ks ↔ k ∈ keys) → traced s s' ks es → tables_ok s' es.
Proof.
  intros Hok Hn Hk Hks [Ho Hs Hd Ht He].
  assert (Hzero : ∀ k, k ∈ ks → k.1 = 0) by (intros k ?%Hks; by destruct (Hk k)).
  split.
  - by apply (same_shape_ok untouched s).
  - intros e Hin. destruct (He e Hin) as (Hpos & k & r & Hkin & Hr & -> & Hi). split; [done|]. exists r. split; [|done].
    rewrite <-(Hzero k Hkin). by destruct k.
  - intros k r Hr H0. destruct (decide (k ∈ ks)) as [Hin|Hin]; [by apply Hd|]. rewrite (Ht k r Hin Hr). apply counts_no_edges, mine_none.
    intros e Hine Hh. destruct (He e Hine) as (_ & k' & _ & Hk' & _ & Hh' & _). apply Hin.
    assert (k = k') as ->; [|done]. pose proof (Hzero k' Hk'). destruct k, k'. simpl in *. congruence.
  - intros k r Hr H0. apply (Ht k r); [|done]. intros Hin. by apply H0, Hzero.
Qed.

Lemma statuses_tables (s s' : store) es : order s' = order s →
  (∀ k, match recs s !! k, recs s' !! k with Some r, Some r' => same_but_status r r' | None, None => True | _, _ => False end) →
  tables_ok s es → tables_ok s' es.
Proof.
  intros Ho Hs [H1 H2 H3 H4].
  assert (Hback : ∀ k r', recs s' !! k = Some r' → ∃ r, recs s !! k = Some r ∧ same_but_status r r').
  { intros k r' Hr. specialize (Hs k). rewrite Hr in Hs. destruct (recs s !! k) as [r|]; [by exists r|done]. }
  split.
  - apply (same_shape_ok (λ _, tt) s); [done| |done]. intros k. specialize (Hs k). by destruct (recs s !! k), (recs s' !! k).
  - intros e Hin. destruct (H2 e Hin) as (Hpos & r & Hr & Hi). split; [done|]. specialize (Hs (0, e_hash e)). rewrite Hr in Hs.
    destruct (recs s' !! (0, e_hash e)) as [r'|]; [|done]. exists r'. split; [done|]. destruct Hs as (_ & -> & _). done.
  - intros k r' (r & Hr & -> & _)%Hback. by apply H3.
  - intros k r' (r & Hr & -> & _)%Hback. by apply H4.
Qed.

Lemma statuses_total (s s' : store) g :
  (∀ k, match recs s !! k, recs s' !! k with Some r, Some r' => same_but_status r r' | None, None => True | _, _ => False end) →
  total (g ∘ rc_receipts) s' = total (g ∘ rc_receipts) s.
Proof.
  intros Hs. unfold total. f_equal. apply same_shape. intros k. specialize (Hs k).
  destruct (recs s !! k), (recs s' !! k); try done. simpl. by destruct Hs as (_ & _ & -> & _).
Qed.

Lemma traced_total (s s' : store) ks es g : traced s s' ks es → total (g ∘ rc_receipts) s' = total (g ∘ rc_receipts) s.
Proof.
  intros [_ Hs _ _ _]. unfold total. f_equal. apply same_shape. intros k. specialize (Hs k).
  destruct (recs s !! k), (recs s' !! k); try done. simpl in *. injection Hs as _ _ _ Hr. by rewrite Hr.
Qed.

(** ** The distribution *)

(** A transfer of the distribution of an incident: the value moved, from the incident's contract, in a transaction of the incident that
    is one of the calls by which the contract paid out. *)
Definition initial_transfer (s : store) (ic : string * incident_config) (e : edge) : Prop :=
  e_effective e = true ∧ e_from e = c_contract ic.2 ∧ ic.1 ∈ split_on ";" (e_incident e) ∧
  "initial-distribution-call" ∈ default ∅ ((λ r, roles (rc_labels r)) <$> recs s !! (0, e_hash e)).

#[export] Instance initial_transfer_dec s ic e : Decision (initial_transfer s ic e).
Proof. unfold initial_transfer. apply _. Defined.

Lemma is_distribution_Ok s ic e c : is_distribution ic.1 ic.2 s e = Ok c → c = bool_decide (initial_transfer s ic e).
Proof.
  unfold is_distribution. intros H. symmetry. destruct (e_effective e) eqn:He; cbn [andb] in H.
  2: { injection H as <-. apply bool_decide_eq_false. unfold initial_transfer. rewrite He. by intros []. }
  destruct (bool_decide (e_from e = _)) eqn:Hf; cbn [andb] in H; bool_facts.
  2: { injection H as <-. apply bool_decide_eq_false. by intros (_ & ? & _). }
  destruct (bool_decide (ic.1 ∈ _)) eqn:Hi; cbn [andb] in H; bool_facts.
  2: { injection H as <-. apply bool_decide_eq_false. by intros (_ & _ & ? & _). }
  apply bind_Ok in H as (r & Hr & [= <-]). apply of_option_Ok in Hr. apply bool_decide_ext. unfold initial_transfer. rewrite Hr. simpl. tauto.
Qed.

(** The transfers of an incident's distribution. *)
Definition sent_by (s : store) (es : list edge) (ic : string * incident_config) : list edge := filter (initial_transfer s ic) es.

Lemma received_by_Ok s es ic ir :
  received_by s es ic = Ok ir → ir = (ic.1, tally e_to e_value ∅ (sent_by s es ic)).
Proof.
  unfold received_by. intros H. apply bind_Ok in H as (m & H & [= <-]). f_equal. revert H.
  apply (foldM_ind _ (λ l m, m = tally e_to e_value ∅ (sent_by s l ic))); [done|].
  intros pre e m1 m2 -> _ Hs. unfold received_step in Hs. apply bind_Ok in Hs as (c & ->%is_distribution_Ok & [= <-]).
  unfold sent_by. rewrite filter_app, keep_one. case_bool_decide as He.
  - by rewrite decide_True, tally_snoc.
  - by rewrite decide_False, app_nil_r.
Qed.

Lemma is_distribution_returns s es ic e : tables_ok s es → e ∈ es → is_ok (is_distribution ic.1 ic.2 s e) = true.
Proof.
  intros [_ He _ _] Hin. unfold is_distribution. case_match; [|done]. destruct (He e Hin) as (_ & r & Hr & _). by rewrite Hr.
Qed.

Lemma received_by_returns s es ic : tables_ok s es → is_ok (received_by s es ic) = true.
Proof.
  intros Ht. unfold received_by. destruct (foldM_total (received_step ic.1 ic.2 s) (λ _, True) ∅ es) as (m & Hm & _); [done| |by rewrite Hm].
  intros e m _ Hin. pose proof (is_distribution_returns s es ic e Ht Hin) as Hok. apply get_Ok with (d := false) in Hok.
  unfold received_step. rewrite Hok. cbn [mbind result_bind]. eauto.
Qed.

Lemma over_total (m : gmap string Z) : over (λ _ a, a) m = msum m.
Proof. unfold over. by rewrite msum_map_to_list. Qed.

Lemma over_size (m : gmap string Z) : over (λ _ _, 1) m = Z.of_nat (size m).
Proof. unfold over. by rewrite sum_ones, length_map_to_list. Qed.

Lemma over_add f g m : over f m + over g m = over (λ a v, f a v + g a v) m.
Proof. unfold over. by rewrite sum_by_add. Qed.

Lemma over_le f g (m : gmap string Z) : (∀ a v, m !! a = Some v → f a v ≤ g a v) → over f m ≤ over g m.
Proof. intros H. apply sum_by_le. intros [a v] Hin. simpl. apply H. by apply elem_of_map_to_list. Qed.

Lemma over_ext f g (m : gmap string Z) : (∀ a v, m !! a = Some v → f a v = g a v) → over f m = over g m.
Proof. intros H. apply sum_by_ext. intros [a v] Hin. simpl. apply H. by apply elem_of_map_to_list. Qed.

(** *** What a distribution reports *)

(** Who received the transfers [sent], and how much. *)
Definition recipients (sent : list edge) : list string := remove_dups (e_to <$> sent).
Definition got (sent : list edge) (x : string) : Z := sum_by e_value (filter (λ e, e_to e = x) sent).
Definition how_many (sent : list edge) (P : string → Prop) `{∀ x, Decision (P x)} : Z := Z.of_nat (length (filter P (recipients sent))).

Record distribution_of (sent : list edge) (balance nonce : string → Z) (d : distribution) : Prop := {
  do_recipients : d_recipients d = Z.of_nat (length (recipients sent));
  do_distributed : d_distributed d = sum_by e_value sent;
  do_held : d_held d = sum_by (λ x, Z.min (got sent x) (balance x)) (recipients sent);
  do_moved : d_moved d = d_distributed d - d_held d;
  do_intact : d_intact d = how_many sent (λ x, got sent x ≤ balance x);
  do_zero : d_zero d = how_many sent (λ x, balance x = 0);
  do_partial : d_partial d = how_many sent (λ x, 0 < balance x < got sent x);
  do_nonce_zero : d_nonce_zero d = how_many sent (λ x, balance x < got sent x ∧ nonce x = 0);
  do_nonce_positive : d_nonce_positive d = how_many sent (λ x, balance x < got sent x ∧ 0 < nonce x);
}.

(** A sum over the received amounts is one over the recipients. *)
Lemma over_recipients (g : string → Z → Z) sent :
  over g (tally e_to e_value ∅ sent) = sum_by (λ x, g x (got sent x)) (recipients sent).
Proof.
  unfold over. set (m := tally e_to e_value ∅ sent).
  transitivity (sum_by (λ x, g x (got sent x)) (map_to_list m).*1).
  - rewrite sum_by_fmap. apply sum_by_ext. intros [x v] Hv%elem_of_map_to_list. cbn [fst snd compose]. f_equal.
    assert (Hm : mget m x = v) by (unfold mget; by rewrite Hv). rewrite <-Hm. unfold m. by rewrite mget_tally, mget_empty.
  - apply sum_by_Permutation, NoDup_Permutation; [apply NoDup_fst_map_to_list|apply NoDup_remove_dups|]. intros x.
    unfold recipients. rewrite elem_of_remove_dups. transitivity (x ∈ dom m).
    + rewrite list_elem_of_fmap, elem_of_dom. split.
      * intros ([y v] & -> & Hy%elem_of_map_to_list). by exists v.
      * intros [v Hv]. exists (x, v). split; [done|]. by apply elem_of_map_to_list.
    + unfold m. rewrite dom_tally. by rewrite elem_of_list_to_set.
Qed.

Lemma count_recipients (c : string → Z → bool) sent (P : string → Prop) `{∀ x, Decision (P x)} :
  (∀ x, c x (got sent x) = true ↔ P x) → count c (tally e_to e_value ∅ sent) = how_many sent P.
Proof.
  intros Hc. unfold count. rewrite over_recipients. unfold how_many. induction (recipients sent) as [|x l IH]; [done|].
  rewrite sum_by_cons, IH, filter_cons. case_decide as Hx.
  - rewrite (proj2 (Hc x) Hx). cbn [Z.b2z length]. lia.
  - destruct (c x (got sent x)) eqn:E; [by apply Hc in E|]. cbn [Z.b2z]. lia.
Qed.

Lemma summarize_spec balances nonces sent :
  distribution_of sent (mget balances) (mget nonces) (summarize balances nonces (tally e_to e_value ∅ sent)).
Proof.
  split; cbn [summarize d_recipients d_distributed d_held d_moved d_intact d_zero d_partial d_nonce_zero d_nonce_positive]; try done.
  - rewrite <-over_size, over_recipients. by rewrite sum_ones.
  - rewrite over_total, msum_tally, msum_empty. lia.
  - by rewrite over_recipients.
  - apply count_recipients. intros x. apply Z.leb_le.
  - apply count_recipients. intros x. apply Z.eqb_eq.
  - apply count_recipients. intros x. rewrite andb_true_iff, !Z.ltb_lt. done.
  - apply count_recipients. intros x. by rewrite andb_true_iff, Z.ltb_lt, Z.eqb_eq.
  - apply count_recipients. intros x. by rewrite andb_true_iff, !Z.ltb_lt.
Qed.

(** The recipients that satisfy one of several conditions. *)
Lemma how_many_sum sent (P Q R : string → Prop) `{∀ x, Decision (P x), ∀ x, Decision (Q x), ∀ x, Decision (R x)} :
  (∀ x, x ∈ recipients sent → (P x ∧ ¬ Q x ∧ ¬ R x) ∨ (¬ P x ∧ Q x ∧ ¬ R x) ∨ (¬ P x ∧ ¬ Q x ∧ R x)) →
  how_many sent P + how_many sent Q + how_many sent R = Z.of_nat (length (recipients sent)).
Proof.
  unfold how_many. induction (recipients sent) as [|x l IH]; intros Hx; [done|]. rewrite !filter_cons.
  specialize (IH (λ y Hy, Hx y (list_elem_of_further _ _ _ Hy))). destruct (Hx x) as [(? & ? & ?)|[(? & ? & ?)|(? & ? & ?)]]; [by left|..];
    repeat case_decide; try done; cbn [length]; lia.
Qed.

(** What a distribution of positive amounts says. *)
Lemma distribution_partition sent balance nonce d :
  distribution_of sent balance nonce d → (∀ e, e ∈ sent → 0 < e_value e) →
  ((∀ x, x ∈ recipients sent → 0 ≤ balance x) →
     0 ≤ d_held d ≤ d_distributed d ∧ d_intact d + d_zero d + d_partial d = d_recipients d) ∧
  ((∀ x, x ∈ recipients sent → 0 ≤ nonce x) → d_intact d + d_nonce_zero d + d_nonce_positive d = d_recipients d).
Proof.
  intros [Hr Hd Hh _ Hi Hz Hp Hn0 Hn1] Hpos.
  assert (Hgot : ∀ x, x ∈ recipients sent → 0 < got sent x).
  { intros x Hx. unfold recipients in Hx. rewrite elem_of_remove_dups in Hx. apply list_elem_of_fmap in Hx as (e & -> & He). unfold got.
    assert (Hin : e ∈ filter (λ y, e_to y = e_to e) sent) by by apply list_elem_of_filter.
    apply list_elem_of_split in Hin as (l1 & l2 & Hl). rewrite Hl, sum_by_app, sum_by_cons.
    assert (Hnn : ∀ l, (∀ y, y ∈ l → y ∈ filter (λ y, e_to y = e_to e) sent) → 0 ≤ sum_by e_value l).
    { intros l Hsub. apply sum_by_nonneg. intros y [_ Hy]%Hsub%list_elem_of_filter. specialize (Hpos y Hy). lia. }
    assert (0 ≤ sum_by e_value l1) by (apply Hnn; rewrite Hl; set_solver). assert (0 ≤ sum_by e_value l2) by (apply Hnn; rewrite Hl; set_solver).
    specialize (Hpos e He). lia. }
  assert (Hsum : sum_by e_value sent = sum_by (got sent) (recipients sent)).
  { pose proof (over_recipients (λ _ v, v) sent) as H. rewrite over_total, msum_tally, msum_empty, Z.add_0_l in H. exact H. }
  split.
  - intros Hb. rewrite Hh, Hd, Hsum, Hi, Hz, Hp, Hr. split; [split|].
    + apply sum_by_nonneg. intros x Hx. specialize (Hb x Hx). specialize (Hgot x Hx). lia.
    + apply sum_by_le. intros x _. lia.
    + apply how_many_sum. intros x Hx. specialize (Hb x Hx). specialize (Hgot x Hx). lia.
  - intros Hn. rewrite Hi, Hn0, Hn1, Hr. apply how_many_sum. intros x Hx. specialize (Hn x Hx). lia.
Qed.

(** ** Sums over the two tables *)
Lemma sum_mine (g : edge → Z) (ks : list key) es :
  NoDup ks → (∀ e, e ∈ es → (0, e_hash e) ∈ ks) → sum_by (λ k, if decide (k.1 = 0) then sum_by g (mine k es) else 0) ks = sum_by g es.
Proof.
  intros Hnd. induction es as [|e es IH]; intros He.
  - rewrite sum_by_nil. transitivity (sum_by (λ _, 0) ks).
    + apply sum_by_ext. intros k _. by case_decide.
    + apply sum_by_zero.
  - rewrite sum_by_cons, <-IH by (intros; apply He; by right).
    rewrite <-(sum_indicator (0, e_hash e) (g e) ks) by (done || apply He; by left). rewrite <-sum_by_add. apply sum_by_ext.
    intros [z h] _. unfold mine. simpl. rewrite filter_cons. simpl. destruct (decide (z = 0)) as [->|Hz].
    + destruct (decide (e_hash e = h)) as [->|Hh].
      * rewrite decide_True by done. by rewrite sum_by_cons.
      * rewrite decide_False by congruence. lia.
    + rewrite decide_False by congruence. lia.
Qed.

(** A counter of the records is the same sum over all edges. *)
Lemma counter_total (f : trace_counts → Z) (g : edge → Z) s es :
  tables_ok s es → f no_trace = 0 → (∀ t es, counts_edges t es → f t = sum_by g es) → sum_by (f ∘ rc_trace) (values s) = sum_by g es.
Proof.
  intros [Hok He Hc Ho] H0 Hf. rewrite values_total by done. destruct Hok as [Hnd Hd].
  unfold total. rewrite (msum_keys _ (order s)); [|done|by rewrite dom_fmap_L].
  assert (Hdom : ∀ k, k ∈ order s ↔ is_Some (recs s !! k)) by (intros k; by rewrite <-elem_of_dom, Hd, elem_of_list_to_set).
  rewrite <-(sum_mine g (order s)); [|done|].
  - apply sum_by_ext. intros k Hk. apply Hdom in Hk as [r Hr]. unfold mget. rewrite lookup_fmap, Hr. simpl.
    case_decide as Hz; [by apply Hf, (Hc k)|]. by rewrite (Ho k r).
  - intros e Hin. apply Hdom. destruct (He e Hin) as (_ & r & Hr & _). by exists r.
Qed.

(** ** The run *)
Definition untraced (s : store) : Prop := ∀ k r, recs s !! k = Some r → rc_trace r = no_trace.

Section node.
Context (transport : nat → string → json → result json).

Lemma follow_Ok a s f :
  store_ok s → untraced s → follow transport a s = Ok f →
  tables_ok (fl_records f) (fl_edges f) ∧
  (∀ g, g (Receipts 0 0 0 0) = 0 → total (g ∘ rc_receipts) (fl_records f) = total (g ∘ rc_receipts) s) ∧
  distribution_summary transport (a_shard0_rpc a) (fl_records f) (fl_edges f) = Ok (fl_head f, fl_distributions f).
Proof.
  intros Hok Hun H. unfold follow in H. apply bind_Ok in H as (s1 & H1%enrich_extends & H).
  apply bind_Ok in H as (sk & H2%add_history_scope & H). apply bind_Ok in H as (sk' & H3%add_kucoin_scope & H).
  assert (Hscope : scope_ok (s1, ∅) sk') by (destruct H2 as [? ?], H3 as [? ?]; split; [by etransitivity|auto]).
  destruct Hscope as [Hext Hkeys]. assert (He : extends s sk'.1) by by etransitivity.
  apply bind_Ok in H as (se & H4 & H). apply trace_transactions_Ok in H4 as (ks & Hks & Ht);
    [|by eapply (ex_trace s sk'.1)|intros k; apply Hkeys; by intros ? ?%not_elem_of_empty].
  apply bind_Ok in H as (s2 & [Ho Hs]%statuses_Ok & H). apply bind_Ok in H as ([hd ds] & Hd & [= <-]). cbn.
  split_and!; [| |done].
  - eapply statuses_tables; [exact Ho|exact Hs|]. eapply traced_tables; [by eapply (ex_ok s sk'.1)| |
      |exact Hks|exact Ht]; [by eapply (ex_trace s sk'.1)|intros k; apply Hkeys; by intros ? ?%not_elem_of_empty].
  - intros g Hg. rewrite (statuses_total _ _ g Hs), (traced_total _ _ _ _ g Ht). by apply (ex_receipts s sk'.1).
Qed.

Lemma load_source_audit_Ok path shard s w s' w' :
  load_source_audit path shard s w = (Ok s', w') →
  w' = w ∧ ∃ text, files w !! path = Some text ∧ audited_rows (dict_rows text) s s'.
Proof.
  unfold load_source_audit. intros H. apply io_bind_Ok in H as (text & w1 & [-> Ht]%read_Ok & H).
  apply lift_Ok in H as [-> H%source_rows]. split; [done|]. by exists text.
Qed.

(** The records that the source audits give. *)
Record inputs_read (a : args) (w : world) (s : store) (rows0 rows1 : list row) : Prop := {
  ir_rows0 : ∃ text, files w !! a_shard0_source_audit a = Some text ∧ rows0 = dict_rows text;
  ir_rows1 : ∃ text, files w !! a_shard1_source_audit a = Some text ∧ rows1 = dict_rows text;
  ir_ok : store_ok s;
  ir_untraced : untraced s;
  ir_count : total (receipt_count ∘ rc_receipts) s = Z.of_nat (length rows0) + Z.of_nat (length rows1);
  ir_amount : total (receipt_amount ∘ rc_receipts) s = sum_by audit_amount rows0 + sum_by audit_amount rows1;
}.

Lemma main_run now a w f summary w' :
  main transport now a w = (Ok (f, summary), w') →
  ∃ s rows0 rows1, inputs_read a w s rows0 rows1 ∧ follow transport a s = Ok f ∧ export a now f w = (Ok summary, w') ∧
  Forall (λ p, files w !! p = None ∧ files w !! partial p = None) [a_transactions_output a; a_edges_output a; a_summary_output a].
Proof.
  unfold main. intros H. apply io_bind_Ok in H as (u & w1 & [-> Hf]%refuse_all_Ok & H).
  apply io_bind_Ok in H as (s1 & w1 & (-> & t0 & Ht0 & R0)%load_source_audit_Ok & H).
  apply io_bind_Ok in H as (s2 & w1 & (-> & t1 & Ht1 & R1)%load_source_audit_Ok & H).
  apply io_bind_Ok in H as (f' & w1 & [-> Hfo]%lift_Ok & H). apply io_bind_Ok in H as (j & w1 & He & H).
  apply mret_Ok in H as [-> [= <- <-]]. exists s2, (dict_rows t0), (dict_rows t1). split_and!; [|done..].
  destruct R0 as [A1 A2 A3 A4], R1 as [B1 B2 B3 B4]. split; [by exists t0|by exists t1| | | |].
  - apply B1, A1, no_records_ok.
  - intros k r. apply B2. intros k' r'. apply A2. by intros ? ?.
  - rewrite B3, A3. by unfold total.
  - rewrite B4, A4. by unfold total.
Qed.

(** C30 (type): the records and edges of a run are well formed: the records are listed once each; every exported edge
    has a positive value and names a record of shard 0, with that record's incidents, so that the lookup of its
    transaction in the distribution never raises; the counters of a record are those of exactly
    its own edges, and a record of the other shard has none. *)
Theorem flow_well_formed now a w f summary w' :
  main transport now a w = (Ok (f, summary), w') →
  let s := fl_records f in
  NoDup (order s) ∧ (∀ k, k ∈ order s ↔ is_Some (recs s !! k)) ∧
  (∀ e, e ∈ fl_edges f → 0 < e_value e ∧ ∃ r, recs s !! (0, e_hash e) = Some r ∧ e_incident e = joined (incidents (rc_labels r))) ∧
  (∀ ic e, e ∈ fl_edges f → is_ok (is_distribution ic.1 ic.2 s e) = true) ∧
  (∀ k r, recs s !! k = Some r → k.1 = 0 → counts_edges (rc_trace r) (mine k (fl_edges f))) ∧
  (∀ k r, recs s !! k = Some r → k.1 ≠ 0 → rc_trace r = no_trace).
Proof.
  intros (s0 & rows0 & rows1 & [_ _ Hok Hun _ _] & Hf & _)%main_run. cbv zeta.
  destruct (follow_Ok a s0 f Hok Hun Hf) as (Ht & _ & _). pose proof Ht as [[Hnd Hd] He Hc Ho]. split_and!; [done| |done| |done|done].
  - intros k. by rewrite <-elem_of_dom, Hd, elem_of_list_to_set.
  - intros ic e Hin. by apply (is_distribution_returns _ (fl_edges f)).
Qed.

(** What the node was asked about the recipients. *)
Lemma batch_account_field_gives node url method addresses block m :
  gives transport url node → batch_account_field transport url method addresses block = Ok m →
  ∀ x, x ∈ addresses → jint16 (node method [JStr x; block]) = Ok (mget m x).
Proof.
  intros Hf H. unfold batch_account_field in H. apply bind_Ok in H as (results & Hr & H).
  apply (rpc_batch_gives _ _ node) in Hr as ->; [|lia|done]. apply bind_Ok in H as (l & Hl%mapR_Ok & [= <-]).
  assert (Hz : Forall2 (λ x av, av.1 = x ∧ jint16 (node method [JStr x; block]) = Ok av.2) addresses l).
  { revert l Hl. induction addresses as [|x addresses IH]; intros l Hl; rewrite ?fmap_cons in Hl; cbn [zip zip_with] in Hl.
    - inversion Hl. constructor.
    - inversion Hl as [|? y ? l' Hy Hl']; subst. apply bind_Ok in Hy as (v & Hv & [= <-]). constructor; [done|by apply IH]. }
  clear Hl. intros x Hx. unfold mget. induction Hz as [|a [a1 v] addresses l [Ha Hv] _ IH]; [by apply not_elem_of_nil in Hx|]. cbn [fst snd] in Ha, Hv.
  rewrite list_to_map_cons. destruct (decide (a = x)) as [->|Hne].
  - rewrite Ha, lookup_insert_eq. exact Hv.
  - rewrite Ha, lookup_insert_ne by done. apply IH. apply elem_of_cons in Hx as [Hx|Hx]; [congruence|done].
Qed.

Lemma all_recipients_in l ir x : ir ∈ l → x ∈ dom ir.2 → x ∈ all_recipients l.
Proof.
  intros Hl Hx. unfold all_recipients. rewrite sort_by_Permutation, elem_of_elements, elem_of_union_list. exists (dom ir.2).
  split; [by apply (list_elem_of_fmap_2 (λ ir, dom ir.2))|done].
Qed.

(** C29 (bounds): what the first recipients of an incident hold.  Let the node at the shard-0 endpoint answer as [node] says, in whatever
    order.  The summary of an incident is about the effective transfers from its contract in its distribution calls: who received them and
    how much, what each recipient holds of it (the smaller of what it got and its balance) and how many are intact, partial
    and empty, where the balances and nonces are those that the node gives for each recipient at the block that it named as its latest.  When these
    are not negative, what is held lies between 0 and the amount distributed, what moved is the rest, and each recipient is
    counted as exactly one of intact, partial and empty; the nonces split those that are not intact. *)
Theorem distribution_bounds node now a w f summary w' :
  gives transport (a_shard0_rpc a) node → main transport now a w = (Ok (f, summary), w') →
  (∃ attempt response, transport attempt (a_shard0_rpc a) (request 1 "eth_blockNumber" []) = Ok response ∧ result_of response = Ok (fl_head f)) ∧
  ∃ balance nonce, Forall2 (λ ic id,
    let sent := filter (initial_transfer (fl_records f) ic) (fl_edges f) in
    let d := id.2 in
    id.1 = ic.1 ∧ distribution_of sent balance nonce d ∧
    (∀ x, x ∈ recipients sent → jint16 (node "eth_getBalance" [JStr x; fl_head f]) = Ok (balance x) ∧
                                jint16 (node "eth_getTransactionCount" [JStr x; fl_head f]) = Ok (nonce x)) ∧
    d_held d + d_moved d = d_distributed d ∧
    ((∀ x, x ∈ recipients sent → 0 ≤ balance x) → 0 ≤ d_held d ≤ d_distributed d ∧ d_intact d + d_zero d + d_partial d = d_recipients d) ∧
    ((∀ x, x ∈ recipients sent → 0 ≤ nonce x) → d_intact d + d_nonce_zero d + d_nonce_positive d = d_recipients d))
  INCIDENTS (fl_distributions f).
Proof.
  intros Hnode (s0 & rows0 & rows1 & [_ _ Hok Hun _ _] & Hf & _)%main_run.
  destruct (follow_Ok a s0 f Hok Hun Hf) as (Ht & _ & Hd). unfold distribution_summary in Hd.
  apply bind_Ok in Hd as (head & Hhead & Hd). apply bind_Ok in Hd as (received & Hr%mapR_Ok & Hd).
  apply bind_Ok in Hd as (balances & Hb & Hd). apply bind_Ok in Hd as (nonces & Hn & Hd). injection Hd as -> <-. split.
  { unfold rpc, request_json in Hhead. apply bind_Ok in Hhead as (response & (n & _ & Hresp)%retry_Ok & Hres). by exists n, response. }
  pose proof (batch_account_field_gives _ _ _ _ _ _ Hnode Hb) as Hbal. pose proof (batch_account_field_gives _ _ _ _ _ _ Hnode Hn) as Hnon.
  exists (mget balances), (mget nonces). apply Forall2_fmap_r.
  apply Forall2_same_length_lookup in Hr as [Hlen Hr]. apply Forall2_same_length_lookup. split; [done|]. intros i ic ir Hic Hir.
  pose proof (Hr i ic ir Hic Hir) as Hx%received_by_Ok. change (sent_by (fl_records f) (fl_edges f) ic) with
    (filter (initial_transfer (fl_records f) ic) (fl_edges f)) in Hx. cbn [compose]. set (sent := filter _ (fl_edges f)) in *.
  pose proof (summarize_spec balances nonces sent) as Hspec. subst ir. cbn [fst snd] in *.
  destruct (distribution_partition _ _ _ _ Hspec) as [H1 H2].
  { intros e [_ He]%list_elem_of_filter. by apply (tb_edges _ _ Ht). }
  split_and!; [done|done| |rewrite (do_moved _ _ _ _ Hspec); lia|exact H1|exact H2].
  intros x Hx. assert (Hin : x ∈ all_recipients received).
  { apply (all_recipients_in _ _ _ (list_elem_of_lookup_2 _ _ _ Hir)). cbn [snd]. rewrite dom_tally, elem_of_list_to_set.
    unfold recipients in Hx. by rewrite elem_of_remove_dups in Hx. }
  split; [by apply Hbal|by apply Hnon].
Qed.
End node.

(** ** The exported files *)
Lemma put_file_Ok p ts w u w' :
  put_file p ts w = (Ok u, w') → files w !! partial p = None ∧ files w' = <[p := concat_texts ts]> (files w).
Proof.
  unfold put_file. intros H. apply io_bind_Ok in H as (u1 & w1 & [Hp H1]%create_Ok & H).
  apply io_bind_Ok in H as (u2 & w2 & H2 & H). apply replace_Ok in H as (text & Ht & H3).
  assert (Hw2 : files w2 = <[partial p := concat_texts ts]> (files w)).
  { apply (wp_Ok _ _ _ _ _ H2). apply (wp_writes _ _ _ EmptyString); [by rewrite H1, lookup_insert_eq|done|].
    intros w3 H3' _ <-. by rewrite H3', H1, insert_insert_eq, str_app_nil_l. }
  split; [done|]. rewrite H3, Hw2. rewrite Hw2, lookup_insert_eq in Ht. injection Ht as <-. by rewrite delete_insert_eq, delete_id.
Qed.

Lemma put_file_Err p ts w e w' q : put_file p ts w = (Err e, w') → q ≠ partial p → files w' !! q = files w !! q.
Proof.
  unfold put_file. intros H Hq. apply io_bind_Err in H as [H|(u & w1 & [_ H1]%create_Ok & H)].
  { enough (Hc : confined [partial p] (create (partial p))) by (specialize (Hc w q); rewrite H in Hc; apply Hc; set_solver).
    apply confined_create. by left. }
  assert (Hw1 : files w1 !! q = files w !! q) by (rewrite H1; by apply lookup_insert_ne).
  assert (Hws : confined [partial p] (for_io (write (partial p)) ts)) by (apply confined_for_io; intros x; apply confined_write; by left).
  specialize (Hws w1 q). apply io_bind_Err in H as [H|(u2 & w2 & H2 & H)].
  - rewrite H in Hws. rewrite <-Hw1. apply Hws. set_solver.
  - rewrite H2 in Hws. apply replace_Err in H. rewrite H, <-Hw1. apply Hws. set_solver.
Qed.

Lemma write_csv_atomic_Ok p header rows w d w' :
  write_csv_atomic p header rows w = (Ok d, w') → files w' = <[p := write_csv (header :: rows)]> (files w) ∧ d = sha256 (write_csv (header :: rows)).
Proof.
  unfold write_csv_atomic. intros H. apply io_bind_Ok in H as (u & w1 & [_ H1]%put_file_Ok & H).
  unfold concat_texts in H1. rewrite concat_csv_lines in H1. rewrite file_sha256_at_read, H1, lookup_insert_eq in H by lia.
  by injection H as <- <-.
Qed.

Definition transactions_text (rows : list (list string)) : string := write_csv (transaction_fields :: rows).
Definition edges_text (es : list edge) : string := write_csv (edge_fields :: (edge_record <$> es)).

Lemma export_Ok a now f w summary w' :
  export a now f w = (Ok summary, w') →
  ∃ rows head, mapR transaction_record (sorted_records (fl_records f)) = Ok rows ∧ jint16 (fl_head f) = Ok head ∧
    summary = summary_json a now head f (sha256 (transactions_text rows)) (sha256 (edges_text (fl_edges f))) ∧
    files w' = <[a_summary_output a := dumps summary +:+ newline]> (<[a_edges_output a := edges_text (fl_edges f)]>
                 (<[a_transactions_output a := transactions_text rows]> (files w))).
Proof.
  unfold export. intros H. apply io_bind_Ok in H as (rows & w1 & [-> Hr]%lift_Ok & H).
  apply io_bind_Ok in H as (d1 & w1 & [H1 ->]%write_csv_atomic_Ok & H). apply io_bind_Ok in H as (d2 & w2 & [H2 ->]%write_csv_atomic_Ok & H).
  apply io_bind_Ok in H as (head & w3 & [-> Hh]%lift_Ok & H). cbv zeta in H.
  apply io_bind_Ok in H as (u & w3 & [_ H3]%put_file_Ok & H). apply mret_Ok in H as [-> <-].
  exists rows, head. split_and!; [done..|]. rewrite H3, H2, H1. unfold concat_texts. simpl. by rewrite str_app_nil_r.
Qed.

(** ** Reading the tables back *)

Definition tx_row (rec : list string) : row := dict_row transaction_fields rec.
Definition edge_row (e : edge) : row := dict_row edge_fields (edge_record e).

Lemma transaction_fields_NoDup : NoDup transaction_fields.
Proof. apply (bool_decide_unpack _). by vm_compute. Qed.

Lemma edge_fields_NoDup : NoDup edge_fields.
Proof. apply (bool_decide_unpack _). by vm_compute. Qed.

(** The columns of the transactions' table that are summed. *)
Definition summed : list (string * (record → Z)) :=
  [("receipt_amount_atto", receipt_amount ∘ rc_receipts); ("receipt_count", receipt_count ∘ rc_receipts);
   ("trace_effective_value_atto", effective_atto ∘ rc_trace); ("trace_positive_value_edge_count", positive_edge_count ∘ rc_trace);
   ("value_atto", value_atto ∘ rc_tx)].

Lemma transaction_row_columns r rec k f : transaction_record r = Ok rec → (k, f) ∈ summed → column k (tx_row rec) = f r.
Proof.
  unfold transaction_record. cbv zeta. intros H Hin. apply bind_Ok in H as (c & _ & [= <-]).
  repeat (apply elem_of_cons in Hin as [[= -> ->]|Hin]);
    [apply (column_of _ _ 24)|apply (column_of _ _ 23)|apply (column_of _ _ 20)|apply (column_of _ _ 18)|apply (column_of _ _ 9)|by apply not_elem_of_nil in Hin];
    first [apply transaction_fields_NoDup|done].
Qed.

Lemma sum_columns rs rows k f :
  mapR transaction_record rs = Ok rows → (k, f) ∈ summed → sum_by (column k) (tx_row <$> rows) = sum_by f rs.
Proof.
  intros H%mapR_Ok Hin. induction H as [|r rec rs rows Hr _ IH]; [done|]. rewrite fmap_cons, !sum_by_cons, IH. f_equal.
  by apply (transaction_row_columns r rec k f).
Qed.

Lemma tx_rows_back rs rows : mapR transaction_record rs = Ok rows → dict_rows (transactions_text rows) = tx_row <$> rows.
Proof.
  intros H%mapR_Ok. apply dict_rows_write_csv. induction H as [|r rec rs rows Hr _ IH]; constructor; [|done].
  unfold transaction_record in Hr. cbv zeta in Hr. by apply bind_Ok in Hr as (c & _ & [= <-]).
Qed.

Lemma edge_rows_back es : dict_rows (edges_text es) = edge_row <$> es.
Proof.
  unfold edges_text. rewrite dict_rows_write_csv by (apply Forall_fmap, Forall_true; done). by rewrite <-list_fmap_compose.
Qed.

Lemma edge_row_value e : column "value_atto" (edge_row e) = e_value e.
Proof. apply (column_of _ _ 9); [apply edge_fields_NoDup|done..]. Qed.

Definition row_effective (r : row) : bool := bool_decide (cell_str r "effective" = Ok "True").

Lemma edge_row_effective e : row_effective (edge_row e) = e_effective e.
Proof.
  assert (H : cell_str (edge_row e) "effective" = Ok (if e_effective e then "True" else "False")).
  { apply cell_str_Ok. apply (dict_row_lookup edge_fields (edge_record e) 10); [apply edge_fields_NoDup|done..]. }
  unfold row_effective. rewrite H. by destruct (e_effective e).
Qed.

Lemma sum_effective es : sum_by (column "value_atto") (filter (λ r, row_effective r = true) (edge_row <$> es)) = sum_by (value_if e_effective) es.
Proof.
  induction es as [|e es IH]; [done|]. rewrite fmap_cons, filter_cons, sum_by_cons, <-IH. unfold value_if at 1.
  rewrite <-edge_row_effective. destruct (row_effective (edge_row e)) eqn:E; simpl.
  - rewrite sum_by_cons, edge_row_value. lia.
  - lia.
Qed.

Definition outputs_apart (a : args) : Prop :=
  NoDup [a_transactions_output a; a_edges_output a; a_summary_output a].

Section node.
Context (transport : nat → string → json → result json).

(** C27 (invariant): the two tables of a run, read back from the files, agree with each other and with the source audits: the column of
    receipt amounts adds up to the amounts of both audits and the column of receipt counts to
    the number of their rows; the effective value that the transactions report is the value
    of the effective rows of the table of transfers, whose number is that of the transfers
    reported; and the summary next to them carries the digests of exactly these two files. *)
Theorem flow_tables_agree now a w f summary w' :
  outputs_apart a → main transport now a w = (Ok (f, summary), w') →
  ∃ t0 t1 ttext etext head,
    files w !! a_shard0_source_audit a = Some t0 ∧ files w !! a_shard1_source_audit a = Some t1 ∧
    files w' !! a_transactions_output a = Some ttext ∧ files w' !! a_edges_output a = Some etext ∧
    let audits := dict_rows t0 ++ dict_rows t1 in
    let transactions := dict_rows ttext in
    let transfers := dict_rows etext in
    sum_by (column "receipt_amount_atto") transactions = sum_by audit_amount audits ∧
    sum_by (column "receipt_count") transactions = Z.of_nat (length audits) ∧
    sum_by (column "trace_effective_value_atto") transactions =
      sum_by (column "value_atto") (filter (λ r, row_effective r = true) transfers) ∧
    sum_by (column "trace_positive_value_edge_count") transactions = Z.of_nat (length transfers) ∧
    summary = summary_json a now head f (sha256 ttext) (sha256 etext) ∧
    files w' !! a_summary_output a = Some (dumps summary +:+ newline) ∧
    (∀ p, p ∉ [a_transactions_output a; a_edges_output a; a_summary_output a] → files w' !! p = files w !! p).
Proof.
  intros Hnd (s0 & rows0 & rows1 & [(t0 & Ht0 & ->) (t1 & Ht1 & ->) Hok Hun Hn Ha] & Hf & He & _)%main_run.
  destruct (follow_Ok transport a s0 f Hok Hun Hf) as (Ht & Hr & _). apply export_Ok in He as (rows & head & Hrows & _ & Hs & Hw).
  exists t0, t1, (transactions_text rows), (edges_text (fl_edges f)), head.
  apply NoDup_cons in Hnd as [Hte Hnd]. apply NoDup_cons in Hnd as [Hes _].
  assert (Hsum : ∀ g h, (g, h) ∈ summed → sum_by (column g) (tx_row <$> rows) = sum_by h (values (fl_records f))).
  { intros g h Hin. rewrite (sum_columns _ _ g h Hrows Hin). apply sum_by_Permutation, sort_by_Permutation. }
  cbv zeta. rewrite (tx_rows_back _ _ Hrows), edge_rows_back, sum_by_app, length_app.
  split_and!; [done|done| | | | | | |done| |].
  - rewrite Hw, !lookup_insert_ne by (clear -Hte; set_solver). apply lookup_insert_eq.
  - rewrite Hw, lookup_insert_ne by (clear -Hes; set_solver). apply lookup_insert_eq.
  - rewrite (Hsum _ (receipt_amount ∘ rc_receipts)) by (by left). rewrite values_total by apply Ht. by rewrite Hr.
  - rewrite (Hsum _ (receipt_count ∘ rc_receipts)) by (right; by left). rewrite values_total by apply Ht. rewrite Hr, Hn by done. lia.
  - rewrite (Hsum _ (effective_atto ∘ rc_trace)) by (do 2 right; by left). rewrite sum_effective.
    apply (counter_total effective_atto _ _ _ Ht); [done|]. by intros t es [_ _ ? _ _].
  - rewrite (Hsum _ (positive_edge_count ∘ rc_trace)) by (do 3 right; by left). rewrite length_fmap, <-sum_ones.
    apply (counter_total positive_edge_count _ _ _ Ht); [done|]. intros t es [? _ _ _ _]. by rewrite sum_ones.
  - rewrite Hw. apply lookup_insert_eq.
  - intros p Hp. rewrite Hw, !lookup_insert_ne by (clear -Hp; set_solver). done.
Qed.
End node.

(** ** Witnesses *)
Definition ex_tx (hash : string) (block : Z) (sender receiver : string) (value : Z) : json :=
  JObj [("hash", JStr hash); ("ethHash", JStr ("0xE" +:+ hash)); ("blockNumber", JInt block); ("from", JStr sender); ("to", JStr receiver);
        ("value", JInt value); ("input", JStr "0x12345678aabb")].

Definition ex_config : incident_config := (nth 0 INCIDENTS ("", IncidentConfig "" 0 "" 0 0)).2.

(** A distribution: the contract pays two accounts; a third payment is below a failed call. *)
Definition ex_call (error : list (string * json)) (sender receiver value : string) (calls : list json) : json :=
  JObj ([("type", JStr "CALL"); ("from", JStr sender); ("to", JStr receiver); ("value", JStr value); ("calls", JArr calls)] ++ error).

Definition ex_trace (hash : string) : json :=
  if bool_decide (hash = "0xd1") then
    ex_call [] "0xowner" (c_contract ex_config) "0x0"
      [ex_call [] (c_contract ex_config) "0xAA" "0x64" []; ex_call [] (c_contract ex_config) "0xBB" "0x1e" [];
       ex_call [("error", JStr "reverted")] (c_contract ex_config) "0xdd" "0x0" [ex_call [] (c_contract ex_config) "0xcc" "0x7" []]]
  else ex_call [] "0xsome" "0xother" "0x5" [].

Definition ex_answer (method : string) (params : list json) : json :=
  match params with
  | [JObj q] =>
      let has k v := match assoc k q with Some (JStr s) => bool_decide (s = v) | _ => false end in
      JObj [("transactions", JArr
        (if has "address" (c_root ex_config) then [ex_tx "0xr0" 1 "0x1" "0x2" 3; ex_tx "0xr1" 73386900 "0x1" "0x2" 3]
         else if has "address" (c_contract ex_config) then [ex_tx "0xd1" 73386900 "0xowner" (c_contract ex_config) 0]
         else []))]
  | [JStr h; JObj _] => ex_trace h
  | [JStr h] =>
      if bool_decide (method = "hmyv2_getTransactionReceipt") then JObj [("status", JInt 1)]
      else ex_tx h 500 "0x1" "0x15E5bf28ee8516bb8b4eed5f1a85bec970dd821c" 11
  | [JStr a; _] =>
      if bool_decide (method = "eth_getBalance") then JStr (if bool_decide (a = "0xaa") then "0xff" else "0xa") else JStr "0x1"
  | _ => JStr "0x9"
  end.

Definition ex_reply (payload : json) : result json :=
  method ← jget_str "method" payload;
  params ← jget "params" payload;
  id ← jget "id" payload;
  l ← jiter params;
  Ok (JObj [("id", id); ("result", ex_answer method l)]).

(** The node answers a batch in the opposite order. *)
Definition ex_transport (attempt : nat) (url : string) (payload : json) : result json :=
  match payload with
  | JArr calls => l ← mapR ex_reply calls; Ok (JArr (rev l))
  | _ => ex_reply payload
  end.

Definition ex_audit (classification hash amount : string) : string := write_csv
  [["source_transaction_hash"; "source_block"; "from"; "classification"; "classification_source"; "amount_atto"; "source_transaction_from";
    "source_transaction_to"; "source_input_selector"];
   [hash; "77"; "0xsender"; classification; "compatible_replay"; amount; "0xS"; "0xT"; "0x1234"];
   [hash; "77"; "0xsender"; classification; ""; "9"; "0xS"; "0xT"; "0x1234"]].

Definition ex_args : args := Args "http://shard0" "http://shard1" "audit0.csv" "audit1.csv" "transactions.csv" "edges.csv" "summary.json".

Definition ex_world : world := World (list_to_map
  [("audit0.csv", ex_audit "rollback_leak" "0xH1" "40"); ("audit1.csv", ex_audit "valid_source_debit" "0xH2" "50")]) None.

Definition ex_nothing : flows * json := (Flows no_records [] JNull [], JNull).
Definition ex_output : flows * json := get ex_nothing (main ex_transport 1700000000 ex_args ex_world).1.

Lemma ex_main_flow : main ex_transport 1700000000 ex_args ex_world = (Ok (ex_output.1, ex_output.2), (main ex_transport 1700000000 ex_args ex_world).2).
Proof. rewrite <-surjective_pairing. apply run_Ok, get_Ok. by vm_compute. Qed.

Example ex_distribution : snd <$> fl_distributions ex_output.1 =
  [Distribution 2 130 110 20 1 0 1 0 1; Distribution 0 0 0 0 0 0 0 0 0].
Proof. by vm_compute. Qed.

Lemma flow_well_formed_witness : NoDup (order (fl_records ex_output.1)) ∧ length (order (fl_records ex_output.1)) = 10%nat.
Proof.
  destruct (flow_well_formed ex_transport 1700000000 ex_args ex_world _ _ _ ex_main_flow) as [H _]. split; [exact H|]. by vm_compute.
Defined.

Lemma ex_gives : gives ex_transport "http://shard0" ex_answer.
Proof.
  intros attempt calls response items item id i method params e v Hr Hj Hin Hid Hk Hi _ _ Hv. unfold ex_transport, requests in Hr.
  apply bind_Ok in Hr as (l & Hl%mapR_Ok & [= <-]). injection Hj as <-. rewrite <-Permutation_rev in Hin.
  apply list_elem_of_lookup in Hin as [j Hlj]. destruct (Forall2_lookup_r _ _ _ _ _ Hl Hlj) as (p & Hp & Hrep).
  rewrite list_lookup_imap in Hp. destruct (calls !! j) as [[mj pj]|] eqn:Hc; [|done]. injection Hp as <-. injection Hrep as <-.
  injection Hid as <-. injection Hk as Hk. injection Hv as <-. assert (i = j) as <- by lia. rewrite Hi in Hc. by injection Hc as <- <-.
Qed.

Lemma distribution_bounds_witness :
  length (fl_distributions ex_output.1) = 2%nat ∧
  ∀ id, id ∈ fl_distributions ex_output.1 → 0 ≤ d_held id.2 ≤ d_distributed id.2 ∧ d_intact id.2 + d_zero id.2 + d_partial id.2 = d_recipients id.2.
Proof.
  destruct (distribution_bounds ex_transport ex_answer 1700000000 ex_args ex_world _ _ _ ex_gives ex_main_flow) as (_ & b & n & H).
  split; [apply Forall2_length in H; symmetry; exact H|]. intros id [i Hi]%list_elem_of_lookup.
  destruct (Forall2_lookup_r _ _ _ _ _ H Hi) as (ic & _ & _ & _ & Hnode & _ & Hbounds & _). apply Hbounds. intros x Hx.
  destruct (Hnode x Hx) as [Hbal _]. assert (Hh : fl_head ex_output.1 = JStr "0x9") by by vm_compute. rewrite Hh in Hbal.
  cbn [ex_answer] in Hbal. rewrite bool_decide_eq_true_2 in Hbal by done. destruct (bool_decide (x = "0xaa")); vm_compute in Hbal; injection Hbal as <-; done.
Defined.

Lemma ex_outputs_apart : outputs_apart ex_args.
Proof. apply (bool_decide_unpack _). by vm_compute. Qed.

Lemma flow_tables_agree_witness : ∃ t0 t1, sum_by audit_amount (dict_rows t0 ++ dict_rows t1) = 108.
Proof.
  destruct (flow_tables_agree ex_transport 1700000000 ex_args ex_world _ _ _ ex_outputs_apart ex_main_flow) as (t0 & t1 & _ & _ & _ & Ht0 & Ht1 & _).
  exists t0, t1. vm_compute in Ht0, Ht1. injection Ht0 as <-. injection Ht1 as <-. by vm_compute.
Defined.
