(* ===== verification/Creation.v ===== *)
(** * The blocks in which accounts were created

    toolkit/scripts/cutoff/verify-created-accounts.py: for each account that a state diff reports
    as created, finds the block of its creation by bisection over the node's historical state, all accounts at
    once, and looks for a transaction of that block that names the account.

    [search] is the loop of the bisection, [search_round] its body; [evidence_for] looks at one block;
    [main] adds the table and its summary. *)
From S2P Require Import Prelude PyStr PyData Sha256 Files Csv Base16 Batch.

Record args := Args {
  a_state_diff : string;
  a_rpc : string;
  a_old_block : Z;
  a_new_block : Z;
  a_output : string;
  a_summary : string;
}.

Definition file_sha256 : string → IO string := file_sha256_at (Z.to_nat (4 * 1024 * 1024)).

(** ** Presence and addresses *)

(** [exists(balance, nonce, code)]; the nonce is only read when the balance is zero. *)
Definition exists_account (balance nonce code : json) : result bool :=
  b ← jint16 balance;
  if negb (b =? 0) then Ok true
  else
    n ← jint16 nonce;
    Ok (negb (n =? 0) || negb (jeq_str code "0x" || jeq_str code "0x0")).

Definition ADDRESS_KEYS : list string := ["from"; "to"; "address"; "refundaddress"; "author"; "beneficiary"].

Definition named_address (key : string) (item : json) : gset string :=
  match item with
  | JStr s =>
      if bool_decide (lower key ∈ ADDRESS_KEYS) && (String.length s =? 42)%nat && startswith "0x" s then {[lower s]} else ∅
  | _ => ∅
  end.

(** [address_values(value)] *)
Fixpoint address_values (value : json) : gset string :=
  match value with
  | JObj m => ⋃ (map (λ kv, named_address kv.1 kv.2 ∪ address_values kv.2) m)
  | JArr l => ⋃ (map address_values l)
  | _ => ∅
  end.

(** [transaction_hash_for_address(traces, address)]: the hash and whether there is evidence *)
Fixpoint hash_for_address (traces : list json) (address : string) : result (option json) :=
  match traces with
  | [] => Ok None
  | trace :: traces =>
      if bool_decide (lower address ∈ address_values trace) then h ← jget_or "transactionHash" (JStr EmptyString) trace; Ok (Some h)
      else hash_for_address traces address
  end.

(** The loop over the transactions of a block, up to [break]. *)
Fixpoint transaction_naming (transactions : list json) (address : string) : result (option json) :=
  match transactions with
  | [] => Ok None
  | transaction :: transactions =>
      f ← jget_or "from" (JStr EmptyString) transaction; f ← jstr f;
      t ← jget_or "to" (JStr EmptyString) transaction; t ← jstr t;
      if bool_decide (address = lower f ∨ address = lower t) then h ← jget_or "hash" (JStr EmptyString) transaction; Ok (Some h)
      else transaction_naming transactions address
  end.

(** ** The accounts *)
Definition is_created (r : row) : result bool := c ← cell r "change_type"; Ok (bool_decide (c = Some "created")).

Fixpoint keep_created (rows : list row) : result (list row) :=
  match rows with
  | [] => Ok []
  | r :: rows => c ← is_created r; l ← keep_created rows; Ok (if (c : bool) then r :: l else l)
  end.

(** [bounds] is a dict whose keys do not change; [ac_addresses] has them in order of insertion. *)
Record accounts := Accounts { ac_addresses : list string; ac_rows : gmap string row }.

Definition no_accounts : accounts := Accounts [] ∅.

(** [bounds] and [by_address] *)
Definition account_step (s : accounts) (r : row) : result accounts :=
  a ← cell_str r "address";
  let k := lower a in
  Ok (Accounts (if decide (is_Some (ac_rows s !! k)) then ac_addresses s else ac_addresses s ++ [k]) (<[k := r]> (ac_rows s))).

Definition accounts_of (created : list row) : result accounts := foldM account_step no_accounts created.

Abbreviation interval := (Z * Z)%type.
Definition midpoint (b : interval) : Z := b.1 + (b.2 - b.1) / 2.
Definition open_interval (b : interval) : bool := b.1 <? b.2.

Definition first_bounds (a : args) (s : accounts) : gmap string interval :=
  list_to_map ((λ k, (k, (a_old_block a + 1, a_new_block a))) <$> ac_addresses s).

(** [active] *)
Definition active (addresses : list string) (bounds : gmap string interval) : list (string * Z) :=
  omap (λ a, match bounds !! a with Some b => if open_interval b then Some (a, midpoint b) else None | None => None end) addresses.

Definition account_calls (ab : string * Z) : list (string * list json) :=
  let params := [JStr ab.1; JStr (hex_of ab.2)] in
  [("eth_getBalance", params); ("eth_getTransactionCount", params); ("eth_getCode", params)].

Definition narrow (bounds : gmap string interval) (a : string) (block : Z) (present : bool) : gmap string interval :=
  match bounds !! a with
  | Some (low, high) => <[a := if present then (low, block) else (block + 1, high)]> bounds
  | None => bounds
  end.

Definition value_at (values : list json) (i : nat) : result json := of_option (values !! i) IndexError.

(** The body of the loop over the answers of a round. *)
Definition answer_for (values : list json) (bounds : gmap string interval) (iab : nat * (string * Z)) : result (gmap string interval) :=
  balance ← value_at values (iab.1 * 3);
  nonce ← value_at values (iab.1 * 3 + 1);
  code ← value_at values (iab.1 * 3 + 2);
  present ← exists_account balance nonce code;
  Ok (narrow bounds iab.2.1 iab.2.2 present).

Section node.
Context (transport : nat → string → json → result json).

Definition rpc (url method : string) (params : list json) : result json :=
  retry_all 6 "rpc failed" (λ attempt, response ← transport attempt url (request 1 method params); result_of response).

Definition rpc_batch (url : string) (calls : list (string * list json)) : result (list json) :=
  retry_all 6 "batch failed" (λ attempt,
    response ← transport attempt url (requests 0 calls);
    m ← by_id response;
    results_of m calls).

(** The body of [while any(low < high ...)] *)
Definition search_round (url : string) (addresses : list string) (bounds : gmap string interval) : result (gmap string interval) :=
  let act := active addresses bounds in
  values ← rpc_batch url (act ≫= account_calls);
  foldM (answer_for values) bounds (imap pair act).

Fixpoint search (fuel : nat) (url : string) (addresses : list string) (bounds : gmap string interval) : result (gmap string interval) :=
  match active addresses bounds with
  | [] => Ok bounds
  | _ =>
      match fuel with
      | O => Err OutOfFuel
      | S fuel => bounds ← search_round url addresses bounds; search fuel url addresses bounds
      end
  end.

(** Each round halves every open interval. *)
Definition rounds (a : args) : nat := S (Z.to_nat (Z.log2 (a_new_block a - a_old_block a - 1))).

(** ** The evidence *)
Inductive evidence := ByTrace | ByTransaction | ByProtocol.

#[export] Instance evidence_eq_dec : EqDecision evidence.
Proof. solve_decision. Defined.

Definition evidence_text (e : evidence) : string :=
  match e with ByTrace => "trace" | ByTransaction => "block_transaction" | ByProtocol => "protocol_state_transition" end.

Definition evidence_for (url address : string) (block : Z) : result (json * evidence) :=
  traces ← rpc url "trace_block" [JStr (hex_of block)];
  l ← jiter traces;
  found ← hash_for_address l address;
  match found with
  | Some h => Ok (h, ByTrace)
  | None =>
      full_block ← rpc url "eth_getBlockByNumber" [JStr (hex_of block); JBool true];
      transactions ← jget_or "transactions" (JArr []) full_block;
      ts ← jiter transactions;
      named ← transaction_naming ts address;
      Ok (match named with Some h => (h, ByTransaction) | None => (JStr EmptyString, ByProtocol) end)
  end.

Record transition := Transition {
  tr_secure_key : option string;
  tr_address : string;
  tr_block : Z;
  tr_hash : json;
  tr_evidence : evidence;
  tr_balance : option string;
  tr_nonce : option string;
  tr_code_hash : option string;
}.

(** The body of the loop over [sorted(bounds)]. *)
Definition transition_of (url : string) (s : accounts) (bounds : gmap string interval) (address : string) : result transition :=
  b ← of_option (bounds !! address) (KeyError address);
  he ← evidence_for url address b.1;
  r ← of_option (ac_rows s !! address) (KeyError address);
  k ← cell r "secure_key";
  a ← cell_str r "address";
  balance ← cell r "new_balance_atto";
  nonce ← cell r "new_nonce";
  code ← cell r "new_code_hash";
  Ok (Transition k a b.1 he.1 he.2 balance nonce code).

Definition fields : list string :=
  ["secure_key"; "address"; "transition_block"; "transaction_hash"; "evidence"; "new_balance_atto"; "new_nonce"; "new_code_hash"].

Definition record_of (t : transition) : list string :=
  [cell_text (tr_secure_key t); tr_address t; str_of_Z (tr_block t); csv_value (tr_hash t); evidence_text (tr_evidence t);
   cell_text (tr_balance t); cell_text (tr_nonce t); cell_text (tr_code_hash t)].

Definition with_evidence (e : evidence) (ts : list transition) : Z := sum_by (λ t, Z.b2z (bool_decide (tr_evidence t = e))) ts.

Definition summary_json (a : args) (created : list row) (ts : list transition) (output_sha diff_sha : string) : json :=
  JObj [("status", JStr "passed"); ("created_accounts", JInt (Z.of_nat (length created)));
        ("trace_matches", JInt (with_evidence ByTrace ts)); ("block_transaction_matches", JInt (with_evidence ByTransaction ts));
        ("protocol_state_transitions", JInt (with_evidence ByProtocol ts)); ("output", JStr (a_output a));
        ("output_sha256", JStr output_sha); ("state_diff_sha256", JStr diff_sha)].

(** [main] up to the table; [fields = list(output_rows[0])] needs a row. *)
Definition transitions (a : args) (created : list row) : result (gmap string interval * list transition) :=
  s ← accounts_of created;
  bounds ← search (rounds a) (a_rpc a) (ac_addresses s) (first_bounds a s);
  ts ← mapR (transition_of (a_rpc a) s bounds) (sort_by str_leb (ac_addresses s));
  raise_when (match ts with [] => true | _ => false end) IndexError;;
  Ok (bounds, ts).

Definition main (a : args) : IO (list transition * json) :=
  for_io refuse_existing [a_output a; a_summary a] ≫= λ _,
  text ← read (a_state_diff a);
  created ← lift (keep_created (dict_rows text));
  bt ← lift (transitions a created);
  publish (a_output a) (csv_line <$> (fields :: (record_of <$> bt.2))) ≫= λ _,
  output_sha ← file_sha256 (a_output a);
  diff_sha ← file_sha256 (a_state_diff a);
  let result := summary_json a created bt.2 output_sha diff_sha in
  publish (a_summary a) [dumps result; newline] ≫= λ _,
  mret (bt.2, result).
End node.

(** ** Lemmas: one round *)
Lemma active_spec addresses bounds i a block :
  active addresses bounds !! i = Some (a, block) → ∃ b, bounds !! a = Some b ∧ open_interval b = true ∧ block = midpoint b.
Proof.
  intros Hi%list_elem_of_lookup_2. unfold active in Hi. apply list_elem_of_omap in Hi as (x & _ & Hx).
  destruct (bounds !! x) as [b|] eqn:E; [|done]. destruct (open_interval b) eqn:Ho; [|done]. injection Hx as -> <-. by exists b.
Qed.

Lemma active_keys addresses bounds : NoDup addresses → NoDup (active addresses bounds).*1.
Proof.
  intros Hnd. unfold active. induction Hnd as [|a l Ha Hnd IH]; [constructor|]. cbn [omap list_omap].
  destruct (bounds !! a) as [b|]; [|exact IH]. destruct (open_interval b); [|exact IH]. rewrite fmap_cons. constructor; [|exact IH].
  intros (x & Hx & Hin)%list_elem_of_fmap. apply list_elem_of_omap in Hin as (y & Hy & Hy'). apply Ha.
  destruct (bounds !! y) as [c|]; [|done]. destruct (open_interval c); [|done]. injection Hy' as <-. simpl in Hx. by subst.
Qed.

Lemma active_elem addresses bounds a b :
  a ∈ addresses → bounds !! a = Some b → open_interval b = true → (a, midpoint b) ∈ active addresses bounds.
Proof. intros Ha Hb Ho. unfold active. apply list_elem_of_omap. exists a. by rewrite Hb, Ho. Qed.

(** [says a block p]: what is known when the answers about [a] at [block] amount to [p]. *)
Section observed.
Context (says : string → Z → bool → Prop).

(** The new interval of an account. *)
Definition halved (b : interval) (present : bool) : interval := if present then (b.1, midpoint b) else (midpoint b + 1, b.2).

Record round_ok (addresses : list string) (bounds bounds' : gmap string interval) : Prop := {
  ro_open : ∀ a b, a ∈ addresses → bounds !! a = Some b → open_interval b = true →
              ∃ p, says a (midpoint b) p ∧ bounds' !! a = Some (halved b p);
  ro_closed : ∀ a b, bounds !! a = Some b → (a ∉ addresses ∨ open_interval b = false) → bounds' !! a = Some b;
  ro_dom : ∀ a, bounds !! a = None → bounds' !! a = None;
}.

(** The loop over the answers, after those of [done]. *)
Record answered (bounds bounds1 : gmap string interval) (l : list (nat * (string * Z))) : Prop := {
  an_done : ∀ i a block, (i, (a, block)) ∈ l → ∃ b p, bounds !! a = Some b ∧ block = midpoint b ∧ says a block p ∧
              bounds1 !! a = Some (halved b p);
  an_left : ∀ a, a ∉ (l.*2).*1 → bounds1 !! a = bounds !! a;
}.

Definition answered_by (act : list (string * Z)) (values : list json) : Prop :=
  ∀ i a block balance nonce code p, act !! i = Some (a, block) →
    value_at values (i * 3) = Ok balance → value_at values (i * 3 + 1) = Ok nonce → value_at values (i * 3 + 2) = Ok code →
    exists_account balance nonce code = Ok p → says a block p.

Lemma answer_for_Ok act values bounds i a block bounds' :
  answered_by act values → act !! i = Some (a, block) → answer_for values bounds (i, (a, block)) = Ok bounds' →
  ∃ p, says a block p ∧ bounds' = narrow bounds a block p.
Proof.
  intros Hv Hact Hs. unfold answer_for in Hs. cbn [fst snd] in Hs. inv_ok Hs. subst bounds'. exists v2. split; [|done]. by eapply Hv.
Qed.

Lemma answers_loop addresses bounds values bounds' :
  NoDup addresses → answered_by (active addresses bounds) values →
  foldM (answer_for values) bounds (imap pair (active addresses bounds)) = Ok bounds' →
  answered bounds bounds' (imap pair (active addresses bounds)).
Proof.
  intros Hnd Hv. pose proof (active_keys addresses bounds Hnd) as Hkeys. set (act := active addresses bounds) in *.
  apply (foldM_ind_split _ (λ l b, answered bounds b l)); [by split; [intros ??? ?%not_elem_of_nil|]|].
  intros pre [i [a block]] post s1 s2 Hl [Hd Hleft] Hs. pose proof (imap_pair_at _ _ _ _ _ Hl) as Hact.
  destruct (active_spec _ _ _ _ _ Hact) as (b & Hb & _ & ->).
  apply (answer_for_Ok act) in Hs as (p & Hp & ->); [|done..].
  assert (Hfresh : a ∉ (pre.*2).*1).
  { intros Hin. rewrite <-(imap_pair_snd act), Hl, !fmap_app in Hkeys. apply NoDup_app in Hkeys as (_ & Hn & _). apply (Hn a Hin). by left. }
  assert (narrow s1 a (midpoint b) p = <[a := halved b p]> s1) as ->.
  { unfold narrow. rewrite Hleft, Hb by done. by destruct b, p. }
  split.
  - intros i' a' block' [Hin| [= -> -> ->]%list_elem_of_singleton]%elem_of_app; [|exists b, p; by rewrite lookup_insert_eq].
    rewrite lookup_insert_ne; [by eapply Hd|]. intros ->. apply Hfresh. apply (list_elem_of_fmap_2 fst _ (a', block')).
    by apply (list_elem_of_fmap_2 snd _ (i', (a', block'))).
  - intros a' Ha'. rewrite !fmap_app in Ha'. apply not_elem_of_app in Ha' as [Ha1 Ha2]. rewrite lookup_insert_ne; [by apply Hleft|].
    intros ->. apply Ha2. by left.
Qed.

Lemma active_inv addresses bounds x :
  x ∈ active addresses bounds → x.1 ∈ addresses ∧ ∃ b, bounds !! x.1 = Some b ∧ open_interval b = true.
Proof.
  intros Hx. unfold active in Hx. apply list_elem_of_omap in Hx as (y & Hy & Hy'). destruct (bounds !! y) as [c|] eqn:E; [|done].
  destruct (open_interval c) eqn:Ho; [|done]. injection Hy' as <-. split; [done|]. by exists c.
Qed.

Lemma round_Ok addresses bounds bounds' values :
  NoDup addresses → answered_by (active addresses bounds) values →
  foldM (answer_for values) bounds (imap pair (active addresses bounds)) = Ok bounds' → round_ok addresses bounds bounds'.
Proof.
  intros Hnd Hv [Hd Hl]%answers_loop; [|done..]. rewrite imap_pair_snd in Hl. split.
  - intros a b Ha Hb Ho. pose proof (active_elem addresses bounds a b Ha Hb Ho) as Hin. apply list_elem_of_lookup in Hin as [i Hi].
    destruct (Hd i a (midpoint b)) as (b' & p & Hb' & _ & Hp & Hr); [apply list_elem_of_lookup; exists i; by rewrite list_lookup_imap, Hi|].
    rewrite Hb in Hb'. injection Hb' as <-. by exists p.
  - intros a b Hb Hc. rewrite Hl; [done|]. intros (x & -> & Hx)%list_elem_of_fmap. apply active_inv in Hx as (Hin & c & Hc' & Ho).
    destruct Hc; congruence.
  - intros a Hb. rewrite Hl; [done|]. intros (x & -> & Hx)%list_elem_of_fmap. apply active_inv in Hx as (_ & c & Hc' & _). congruence.
Qed.
End observed.

(** ** Lemmas: the search *)
Lemma lookup_triples act i ab j c :
  act !! i = Some ab → account_calls ab !! j = Some c → (act ≫= account_calls) !! (i * 3 + j)%nat = Some c.
Proof.
  revert i. induction act as [|x act IH]; intros i Hi Hj; [done|]. rewrite bind_cons.
  assert (Hjl : (j < 3)%nat) by (apply lookup_lt_Some in Hj; done).
  destruct i as [|i]; simpl in Hi.
  - injection Hi as ->. simpl Nat.mul. rewrite lookup_app_l by (simpl; lia). done.
  - rewrite lookup_app_r by (simpl; lia). replace (S i * 3 + j - length (account_calls x))%nat with (i * 3 + j)%nat by (simpl; lia).
    by apply IH.
Qed.


(** The interval of an account is open or is one block, and its ends are known. *)
Section known.
Context (says : string → Z → bool → Prop) (old new : Z).

Definition known (a : string) (b : interval) : Prop :=
  old < b.1 ≤ b.2 ∧ b.2 ≤ new ∧ (b.2 = new ∨ says a b.2 true) ∧ (b.1 = old + 1 ∨ says a (b.1 - 1) false).

Lemma midpoint_between b : open_interval b = true → b.1 ≤ midpoint b < b.2.
Proof.
  unfold open_interval, midpoint. intros H%Z.ltb_lt. pose proof (Z.div_mod (b.2 - b.1) 2). pose proof (Z.mod_pos_bound (b.2 - b.1) 2). lia.
Qed.

Lemma known_halved a b p : known a b → open_interval b = true → says a (midpoint b) p → known a (halved b p).
Proof.
  intros (H1 & H2 & H3 & H4) Ho Hp. pose proof (midpoint_between b Ho). unfold known, halved. destruct p; simpl.
  - split_and!; [lia..|by right|done].
  - split_and!; [lia..|done|]. right. by replace (midpoint b + 1 - 1) with (midpoint b) by lia.
Qed.

Lemma halved_width k b p : open_interval b = true → b.2 - b.1 < 2 ^ (k + 1) → 0 ≤ k → (halved b p).2 - (halved b p).1 < 2 ^ k.
Proof.
  intros Ho Hw Hk. rewrite Z.pow_add_r in Hw by lia. unfold halved, midpoint. pose proof (Z.div_mod (b.2 - b.1) 2).
  pose proof (Z.mod_pos_bound (b.2 - b.1) 2). destruct p; simpl; lia.
Qed.

Definition all_known (addresses : list string) (bounds : gmap string interval) : Prop :=
  ∀ a, a ∈ addresses → ∃ b, bounds !! a = Some b ∧ known a b.

Definition narrower (k : Z) (addresses : list string) (bounds : gmap string interval) : Prop :=
  ∀ a b, a ∈ addresses → bounds !! a = Some b → b.2 - b.1 < 2 ^ k.

Lemma round_known addresses bounds bounds' :
  round_ok says addresses bounds bounds' → all_known addresses bounds → all_known addresses bounds'.
Proof.
  intros [Ho Hc _] Hk a Ha. destruct (Hk a Ha) as (b & Hb & Hkn). destruct (open_interval b) eqn:E.
  - destruct (Ho a b Ha Hb E) as (p & Hp & Hb'). exists (halved b p). split; [done|]. by apply known_halved.
  - exists b. split; [|done]. apply Hc; [done|by right].
Qed.

Lemma round_narrower addresses bounds bounds' k :
  0 ≤ k → round_ok says addresses bounds bounds' → narrower (k + 1) addresses bounds → narrower k addresses bounds'.
Proof.
  intros Hk [Ho Hc Hd] Hn a b' Ha Hb'. destruct (bounds !! a) as [b|] eqn:Hb; [|by rewrite (Hd a Hb) in Hb'].
  destruct (open_interval b) eqn:E.
  - destruct (Ho a b Ha Hb E) as (p & _ & Hx). rewrite Hx in Hb'. injection Hb' as <-. apply halved_width; [done| |done]. by apply (Hn a).
  - rewrite (Hc a b Hb) in Hb' by (by right). injection Hb' as <-. unfold open_interval in E. apply Z.ltb_ge in E.
    pose proof (Z.pow_pos_nonneg 2 k). lia.
Qed.

Lemma active_nil addresses bounds :
  active addresses bounds = [] ↔ ∀ a b, a ∈ addresses → bounds !! a = Some b → open_interval b = false.
Proof.
  split.
  - intros Hn a b Ha Hb. destruct (open_interval b) eqn:E; [|done]. pose proof (active_elem _ _ _ _ Ha Hb E) as Hin.
    rewrite Hn in Hin. by apply not_elem_of_nil in Hin.
  - intros H. destruct (active addresses bounds) as [|x l] eqn:E; [done|]. destruct (active_inv addresses bounds x) as (Hin & b & Hb & Ho);
      [rewrite E; by left|]. by rewrite (H x.1 b) in Ho.
Qed.
End known.

Section node.
Context (transport : nat → string → json → result json) (url : string).

Lemma rpc_batch_speaks f calls values i method params :
  speaks transport url f → rpc_batch transport url calls = Ok values → calls !! i = Some (method, params) → values !! i = Some (f method params).
Proof.
  intros Hf H Hi. unfold rpc_batch in H. apply retry_all_Ok in H as (n & _ & H). apply bind_Ok in H as (response & Hr & H).
  apply bind_Ok in H as (m & Hm & H). rewrite (results_speak _ _ _ _ _ _ _ _ Hf Hr Hm H), list_lookup_fmap, Hi. done.
Qed.

(** What the node says of an account at a block, when it answers with [f]. *)
Definition observed (f : string → list json → json) (a : string) (block : Z) : result bool :=
  let params := [JStr a; JStr (hex_of block)] in
  exists_account (f "eth_getBalance" params) (f "eth_getTransactionCount" params) (f "eth_getCode" params).

Lemma speaks_answered f act values :
  speaks transport url f → rpc_batch transport url (act ≫= account_calls) = Ok values → answered_by (λ a block p, observed f a block = Ok p) act values.
Proof.
  intros Hf Hv i a block balance nonce code p Hi Hb Hn Hc Hp.
  assert (Hget : ∀ j method params v, account_calls (a, block) !! j = Some (method, params) → value_at values (i * 3 + j) = Ok v → v = f method params).
  { intros j method params v Hj Hval. pose proof (lookup_triples act i (a, block) j _ Hi Hj) as Hx.
    pose proof (rpc_batch_speaks f _ _ _ _ _ Hf Hv Hx) as Hy. unfold value_at in Hval. rewrite Hy in Hval. by injection Hval as <-. }
  rewrite <-(Nat.add_0_r (i * 3)) in Hb.
  rewrite (Hget 0%nat _ _ _ eq_refl Hb), (Hget 1%nat _ _ _ eq_refl Hn), (Hget 2%nat _ _ _ eq_refl Hc) in Hp. exact Hp.
Qed.

Lemma search_round_Ok (says : string → Z → bool → Prop) addresses bounds bounds' :
  NoDup addresses →
  (∀ act values, rpc_batch transport url (act ≫= account_calls) = Ok values → answered_by says act values) →
  search_round transport url addresses bounds = Ok bounds' → round_ok says addresses bounds bounds'.
Proof.
  intros Hnd Hs H. unfold search_round in H. apply bind_Ok in H as (values & Hv & H). by apply (round_Ok says _ _ _ values); [|apply Hs|].
Qed.

Lemma search_Ok (says : string → Z → bool → Prop) old new fuel addresses bounds bounds' :
  NoDup addresses →
  (∀ act values, rpc_batch transport url (act ≫= account_calls) = Ok values → answered_by says act values) →
  all_known says old new addresses bounds → search transport fuel url addresses bounds = Ok bounds' →
  all_known says old new addresses bounds' ∧ active addresses bounds' = [].
Proof.
  intros Hnd Hs. revert bounds. induction fuel as [|fuel IH]; intros bounds Hk; cbn [search]; destruct (active addresses bounds) eqn:E;
    try (by intros [= <-]). intros H. apply bind_Ok in H as (b1 & H1 & H). apply (IH b1); [|done].
  eapply round_known; [|exact Hk]. by apply search_round_Ok.
Qed.

Lemma returns_exists_account balance nonce code : returns (exists_account balance nonce code).
Proof.
  unfold exists_account. apply returns_bind; [auto with py|intros b _]. destruct (negb (b =? 0)); [auto with py|].
  apply returns_bind; auto with py.
Qed.

Lemma returns_search_round addresses bounds : (∀ n u p, returns (transport n u p)) → returns (search_round transport url addresses bounds).
Proof.
  intros Ht. unfold search_round, rpc_batch. apply returns_bind.
  - apply returns_retry_all. intros i. apply returns_bind; [apply Ht|intros r _]. apply returns_bind; [apply returns_by_id|intros m _].
    apply returns_results_of.
  - intros values _. apply returns_foldM. intros s x _. unfold answer_for, value_at.
    do 3 (apply returns_bind; [auto with py|intros ? _]). apply returns_bind; [apply returns_exists_account|auto with py].
Qed.

Lemma returns_search fuel addresses bounds :
  (∀ n u p, returns (transport n u p)) → NoDup addresses → narrower (Z.of_nat fuel) addresses bounds →
  returns (search transport fuel url addresses bounds).
Proof.
  intros Ht Hnd. revert bounds. induction fuel as [|fuel IH]; intros bounds Hn; cbn [search].
  - rewrite (proj2 (active_nil _ _)); [apply returns_Ok|]. intros a b Ha Hb. specialize (Hn a b Ha Hb). unfold open_interval. simpl in Hn. lia.
  - destruct (active addresses bounds); [apply returns_Ok|]. apply returns_bind; [by apply returns_search_round|]. intros b1 H1.
    apply IH. apply (round_narrower (λ _ _ _, True) addresses bounds); [lia| |by replace (Z.of_nat fuel + 1) with (Z.of_nat (S fuel)) by lia].
    apply search_round_Ok; [done|by intros|done].
Qed.
End node.

(** ** Lemmas: the accounts *)
Record accounts_ok (rows : list row) (s : accounts) : Prop := {
  ao_nodup : NoDup (ac_addresses s);
  ao_dom : ∀ k, k ∈ ac_addresses s ↔ is_Some (ac_rows s !! k);
  ao_rows : ∀ k r, ac_rows s !! k = Some r → r ∈ rows ∧ ∃ a, cell_str r "address" = Ok a ∧ lower a = k;
  ao_all : ∀ r, r ∈ rows → ∃ a, cell_str r "address" = Ok a ∧ lower a ∈ ac_addresses s;
}.

Lemma accounts_of_Ok rows s : accounts_of rows = Ok s → accounts_ok rows s.
Proof.
  apply (foldM_ind _ accounts_ok).
  - split; [constructor| | |]; try by intros ? ?%not_elem_of_nil.
    + intros k. simpl. rewrite lookup_empty. split; [by intros ?%not_elem_of_nil|by intros [? ?]].
    + intros k r. simpl. by rewrite lookup_empty.
  - intros pre r s1 s2 [H1 H2 H3 H4] _ H. unfold account_step in H. apply bind_Ok in H as (a & Ha & [= <-]).
    assert (Hin : ∀ k, k ∈ (if decide (is_Some (ac_rows s1 !! lower a)) then ac_addresses s1 else ac_addresses s1 ++ [lower a]) ↔
                       k ∈ ac_addresses s1 ∨ k = lower a).
    { intros k. case_decide as Hd; [|by rewrite elem_of_app, list_elem_of_singleton]. split; [by left|]. intros [Hk| ->]; [done|by apply H2]. }
    split; simpl.
    + case_decide as Hd; [done|]. apply NoDup_snoc; [done|]. by rewrite H2.
    + intros k. rewrite Hin, H2, lookup_insert_is_Some. split; [intros [Hk| ->]; [|by left]|].
      * destruct (decide (lower a = k)); [by left|by right].
      * intros [->|[_ Hk]]; [by right|by left].
    + intros k x [[<- <-]|[_ Hx]]%lookup_insert_Some; [split; [set_solver|by exists a]|].
      destruct (H3 k x Hx) as [? ?]. split; [set_solver|done].
    + intros x [Hx|Hx%list_elem_of_singleton]%elem_of_app.
      * destruct (H4 x Hx) as (b & Hb & Hl). exists b. split; [done|]. apply Hin. by left.
      * subst x. exists a. split; [done|]. apply Hin. by right.
Qed.

Lemma first_bounds_at a s k :
  NoDup (ac_addresses s) → first_bounds a s !! k = if decide (k ∈ ac_addresses s) then Some (a_old_block a + 1, a_new_block a) else None.
Proof.
  intros Hnd. unfold first_bounds. case_decide as Hk.
  - apply elem_of_list_to_map_1; [by rewrite <-list_fmap_compose, list_fmap_id|].
    apply list_elem_of_fmap. by exists k.
  - apply not_elem_of_list_to_map_1. rewrite <-list_fmap_compose, list_fmap_id. done.
Qed.

Section node.
Context (transport : nat → string → json → result json).

(** ** Lemmas: the evidence *)
Definition trace_names (url address : string) (block : Z) : Prop :=
  ∃ traces l trace, rpc transport url "trace_block" [JStr (hex_of block)] = Ok traces ∧ jiter traces = Ok l ∧ trace ∈ l ∧
  lower address ∈ address_values trace.

Definition names (address : string) (transaction : json) : Prop :=
  ∃ k v s, (k = "from" ∨ k = "to") ∧ jget_or k (JStr EmptyString) transaction = Ok v ∧ jstr v = Ok s ∧ address = lower s.

Definition transaction_names (url address : string) (block : Z) : Prop :=
  ∃ full v ts transaction, rpc transport url "eth_getBlockByNumber" [JStr (hex_of block); JBool true] = Ok full ∧
  jget_or "transactions" (JArr []) full = Ok v ∧ jiter v = Ok ts ∧ transaction ∈ ts ∧ names address transaction.

Lemma hash_for_address_Ok traces address o :
  hash_for_address traces address = Ok o → is_Some o ↔ ∃ trace, trace ∈ traces ∧ lower address ∈ address_values trace.
Proof.
  induction traces as [|trace traces IH]; cbn [hash_for_address].
  - intros [= <-]. split; [by intros []|by intros (? & ?%not_elem_of_nil & _)].
  - case_bool_decide as Hin.
    + intros H. apply bind_Ok in H as (h & _ & [= <-]). split; [|by eauto]. intros _. exists trace. split; [by left|done].
    + intros ->%IH. split; intros (x & Hx & Ha); exists x; (split; [|done]); [by right|]. apply elem_of_cons in Hx as [->|]; done.
Qed.

Lemma transaction_naming_Ok ts address o :
  transaction_naming ts address = Ok o → is_Some o → ∃ transaction, transaction ∈ ts ∧ names address transaction.
Proof.
  induction ts as [|t ts IH]; cbn [transaction_naming]; [by intros [= <-] []|]. intros H Ho.
  apply bind_Ok in H as (fv & Hf & H). apply bind_Ok in H as (f & Hfs & H). apply bind_Ok in H as (tv & Ht & H).
  apply bind_Ok in H as (d & Hds & H). case_bool_decide as Hn; [|destruct (IH H Ho) as (x & ? & ?); exists x; split; [by right|done]].
  exists t. split; [by left|]. destruct Hn as [Hn|Hn]; [exists "from", fv, f|exists "to", tv, d]; split_and!; eauto.
Qed.

(** What each kind of evidence means. *)
Lemma evidence_for_Ok url address block h e :
  evidence_for transport url address block = Ok (h, e) →
  match e with
  | ByTrace => trace_names url address block
  | ByTransaction => ¬ trace_names url address block ∧ transaction_names url address block
  | ByProtocol => ¬ trace_names url address block
  end.
Proof.
  unfold evidence_for. intros H. apply bind_Ok in H as (traces & Hr & H). apply bind_Ok in H as (l & Hl & H).
  apply bind_Ok in H as (o & Ho & H). apply hash_for_address_Ok in Ho.
  assert (Hiff : trace_names url address block ↔ is_Some o).
  { rewrite Ho. split.
    - intros (t' & l' & x & Ht' & Hl' & Hx & Hin). rewrite Hr in Ht'. injection Ht' as <-. rewrite Hl in Hl'. injection Hl' as <-. by exists x.
    - intros (x & Hx & Hin). by exists traces, l, x. }
  destruct o as [o|]; [injection H as <- <-; by apply Hiff|].
  assert (¬ trace_names url address block) as Hno by (rewrite Hiff; by intros []).
  apply bind_Ok in H as (full & Hfull & H). apply bind_Ok in H as (v & Hv & H). apply bind_Ok in H as (ts & Hts & H).
  apply bind_Ok in H as (named & Hn & H). destruct named as [x|]; injection H as <- <-; [|done]. split; [done|].
  destruct (transaction_naming_Ok _ _ _ Hn) as (t & ? & ?); [done|]. by exists full, v, ts, t.
Qed.

(** ** Theorems *)
Lemma transition_of_Ok url s bounds address t :
  transition_of transport url s bounds address = Ok t →
  ∃ b r, bounds !! address = Some b ∧ tr_block t = b.1 ∧ ac_rows s !! address = Some r ∧ cell_str r "address" = Ok (tr_address t) ∧
    evidence_for transport url address b.1 = Ok (tr_hash t, tr_evidence t).
Proof.
  unfold transition_of. intros H. inv_ok H. subst t. exists v, v1. destruct v0 as [h e]. done.
Qed.

Lemma transitions_Ok a created bounds ts :
  transitions transport a created = Ok (bounds, ts) →
  ∃ s, accounts_ok created s ∧ search transport (rounds a) (a_rpc a) (ac_addresses s) (first_bounds a s) = Ok bounds ∧
    Forall2 (λ address t, transition_of transport (a_rpc a) s bounds address = Ok t) (sort_by str_leb (ac_addresses s)) ts ∧ ts ≠ [].
Proof.
  unfold transitions. intros H. apply bind_Ok in H as (s & Hs%accounts_of_Ok & H). apply bind_Ok in H as (b & Hb & H).
  apply bind_Ok in H as (l & Hl%mapR_Ok & H). apply bind_Ok in H as (u & Hu%raise_when_Ok & [= <- <-]). exists s. split_and!; [done..|].
  by destruct l.
Qed.

(** C31 (functional): the block reported for a created account is a block in which the account appears: it lies in the interval, the account is
    there (unless it is the last block, which is not asked about) and is not there in the block before (unless that is the old
    block); there is one row for each account, in order; and when an account that is there stays,
    it is the first such block. *)
Theorem creation_block f a created bounds ts :
  speaks transport (a_rpc a) f → a_old_block a < a_new_block a → transitions transport a created = Ok (bounds, ts) →
  StronglySorted str_lt ((λ t, lower (tr_address t)) <$> ts) ∧
  (∀ k, k ∈ (λ t, lower (tr_address t)) <$> ts ↔ ∃ r x, r ∈ created ∧ cell_str r "address" = Ok x ∧ k = lower x) ∧
  ∀ t, t ∈ ts → let k := lower (tr_address t) in
    a_old_block a < tr_block t ≤ a_new_block a ∧
    (tr_block t = a_new_block a ∨ observed f k (tr_block t) = Ok true) ∧
    (tr_block t = a_old_block a + 1 ∨ observed f k (tr_block t - 1) = Ok false) ∧
    ((∀ b b', a_old_block a < b ≤ b' → b' ≤ a_new_block a → observed f k b = Ok true → observed f k b' = Ok true) →
     observed f k (a_new_block a) = Ok true →
     observed f k (tr_block t) = Ok true ∧ ∀ b, a_old_block a < b < tr_block t → observed f k b ≠ Ok true).
Proof.
  intros Hf Hlt (s & [Hnd Hd Hr Hall] & Hb & Hts & _)%transitions_Ok.
  apply (search_Ok transport (a_rpc a) (λ x b p, observed f x b = Ok p) (a_old_block a) (a_new_block a)) in Hb as [Hk Hact]; [|done| |].
  2:{ intros act values. by apply speaks_answered. }
  2:{ intros k Hk. exists (a_old_block a + 1, a_new_block a). rewrite first_bounds_at, decide_True by done. split; [done|].
      unfold known. simpl. lia. }
  assert (Hkeys : (λ t, lower (tr_address t)) <$> ts = sort_by str_leb (ac_addresses s)).
  { clear -Hts Hr. induction Hts as [|k t ks ts Ht _ IH]; [done|]. rewrite fmap_cons, IH. f_equal.
    apply transition_of_Ok in Ht as (b & r & _ & _ & Hx & Ha & _). destruct (Hr _ _ Hx) as (_ & y & Hy & <-). congruence. }
  split_and!.
  - rewrite Hkeys. by apply sort_by_str_sorted.
  - intros k. rewrite Hkeys, sort_by_Permutation. split.
    + intros Hin. apply Hd in Hin as [r Hx]. destruct (Hr _ _ Hx) as (? & y & ? & <-). by exists r, y.
    + intros (r & x & Hin & Hx & ->). destruct (Hall r Hin) as (y & Hy & ?). congruence.
  - intros t Ht. apply list_elem_of_lookup in Ht as [i Hi]. destruct (Forall2_lookup_r _ _ _ _ _ Hts Hi) as (k & Hki & Ht).
    assert (k = lower (tr_address t)) as ->.
    { apply (f_equal (.!! i)) in Hkeys. rewrite list_lookup_fmap, Hi, Hki in Hkeys. by injection Hkeys. }
    set (k := lower (tr_address t)) in *. apply transition_of_Ok in Ht as (b & r & Hb & Hblock & _).
    assert (Hin : k ∈ ac_addresses s) by (rewrite <-(sort_by_Permutation str_leb); by eapply list_elem_of_lookup_2).
    destruct (Hk k Hin) as (b' & Hb' & H1 & H2 & H3 & H4). rewrite Hb in Hb'. injection Hb' as <-.
    pose proof (proj1 (active_nil _ _) Hact k b Hin Hb) as Hclosed. unfold open_interval in Hclosed. apply Z.ltb_ge in Hclosed.
    assert (b.2 = b.1) as Heq by lia. rewrite Heq in *. rewrite Hblock. cbv zeta. split_and!; [lia..|done|done|].
    intros Hmono Hnew. assert (Hlast : observed f k b.1 = Ok true) by (destruct H3 as [->|]; done). split; [done|].
    intros c Hc Hpres. destruct H4 as [Hx|H4]; [lia|]. rewrite (Hmono c (b.1 - 1)) in H4 by (lia || done). done.
Qed.

(** C32 (termination): the bisection ends: it takes at most [log2] of the width of the interval, plus one, rounds, whatever the node answers. *)
Theorem creation_terminates a created :
  (∀ n u p, returns (transport n u p)) → transitions transport a created ≠ Err OutOfFuel.
Proof.
  intros Ht. change (returns (transitions transport a created)). unfold transitions. apply returns_bind.
  - apply returns_foldM. intros s r _. unfold account_step. apply returns_bind; auto with py.
  - intros s Hs%accounts_of_Ok. apply returns_bind.
    + apply returns_search; [done|apply Hs|]. intros k b Hk. rewrite first_bounds_at, decide_True by (done || apply Hs). intros [= <-].
      unfold rounds. cbn [fst snd]. set (n := a_new_block a - a_old_block a - 1). replace (a_new_block a - (a_old_block a + 1)) with n by lia.
      rewrite Nat2Z.inj_succ, Z2Nat.id by apply Z.log2_nonneg. destruct (decide (0 < n)); [apply Z.log2_spec; lia|].
      pose proof (Z.pow_pos_nonneg 2 (Z.succ (Z.log2 n))). pose proof (Z.log2_nonneg n). lia.
    + intros bounds _. assert (Hrpc : ∀ u m p, returns (rpc transport u m p)).
      { intros u m p. unfold rpc. apply returns_retry_all. intros i. apply returns_bind; [apply Ht|auto with py]. }
      assert (Hor : ∀ k d v, returns (jget_or k d v)) by (intros k d v; unfold jget_or; apply returns_bind; auto with py).
      apply returns_bind; [|intros ts _; apply returns_bind; auto with py]. apply returns_mapR. intros k _. unfold transition_of.
      apply returns_bind; [auto with py|intros b _]. apply returns_bind.
      * unfold evidence_for. apply returns_bind; [apply Hrpc|intros traces _]. apply returns_bind; [auto with py|intros l _]. apply returns_bind.
        -- induction l as [|x l IH]; cbn [hash_for_address]; [auto with py|]. case_bool_decide; [apply returns_bind; auto with py|done].
        -- intros [h|] _; [auto with py|]. apply returns_bind; [apply Hrpc|intros fb _]. apply returns_bind; [apply Hor|intros v _].
           apply returns_bind; [auto with py|intros ts' _]. apply returns_bind; [|intros [] _; auto with py].
           induction ts' as [|x l' IH]; cbn [transaction_naming]; [auto with py|].
           apply returns_bind; [apply Hor|intros ? _]. apply returns_bind; [auto with py|intros ? _].
           apply returns_bind; [apply Hor|intros ? _]. apply returns_bind; [auto with py|intros ? _].
           case_bool_decide; [apply returns_bind; auto with py|done].
      * intros he _. do 6 (apply returns_bind; [auto with py|intros ? _]). auto with py.
Qed.
End node.

(** ** The output *)
Lemma keep_created_Ok rows l : keep_created rows = Ok l → l = filter (λ r, r !! "change_type" = Some (Some "created")) rows.
Proof.
  revert l. induction rows as [|r rows IH]; intros l; cbn [keep_created]; [by intros [= <-]|]. intros H.
  apply bind_Ok in H as (c & Hc & H). apply bind_Ok in H as (k & ->%IH & [= <-]). unfold is_created in Hc.
  apply bind_Ok in Hc as (x & Hx%of_option_Ok & [= <-]). rewrite filter_cons, Hx.
  destruct (decide (x = Some "created")) as [->|Hne].
  - by rewrite bool_decide_true, decide_True.
  - rewrite bool_decide_false, decide_False; congruence.
Qed.

Lemma evidence_partition ts : with_evidence ByTrace ts + with_evidence ByTransaction ts + with_evidence ByProtocol ts = Z.of_nat (length ts).
Proof.
  unfold with_evidence. rewrite <-!sum_by_add, <-sum_ones. apply sum_by_ext. intros t _. by destruct (tr_evidence t).
Qed.

Definition table_text (ts : list transition) : string := write_csv (fields :: (record_of <$> ts)).
Definition table_row (t : transition) : row := dict_row fields (record_of t).

Lemma table_rows ts : dict_rows (table_text ts) = table_row <$> ts.
Proof.
  unfold table_text. rewrite dict_rows_write_csv by (apply Forall_fmap, Forall_true; done). by rewrite <-list_fmap_compose.
Qed.

Lemma table_row_block t : cell_int (table_row t) "transition_block" = Ok (tr_block t).
Proof. apply (dict_row_int _ _ 2); [apply (bool_decide_unpack _); by vm_compute|done..]. Qed.

Lemma table_row_text t i k s : fields !! i = Some k → record_of t !! i = Some s → cell_str (table_row t) k = Ok s.
Proof. intros Hk Hs. apply cell_str_Ok. apply (dict_row_lookup _ _ i); [apply (bool_decide_unpack _); by vm_compute|done..]. Qed.

Section node.
Context (transport : nat → string → json → result json).

(** What the report of created accounts says: the evidence named in a row is there (a trace of the block names the account, or a
    transaction of the block comes from it or goes to it while no trace names it, or no trace does), the three
    counts of the summary add up to the rows, the table reads back with the block and the evidence of each account,
    and the summary carries the digests of this table and of the state diff that was read. *)
Theorem creation_report a w ts summary w' :
  NoDup [a_state_diff a; a_output a; a_summary a] → main transport a w = (Ok (ts, summary), w') →
  ∃ text bounds, let created := filter (λ r, r !! "change_type" = Some (Some "created")) (dict_rows text) in
    files w !! a_state_diff a = Some text ∧ transitions transport a created = Ok (bounds, ts) ∧
    (∀ t, t ∈ ts → let k := lower (tr_address t) in
       match tr_evidence t with
       | ByTrace => trace_names transport (a_rpc a) k (tr_block t)
       | ByTransaction => ¬ trace_names transport (a_rpc a) k (tr_block t) ∧ transaction_names transport (a_rpc a) k (tr_block t)
       | ByProtocol => ¬ trace_names transport (a_rpc a) k (tr_block t)
       end) ∧
    with_evidence ByTrace ts + with_evidence ByTransaction ts + with_evidence ByProtocol ts = Z.of_nat (length ts) ∧
    files w' = <[a_summary a := dumps summary +:+ newline]> (<[a_output a := table_text ts]> (files w)) ∧
    Forall2 (λ t r, cell_str r "address" = Ok (tr_address t) ∧ cell_int r "transition_block" = Ok (tr_block t) ∧
                    cell_str r "evidence" = Ok (evidence_text (tr_evidence t))) ts (dict_rows (table_text ts)) ∧
    summary = summary_json a created ts (sha256 (table_text ts)) (sha256 text).
Proof.
  intros Hnd H. unfold main in H. apply io_bind_Ok in H as (u & w1 & [-> _]%refuse_all_Ok & H).
  apply io_bind_Ok in H as (text & w1 & [-> Ht]%read_Ok & H). apply io_bind_Ok in H as (created & w1 & [-> Hc%keep_created_Ok]%lift_Ok & H).
  apply io_bind_Ok in H as ([bounds ts'] & w1 & [-> Hts]%lift_Ok & H). cbn [snd] in H.
  apply io_bind_Ok in H as (u1 & w1 & [_ Hw1]%publish_Ok & H). unfold concat_texts in Hw1. rewrite concat_csv_lines in Hw1.
  apply NoDup_cons in Hnd as [Hd Hnd]. apply NoDup_cons in Hnd as [Ho _].
  unfold file_sha256 in H. apply io_bind_Ok in H as (d1 & w2 & Hd1 & H). rewrite file_sha256_at_read, Hw1, lookup_insert_eq in Hd1 by lia.
  injection Hd1 as <- <-. apply io_bind_Ok in H as (d2 & w2 & Hd2 & H).
  rewrite file_sha256_at_read, Hw1, lookup_insert_ne, Ht in Hd2 by (lia || clear -Hd; set_solver). injection Hd2 as <- <-. cbv zeta in H.
  apply io_bind_Ok in H as (u2 & w2 & [_ Hw2]%publish_Ok & H). apply mret_Ok in H as [-> [= <- <-]].
  exists text, bounds. cbv zeta. rewrite <-Hc. fold (table_text ts') in Hw1, Hw2 |- *. rewrite table_rows.
  pose proof (transitions_Ok transport a created bounds ts' Hts) as (s & Hs & _ & Hall & _).
  split_and!; [done|done| |apply evidence_partition| | |done].
  - intros t Hin. apply list_elem_of_lookup in Hin as [i Hi]. destruct (Forall2_lookup_r _ _ _ _ _ Hall Hi) as (k & _ & Hk).
    apply transition_of_Ok in Hk as (b & r & _ & -> & Hr & Hadr & He%evidence_for_Ok).
    destruct (ao_rows _ _ Hs _ _ Hr) as (_ & x & Hx & <-). rewrite Hadr in Hx. by injection Hx as <-.
  - rewrite Hw2, Hw1. unfold concat_texts. simpl. by rewrite str_app_nil_r.
  - apply Forall2_fmap_r, Forall_Forall2_diag, Forall_true. intros t. cbn [compose]. split_and!.
    + by apply (table_row_text t 1).
    + apply table_row_block.
    + by apply (table_row_text t 4).
Qed.
End node.

(** ** Witnesses *)

(** An account that appears in block 6 of 4 to 9, in a trace, and one that is there in block 9, without one. *)
Definition ex_address : string := "0xaaaaaaaaaaaaaaaaaaaaaaaaaaaaaaaaaaaaaaaa".
Definition ex_other : string := "0xbbbbbbbbbbbbbbbbbbbbbbbbbbbbbbbbbbbbbbbb".

Definition ex_answer (method : string) (params : list json) : json :=
  match params with
  | [JStr a; JStr tag] =>
      let block := get 0 (jint16 (JStr tag)) in
      let there := if bool_decide (a = ex_address) then 6 <=? block else 9 <=? block in
      if bool_decide (method = "eth_getBalance") then JStr "0x0"
      else if bool_decide (method = "eth_getTransactionCount") then JStr (if there then "0x1" else "0x0")
      else JStr "0x"
  | [JStr tag] => JArr [JObj [("transactionHash", JStr "0xt"); ("action", JObj [("from", JStr (if bool_decide (tag = "0x6") then "0xAAAAAAAAAAAAAAAAAAAAAAAAAAAAAAAAAAAAAAAA" else "0x1"))])]]
  | _ => JObj [("transactions", JArr [JObj [("hash", JStr "0xh"); ("from", JStr "0x2"); ("to", JStr ex_other)]])]
  end.

Definition ex_transport : nat → string → json → result json := answering ex_answer.

Definition ex_args : args := Args "diff.csv" "http://node" 3 9 "created.csv" "created.json".

Definition ex_diff : string := write_csv
  [["secure_key"; "address"; "change_type"; "new_balance_atto"; "new_nonce"; "new_code_hash"];
   ["0x01"; ex_other; "created"; "0"; "1"; "0xc"]; ["0x02"; "0x5"; "changed"; "0"; "1"; "0xc"];
   ["0x03"; ex_address; "created"; "0"; "1"; "0xc"]].

Definition ex_created : list row := get [] (keep_created (dict_rows ex_diff)).

Definition ex_found : gmap string interval * list transition := get (∅, []) (transitions ex_transport ex_args ex_created).

Lemma ex_transitions : transitions ex_transport ex_args ex_created = Ok (ex_found.1, ex_found.2).
Proof. rewrite <-surjective_pairing. apply get_Ok. by vm_compute. Qed.

Example ex_blocks : (λ t, (tr_address t, tr_block t, tr_hash t, tr_evidence t)) <$> ex_found.2 =
  [(ex_address, 6, JStr "0xt", ByTrace); (ex_other, 9, JStr "0xh", ByTransaction)].
Proof. by vm_compute. Qed.

Lemma creation_block_witness : a_old_block ex_args < a_new_block ex_args ∧ StronglySorted str_lt ((λ t, lower (tr_address t)) <$> ex_found.2).
Proof.
  split; [done|].
  destruct (creation_block ex_transport ex_answer ex_args ex_created ex_found.1 ex_found.2 (answering_speaks ex_answer _) eq_refl ex_transitions) as [H _]. exact H.
Defined.

Lemma creation_terminates_witness : transitions ex_transport ex_args ex_created ≠ Err OutOfFuel.
Proof. apply (creation_terminates ex_transport ex_args ex_created (returns_answering ex_answer)). Defined.

Definition ex_world : world := World (list_to_map [("diff.csv", ex_diff)]) None.
Definition ex_output : list transition * json := get ([], JNull) (main ex_transport ex_args ex_world).1.

Lemma ex_main_creation : main ex_transport ex_args ex_world = (Ok (ex_output.1, ex_output.2), (main ex_transport ex_args ex_world).2).
Proof. rewrite <-surjective_pairing. apply run_Ok, get_Ok. by vm_compute. Qed.

Lemma creation_report_witness : NoDup ["diff.csv"; "created.csv"; "created.json"] ∧
  with_evidence ByTrace ex_output.1 + with_evidence ByTransaction ex_output.1 + with_evidence ByProtocol ex_output.1 = 2.
Proof.
  assert (Hnd : NoDup ["diff.csv"; "created.csv"; "created.json"]) by (apply (bool_decide_unpack _); by vm_compute).
  split; [exact Hnd|]. destruct (creation_report ex_transport ex_args ex_world _ _ _ Hnd ex_main_creation) as (_ & _ & _ & _ & _ & H & _).
  rewrite H. by vm_compute.
Defined.

(** A state diff without a created account ends in an exception after the checks, with no table. *)
Example nothing_created : transitions ex_transport ex_args [] = Err IndexError.
Proof. by vm_compute. Qed.
