(* ===== verification/StateDiff.v ===== *)
(** * The check of a state diff

    toolkit/scripts/cutoff/verify-state-diff-rpc.py: asks an archive node for the balance and the nonce of each account
    of a state diff at both blocks, and compares them with the rows.

    [verify_row] is the body of the loop over a batch, [verify_batch] that of the loop over the
    batches. *)
From S2P Require Import Prelude PyStr PyData Sha256 Files Csv Base16 Batch.

Record args := Args {
  a_input : string;
  a_rpc : string;
  a_old_block : Z;
  a_new_block : Z;
  a_output : string;
  a_batch_size : Z;
}.

Definition file_sha256 : string → IO string := file_sha256_at (Z.to_nat (4 * 1024 * 1024)).

(** ** The rows *)

(** [counts], [positive_delta], [negative_delta] *)
Record totals := Totals {
  t_created : Z;
  t_changed : Z;
  t_deleted : Z;
  t_positive : Z;
  t_negative : Z;
}.

Definition no_totals : totals := Totals 0 0 0 0 0.

(** [counts[change_type] += 1] *)
Definition count_change (change_type : option string) (t : totals) : result totals :=
  if bool_decide (change_type = Some "created") then
    Ok (Totals (t_created t + 1) (t_changed t) (t_deleted t) (t_positive t) (t_negative t))
  else if bool_decide (change_type = Some "changed") then
    Ok (Totals (t_created t) (t_changed t + 1) (t_deleted t) (t_positive t) (t_negative t))
  else if bool_decide (change_type = Some "deleted") then
    Ok (Totals (t_created t) (t_changed t) (t_deleted t + 1) (t_positive t) (t_negative t))
  else Err (KeyError "change_type").

Definition add_delta (delta : Z) (t : totals) : totals :=
  if 0 <? delta then Totals (t_created t) (t_changed t) (t_deleted t) (t_positive t + delta) (t_negative t)
  else if delta <? 0 then Totals (t_created t) (t_changed t) (t_deleted t) (t_positive t) (t_negative t - delta)
  else t.

Definition row_calls (a : args) (r : row) : result (list (string * list json)) :=
  address ← cell r "address";
  if cell_truthy address then
    let old := [JStr (cell_text address); JStr (hex_of (a_old_block a))] in
    let new := [JStr (cell_text address); JStr (hex_of (a_new_block a))] in
    Ok [("eth_getBalance", old); ("eth_getBalance", new); ("eth_getTransactionCount", old); ("eth_getTransactionCount", new)]
  else
    _ ← cell r "secure_key";
    Err (ValueError "missing address").

Definition value_at (values : list json) (i : nat) : result json := of_option (values !! i) IndexError.

(** The body of the loop over the rows of a batch. *)
Definition verify_row (values : list json) (t : totals) (ir : nat * row) : result totals :=
  let i := (ir.1 * 4)%nat in
  let r := ir.2 in
  v ← value_at values i; old_balance ← jint16 v;
  v ← value_at values (i + 1); new_balance ← jint16 v;
  v ← value_at values (i + 2); old_nonce ← jint16 v;
  v ← value_at values (i + 3); new_nonce ← jint16 v;
  x ← cell_int r "old_balance_atto"; raise_when (negb (old_balance =? x)) (ValueError "old balance mismatch");;
  x ← cell_int r "new_balance_atto"; raise_when (negb (new_balance =? x)) (ValueError "new balance mismatch");;
  x ← cell_int r "old_nonce"; raise_when (negb (old_nonce =? x)) (ValueError "old nonce mismatch");;
  x ← cell_int r "new_nonce"; raise_when (negb (new_nonce =? x)) (ValueError "new nonce mismatch");;
  let delta := new_balance - old_balance in
  x ← cell_int r "balance_delta_atto"; raise_when (negb (delta =? x)) (ValueError "delta mismatch");;
  change_type ← cell r "change_type";
  count_change change_type (add_delta delta t).

(** [range(0, len(rows), batch_size)]: a step of 0 is refused, a negative one gives no batch. *)
Definition batches (batch_size : Z) (rows : list row) : result (list (Z * list row)) :=
  if batch_size =? 0 then Err (ValueError "range() arg 3 must not be zero")
  else Ok (if batch_size <? 0 then [] else chunks (Z.to_nat batch_size) rows).

Section node.
Context (transport : nat → string → json → result json).

Definition rpc_batch (url : string) (calls : list (string * list json)) : result (list json) :=
  retry_all 6 "RPC batch failed" (λ attempt,
    response ← transport attempt url (requests 0 calls);
    m ← by_id response;
    raise_when (negb (size m =? length calls)%nat) (RuntimeError "incomplete batch response");;
    results_of m calls).

(** The body of the loop over the batches. *)
Definition verify_batch (a : args) (t : totals) (batch : Z * list row) : result totals :=
  calls ← mapR (row_calls a) batch.2;
  values ← rpc_batch (a_rpc a) (mjoin (M:=list) calls);
  foldM (verify_row values) t (imap pair batch.2).

Definition verify (a : args) (rows : list row) : result totals :=
  bs ← batches (a_batch_size a) rows;
  foldM (verify_batch a) no_totals bs.

Definition result_json (a : args) (rows : list row) (t : totals) (input_sha : string) : json :=
  JObj [("status", JStr "passed"); ("input", JStr (a_input a)); ("input_sha256", JStr input_sha); ("rpc", JStr (a_rpc a));
        ("old_block", JInt (a_old_block a)); ("new_block", JInt (a_new_block a)); ("rows", JInt (Z.of_nat (length rows)));
        ("change_counts", JObj [("created", JInt (t_created t)); ("changed", JInt (t_changed t)); ("deleted", JInt (t_deleted t))]);
        ("positive_delta_atto", JStr (str_of_Z (t_positive t))); ("negative_delta_atto", JStr (str_of_Z (t_negative t)));
        ("net_delta_atto", JStr (str_of_Z (t_positive t - t_negative t)));
        ("balance_checks", JInt (Z.of_nat (length rows) * 2)); ("nonce_checks", JInt (Z.of_nat (length rows) * 2))].

Definition main (a : args) : IO (totals * json) :=
  refuse_existing (a_output a) ≫= λ _,
  text ← read (a_input a);
  t ← lift (verify a (dict_rows text));
  input_sha ← file_sha256 (a_input a);
  let result := result_json a (dict_rows text) t input_sha in
  publish (a_output a) [dumps result; newline] ≫= λ _,
  mret (t, result).
End node.

(** ** Lemmas: one row *)
Definition address_of (r : row) : string := cell_text (cell_get r "address").

(** [f] is what the node answers.  The row agrees with it at both blocks. *)
Definition agrees (a : args) (f : string → list json → json) (r : row) : Prop :=
  let at_block b := [JStr (address_of r); JStr (hex_of b)] in
  address_of r ≠ EmptyString ∧
  jint16 (f "eth_getBalance" (at_block (a_old_block a))) = Ok (column "old_balance_atto" r) ∧
  jint16 (f "eth_getBalance" (at_block (a_new_block a))) = Ok (column "new_balance_atto" r) ∧
  jint16 (f "eth_getTransactionCount" (at_block (a_old_block a))) = Ok (column "old_nonce" r) ∧
  jint16 (f "eth_getTransactionCount" (at_block (a_new_block a))) = Ok (column "new_nonce" r) ∧
  column "balance_delta_atto" r = column "new_balance_atto" r - column "old_balance_atto" r.

Definition is_change (k : string) (r : row) : Z := Z.b2z (bool_decide (r !! "change_type" = Some (Some k))).

(** The totals of some rows. *)
Definition totals_of (rows : list row) : totals :=
  Totals (sum_by (is_change "created") rows) (sum_by (is_change "changed") rows) (sum_by (is_change "deleted") rows)
    (sum_by (λ r, Z.max 0 (column "balance_delta_atto" r)) rows) (sum_by (λ r, Z.max 0 (- column "balance_delta_atto" r)) rows).

Definition has_change (r : row) : Prop := ∃ k, k ∈ ["created"; "changed"; "deleted"] ∧ r !! "change_type" = Some (Some k).

Lemma row_calls_Ok a r calls :
  row_calls a r = Ok calls →
  address_of r ≠ EmptyString ∧
  let at_block b := [JStr (address_of r); JStr (hex_of b)] in
  calls = [("eth_getBalance", at_block (a_old_block a)); ("eth_getBalance", at_block (a_new_block a));
           ("eth_getTransactionCount", at_block (a_old_block a)); ("eth_getTransactionCount", at_block (a_new_block a))].
Proof.
  unfold row_calls. intros H. apply bind_Ok in H as (c & Hc%of_option_Ok & H). unfold address_of, cell_get. rewrite Hc. simpl.
  destruct (cell_truthy c) eqn:Ht; [|by apply bind_Ok in H as (? & _ & ?)]. injection H as <-. split; [|done].
  destruct c as [s|]; [|done]. simpl in *. by destruct s.
Qed.

Lemma totals_of_snoc rows r :
  totals_of (rows ++ [r]) =
  let t := totals_of rows in
  Totals (t_created t + is_change "created" r) (t_changed t + is_change "changed" r) (t_deleted t + is_change "deleted" r)
    (t_positive t + Z.max 0 (column "balance_delta_atto" r)) (t_negative t + Z.max 0 (- column "balance_delta_atto" r)).
Proof. unfold totals_of. by rewrite !sum_by_snoc. Qed.

Lemma count_row rows r delta t :
  column "balance_delta_atto" r = delta → ∀ c, r !! "change_type" = Some c → count_change c (add_delta delta (totals_of rows)) = Ok t →
  t = totals_of (rows ++ [r]) ∧ has_change r.
Proof.
  intros <- c Hc. unfold count_change. rewrite totals_of_snoc. unfold is_change, has_change. rewrite Hc.
  set (d := column "balance_delta_atto" r). intros H. 
  assert (Hd : add_delta d (totals_of rows) = Totals (t_created (totals_of rows)) (t_changed (totals_of rows)) (t_deleted (totals_of rows))
            (t_positive (totals_of rows) + Z.max 0 d) (t_negative (totals_of rows) + Z.max 0 (- d))).
  { unfold add_delta. destruct (0 <? d) eqn:?, (d <? 0) eqn:?; bool_facts; try lia; unfold totals_of; cbn; f_equal; lia. }
  rewrite Hd in H. cbn [t_created t_changed t_deleted t_positive t_negative] in *.
  repeat case_bool_decide; simplify_eq/=; (split; [f_equal; lia|eexists; split; [|done]; set_solver]).
Qed.

Lemma lookup_calls a rows cs i r j :
  mapR (row_calls a) rows = Ok cs → rows !! i = Some r → (j < 4)%nat →
  ∃ calls, row_calls a r = Ok calls ∧ mjoin (M:=list) cs !! (i * 4 + j)%nat = calls !! j.
Proof.
  intros H%mapR_Ok. revert i. induction H as [|x c rows cs Hx _ IH]; intros i Hi Hj; [done|].
  assert (Hlen : length c = 4%nat) by (destruct (row_calls_Ok _ _ _ Hx) as (_ & ->); done).
  destruct i as [|i]; simpl in Hi.
  - injection Hi as ->. exists c. split; [done|]. change (mjoin (c :: cs)) with (c ++ mjoin (M:=list) cs). by rewrite lookup_app_l by (simpl; lia).
  - destruct (IH i Hi Hj) as (calls & ? & Hl). exists calls. split; [done|]. change (mjoin (c :: cs)) with (c ++ mjoin (M:=list) cs).
    rewrite lookup_app_r by lia. rewrite <-Hl. f_equal. lia.
Qed.

Section node.
Context (transport : nat → string → json → result json) (a : args) (f : string → list json → json).
Context (Hf : speaks transport (a_rpc a) f).

Lemma diff_batch_speaks calls values : rpc_batch transport (a_rpc a) calls = Ok values → values = (λ c, f c.1 c.2) <$> calls.
Proof.
  unfold rpc_batch. intros (n & _ & H)%retry_all_Ok. apply bind_Ok in H as (response & Hr & H). apply bind_Ok in H as (m & Hm & H).
  apply bind_Ok in H as (u & _ & H). by eapply results_speak.
Qed.

Lemma cell_int_column r k v : cell_int r k = Ok v → column k r = v.
Proof. unfold column. by intros ->. Qed.

Lemma verify_row_Ok batch cs t i r t' rows :
  mapR (row_calls a) batch = Ok cs → batch !! i = Some r →
  verify_row ((λ c, f c.1 c.2) <$> mjoin (M:=list) cs) t (i, r) = Ok t' → t = totals_of rows →
  t' = totals_of (rows ++ [r]) ∧ has_change r ∧ agrees a f r.
Proof.
  intros Hcs Hi H ->. unfold verify_row in H. cbn [fst snd] in H.
  assert (Hget : ∀ j v, (j < 4)%nat → value_at ((λ c, f c.1 c.2) <$> mjoin (M:=list) cs) (i * 4 + j) = Ok v →
    ∃ calls c, row_calls a r = Ok calls ∧ calls !! j = Some c ∧ v = f c.1 c.2).
  { intros j v Hj Hv. destruct (lookup_calls _ _ _ _ _ _ Hcs Hi Hj) as (calls & Hr & Hl). unfold value_at in Hv.
    rewrite list_lookup_fmap, Hl in Hv. destruct (calls !! j) as [c|] eqn:E; [|done]. injection Hv as <-. by exists calls, c. }
  rewrite <-(Nat.add_0_r (i * 4)) in H at 1. inv_ok H.
  destruct (Hget 0%nat _ ltac:(lia) E) as (calls & c0 & Hr & Hc0 & ->). destruct (row_calls_Ok _ _ _ Hr) as (Hne & ->). injection Hc0 as <-.
  destruct (Hget 1%nat _ ltac:(lia) E1) as (? & c1 & Hr1 & Hc1 & ->). rewrite Hr in Hr1. injection Hr1 as <-. injection Hc1 as <-.
  destruct (Hget 2%nat _ ltac:(lia) E3) as (? & c2 & Hr2 & Hc2 & ->). rewrite Hr in Hr2. injection Hr2 as <-. injection Hc2 as <-.
  destruct (Hget 3%nat _ ltac:(lia) E5) as (? & c3 & Hr3 & Hc3 & ->). rewrite Hr in Hr3. injection Hr3 as <-. injection Hc3 as <-.
  cbn [fst snd] in *. bool_facts. repeat match goal with Hx : cell_int r _ = Ok _ |- _ => apply cell_int_column in Hx end. subst.
  match goal with Hc : cell r "change_type" = Ok ?c |- _ => apply of_option_Ok in Hc; destruct (count_row rows r _ t' eq_refl c Hc) as [-> Hch] end.
  - congruence.
  - split_and!; [done|done|]. unfold agrees. split_and!; congruence.
Qed.
End node.

(** ** The run *)
Section node.
Context (transport : nat → string → json → result json) (a : args) (f : string → list json → json).

Record verified (rows : list row) (t : totals) : Prop := {
  vf_totals : t = totals_of rows;
  vf_agrees : Forall (agrees a f) rows;
  vf_change : Forall has_change rows;
}.

Lemma verified_snoc rows r t : verified rows (totals_of rows) → has_change r → agrees a f r → t = totals_of (rows ++ [r]) → verified (rows ++ [r]) t.
Proof. intros [_ Ha Hc] Hr Hg ->. split; [done|by apply Forall_app_2; [|constructor]..]. Qed.

Lemma verify_batch_Ok rows batch t t' :
  speaks transport (a_rpc a) f → verified rows t → verify_batch transport a t batch = Ok t' → verified (rows ++ batch.2) t'.
Proof.
  intros Hf Hv H. unfold verify_batch in H. apply bind_Ok in H as (cs & Hcs & H). apply bind_Ok in H as (values & Hval & H).
  apply (diff_batch_speaks transport a f Hf) in Hval as ->.
  rewrite <-(imap_pair_snd batch.2). revert H. apply (foldM_ind _ (λ l t, verified (rows ++ l.*2) t)); [by rewrite app_nil_r|].
  intros pre [i r] s1 s2 Hpre Hin Hs. apply list_elem_of_lookup in Hin as [j Hj]. rewrite list_lookup_imap in Hj.
  destruct (batch.2 !! j) as [x|] eqn:E; [|done]. injection Hj as -> ->. pose proof (vf_totals _ _ Hpre) as Ht.
  destruct (verify_row_Ok a f batch.2 cs s1 i r s2 (rows ++ pre.*2) Hcs E Hs Ht) as (Hs2 & Hch & Hag).
  rewrite fmap_app, app_assoc. apply verified_snoc; [|done..]. by rewrite <-Ht.
Qed.

Lemma verify_Ok rows t :
  speaks transport (a_rpc a) f → 0 < a_batch_size a → verify transport a rows = Ok t → verified rows t.
Proof.
  intros Hf Hb H. unfold verify, batches in H. rewrite (proj2 (Z.eqb_neq _ _)) in H by lia. cbn [mbind result_bind] in H.
  rewrite (proj2 (Z.ltb_ge _ _)) in H by lia. rewrite <-(chunks_concat (Z.to_nat (a_batch_size a)) rows) by lia. revert H.
  apply (foldM_ind _ (λ l t, verified (mjoin (M:=list) l.*2) t)); [by split; [|constructor|constructor]|].
  intros pre b s1 s2 Hpre _ Hs. assert (mjoin (M:=list) (pre ++ [b]).*2 = mjoin (M:=list) pre.*2 ++ b.2) as ->; [|by eapply verify_batch_Ok].
  clear. induction pre as [|x pre IH]; [apply app_nil_r|]. change (x.2 ++ mjoin (M:=list) (pre ++ [b]).*2 = (x.2 ++ mjoin (M:=list) pre.*2) ++ b.2).
  by rewrite IH, app_assoc.
Qed.

Lemma changes_counted rows : Forall has_change rows →
  sum_by (is_change "created") rows + sum_by (is_change "changed") rows + sum_by (is_change "deleted") rows = Z.of_nat (length rows).
Proof.
  intros H. rewrite <-!sum_by_add, <-sum_ones. apply sum_by_ext. intros r Hr. pose proof (proj1 (Forall_forall _ _) H r Hr) as (k & Hk & Hc).
  unfold is_change. rewrite Hc. repeat (apply elem_of_cons in Hk as [->|Hk]); [by vm_compute..|by apply not_elem_of_nil in Hk].
Qed.

(** C33 (safety): A passing check of a state diff, with a positive batch size: whatever the size, every row agrees with the node at both blocks (balances, nonces
    and the difference between them), the counts of the kinds of change add up to the rows, and
    the positive less the negative changes is the change of the total balance. *)
Theorem state_diff_verified w t report w' :
  speaks transport (a_rpc a) f → 0 < a_batch_size a → main transport a w = (Ok (t, report), w') →
  ∃ text, files w !! a_input a = Some text ∧ files w !! a_output a = None ∧
    let rows := dict_rows text in
    Forall (agrees a f) rows ∧ Forall has_change rows ∧
    t_created t + t_changed t + t_deleted t = Z.of_nat (length rows) ∧
    0 ≤ t_positive t ∧ 0 ≤ t_negative t ∧
    t_positive t - t_negative t = sum_by (column "new_balance_atto") rows - sum_by (column "old_balance_atto") rows ∧
    files w' = <[a_output a := dumps report +:+ newline]> (files w) ∧ report = result_json a rows t (sha256 text).
Proof.
  intros Hf Hb H. unfold main in H. apply io_bind_Ok in H as (u & w1 & (-> & Hno & _)%refuse_existing_Ok & H).
  apply io_bind_Ok in H as (text & w1 & [-> Ht]%read_Ok & H). apply io_bind_Ok in H as (t1 & w1 & [-> Hv%(verify_Ok _ _ Hf Hb)]%lift_Ok & H).
  unfold file_sha256 in H. apply io_bind_Ok in H as (d & w1 & Hd & H). rewrite file_sha256_at_read, Ht in Hd by lia. injection Hd as <- <-.
  cbv zeta in H. apply io_bind_Ok in H as (u1 & w1 & [_ Hw1]%publish_Ok & H). apply mret_Ok in H as [-> [= <- <-]].
  destruct Hv as [-> Ha Hc]. exists text. cbv zeta. split_and!; [done..| | | | | |done].
  - cbn. by apply changes_counted.
  - cbn. apply sum_by_nonneg. intros. lia.
  - cbn. apply sum_by_nonneg. intros. lia.
  - cbn. enough (Hs : sum_by (λ r, Z.max 0 (column "balance_delta_atto" r)) (dict_rows text) + sum_by (column "old_balance_atto") (dict_rows text) =
      sum_by (column "new_balance_atto") (dict_rows text) + sum_by (λ r, Z.max 0 (- column "balance_delta_atto" r)) (dict_rows text)) by lia.
    rewrite <-!sum_by_add. apply sum_by_ext. intros r Hr. pose proof (proj1 (Forall_forall _ _) Ha r Hr) as (_ & _ & _ & _ & _ & Hd). lia.
  - rewrite Hw1. unfold concat_texts. simpl. by rewrite str_app_nil_r.
Qed.
End node.

(** ** Witnesses *)
Definition ex_answer (method : string) (params : list json) : json :=
  if bool_decide (method = "eth_getTransactionCount") then JStr "0x2"
  else match params with [_; JStr tag] => JStr (if bool_decide (tag = "0xa") then "0x64" else "0x1E") | _ => JNull end.

Definition ex_row (k address change : string) : list string := [k; address; change; "100"; "30"; "2"; "2"; "-70"].

Definition ex_diff : string := write_csv
  [["secure_key"; "address"; "change_type"; "old_balance_atto"; "new_balance_atto"; "old_nonce"; "new_nonce"; "balance_delta_atto"];
   ex_row "0x1" "0xa1" "changed"; ex_row "0x2" "0xa2" "created"; ex_row "0x3" "0xa3" "deleted"].

Definition ex_args (batch : Z) : args := Args "diff.csv" "http://node" 10 11 "checked.json" batch.
Definition ex_world : world := World (list_to_map [("diff.csv", ex_diff)]) None.
Definition ex_output : totals * json := get (no_totals, JNull) (main (answering ex_answer) (ex_args 2) ex_world).1.

Lemma ex_main_diff : main (answering ex_answer) (ex_args 2) ex_world = (Ok (ex_output.1, ex_output.2), (main (answering ex_answer) (ex_args 2) ex_world).2).
Proof. rewrite <-surjective_pairing. apply run_Ok, get_Ok. by vm_compute. Qed.

Lemma state_diff_verified_witness : 0 < 2 ∧ t_positive ex_output.1 - t_negative ex_output.1 = -210.
Proof.
  split; [done|].
  destruct (state_diff_verified (answering ex_answer) (ex_args 2) ex_answer ex_world _ _ _ (answering_speaks ex_answer _) eq_refl ex_main_diff)
    as (text & Ht & _ & _ & _ & _ & _ & _ & H & _).
  vm_compute in Ht. injection Ht as <-. rewrite H. by vm_compute.
Defined.

(** With a negative batch size no row is asked about, and the check passes. *)
Example nothing_verified transport rows : verify transport (ex_args (-1)) rows = Ok no_totals.
Proof. done. Qed.
