(* ===== verification/PendingCheck.v ===== *)
(** * The check of the pending receipts

    toolkit/scripts/cutoff/verify-pending-receipts.py: takes the report of pending cross-shard receipts, asks the
    destination shard whether any of them was consumed by the cutoff, and publishes the report with the cutoff and what
    was checked.  The merge of the ledger (Ledger.v) reads the published report. *)
From S2P Require Import Prelude PyStr PyData Sha256 Files Json Base16 Batch.

Record args := Args {
  a_input : string;
  a_interval_summary : string;
  a_rpc : string;
  a_shard0_cutoff : Z;
  a_shard1_cutoff : Z;
  a_output : string;
}.

Definition file_sha256 : string → IO string := file_sha256_at (Z.to_nat (4 * 1024 * 1024)).

(** [int(value, 16) if isinstance(value, str) else int(value)] *)
Definition number (value : json) : result Z := match value with JStr _ => jint16 value | _ => jint value end.

(** [block_number(receipt)] *)
Fixpoint first_number (names : list string) (receipt : json) : result Z :=
  match names with
  | [] => Err (ValueError "CX receipt has no block number")
  | name :: names =>
      present ← jin name receipt;
      if (present : bool) then
        value ← jget name receipt;
        match value with JNull => first_number names receipt | _ => number value end
      else first_number names receipt
  end.

Definition block_number : json → result Z := first_number ["blockNumber"; "block_number"].

Record checked := Checked { ck_hash : json; ck_found : bool; ck_block : option Z }.

Definition checked_json (c : checked) : json :=
  JObj [("transaction_hash", ck_hash c);
        ("result", JStr (if ck_found c then "consumed_after_cutoff" else "not_found"));
        ("consumed_block", match ck_block c with Some b => JInt b | None => JNull end)].

(** [interval["start"] != 93529888 or interval["end"] != cutoff], then the check that nothing new crossed. *)
Definition check_interval (cutoff : Z) (interval : json) : result unit :=
  start ← jget "start" interval;
  wrong ← (if negb (jeq_int start 93529888) then Ok true else e ← jget "end" interval; Ok (negb (jeq_int e cutoff)));
  raise_when wrong (ValueError "unexpected shard-0 interval");;
  c ← jget "cross_shard_transactions" interval;
  raise_when (negb (jeq_int c 0)) (ValueError "new cross-shard source transactions require full reclassification").

Section node.
Context (transport : nat → string → json → result json).

Definition rpc (url method : string) (params : list json) : result json :=
  retry_all 5 "RPC failed" (λ attempt, response ← transport attempt url (request 1 method params); result_of response).

(** The body of the innermost loop, after the receipt's hash was read. *)
Definition check_receipt (a : args) (checks : list checked) (receipt : json) : result (list checked) :=
  tx_hash ← jget "transaction_hash" receipt;
  consumed ← rpc (a_rpc a) "hmyv2_getCXReceiptByHash" [tx_hash];
  block ← (if truthy consumed then Some <$> block_number consumed else Ok None);
  raise_when (match block with Some b => b <=? a_shard0_cutoff a | None => false end) (ValueError "previously pending receipt was consumed");;
  Ok (checks ++ [Checked tx_hash (match consumed with JNull => false | _ => true end) block]).

Definition check_group (a : args) (checks : list checked) (group : json) : result (list checked) :=
  receipts ← jiter_or "receipts" group;
  foldM (check_receipt a) checks receipts.

Definition check_direction (a : args) (checks : list checked) (direction : json) : result (list checked) :=
  groups ← jiter_or "pending_groups" direction;
  foldM (check_group a) checks groups.

Definition check_all (a : args) (original : json) : result (list checked) :=
  ds ← jget "directions" original;
  directions ← jiter ds;
  foldM (check_direction a) [] directions.

Definition cutoff_json (a : args) : json :=
  JObj [("shard0_block", JInt (a_shard0_cutoff a)); ("shard1_block", JInt (a_shard1_cutoff a))].

Definition verification_json (checks : list checked) (input_sha interval_sha : string) : json :=
  JObj [("method", JStr "canonical interval plus destination CX lookup"); ("source_report_sha256", JStr input_sha);
        ("shard0_interval_summary_sha256", JStr interval_sha); ("new_cross_shard_transactions", JInt 0);
        ("pending_receipts_checked", JInt (Z.of_nat (length checks))); ("pending_receipt_results", JArr (checked_json <$> checks))].

(** The published report, and the line printed after it is in place. *)
Definition main (a : args) : IO (list checked * json * json) :=
  refuse_existing (a_output a) ≫= λ _,
  original ← load_json (a_input a);
  interval ← load_json (a_interval_summary a);
  lift (check_interval (a_shard0_cutoff a) interval) ≫= λ _,
  checks ← lift (check_all a original);
  result ← lift (jset "cutoff" (cutoff_json a) original);
  input_sha ← file_sha256 (a_input a);
  interval_sha ← file_sha256 (a_interval_summary a);
  result ← lift (jset "cutoff_verification" (verification_json checks input_sha interval_sha) result);
  publish (a_output a) [dumps result; newline] ≫= λ _,
  output_sha ← file_sha256 (a_output a);
  active ← lift (jget "pending_active_atto" result);
  mret (checks, result,
        JObj [("output", JStr (a_output a)); ("output_sha256", JStr output_sha); ("pending_active_atto", active);
              ("pending_receipts_checked", JInt (Z.of_nat (length checks)))]).

(** ** Lemmas *)

(** The receipts of a report, in order. *)
Definition receipts_of (original : json) : result (list json) :=
  ds ← jget "directions" original;
  directions ← jiter ds;
  groups ← mapR (jiter_or "pending_groups") directions;
  receipts ← mapR (jiter_or "receipts") (mjoin (M:=list) groups);
  Ok (mjoin (M:=list) receipts).

(** A loop over what each item lists. *)
Lemma nested_loop {S A B} (g : A → result (list B)) (f : S → B → result S) s l s' :
  foldM (λ s x, ys ← g x; foldM f s ys) s l = Ok s' → ∃ yss, mapR g l = Ok yss ∧ foldM f s (mjoin (M:=list) yss) = Ok s'.
Proof.
  revert s. induction l as [|x l IH]; intros s H; cbn [foldM mapR] in *; [exists []; split; [done|exact H]|].
  apply bind_Ok in H as (s1 & H1 & H). apply bind_Ok in H1 as (ys & Hy & H1). destruct (IH s1 H) as (yss & Hyss & Hf).
  exists (ys :: yss). rewrite Hy. cbn [mbind result_bind]. rewrite Hyss. cbn [mbind result_bind]. split; [done|].
  change (mjoin (ys :: yss)) with (ys ++ mjoin (M:=list) yss). by rewrite foldM_app, H1.
Qed.

Lemma check_all_Ok a original checks :
  check_all a original = Ok checks → ∃ rs, receipts_of original = Ok rs ∧ foldM (check_receipt a) [] rs = Ok checks.
Proof.
  unfold check_all, receipts_of. intros H. apply bind_Ok in H as (ds & Hds & H). apply bind_Ok in H as (directions & Hd & H).
  rewrite Hds. cbn [mbind result_bind]. rewrite Hd. cbn [mbind result_bind].
  apply (nested_loop (jiter_or "pending_groups") (check_group a)) in H as (groups & Hg & H). rewrite Hg. cbn [mbind result_bind].
  apply (nested_loop (jiter_or "receipts") (check_receipt a)) in H as (rs & Hr & H). rewrite Hr. cbn [mbind result_bind].
  by exists (mjoin (M:=list) rs).
Qed.

(** What the check of one receipt found. *)
Definition unconsumed (a : args) (receipt : json) (c : checked) : Prop :=
  ∃ answer, jget "transaction_hash" receipt = Ok (ck_hash c) ∧
  rpc (a_rpc a) "hmyv2_getCXReceiptByHash" [ck_hash c] = Ok answer ∧
  (truthy answer = false ∧ ck_block c = None ∨ ∃ b, block_number answer = Ok b ∧ ck_block c = Some b ∧ a_shard0_cutoff a < b).

Lemma check_receipts_Ok a rs checks : foldM (check_receipt a) [] rs = Ok checks → Forall2 (unconsumed a) rs checks.
Proof.
  apply (foldM_ind _ (Forall2 (unconsumed a))); [constructor|]. intros pre r s1 s2 Hpre _ H. unfold check_receipt in H.
  apply bind_Ok in H as (h & Hh & H). apply bind_Ok in H as (answer & Ha & H). apply bind_Ok in H as (b & Hb & H).
  apply bind_Ok in H as (u & Hu%raise_when_Ok & [= <-]). apply Forall2_app; [done|]. constructor; [|constructor].
  exists answer. cbn [ck_hash ck_block]. split_and!; [done..|]. destruct (truthy answer).
  - right. apply fmap_Ok in Hb as (n & Hn & <-). exists n. split_and!; [done..|]. by apply Z.leb_gt.
  - left. by injection Hb as <-.
Qed.

Lemma main_pending_Ok a w checks report printed w' :
  main a w = (Ok (checks, report, printed), w') →
  ∃ itext stext original rs,
    files w !! a_input a = Some itext ∧ loads itext = Ok original ∧ receipts_of original = Ok rs ∧ Forall2 (unconsumed a) rs checks ∧
    (∃ r1, jset "cutoff" (cutoff_json a) original = Ok r1 ∧
           jset "cutoff_verification" (verification_json checks (sha256 itext) (sha256 stext)) r1 = Ok report) ∧
    (files w !! a_output a = None ∧ files w !! a_interval_summary a = Some stext ∧
     ∃ interval, loads stext = Ok interval ∧ check_interval (a_shard0_cutoff a) interval = Ok tt) ∧
    files w' = <[a_output a := dumps report +:+ newline]> (files w).
Proof.
  intros H. unfold main in H. apply io_bind_Ok in H as (u & w0 & (-> & Hno & _)%refuse_existing_Ok & H).
  apply io_bind_Ok in H as (original & w1 & Hor & H). unfold load_json in Hor.
  apply io_bind_Ok in Hor as (itext & w2 & [-> Hi]%read_Ok & [-> Hor]%lift_Ok).
  apply io_bind_Ok in H as (interval & w1 & Hin & H). unfold load_json in Hin.
  apply io_bind_Ok in Hin as (stext & w2 & [-> Hs]%read_Ok & [-> Hin]%lift_Ok).
  apply io_bind_Ok in H as ([] & w1 & [-> Hck]%lift_Ok & H). apply io_bind_Ok in H as (cs & w1 & [-> Hcs]%lift_Ok & H).
  apply io_bind_Ok in H as (r1 & w1 & [-> Hr1]%lift_Ok & H). unfold file_sha256 in H.
  apply io_bind_Ok in H as (d1 & w1 & Hd1 & H). rewrite file_sha256_at_read, Hi in Hd1 by lia. injection Hd1 as <- <-.
  apply io_bind_Ok in H as (d2 & w1 & Hd2 & H). rewrite file_sha256_at_read, Hs in Hd2 by lia. injection Hd2 as <- <-.
  apply io_bind_Ok in H as (r2 & w1 & [-> Hr2]%lift_Ok & H). apply io_bind_Ok in H as (u1 & w1 & [_ Hw1]%publish_Ok & H).
  apply io_bind_Ok in H as (d3 & w2 & Hd3 & H). apply reads_only_world in Hd3 as ->; [|apply reads_only_file_sha256_at].
  apply io_bind_Ok in H as (x & w2 & [-> _]%lift_Ok & H). apply mret_Ok in H as [-> [= <- <- _]].
  apply check_all_Ok in Hcs as (rs & Hrs & Hchk%check_receipts_Ok).
  exists itext, stext, original, rs. split_and!; try done; [by exists r1|by exists interval].
Qed.

(** C34 (safety): A passing check of the pending receipts: every receipt of the report was looked up, in order, and the
    destination shard has either no record of it or one of a block after the cutoff; the interval starts and ends
    where it should and nothing crossed in it; and what is published is the report unchanged in
    every other field, with the number of receipts checked and the digests of both inputs. *)
Theorem pending_receipts_checked a w checks report printed w' :
  main a w = (Ok (checks, report, printed), w') →
  ∃ itext stext original interval rs,
    files w !! a_input a = Some itext ∧ loads itext = Ok original ∧
    files w !! a_interval_summary a = Some stext ∧ loads stext = Ok interval ∧ check_interval (a_shard0_cutoff a) interval = Ok tt ∧
    receipts_of original = Ok rs ∧ Forall2 (unconsumed a) rs checks ∧
    files w !! a_output a = None ∧ files w' = <[a_output a := dumps report +:+ newline]> (files w) ∧
    jget "cutoff" report = Ok (cutoff_json a) ∧
    jget "cutoff_verification" report = Ok (verification_json checks (sha256 itext) (sha256 stext)) ∧
    ∀ k, k ≠ "cutoff" → k ≠ "cutoff_verification" → jget k report = jget k original.
Proof.
  intros (itext & stext & original & rs & Hi & Hl & Hrs & Hchk & (r1 & Hr1 & Hr2) & (Hno & Hs & interval & Hin & Hck) & Hw)%main_pending_Ok.
  exists itext, stext, original, interval, rs. split_and!; try done.
  - rewrite (jset_get _ _ _ _ _ Hr2), decide_False by done. by rewrite (jset_get _ _ _ _ _ Hr1), decide_True.
  - by rewrite (jset_get _ _ _ _ _ Hr2), decide_True.
  - intros k Hk1 Hk2. by rewrite (jset_get _ _ _ _ _ Hr2), decide_False, (jset_get _ _ _ _ _ Hr1), decide_False.
Qed.
End node.

(** ** An example *)
Definition ex_answer (method : string) (params : list json) : json :=
  match params with
  | [JStr h] => if bool_decide (h = "0xa") then JObj [("blockNumber", JStr "0x5e00000")] else JNull
  | _ => JNull
  end.

Definition ex_transport : nat → string → json → result json := answering ex_answer.

Definition ex_args : args := Args "pending.json" "summary.json" "http://node" 94000000 80000000 "checked.json".

Definition ex_report : json :=
  JObj [("directions", JArr [JObj [("pending_groups", JArr [JObj [("receipts", JArr [
          JObj [("transaction_hash", JStr "0xa")]; JObj [("transaction_hash", JStr "0xb")]])]])]; JObj []]);
        ("pending_active_atto", JStr "12")].

Definition ex_interval : json :=
  JObj [("cross_shard_transactions", JInt 0); ("end", JInt 94000000); ("start", JInt 93529888)].

Definition ex_world : world := World (list_to_map [("pending.json", dumps ex_report); ("summary.json", dumps ex_interval)]) None.
Definition ex_output : list checked * json * json := get ([], JNull, JNull) (main ex_transport ex_args ex_world).1.

Lemma ex_main_pending : main ex_transport ex_args ex_world = (Ok (ex_output.1.1, ex_output.1.2, ex_output.2), (main ex_transport ex_args ex_world).2).
Proof. rewrite <-!surjective_pairing. apply run_Ok, get_Ok. by vm_compute. Qed.

Example ex_checked : ex_output.1.1 = [Checked (JStr "0xa") true (Some 98566144); Checked (JStr "0xb") false None].
Proof. by vm_compute. Qed.

Lemma pending_receipts_checked_witness :
  files ex_world !! "checked.json" = None ∧ jget "cutoff" ex_output.1.2 = Ok (cutoff_json ex_args).
Proof.
  destruct (pending_receipts_checked ex_transport ex_args ex_world _ _ _ _ ex_main_pending)
    as (itext & stext & original & interval & rs & _ & _ & _ & _ & _ & _ & _ & H1 & _ & H2 & _). split; [exact H1|exact H2].
Defined.
