(* ===== verification/ReceiptMap.v ===== *)
(** * The destinations of outgoing receipts

    toolkit/scripts/forensics/map-cx-receipt-destinations.py: selects the receipts that one table sends to a shard,
    asks the destination's node in batches whether and where each was applied, and writes the answers next to them.

    [select_step] is the loop of [selected_rows], [map_row] that over the rows of a batch, [map_batch] that over the batches. *)
From S2P Require Import Prelude PyStr PyData Files Csv Batch.

Record args := Args {
  a_rpc : string;
  a_input : string;
  a_output : string;
  a_destination_shard : Z;
  a_minimum_source_block : Z;
  a_batch_size : Z;
  a_retries : Z;
  a_allow_missing : bool;
}.

(** [required(row, names, path)]: a cell that a short row lacks is [None], which is not empty. *)
Definition required (r : row) (names : list string) : result (option string) := of_option (first_cell r names) (expected_one_of names).

Record receipt := Receipt { tx_hash : string; source_block : Z; destination_shard : Z; amount_atto : option string }.

(** The body of the loop of [selected_rows]. *)
Definition select_step (shard_wanted minimum : Z) (rows : list receipt) (r : row) : result (list receipt) :=
  s ← required r ["destination_shard"; "to_shard"]; shard ← int_cell s;
  b ← required r ["source_block"]; block ← int_cell b;
  if negb (shard =? shard_wanted) || (block <? minimum) then Ok rows
  else
    h ← required r ["tx_hash"; "receipt_tx_hash"];
    hash ← text_lower h;
    amount ← required r ["amount_atto"; "value_atto"];
    Ok (rows ++ [Receipt hash block shard amount]).

Definition selected_rows (shard_wanted minimum : Z) (text : string) : result (list receipt) :=
  foldM (select_step shard_wanted minimum) [] (dict_rows text).

(** A receipt with the block and the block hash of its destination, if it was found. *)
Record mapped := Mapped { m_receipt : receipt; m_destination : option (Z * json) }.

(** [mapped], [missing] *)
Definition state : Type := list mapped * list string.

(** The body of the loop over the rows of a batch, which starts at [start]. *)
Definition map_row (m : gmap id_key json) (start : Z) (s : state) (ir : nat * receipt) : result state :=
  let r := ir.2 in
  item ← checked_answer m (start + Z.of_nat ir.1);
  answer ← jget_opt "result" item;
  match answer with
  | JNull => Ok (s.1 ++ [Mapped r None], s.2 ++ [tx_hash r])
  | _ =>
      h ← jget_str "hash" answer;
      raise_when (negb (bool_decide (lower h = tx_hash r))) (ValueError "hash mismatch");;
      v ← jget_int "value" answer;
      x ← int_cell (amount_atto r);
      raise_when (negb (v =? x)) (ValueError "value mismatch");;
      block ← jget_int "blockNumber" answer;
      block_hash ← jget_default "blockHash" (JStr EmptyString) answer;
      Ok (s.1 ++ [Mapped r (Some (block, block_hash))], s.2)
  end.

(** [write_rows] *)
Definition fields : list string :=
  ["tx_hash"; "source_block"; "destination_shard"; "amount_atto"; "destination_status"; "destination_block"; "destination_block_hash"].

Definition mapped_record (m : mapped) : list string :=
  let r := m_receipt m in
  [tx_hash r; str_of_Z (source_block r); str_of_Z (destination_shard r); cell_text (amount_atto r)] ++
  match m_destination m with
  | None => ["not_found"; EmptyString; EmptyString]
  | Some (block, hash) => ["applied"; str_of_Z block; csv_value hash]
  end.

Definition write_rows (path : string) (rows : list mapped) : IO unit :=
  refuse_existing path ≫= λ _,
  publish path (csv_line_crlf <$> (fields :: (mapped_record <$> rows))).

Definition report_json (a : args) (s : state) : json :=
  JObj [("input", JStr (a_input a)); ("output", JStr (a_output a)); ("mapped", JInt (Z.of_nat (length s.1) - Z.of_nat (length s.2)));
        ("missing", JInt (Z.of_nat (length s.2)))].

Section node.
Context (transport : nat → string → json → result json).

(** [rpc_batch(url, requests, timeout, retries)] *)
Definition rpc_batch (url : string) (payload : json) (retries : Z) : result (list json) :=
  retry any_exception (Z.to_nat retries) (λ attempt,
    value ← transport attempt url payload;
    match value with JArr items => Ok items | _ => Err (ValueError "expected batch response") end).

Definition receipt_call (r : receipt) : string * list json := ("hmyv2_getCXReceiptByHash", [JStr (tx_hash r)]).

(** The body of the loop over the batches. *)
Definition map_batch (a : args) (s : state) (sc : Z * list receipt) : result state :=
  response ← rpc_batch (a_rpc a) (requests sc.1 (receipt_call <$> sc.2)) (a_retries a);
  m ← by_id (JArr response);
  foldM (map_row m sc.1) s (imap pair sc.2).

Definition main (a : args) : IO (state * json) :=
  lift (raise_when ((a_batch_size a <=? 0) || (a_retries a <=? 0)) (ValueError "batch size and retries must be positive")) ≫= λ _,
  text ← read (a_input a);
  rows ← lift (selected_rows (a_destination_shard a) (a_minimum_source_block a) text);
  s ← lift (foldM (map_batch a) ([], []) (chunks (Z.to_nat (a_batch_size a)) rows));
  lift (raise_when (bool_decide (s.2 ≠ []) && negb (a_allow_missing a)) (ValueError "destination receipts not found")) ≫= λ _,
  write_rows (a_output a) s.1 ≫= λ _,
  mret (s, report_json a s).

(** ** What the node says *)

Definition told (f : string → list json → json) (r : receipt) : json := f "hmyv2_getCXReceiptByHash" [JStr (tx_hash r)].

Definition is_null (v : json) : bool := match v with JNull => true | _ => false end.

(** The destination in an answer, and what was checked of it. *)
Definition destination_of (answer : json) : option (Z * json) :=
  match answer with
  | JNull => None
  | _ => Some (get 0 (jget_int "blockNumber" answer), get JNull (jget_default "blockHash" (JStr EmptyString) answer))
  end.

Definition authenticated (f : string → list json → json) (r : receipt) : Prop :=
  told f r = JNull ∨
  (∃ h v, jget_str "hash" (told f r) = Ok h ∧ lower h = tx_hash r ∧ jget_int "value" (told f r) = Ok v ∧ int_cell (amount_atto r) = Ok v ∧
   is_ok (jget_int "blockNumber" (told f r)) = true).

Definition map_of (f : string → list json → json) (r : receipt) : mapped := Mapped r (destination_of (told f r)).
Definition missing_of (f : string → list json → json) (rows : list receipt) : list string :=
  tx_hash <$> filter (λ r, is_null (told f r) = true) rows.

Lemma map_row_Ok f m start s i r s' item v :
  checked_answer m (start + Z.of_nat i) = Ok item → jget_opt "result" item = Ok v → v = told f r →
  map_row m start s (i, r) = Ok s' → s' = (s.1 ++ [map_of f r], s.2 ++ missing_of f [r]) ∧ authenticated f r.
Proof.
  intros Hitem Hv Hf H. unfold map_row in H. cbn [fst snd] in H. rewrite Hitem in H. cbn [mbind result_bind] in H. rewrite Hv in H.
  cbn [mbind result_bind] in H. unfold map_of, missing_of, authenticated. rewrite keep_one, <-Hf.
  destruct (decide (is_null v = true)) as [Hn|Hn%not_true_is_false].
  - destruct v; try done. injection H as <-. split; [done|by left].
  - assert (H1 : (h ← jget_str "hash" v; raise_when (negb (bool_decide (lower h = tx_hash r))) (ValueError "hash mismatch");;
      n ← jget_int "value" v; x ← int_cell (amount_atto r); raise_when (negb (n =? x)) (ValueError "value mismatch");;
      block ← jget_int "blockNumber" v; block_hash ← jget_default "blockHash" (JStr EmptyString) v;
      Ok (s.1 ++ [Mapped r (Some (block, block_hash))], s.2)) = Ok s') by (destruct v; try done; discriminate Hn).
    clear H. inv_ok H1. bool_facts. subst s'. cbn [fmap list_fmap]. rewrite app_nil_r. split.
    + assert (destination_of v = Some (v5, v6)) as ->; [|done]. unfold destination_of. rewrite E4, E5. by destruct v.
    + right. exists v0, v2. rewrite E4. split_and!; try done. by rewrite E2, E3.
Qed.

(** What a loop over some receipts gives. *)
Definition state_of (f : string → list json → json) (rows : list receipt) : state := (map_of f <$> rows, missing_of f rows).

Definition extend (s t : state) : state := (s.1 ++ t.1, s.2 ++ t.2).

Lemma state_of_app f l k : state_of f (l ++ k) = extend (state_of f l) (state_of f k).
Proof. unfold state_of, extend, missing_of. by rewrite !fmap_app, filter_app, fmap_app. Qed.

Lemma extend_assoc s t u : extend (extend s t) u = extend s (extend t u).
Proof. unfold extend. simpl. by rewrite !app_assoc. Qed.

Lemma map_rows_Ok f m start c s s' :
  (∀ i r item v, c !! i = Some r → checked_answer m (start + Z.of_nat i) = Ok item → jget_opt "result" item = Ok v → v = told f r) →
  foldM (map_row m start) s (imap pair c) = Ok s' → s' = extend s (state_of f c) ∧ Forall (authenticated f) c.
Proof.
  intros Hf H.
  enough (H1 : s' = extend s (state_of f (imap pair c).*2) ∧ Forall (authenticated f) (imap pair c).*2) by by rewrite imap_pair_snd in H1.
  revert H. apply (foldM_ind_split _ (λ l s1, s1 = extend s (state_of f l.*2) ∧ Forall (authenticated f) l.*2)).
  - destruct s as [l k]. unfold extend, state_of. simpl. rewrite !app_nil_r. by split.
  - intros pre [i r] post s1 s2 Hl [-> Hpre] Hs. pose proof (imap_pair_at _ _ _ _ _ Hl) as Hc.
    pose proof Hs as Hs'. unfold map_row in Hs'. cbn [fst snd] in Hs'. apply bind_Ok in Hs' as (item & Hitem & Hs'). apply bind_Ok in Hs' as (v & Hv & _).
    destruct (map_row_Ok f m start _ i r s2 item v Hitem Hv (Hf i r item v Hc Hitem Hv) Hs) as [-> Hauth].
    rewrite fmap_app, state_of_app, Forall_app. split; [|split; [done|by constructor]].
    rewrite <-extend_assoc. unfold extend at 2. unfold state_of. done.
Qed.

Lemma map_batches_Ok a f n rows s :
  (0 < n)%nat → tells transport (a_rpc a) f → foldM (map_batch a) ([], []) (chunks n rows) = Ok s → s = state_of f rows ∧ Forall (authenticated f) rows.
Proof.
  intros Hn Hf H. rewrite <-(chunks_concat n rows Hn). revert H.
  apply (foldM_ind _ (λ l s1, s1 = state_of f (mjoin (snd <$> l)) ∧ Forall (authenticated f) (mjoin (snd <$> l)))); [by split; [|constructor]|].
  intros pre [start c] s1 s2 [-> Hpre] _ Hs. unfold map_batch in Hs. cbn [fst snd] in Hs.
  apply bind_Ok in Hs as (response & Hresp & Hs). apply bind_Ok in Hs as (m & Hm & Hs).
  apply retry_Ok in Hresp as (attempt & _ & Hresp). apply bind_Ok in Hresp as (value & Hvalue & Hresp).
  destruct value as [| | | |items|]; try done. injection Hresp as <-.
  apply (map_rows_Ok f) in Hs as [-> Hauth].
  - rewrite fmap_app, join_app. cbn [fmap list_fmap snd mjoin list_join]. rewrite app_nil_r, state_of_app, Forall_app. by split.
  - intros i r item v Hc Hitem Hv. eapply (Hf attempt start (receipt_call <$> c) _ m i); [done|done| |done|done]. by rewrite list_lookup_fmap, Hc.
Qed.

(** ** The table *)
Definition table_text (rows : list mapped) : string := write_csv_crlf (fields :: (mapped_record <$> rows)).

Lemma map_fields_NoDup : NoDup fields.
Proof. apply (bool_decide_unpack _). by vm_compute. Qed.

Lemma table_back_map rows : dict_rows (table_text rows) = (λ m, dict_row fields (mapped_record m)) <$> rows.
Proof.
  unfold table_text. rewrite dict_rows_crlf, dict_rows_write_csv; [by rewrite <-list_fmap_compose|].
  apply Forall_fmap, Forall_true. intros m. unfold mapped_record, compose. done.
Qed.

Lemma mapped_record_length m : length (mapped_record m) = length fields.
Proof. unfold mapped_record. by destruct (m_destination m) as [[b h]|]. Qed.

(** What a row of the table says of a receipt. *)
Definition row_says (m : mapped) (r : row) : Prop :=
  cell_str r "tx_hash" = Ok (tx_hash (m_receipt m)) ∧ cell_int r "source_block" = Ok (source_block (m_receipt m)) ∧
  match m_destination m with
  | None => cell_str r "destination_status" = Ok "not_found"
  | Some (block, _) => cell_str r "destination_status" = Ok "applied" ∧ cell_int r "destination_block" = Ok block
  end.

Lemma table_says m : row_says m (dict_row fields (mapped_record m)).
Proof.
  pose proof (mapped_record_length m) as Hlen. pose proof map_fields_NoDup as Hnd. unfold row_says. split_and!.
  - apply cell_str_Ok. by apply (dict_row_lookup _ _ 0).
  - by apply (dict_row_int _ _ 1).
  - unfold mapped_record in *. destruct (m_destination m) as [[b h]|]; [split; [|by apply (dict_row_int _ _ 5)]|];
      apply cell_str_Ok; by apply (dict_row_lookup _ _ 4).
Qed.

Lemma found_and_missing f rows :
  Z.of_nat (length (filter (λ r, is_null (told f r) = true) rows)) + Z.of_nat (length (filter (λ r, is_null (told f r) = false) rows)) = Z.of_nat (length rows).
Proof.
  pose proof (sum_by_filter_split (λ r, is_null (told f r) = true) (λ _, 1) rows) as Hsplit. rewrite !sum_ones in Hsplit. rewrite Hsplit.
  do 3 f_equal. apply list_filter_iff. intros r. by destruct (is_null (told f r)).
Qed.

(** ** Theorem *)

(** C40 (functional): the destinations of the receipts that the script writes: whatever the size of the batches and the number of
    attempts, each selected receipt has one row, in order, with what the node tells about it; a destination that was found is
    that of a receipt with the same hash and value; receipts are only left out of the count of those found when
    the caller allows it; and the table reads back. *)
Theorem receipts_mapped f a w s report w' :
  tells transport (a_rpc a) f → main a w = (Ok (s, report), w') →
  ∃ text rows, files w !! a_input a = Some text ∧ selected_rows (a_destination_shard a) (a_minimum_source_block a) text = Ok rows ∧
    s = (map_of f <$> rows, missing_of f rows) ∧ Forall (authenticated f) rows ∧
    (a_allow_missing a = true ∨ Forall (λ r, told f r ≠ JNull) rows) ∧
    files w !! a_output a = None ∧ files w' = <[a_output a := table_text s.1]> (files w) ∧
    Forall2 row_says s.1 (dict_rows (table_text s.1)) ∧
    report = JObj [("input", JStr (a_input a)); ("output", JStr (a_output a));
                   ("mapped", JInt (Z.of_nat (length (filter (λ r, is_null (told f r) = false) rows))));
                   ("missing", JInt (Z.of_nat (length (filter (λ r, is_null (told f r) = true) rows))))].
Proof.
  intros Hf H. unfold main in H. apply io_bind_Ok in H as (u & w1 & [-> Hpos%raise_when_Ok]%lift_Ok & H).
  apply io_bind_Ok in H as (text & w1 & [-> Ht]%read_Ok & H). apply io_bind_Ok in H as (rows & w1 & [-> Hrows]%lift_Ok & H).
  apply io_bind_Ok in H as (s1 & w1 & [-> Hs]%lift_Ok & H). apply io_bind_Ok in H as (u1 & w1 & [-> Hmiss%raise_when_Ok]%lift_Ok & H).
  apply io_bind_Ok in H as (u2 & w1 & Hw & H). apply mret_Ok in H as [-> [= <- <-]].
  unfold write_rows in Hw. apply io_bind_Ok in Hw as (u3 & w2 & (-> & Hfree & _)%refuse_existing_Ok & [_ Hw]%publish_Ok).
  bool_facts. apply (map_batches_Ok _ f) in Hs as [-> Hauth]; [|lia|done].
  unfold concat_texts in Hw. rewrite concat_csv_lines_crlf in Hw. fold (table_text (state_of f rows).1) in Hw.
  exists text, rows. cbn [fst snd state_of] in *. split_and!; try done.
  - destruct (a_allow_missing a); [by left|]. right. rewrite andb_true_r in Hmiss. bool_facts. apply Forall_forall. intros r Hr Hnull.
    apply Hmiss. intros Hnil. apply (f_equal length) in Hnil. unfold missing_of in Hnil. rewrite length_fmap in Hnil. apply nil_length_inv in Hnil.
    assert (r ∈ filter (λ r, is_null (told f r) = true) rows) as Hin by (apply list_elem_of_filter; by rewrite Hnull).
    rewrite Hnil in Hin. by apply not_elem_of_nil in Hin.
  - rewrite table_back_map. apply Forall2_fmap_r, Forall_Forall2_diag, Forall_true. apply table_says.
  - unfold report_json, state_of, missing_of. cbn [fst snd]. rewrite !length_fmap.
    rewrite <-(found_and_missing f rows). by replace (_ + _ - _)%Z with (Z.of_nat (length (filter (λ r, is_null (told f r) = false) rows))) by lia.
Qed.
End node.

(** ** An example *)
Definition ex_answer (method : string) (params : list json) : json :=
  match params with
  | [JStr h] => if bool_decide (h = "0xab") then JObj [("hash", JStr "0xAB"); ("value", JStr "7"); ("blockNumber", JInt 12); ("blockHash", JStr "0xb")] else JNull
  | _ => JNull
  end.

Definition ex_transport : nat → string → json → result json := answering ex_answer.
Definition ex_args : args := Args "http://node" "receipts.csv" "mapped.csv" 1 100 1 5 true.
Definition ex_receipts : string := write_csv [["to_shard"; "source_block"; "tx_hash"; "amount_atto"];
  ["1"; "100"; "0xAb"; "7"]; ["0"; "101"; "0xcc"; "9"]; ["1"; "99"; "0xdd"; "1"]; ["1"; "200"; "0xee"; "3"]].
Definition ex_world : world := World (list_to_map [("receipts.csv", ex_receipts)]) None.
Definition ex_output : state * json := get ([], [], JNull) (main ex_transport ex_args ex_world).1.

Lemma ex_main_map : main ex_transport ex_args ex_world = (Ok (ex_output.1, ex_output.2), (main ex_transport ex_args ex_world).2).
Proof. rewrite <-surjective_pairing. apply run_Ok, get_Ok. by vm_compute. Qed.

Example ex_mapped : (λ m, (tx_hash (m_receipt m), m_destination m)) <$> ex_output.1.1 = [("0xab", Some (12, JStr "0xb")); ("0xee", None)].
Proof. by vm_compute. Qed.

Lemma receipts_mapped_witness : files ex_world !! "mapped.csv" = None ∧ Forall2 row_says ex_output.1.1 (dict_rows (table_text ex_output.1.1)).
Proof.
  destruct (receipts_mapped ex_transport ex_answer ex_args ex_world _ _ _ (answering_tells ex_answer _) ex_main_map)
    as (text & rows & _ & _ & _ & _ & _ & Hn & _ & Ht & _). exact (conj Hn Ht).
Defined.
