(* ===== verification/Manifests.v ===== *)
(** * Manifest files

    The manifests under manifests/ list one file per line: its SHA-256, its size and its path, separated by two spaces.
    src/scripts/update-source-manifest.py and update-results-manifest.py write them, verify-source-manifest.py and
    verify-results.py read them.  A line that was written is read back to what it lists ([split_entry_text]), and a text to its lines
    ([text_lines_concat]). *)
From S2P Require Import Prelude PyStr PyData Sha256 Files Csv.

Record entry := Entry { e_path : string; e_digest : string; e_size : Z }.

(** [f"{digest}  {size}  {path}\n"] *)
Definition entry_text (e : entry) : string := e_digest e +:+ "  " +:+ str_of_Z (e_size e) +:+ "  " +:+ e_path e.
Definition entry_line (e : entry) : string := entry_text e +:+ newline.

(** ** Reading lines *)

(** Universal newlines. *)
Fixpoint translate (s : string) : string :=
  match s with
  | EmptyString => EmptyString
  | String c s' =>
      if decide (c = cr) then
        String lf (match s' with
                   | String d s'' => if decide (d = lf) then translate s'' else translate s'
                   | EmptyString => EmptyString
                   end)
      else String c (translate s')
  end.

(** The lines of a text, without their ends. *)
Fixpoint drop_empty_end (l : list string) : list string :=
  match l with
  | [] => []
  | [s] => if decide (s = EmptyString) then [] else [s]
  | s :: l => s :: drop_empty_end l
  end.

Definition text_lines (text : string) : list string := drop_empty_end (split_on lf (translate text)).

(** [str.splitlines] after the translation of line ends, on ASCII *)
Definition line_boundary (c : ascii) : bool := existsb (λ d, bool_decide (c = d)) [lf; cr; "011"; "012"; "028"; "029"; "030"]%char.

Fixpoint split_lines (s : string) : list string :=
  match s with
  | EmptyString => [EmptyString]
  | String c s =>
      if line_boundary c then EmptyString :: split_lines s
      else match split_lines s with line :: lines => String c line :: lines | [] => [String c EmptyString] end
  end.

Definition splitlines (s : string) : list string := drop_empty_end (split_lines (translate s)).

(** The parts of a text before and after its first two spaces. *)
Fixpoint cut (s : string) : option (string * string) :=
  match s with
  | String " " (String " " r) => Some (EmptyString, r)
  | String c r => match cut r with Some (a, b) => Some (String c a, b) | None => None end
  | EmptyString => None
  end.

(** [digest, size, relative = line.rstrip("\n").split("  ", 2)] *)
Definition split_entry (line : string) : result (string * string * string) :=
  match cut line with
  | Some (digest, r) =>
      match cut r with
      | Some (size, path) => Ok (digest, size, path)
      | None => Err (ValueError "not enough values to unpack")
      end
  | None => Err (ValueError "not enough values to unpack")
  end.

(** [item for item in process.stdout.split(b"\0") if item] *)
Definition nul : ascii := "000".
Definition listed_items (stdout : string) : list string := filter (λ i, i ≠ EmptyString) (split_on nul stdout).

(** What is listed of a file. *)
Definition describe (path : string) (content : string) : entry := Entry path (sha256 content) (Z.of_nat (String.length content)).

(** [path.relative_to(root).as_posix()] for an absolute root *)
Definition relative_to (root p : string) : result string :=
  let above := path_join root EmptyString in
  if startswith above p then Ok (str_drop (String.length above) p) else Err (ValueError "not in the subpath").

(** [sha256(path)] and [path.stat().st_size] *)
Definition hash_file : string → IO string := file_sha256_at (Z.to_nat (1024 * 1024)).

(** [sha256(path)] with chunks of four megabytes *)
Definition hash_file_4m : string → IO string := file_sha256_at (Z.to_nat (4 * 1024 * 1024)).

Definition file_size (p : string) : IO Z := s ← read p; mret (Z.of_nat (String.length s)).

(** The row of a file under [root]. *)
Definition measure (root path : string) : IO entry :=
  relative ← lift (relative_to root path);
  digest ← hash_file path;
  size ← file_size path;
  mret (Entry relative digest size).

(** The order of the rows, which Python compares as tuples. *)
Definition entry_leb (a b : entry) : bool :=
  if decide (e_path a = e_path b) then
    if decide (e_digest a = e_digest b) then e_size a <=? e_size b else str_leb (e_digest a) (e_digest b)
  else str_leb (e_path a) (e_path b).

(** [sum(1 for _ in csv.reader(source)) - 1] *)
Definition csv_rows (p : string) : IO Z := s ← read p; mret (Z.of_nat (length (read_csv s)) - 1).

(** ** Lemmas *)
Definition no_space (s : string) : bool := all_chars (λ c, negb (bool_decide (c = " "%char))) s.
Definition no_break (s : string) : bool := all_chars (λ c, negb (line_break c)) s.

Lemma cut_app a r : no_space a = true → cut (a +:+ "  " +:+ r) = Some (a, r).
Proof.
  unfold no_space. induction a as [|c a IH]; intros Ha; [done|]. cbn [all_chars] in Ha. apply andb_true_iff in Ha as [Hc Ha].
  rewrite str_app_cons. cbn [cut]. rewrite (IH Ha). apply negb_true_iff, bool_decide_eq_false in Hc.
  destruct c as [[] [] [] [] [] [] [] []]; try done; by destruct Hc.
Qed.

Lemma no_space_digits s : all_chars is_digit s = true → no_space s = true.
Proof. apply all_chars_impl. intros c Hc. apply negb_true_iff, bool_decide_eq_false. by intros ->. Qed.

Lemma no_space_str_of_Z n : no_space (str_of_Z n) = true.
Proof.
  unfold str_of_Z. destruct (Z.ltb_spec n 0); [|by apply no_space_digits, dec_chars].
  change (no_space (dec (- n)) = true). apply no_space_digits, dec_chars. lia.
Qed.

Lemma no_break_str_of_Z n : no_break (str_of_Z n) = true.
Proof.
  assert (Hd : ∀ s, all_chars is_digit s = true → no_break s = true).
  { intros s. apply all_chars_impl. intros c Hc. unfold line_break. apply negb_true_iff, bool_decide_eq_false. by intros [-> | ->]. }
  unfold str_of_Z. destruct (Z.ltb_spec n 0); [|by apply Hd, dec_chars]. change (no_break (dec (- n)) = true). apply Hd, dec_chars. lia.
Qed.

Lemma sha256_chars s : all_chars lower_hex_char (sha256 s) = true.
Proof.
  assert (Hb : Forall is_byte (sha256_bytes (bytes_of_string s)))
    by (unfold sha256_bytes; apply Forall_join, Forall_fmap, Forall_forall; intros x _; apply be_bytes_bytes).
  apply hex_lower_hex in Hb. unfold lower_hex in Hb. by apply andb_true_iff in Hb as [_ Hb].
Qed.

Lemma no_space_sha256 s : no_space (sha256 s) = true.
Proof. eapply all_chars_impl; [|apply sha256_chars]. intros c Hc. apply negb_true_iff, bool_decide_eq_false. by intros ->. Qed.

Lemma no_break_sha256 s : no_break (sha256 s) = true.
Proof.
  eapply all_chars_impl; [|apply sha256_chars]. intros c Hc. unfold line_break. apply negb_true_iff, bool_decide_eq_false. by intros [-> | ->].
Qed.

Lemma no_break_app s t : no_break (s +:+ t) = no_break s && no_break t.
Proof. unfold no_break. induction s as [|c s IH]; [done|]. rewrite str_app_cons. cbn [all_chars]. by rewrite IH, andb_assoc. Qed.

(** A line that was written is read back. *)
Lemma split_entry_text e : no_space (e_digest e) = true → split_entry (entry_text e) = Ok (e_digest e, str_of_Z (e_size e), e_path e).
Proof. intros Hd. unfold split_entry, entry_text. rewrite cut_app by done. by rewrite cut_app by apply no_space_str_of_Z. Qed.

Lemma entry_no_break path content : no_break path = true → no_break (entry_text (describe path content)) = true.
Proof. intros Hp. unfold entry_text, describe. cbn [e_digest e_size e_path]. by rewrite !no_break_app, no_break_sha256, no_break_str_of_Z, Hp. Qed.

Lemma translate_line s rest : no_break s = true → translate (s +:+ String lf rest) = s +:+ String lf (translate rest).
Proof.
  unfold no_break. induction s as [|c s IH]; intros Hs; [done|]. cbn [all_chars] in Hs. apply andb_true_iff in Hs as [Hc Hs].
  rewrite !str_app_cons. cbn [translate]. rewrite decide_False; [by rewrite (IH Hs)|]. intros ->. done.
Qed.

Lemma split_line s rest : no_break s = true → split_on lf (s +:+ String lf rest) = s :: split_on lf rest.
Proof.
  unfold no_break. induction s as [|c s IH]; intros Hs; [done|]. cbn [all_chars] in Hs. apply andb_true_iff in Hs as [Hc Hs].
  rewrite str_app_cons. cbn [split_on]. rewrite decide_False, (IH Hs); [done|]. intros ->. done.
Qed.

(** A text written line by line has these lines. *)
Lemma text_lines_concat ts : Forall (λ t, no_break t = true) ts → text_lines (concat_texts ((λ t, t +:+ newline) <$> ts)) = ts.
Proof.
  intros Hts. unfold text_lines.
  assert (Hs : split_on lf (translate (concat_texts ((λ t, t +:+ newline) <$> ts))) = ts ++ [EmptyString]).
  { induction Hts as [|t ts Ht _ IH]; [done|]. rewrite fmap_cons. unfold concat_texts in *. cbn [foldr].
    rewrite <-str_app_assoc. unfold newline at 1. rewrite str_app_cons, str_app_nil_l. change "010"%char with lf.
    by rewrite translate_line, split_line, IH. }
  rewrite Hs. clear. induction ts as [|t ts IH]; [done|]. cbn [app drop_empty_end]. rewrite IH. by destruct ts.
Qed.

Lemma text_lines_entries es :
  Forall (λ e, no_break (entry_text e) = true) es → text_lines (concat_texts (entry_line <$> es)) = entry_text <$> es.
Proof.
  intros Hes. rewrite <-(text_lines_concat (entry_text <$> es)); [|by apply Forall_fmap]. by rewrite <-list_fmap_compose.
Qed.

Lemma path_join_above root r : startswith "/" r = false → path_join root r = path_join root EmptyString +:+ r.
Proof.
  intros Hr. unfold path_join. rewrite Hr. cbn [startswith String.prefix]. destruct root as [|c root]; [done|].
  destruct c as [[] [] [] [] [] [] [] []]; cbn; try (by rewrite <-!str_app_assoc); destruct root; cbn; try done; by rewrite <-!str_app_assoc.
Qed.

Lemma path_join_long root r : (1 < String.length root)%nat → startswith "/" r = false → path_join root r = root +:+ "/" +:+ r.
Proof. intros Hl Hr. unfold path_join. rewrite Hr. destruct root as [|c [|d root]]; cbn in Hl; try lia. by destruct c as [[] [] [] [] [] [] [] []]. Qed.

Lemma startswith_cancel a b c : startswith (a +:+ b) (a +:+ c) = startswith b c.
Proof. unfold startswith. induction a as [|x a IH]; [done|]. rewrite !str_app_cons. cbn [String.prefix]. by destruct (ascii_dec x x). Qed.

(** A path under [root] and its relative form. *)
Lemma relative_to_join root r : startswith "/" r = false → relative_to root (path_join root r) = Ok r.
Proof.
  intros Hr. unfold relative_to. rewrite (path_join_above _ _ Hr). generalize (path_join root EmptyString) as a. intros a. by rewrite startswith_app, str_drop_app.
Qed.

Lemma path_join_inj root r1 r2 :
  startswith "/" r1 = false → startswith "/" r2 = false → path_join root r1 = path_join root r2 → r1 = r2.
Proof. intros H1 H2 He. apply (f_equal (relative_to root)) in He. rewrite !relative_to_join in He by done. by injection He. Qed.

(** The reading operations on a file that is there, and when they return. *)
Lemma read_eq p w s : files w !! p = Some s → read p w = (Ok s, w).
Proof. intros H. unfold read. by rewrite H. Qed.

Lemma exists_eq p w s : files w !! p = Some s → exists_ p w = (Ok true, w).
Proof. intros H. unfold exists_. by rewrite bool_decide_eq_true_2 by by eexists. Qed.

Lemma file_size_eq p w s : files w !! p = Some s → file_size p w = (Ok (Z.of_nat (String.length s)), w).
Proof. intros H. unfold file_size. by rewrite (io_bind_eq _ _ _ _ _ (read_eq _ _ _ H)). Qed.

Lemma file_size_Ok p w n w' : file_size p w = (Ok n, w') → w' = w ∧ ∃ s, files w !! p = Some s ∧ n = Z.of_nat (String.length s).
Proof. unfold file_size. intros H. apply io_bind_Ok in H as (s & w1 & [-> Hs]%read_Ok & [-> <-]%mret_Ok). split; [done|]. by exists s. Qed.

Lemma hash_eq p w s : files w !! p = Some s → hash_file p w = (Ok (sha256 s), w).
Proof. intros H. unfold hash_file. rewrite file_sha256_at_read by lia. by rewrite H. Qed.

Lemma hash_4m p w : hash_file_4m p w = hash_file p w.
Proof. unfold hash_file, hash_file_4m. by rewrite !file_sha256_at_read by lia. Qed.

Lemma exists_Ok p w b w' : exists_ p w = (Ok b, w') → w' = w ∧ b = bool_decide (is_Some (files w !! p)).
Proof. unfold exists_. by intros [= <- <-]. Qed.

Lemma hash_file_Ok p w d w' : hash_file p w = (Ok d, w') → w' = w ∧ ∃ s, files w !! p = Some s ∧ d = sha256 s.
Proof.
  unfold hash_file. rewrite file_sha256_at_read by lia. intros H. injection H as H <-. split; [done|].
  destruct (files w !! p) as [s|]; [|done]. injection H as <-. by exists s.
Qed.

Lemma measure_Ok root p w e w' :
  measure root p w = (Ok e, w') → w' = w ∧ ∃ r s, relative_to root p = Ok r ∧ files w !! p = Some s ∧ e = describe r s.
Proof.
  unfold measure. intros H. apply io_bind_Ok in H as (r & w1 & [-> Hr]%lift_Ok & H).
  apply io_bind_Ok in H as (d & w2 & [-> (s & Hs & ->)]%hash_file_Ok & H).
  apply io_bind_Ok in H as (n & w3 & [-> (s' & Hs' & ->)]%file_size_Ok & [-> <-]%mret_Ok). assert (s' = s) as -> by congruence.
  split; [done|]. by exists r, s.
Qed.

Lemma relative_to_inj root p q r : relative_to root p = Ok r → relative_to root q = Ok r → p = q.
Proof.
  unfold relative_to. intros Hp Hq. destruct (startswith _ p) eqn:Sp; [|done]. destruct (startswith _ q) eqn:Sq; [|done].
  apply startswith_spec in Sp as [a ->]. apply startswith_spec in Sq as [b ->]. rewrite str_drop_app in *. congruence.
Qed.

Lemma measure_eq root p w r s : relative_to root p = Ok r → files w !! p = Some s → measure root p w = (Ok (describe r s), w).
Proof.
  intros Hr Hs. unfold measure. rewrite (lift_bind_eq _ _ _ _ Hr), (io_bind_eq _ _ _ _ _ (hash_eq _ _ _ Hs)).
  by rewrite (io_bind_eq _ _ _ _ _ (file_size_eq _ _ _ Hs)).
Qed.

Lemma join_relative root p r : relative_to root p = Ok r → startswith "/" r = false → path_join root r = p.
Proof.
  intros Hp Hr. rewrite path_join_above by done. unfold relative_to in Hp. destruct (startswith _ p) eqn:Sp; [|done].
  apply startswith_spec in Sp as [a ->]. rewrite str_drop_app in Hp. congruence.
Qed.

(** The entry of a path. *)
Definition describes (root : string) (w : world) (path : string) (e : entry) : Prop :=
  relative_to root path = Ok (e_path e) ∧ ∃ s, files w !! path = Some s ∧ e = describe (e_path e) s.

Lemma describes_text root w path e : describes root w path e → no_break (e_path e) = true → no_break (entry_text e) = true.
Proof. intros (_ & s & _ & He) Hb. rewrite He. by apply entry_no_break. Qed.

Lemma describes_digest root w path e : describes root w path e → no_space (e_digest e) = true.
Proof. intros (_ & s & _ & ->). apply no_space_sha256. Qed.
