(* ===== verification/SourceManifest.v ===== *)
(** * The manifest of the public files

    src/scripts/update-source-manifest.py writes manifests/source.sha256, one line for every file that git lists;
    verify-source-manifest.py reads it and compares it with the files.

    [public_fold] is the generator [public_files] with the loop that consumes it, [update] and [verify] are the two [main]s.  git's
    output ([ls_files]), links and directories are parameters: the world of files has none of them. *)
From S2P Require Import Prelude PyStr PyData Sha256 Files Csv Json JsonText Manifests.

Definition MANIFEST_NAME : string := "manifests/source.sha256".

Section manifest.
Context (ROOT : string).
(** The standard output of [git ls-files --cached --others --exclude-standard -z] in [ROOT]. *)
Context (ls_files : gmap string string → result string).
Context (is_symlink is_directory : string → bool).

Definition OUTPUT : string := path_join ROOT MANIFEST_NAME.

(** ** The listing *)

(** The body of the loop of [public_files()]: the path that is yielded, if any. *)
Definition public_file (relative : string) : IO (option string) :=
  if decide (relative = MANIFEST_NAME) then mret None
  else
    let path := path_join ROOT relative in
    lift (raise_when (is_symlink path) (ValueError "public package contains symlink")) ≫= λ _,
    is_file ← exists_ path;
    if (is_file : bool) then mret (Some path)
    else lift (raise_when (is_directory path) (FileNotFoundError path)) ≫= λ _, mret None.

Definition public_step {S} (f : S → string → IO S) (s : S) (relative : string) : IO S :=
  path ← public_file relative;
  match path with Some path => f s path | None => mret s end.

(** [sorted(item for item in process.stdout.split(b"\0") if item)] *)
Definition items (stdout : string) : list string := sort_by str_leb (listed_items stdout).

(** [for path in public_files(): s = f(s, path)] *)
Definition public_fold {S} (f : S → string → IO S) (s : S) : IO S :=
  stdout ← (λ w, (ls_files (files w), w));
  fold_io (public_step f) s (items stdout).

(** ** update-source-manifest.py *)

(** The body of the loop; [seen] is the set of the rows' paths. *)
Definition add_file (rows : list entry) (path : string) : IO (list entry) :=
  relative ← lift (relative_to ROOT path);
  lift (raise_when (bool_decide (relative ∈ e_path <$> rows)) (ValueError "duplicate manifest path")) ≫= λ _,
  e ← measure ROOT path;
  mret (rows ++ [e]).

Definition update : IO (list entry) :=
  rows ← public_fold add_file [];
  let rows := sort_by entry_leb rows in
  publish_over OUTPUT (entry_line <$> rows) ≫= λ _,
  mret rows.

(** ** verify-source-manifest.py *)

Definition listing_step (listed : gmap string (string * Z)) (line : string) : result (gmap string (string * Z)) :=
  '(digest, size, relative) ← split_entry line;
  raise_when (bool_decide (is_Some (listed !! relative))) (ValueError "duplicate manifest path");;
  n ← int_str size;
  Ok (<[relative := (digest, n)]> listed).

Definition listing_of (text : string) : result (gmap string (string * Z)) := foldM listing_step ∅ (text_lines text).

(** The dict comprehension over [public_files()]. *)
Definition expect_file (expected : list (string * string)) (path : string) : IO (list (string * string)) :=
  relative ← lift (relative_to ROOT path);
  mret (assoc_set relative path expected).

(** The body of the loop over [expected.items()]. *)
Definition check_file (listed : gmap string (string * Z)) (e : string * string) : IO unit :=
  '(digest, size) ← lift (of_option (listed !! e.1) (KeyError e.1));
  n ← file_size e.2;
  lift (raise_when (negb (n =? size)) (ValueError "source manifest size mismatch")) ≫= λ _,
  d ← hash_file e.2;
  lift (raise_when (negb (bool_decide (d = digest))) (ValueError "source manifest hash mismatch")).

Definition verify : IO nat :=
  text ← read OUTPUT;
  listed ← lift (listing_of text);
  expected ← public_fold expect_file [];
  lift (raise_when (negb (bool_decide (dom listed = list_to_set expected.*1))) (ValueError "source manifest file set mismatch")) ≫= λ _,
  for_io (check_file listed) expected ≫= λ _,
  mret (size listed).

(** ** The files listed *)
Definition public_path (w : world) (relative : string) : option string :=
  if decide (relative = MANIFEST_NAME) then None
  else let path := path_join ROOT relative in if bool_decide (is_Some (files w !! path)) then Some path else None.

Lemma public_file_Ok relative w o w' : public_file relative w = (Ok o, w') → w' = w ∧ o = public_path w relative.
Proof.
  unfold public_file, public_path. case_decide as Hm; intros H; [by apply mret_Ok in H as [-> ->]|].
  apply io_bind_Ok in H as (u & w1 & [-> _]%lift_Ok & H). apply io_bind_Ok in H as (b & w2 & H1 & H).
  injection H1 as <- <-. case_bool_decide as Hx; [by apply mret_Ok in H as [-> ->]|].
  apply io_bind_Ok in H as (u' & w3 & [-> _]%lift_Ok & H). by apply mret_Ok in H as [-> ->].
Qed.

Section fold.
Context {S : Type} (f : S → string → IO S).
Hypothesis reads : ∀ s p, reads_only (f s p).

Lemma omap_step (g : string → option string) i l : omap g (i :: l) = match g i with Some p => p :: omap g l | None => omap g l end.
Proof. done. Qed.

(** A loop that returned ran over the public paths. *)
Lemma public_steps_Ok l s w s' w' :
  fold_io (public_step f) s l w = (Ok s', w') →
  w' = w ∧ Forall (λ i, public_file i w = (Ok (public_path w i), w)) l ∧ fold_io f s (omap (public_path w) l) w = (Ok s', w).
Proof.
  revert s. induction l as [|i l IH]; intros s H; cbn [fold_io] in H; [by apply mret_Ok in H as [-> ->]|].
  apply io_bind_Ok in H as (s1 & w1 & H1 & H). unfold public_step in H1. apply io_bind_Ok in H1 as (o & w2 & Hi & H1).
  pose proof (public_file_Ok _ _ _ _ Hi) as [-> ->].
  assert (Hs : w1 = w ∧ (match public_path w i with Some p => f s p | None => mret s end) w = (Ok s1, w)).
  { destruct (public_path w i) as [p|]; [pose proof (reads_only_world _ _ _ _ (reads s p) H1) as ->; done|]. by apply mret_Ok in H1 as [-> ->]. }
  destruct Hs as [-> Hs]. apply IH in H as (-> & Hl & H). split_and!; [done|by constructor|]. rewrite <-H, omap_step.
  destruct (public_path w i) as [p|]; [cbn [fold_io]; by rewrite (io_bind_eq _ _ _ _ _ Hs)|]. by apply mret_Ok in Hs as [_ ->].
Qed.

Lemma public_steps_eq l s w :
  Forall (λ i, public_file i w = (Ok (public_path w i), w)) l → fold_io (public_step f) s l w = fold_io f s (omap (public_path w) l) w.
Proof.
  intros Hl. revert s. induction Hl as [|i l Hi _ IH]; intros s; [done|]. rewrite omap_step. cbn [fold_io].
  assert (Hs : public_step f s i w = match public_path w i with Some p => f s p w | None => (Ok s, w) end).
  { unfold public_step. rewrite (io_bind_eq _ _ _ _ _ Hi). by destruct (public_path w i). }
  destruct (public_path w i) as [p|].
  - destruct (f s p w) as [[s1|e] w1] eqn:Hf; pose proof (reads_only_world _ _ _ _ (reads s p) Hf) as ->.
    + rewrite (io_bind_eq _ _ _ _ _ Hs). cbn [fold_io]. rewrite (io_bind_eq _ _ _ _ _ Hf). apply IH.
    + cbn [fold_io]. unfold mbind, io_bind. by rewrite Hs, Hf.
  - rewrite (io_bind_eq _ _ _ _ _ Hs). apply IH.
Qed.
End fold.

(** ** What the loops gather *)

Lemma add_file_reads rows p : reads_only (add_file rows p).
Proof.
  unfold add_file, measure, file_size, hash_file. repeat (apply reads_only_bind; [auto with py|intros ?]); auto with py.
Qed.

Lemma expect_file_reads m p : reads_only (expect_file m p).
Proof. unfold expect_file. apply reads_only_bind; auto with py. Qed.

Lemma add_files_Ok paths rows w rows' :
  NoDup (e_path <$> rows) → fold_io add_file rows paths w = (Ok rows', w) →
  ∃ es, rows' = rows ++ es ∧ NoDup (e_path <$> rows') ∧ Forall2 (describes ROOT w) paths es.
Proof.
  revert rows. induction paths as [|p paths IH]; intros rows Hn H; cbn [fold_io] in H.
  { apply mret_Ok in H as [_ ->]. exists []. by rewrite app_nil_r. }
  apply io_bind_Ok in H as (rows1 & w1 & H1 & H). pose proof (reads_only_world _ _ _ _ (add_file_reads rows p) H1) as ->.
  unfold add_file in H1. apply io_bind_Ok in H1 as (r & w2 & [-> Hr]%lift_Ok & H1). apply io_bind_Ok in H1 as (u & w3 & [-> Hd]%lift_Ok & H1).
  apply raise_when_Ok, bool_decide_eq_false in Hd. apply io_bind_Ok in H1 as (e & w4 & [-> (r' & s & Hr' & Hs & ->)]%measure_Ok & H1).
  apply mret_Ok in H1 as [_ <-]. assert (r' = r) as -> by congruence.
  apply IH in H as (es & -> & Hn' & Hes); [|rewrite fmap_app; by apply NoDup_snoc].
  exists (describe r s :: es). rewrite <-app_assoc in *. split_and!; [done|done|]. constructor; [|done]. split; [done|]. by exists s.
Qed.

Lemma expect_files paths acc w acc' w' :
  fold_io expect_file acc paths w = (Ok acc', w') → (∀ r p, (r, p) ∈ acc → relative_to ROOT p = Ok r) →
  ∀ r p, (r, p) ∈ acc' ↔ (r, p) ∈ acc ∨ (p ∈ paths ∧ relative_to ROOT p = Ok r).
Proof.
  revert acc. induction paths as [|q paths IH]; intros acc H Hacc r p; cbn [fold_io] in H.
  { apply mret_Ok in H as [_ ->]. split; [by left|]. intros [?|[[]%not_elem_of_nil _]]; done. }
  apply io_bind_Ok in H as (acc1 & w1 & H1 & H). pose proof (reads_only_world _ _ _ _ (expect_file_reads acc q) H1) as ->.
  unfold expect_file in H1. apply io_bind_Ok in H1 as (r0 & w2 & [-> Hr0]%lift_Ok & H1). apply mret_Ok in H1 as [_ <-].
  assert (Hset : ∀ r p, (r, p) ∈ assoc_set r0 q acc ↔ (r, p) = (r0, q) ∨ (r, p) ∈ acc).
  { intros r1 p1. split; [apply elem_of_assoc_set|]. intros [[= -> ->]|Hin]; [apply assoc_set_elem|].
    destruct (decide (r1 = r0)) as [->|Hne]; [|by apply assoc_set_keeps]. rewrite (relative_to_inj ROOT p1 q r0); [apply assoc_set_elem|by apply Hacc|done]. }
  assert (Hacc1 : ∀ r1 p1, (r1, p1) ∈ assoc_set r0 q acc → relative_to ROOT p1 = Ok r1).
  { intros r1 p1 [Heq|Hin]%Hset; [by injection Heq as -> ->|by apply Hacc]. }
  pose proof (IH _ H Hacc1 r p) as Hiff. specialize (Hset r p). rewrite elem_of_cons. clear IH Hacc Hacc1 H.
  split.
  - intros [[Heq|Hin]%Hset|[Hp Hr]]%Hiff; [injection Heq as -> ->; right; tauto|by left|right; tauto].
  - intros [Hin|[[->|Hp] Hr]]; apply Hiff; [left; apply Hset; by right| |by right]. left. apply Hset. left. congruence.
Qed.

Lemma expect_files_relative paths acc w acc' w' p :
  fold_io expect_file acc paths w = (Ok acc', w') → p ∈ paths → ∃ r, relative_to ROOT p = Ok r.
Proof.
  revert acc w. induction paths as [|q paths IH]; intros acc w H; [by intros ?%not_elem_of_nil|]. cbn [fold_io] in H.
  apply io_bind_Ok in H as (acc1 & w1 & H1 & H). apply io_bind_Ok in H1 as (r & w2 & [_ Hr]%lift_Ok & _).
  intros [->|Hp]%elem_of_cons; [by exists r|by eapply IH].
Qed.

Lemma expect_files_returns paths acc w :
  (∀ p, p ∈ paths → ∃ r, relative_to ROOT p = Ok r) → ∃ acc', fold_io expect_file acc paths w = (Ok acc', w).
Proof.
  revert acc. induction paths as [|q paths IH]; intros acc Hp; cbn [fold_io]; [by eexists|].
  destruct (Hp q) as [r Hr]; [by left|]. unfold expect_file at 1.
  assert (Hq : expect_file acc q w = (Ok (assoc_set r q acc), w)) by (unfold expect_file; by rewrite (lift_bind_eq _ _ _ _ Hr)).
  rewrite (io_bind_eq _ _ _ _ _ Hq). apply IH. intros p ?. apply Hp. by right.
Qed.

Lemma find_path es e : NoDup (e_path <$> es) → e ∈ es → find (λ e', bool_decide (e_path e' = e_path e)) es = Some e.
Proof.
  intros Hn He. induction es as [|e1 es IH]; [by apply not_elem_of_nil in He|]. cbn [find]. rewrite fmap_cons in Hn. apply NoDup_cons in Hn as [Hn1 Hn].
  apply elem_of_cons in He as [->|He]; [by rewrite bool_decide_eq_true_2|]. rewrite bool_decide_eq_false_2; [by apply IH|].
  intros Heq. apply Hn1. rewrite Heq. by apply list_elem_of_fmap_2.
Qed.

(** The lines that were written list their entries. *)
Lemma listing_entries es listed :
  Forall (λ e, no_space (e_digest e) = true) es → NoDup (e_path <$> es) → Forall (λ e, listed !! e_path e = None) es →
  ∃ listed', foldM listing_step listed (entry_text <$> es) = Ok listed' ∧ size listed' = (size listed + length es)%nat ∧
    ∀ r, listed' !! r = match find (λ e, bool_decide (e_path e = r)) es with Some e => Some (e_digest e, e_size e) | None => listed !! r end.
Proof.
  revert listed. induction es as [|e es IH]; intros listed Hd Hn Hl; [exists listed; split_and!; [done|simpl; lia|done]|].
  apply Forall_cons in Hd as [He Hd]. apply Forall_cons in Hl as [Hle Hl]. rewrite fmap_cons in Hn. apply NoDup_cons in Hn as [Hne Hn].
  rewrite fmap_cons. cbn [foldM].
  assert (Hs : listing_step listed (entry_text e) = Ok (<[e_path e := (e_digest e, e_size e)]> listed)).
  { unfold listing_step. rewrite (split_entry_text e He). cbn [mbind result_bind]. rewrite bool_decide_eq_false_2 by (rewrite Hle; by intros []).
    cbn [raise_when mbind result_bind]. by rewrite int_str_of_Z. }
  rewrite Hs. cbn [mbind result_bind].
  destruct (IH (<[e_path e := (e_digest e, e_size e)]> listed)) as (listed' & Hf & Hz & Hg); [done|done| |].
  { rewrite Forall_forall in Hl |- *. intros e' He'. rewrite lookup_insert_ne; [by apply Hl|]. intros Hee. apply Hne. rewrite Hee. by apply list_elem_of_fmap_2. }
  exists listed'. split_and!; [done|rewrite Hz, map_size_insert_None by done; simpl; lia|].
  intros r. rewrite Hg. cbn [find]. case_bool_decide as Hr.
  - subst. rewrite lookup_insert_eq. destruct (find _ es) as [e'|] eqn:Hfd; [|done]. exfalso. apply find_some in Hfd as [Hin Heq].
    apply bool_decide_eq_true in Heq. apply Hne. rewrite <-Heq. apply list_elem_of_fmap_2. by apply list_elem_of_In.
  - destruct (find _ es); [done|]. by rewrite lookup_insert_ne.
Qed.
Lemma public_omap w (l : list string) : omap (public_path w) l = omap (public_path w) (filter (λ i, i ≠ MANIFEST_NAME) l).
Proof.
  induction l as [|i l IH]; [done|]. rewrite omap_step, filter_cons, IH. case_decide as Hi; [by rewrite omap_step|].
  unfold public_path at 1. by rewrite decide_True.
Qed.

Lemma public_path_elem w (l : list string) p :
  p ∈ omap (public_path w) l ↔ ∃ i, i ∈ l ∧ i ≠ MANIFEST_NAME ∧ p = path_join ROOT i ∧ is_Some (files w !! p).
Proof.
  rewrite list_elem_of_omap. unfold public_path. split.
  - intros (i & Hi & Hp). case_decide; [done|]. case_bool_decide; [|done]. injection Hp as <-. by exists i.
  - intros (i & Hi & Hn & -> & Hs). exists i. split; [done|]. by rewrite decide_False, bool_decide_eq_true_2.
Qed.

(** A check that finds what is listed. *)
Lemma check_files listed expected w :
  Forall (λ kv, ∃ s, files w !! kv.2 = Some s ∧ listed !! kv.1 = Some (sha256 s, Z.of_nat (String.length s))) expected →
  for_io (check_file listed) expected w = (Ok tt, w).
Proof.
  induction 1 as [|[r p] expected (s & Hs & Hl) _ IH]; [done|]. cbn [for_io]. rewrite (io_bind_eq _ _ _ tt w); [done|].
  unfold check_file. cbn [fst snd] in *. rewrite (lift_bind_eq _ _ _ (sha256 s, Z.of_nat (String.length s))) by by rewrite Hl.
  rewrite (io_bind_eq _ _ _ _ _ (file_size_eq _ _ _ Hs)), guard_bind_eq by by rewrite Z.eqb_refl.
  rewrite (io_bind_eq _ _ _ _ _ (hash_eq _ _ _ Hs)). unfold lift. by rewrite bool_decide_eq_true_2.
Qed.

Lemma check_files_Ok listed expected w w' :
  for_io (check_file listed) expected w = (Ok tt, w') →
  w' = w ∧ Forall (λ kv, ∃ s, files w !! kv.2 = Some s ∧ listed !! kv.1 = Some (sha256 s, Z.of_nat (String.length s))) expected.
Proof.
  assert (Hc : ∀ kv w u w', check_file listed kv w = (Ok u, w') →
    w' = w ∧ ∃ s, files w !! kv.2 = Some s ∧ listed !! kv.1 = Some (sha256 s, Z.of_nat (String.length s))).
  { intros [r p] w0 u w1 H. unfold check_file in H. cbn [fst snd] in *. apply io_bind_Ok in H as ([d n] & w2 & [-> Hl%of_option_Ok]%lift_Ok & H).
    apply io_bind_Ok in H as (z & w3 & [-> (s & Hs & ->)]%file_size_Ok & H).
    apply io_bind_Ok in H as (u1 & w5 & [-> Hz%raise_when_Ok]%lift_Ok & H). apply io_bind_Ok in H as (d' & w6 & [-> (s' & Hs' & ->)]%hash_file_Ok & H).
    apply lift_Ok in H as [-> Hd%raise_when_Ok]. bool_facts. split; [done|]. exists s. split; [done|]. rewrite Hl.
    assert (s' = s) as -> by congruence. by subst. }
  intros H. apply for_io_reads_only in H as [-> H]; [|intros x w0 u w1 Hx; by apply Hc in Hx as [-> _]]. split; [done|].
  eapply Forall_impl; [exact H|]. intros kv [v Hv]. by apply Hc in Hv as [_ Hv].
Qed.
(** ** Theorems *)

(** What a passing verification says of a world: each public file is listed, with its digest and size, and nothing else is. *)
Definition manifest_holds (w : world) (n : nat) : Prop :=
  ∃ text listed out,
    files w !! OUTPUT = Some text ∧ listing_of text = Ok listed ∧ ls_files (files w) = Ok out ∧ n = size listed ∧
    (∀ r, r ∈ dom listed ↔ ∃ p, p ∈ omap (public_path w) (items out) ∧ relative_to ROOT p = Ok r) ∧
    (∀ p, p ∈ omap (public_path w) (items out) → ∃ r s,
      relative_to ROOT p = Ok r ∧ files w !! p = Some s ∧ listed !! r = Some (sha256 s, Z.of_nat (String.length s))).

(** A verification that passes changes nothing and has established that the manifest lists exactly the public files, each
    with the digest and the size of its content. *)
Theorem source_manifest_sound w n w' : verify w = (Ok n, w') → w' = w ∧ manifest_holds w n.
Proof.
  unfold verify. intros H. apply io_bind_Ok in H as (text & w1 & [-> Ht]%read_Ok & H).
  apply io_bind_Ok in H as (listed & w2 & [-> Hl]%lift_Ok & H). apply io_bind_Ok in H as (expected & w3 & He & H).
  unfold public_fold in He. apply io_bind_Ok in He as (out & w4 & Hout & He). injection Hout as Hout <-.
  apply (public_steps_Ok _ expect_file_reads) in He as (-> & _ & He). pose proof (expect_files _ _ _ _ _ He) as Hin.
  apply io_bind_Ok in H as (u & w5 & [-> Hd%raise_when_Ok]%lift_Ok & H). bool_facts.
  apply io_bind_Ok in H as ([] & w6 & [-> Hc]%check_files_Ok & [-> <-]%mret_Ok). split; [done|].
  assert (Hex : ∀ r p, (r, p) ∈ expected ↔ p ∈ omap (public_path w) (items out) ∧ relative_to ROOT p = Ok r).
  { intros r p. rewrite Hin; [|by intros ? ? ?%not_elem_of_nil]. split; [intros [[]%not_elem_of_nil|?]; done|by right]. }
  exists text, listed, out. split_and!; try done.
  - intros r. rewrite Hd, elem_of_list_to_set, list_elem_of_fmap. split.
    + intros ([r' p] & -> & Hp). exists p. by apply Hex.
    + intros (p & Hp). exists (r, p). split; [done|]. by apply Hex.
  - intros p Hp. assert (Hr : ∃ r, relative_to ROOT p = Ok r) by by eapply expect_files_relative.
    destruct Hr as [r Hr]. rewrite Forall_forall in Hc. destruct (Hc (r, p)) as (s & Hs & Hls); [by apply Hex|]. by exists r, s.
Qed.

(** git names the files by relative paths, and a change of the manifest changes at most its own place in git's list. *)
Hypothesis git_relative : ∀ fs out i, ls_files fs = Ok out → i ∈ items out → startswith "/" i = false.
Hypothesis git_other_files : ∀ fs text out, ls_files fs = Ok out →
  ∃ out', ls_files (<[OUTPUT := text]> fs) = Ok out' ∧
    filter (λ i, i ≠ MANIFEST_NAME) (items out') = filter (λ i, i ≠ MANIFEST_NAME) (items out).

Lemma other_path i : startswith "/" i = false → i ≠ MANIFEST_NAME → path_join ROOT i ≠ OUTPUT.
Proof. intros Hi Hn He. by apply path_join_inj in He. Qed.

(** The manifest is not among the files it lists, so writing it changes none of them. *)
Lemma public_after w w' text l :
  files w' = <[OUTPUT := text]> (files w) → (∀ i, i ∈ l → startswith "/" i = false) →
  Forall (λ i, public_file i w = (Ok (public_path w i), w)) l →
  Forall (λ i, public_file i w' = (Ok (public_path w' i), w')) l ∧ omap (public_path w') l = omap (public_path w) l.
Proof.
  intros Hw. induction l as [|i l IH]; intros Hl Hok; [done|]. apply Forall_cons in Hok as [Hi Hok].
  destruct IH as [IH1 IH2]; [intros; apply Hl; by right|done|]. rewrite !omap_step, IH2.
  assert (Hsame : public_path w' i = public_path w i).
  { unfold public_path. case_decide as Hn; [done|]. rewrite Hw, lookup_insert_ne; [done|]. intros He. apply (other_path i); [apply Hl; by left|done|done]. }
  split; [|by rewrite Hsame]. constructor; [|done]. rewrite Hsame. unfold public_file, public_path in Hi |- *.
  destruct (decide (i = MANIFEST_NAME)) as [->|Hn]; [done|]. unfold mbind, io_bind, lift, exists_, mret, io_ret in Hi |- *.
  assert (Hf : files w' !! path_join ROOT i = files w !! path_join ROOT i).
  { rewrite Hw, lookup_insert_ne; [done|]. intros He. apply (other_path i); [apply Hl; by left|done|done]. }
  rewrite Hf. destruct (is_symlink _), (is_directory _); cbn [raise_when] in Hi |- *; destruct (bool_decide _); congruence.
Qed.

(** What a run of the generator leaves. *)
Lemma update_Ok w rows w' :
  update w = (Ok rows, w') →
  ∃ out es, ls_files (files w) = Ok out ∧ Forall (λ i, public_file i w = (Ok (public_path w i), w)) (items out) ∧
    files w' = <[OUTPUT := concat_texts (entry_line <$> rows)]> (files w) ∧ rows ≡ₚ es ∧ NoDup (e_path <$> es) ∧
    Forall2 (describes ROOT w) (omap (public_path w) (items out)) es.
Proof.
  unfold update. intros H. apply io_bind_Ok in H as (rows0 & w1 & H1 & H). apply io_bind_Ok in H as ([] & w2 & Hp & [-> <-]%mret_Ok).
  unfold public_fold in H1. apply io_bind_Ok in H1 as (out & w3 & Hout & H1). injection Hout as Hout <-.
  apply (public_steps_Ok _ add_file_reads) in H1 as (-> & Hok & H1). apply publish_over_Ok in Hp as [_ Hw].
  apply add_files_Ok in H1 as (es & Hes & Hn & Hd); [|constructor]. cbn [app] in Hes. subst es.
  exists out, rows0. split_and!; try done. apply sort_by_Permutation.
Qed.

(** The public files after the manifest was written. *)
Lemma listed_after w w' text out :
  ls_files (files w) = Ok out → Forall (λ i, public_file i w = (Ok (public_path w i), w)) (items out) →
  files w' = <[OUTPUT := text]> (files w) →
  ∃ out', ls_files (files w') = Ok out' ∧ Forall (λ i, public_file i w' = (Ok (public_path w' i), w')) (items out') ∧
    omap (public_path w') (items out') = omap (public_path w) (items out).
Proof.
  intros Hout Hok Hw. destruct (git_other_files (files w) text out Hout) as (out' & Hout' & Hsame). rewrite <-Hw in Hout'. exists out'.
  split; [done|]. assert (Hrel : ∀ i, i ∈ filter (λ i, i ≠ MANIFEST_NAME) (items out) → startswith "/" i = false).
  { intros i [_ Hi]%list_elem_of_filter. by apply (git_relative _ _ _ Hout). }
  assert (Hok' : Forall (λ i, public_file i w = (Ok (public_path w i), w)) (filter (λ i, i ≠ MANIFEST_NAME) (items out))).
  { rewrite Forall_forall in Hok |- *. intros i [_ Hi]%list_elem_of_filter. by apply Hok. }
  destruct (public_after _ _ _ _ Hw Hrel Hok') as [Hok2 Hpaths]. split; [|by rewrite public_omap, Hsame, Hpaths, <-public_omap].
  rewrite <-Hsame in Hok2. rewrite Forall_forall in Hok2 |- *. intros i Hi.
  destruct (decide (i = MANIFEST_NAME)) as [->|Hne]; [by unfold public_file, public_path; rewrite !decide_True|].
  apply Hok2. by apply list_elem_of_filter.
Qed.

(** C11 (roundtrip): what update-source-manifest.py wrote, verify-source-manifest.py accepts, unless the name of a file has a line break. *)
Theorem source_manifest_verified w rows w' :
  update w = (Ok rows, w') → Forall (λ e, no_break (e_path e) = true) rows → verify w' = (Ok (length rows), w').
Proof.
  intros H Hb. apply update_Ok in H as (out & es & Hout & Hok & Hw & Hperm & Hn & Hd).
  destruct (listed_after _ _ _ _ Hout Hok Hw) as (out' & Hout' & Hall & Hpub).
  assert (Hdesc : ∀ e, e ∈ rows → ∃ p, p ∈ omap (public_path w) (items out) ∧ describes ROOT w p e).
  { intros e He. rewrite Hperm in He. apply list_elem_of_lookup in He as [j Hj]. destruct (Forall2_lookup_r _ _ _ _ _ Hd Hj) as (p & Hp & Hpe).
    exists p. split; [by eapply list_elem_of_lookup_2|done]. }
  assert (Hn' : NoDup (e_path <$> rows)) by by rewrite Hperm.
  destruct (listing_entries rows ∅) as (listed & Hlf & Hlz & Hlg); [|done|by apply Forall_forall|].
  { apply Forall_forall. intros e (p & _ & _ & s & _ & ->)%Hdesc. apply no_space_sha256. }
  destruct (expect_files_returns (omap (public_path w) (items out)) [] w') as [expected Hex].
  { intros p [j Hj]%list_elem_of_lookup. destruct (Forall2_lookup_l _ _ _ _ _ Hd Hj) as (e & _ & Hr & _). by exists (e_path e). }
  pose proof (expect_files _ _ _ _ _ Hex ltac:(by intros ? ? ?%not_elem_of_nil)) as Hin.
  assert (Hfind : ∀ e, e ∈ rows → listed !! e_path e = Some (e_digest e, e_size e)).
  { intros e He. rewrite Hlg. by rewrite (find_path rows e). }
  unfold verify. rewrite (io_bind_eq _ _ _ (concat_texts (entry_line <$> rows)) w'); [|unfold read; by rewrite Hw, lookup_insert_eq].
  rewrite (lift_bind_eq _ _ _ listed).
  2: { unfold listing_of. rewrite text_lines_entries; [done|]. apply Forall_forall. intros e He. rewrite Forall_forall in Hb. pose proof (Hb e He).
       apply Hdesc in He as (p & _ & _ & s & _ & ->). by apply entry_no_break. }
  rewrite (io_bind_eq _ _ _ expected w').
  2: { unfold public_fold, mbind, io_bind. rewrite Hout'. by rewrite (public_steps_eq _ expect_file_reads), Hpub. }
  assert (Hwhere : ∀ r p, (r, p) ∈ expected → ∃ e, e ∈ rows ∧ r = e_path e ∧ describes ROOT w p e).
  { intros r p [[]%not_elem_of_nil|[[j Hj]%list_elem_of_lookup Hr]]%Hin. destruct (Forall2_lookup_l _ _ _ _ _ Hd Hj) as (e & He & Hpe).
    exists e. split_and!; [rewrite Hperm; by eapply list_elem_of_lookup_2| |done]. destruct Hpe as [Hr' _]. congruence. }
  rewrite guard_bind_eq.
  2: { apply negb_false_iff, bool_decide_eq_true, set_eq. intros r. rewrite elem_of_dom, elem_of_list_to_set, list_elem_of_fmap. split.
       - rewrite Hlg. intros [x Hx]. destruct (find _ rows) as [e|] eqn:Hf; [|done]. apply find_some in Hf as [He Hr]. apply bool_decide_eq_true in Hr.
         apply list_elem_of_In, Hdesc in He as (p & Hp & Hpe). exists (r, p). split; [done|]. apply Hin. right. split; [done|]. destruct Hpe as [Hpe _]. congruence.
       - intros ([r' p] & -> & (e & He & -> & _)%Hwhere). eexists. by apply Hfind. }
  rewrite (io_bind_eq _ _ _ tt w'); [by rewrite Hlz|]. apply check_files, Forall_forall. intros [r p] Hrp. pose proof Hrp as Hrp'.
  apply Hwhere in Hrp as (e & He & -> & Hr & s & Hs & Hdsc). exists s. cbn [fst snd]. split.
  - apply Hin in Hrp' as [[]%not_elem_of_nil|[(i & Hi & Hne & -> & _)%public_path_elem _]]. rewrite Hw, lookup_insert_ne; [done|].
    intros He'. apply (other_path i); [by apply (git_relative _ _ _ Hout)|done|done].
  - rewrite (Hfind e He), Hdsc. done.
Qed.
End manifest.

(** ** An example *)
Definition ex_git : gmap string string → result string := λ _, Ok ("b.py" +:+ String nul ("manifests/source.sha256" +:+ String nul ("a.md" +:+ String nul EmptyString))).
Definition ex_no : string → bool := λ _, false.
Definition ex_manifest_world : world := World (list_to_map [("/repo/a.md", "text"); ("/repo/b.py", "print()"); ("/repo/manifests/source.sha256", "old")]) None.
Definition ex_rows : list entry := get [] (update "/repo" ex_git ex_no ex_no ex_manifest_world).1.
Definition ex_written : world := (update "/repo" ex_git ex_no ex_no ex_manifest_world).2.

Lemma ex_update : update "/repo" ex_git ex_no ex_no ex_manifest_world = (Ok ex_rows, ex_written).
Proof. apply run_Ok, get_Ok. by vm_compute. Qed.

Example ex_rows_listed : e_path <$> ex_rows = ["a.md"; "b.py"].
Proof. by vm_compute. Qed.

(** A file that changed after the manifest was written is found. *)
Example ex_changed : (verify "/repo" ex_git ex_no ex_no (World (<["/repo/a.md" := "test"]> (files ex_written)) None)).1 =
  Err (ValueError "source manifest hash mismatch").
Proof. by vm_compute. Qed.

Lemma ex_git_relative fs out i : ex_git fs = Ok out → i ∈ items out → startswith "/" i = false.
Proof.
  intros [= <-]. assert (Hf : Forall (λ i, startswith "/" i = false) (items (get EmptyString (ex_git ∅)))) by by (vm_compute; repeat constructor).
  rewrite Forall_forall in Hf. apply Hf.
Qed.

Lemma source_manifest_verified_witness : verify "/repo" ex_git ex_no ex_no ex_written = (Ok (length ex_rows), ex_written).
Proof.
  apply (source_manifest_verified "/repo" ex_git ex_no ex_no ex_git_relative) with ex_manifest_world.
  - intros fs text out Hout. exists out. by split.
  - exact ex_update.
  - by repeat constructor.
Defined.

Lemma source_manifest_sound_witness : manifest_holds "/repo" ex_git ex_written 2.
Proof. apply (source_manifest_sound "/repo" ex_git ex_no ex_no ex_written 2 ex_written). apply run_Ok. by vm_compute. Defined.
