(* ===== verification/ResultSets.v ===== *)
(** * The packaged results and their manifest

    A dated directory under results/ is a result set: compact result files with an index.json that lists them.
    src/scripts/update-result-index.py writes the index of one set ([update_index]); update-results-manifest.py writes
    manifests/results.sha256 over all sets ([update_results]); verify-results.py checks the indexes and the manifest against the files
    ([verify_results]).

    A directory is what the paths of the files say: its entries are the first parts of the paths below it. *)
From S2P Require Import Prelude PyStr PyData Sha256 Files Csv Json JsonText Manifests.

(** ** Directories *)

(** The paths below [root], relative to it. *)
Definition below (root : string) (w : world) : list string :=
  omap (λ p, match relative_to root p with Ok r => Some r | Err _ => None end) (map_to_list (files w)).*1.

Definition first_part (r : string) : string :=
  match index_of "/" r with Some n => str_take (Z.to_nat n) r | None => r end.

(** The names of [root.iterdir()], and of those that are files. *)
Definition names (root : string) (w : world) : gset string := list_to_set (first_part <$> below root w).
Definition file_names (root : string) (w : world) : gset string := list_to_set (filter (λ r, index_of "/" r = None) (below root w)).

(** [sorted(root.glob("20*"))], by name *)
Definition dated (root : string) (w : world) : list string :=
  sort_by str_leb (filter (λ n, startswith "20" n = true) (elements (names root w))).

(** [Path(p).suffix], of a name *)
Definition suffix (name : string) : string :=
  match rfind "." name with
  | Some i => if (0 <? i)%nat && (i <? String.length name - 1)%nat then str_drop i name else EmptyString
  | None => EmptyString
  end.

(** [root / v[k]] *)
Definition jget_path (root k : string) (v : json) : result string :=
  x ← jget k v;
  match x with JStr s => Ok (path_join root s) | _ => Err TypeError end.

Definition index_path (root : string) : string := path_join root "index.json".
Definition readme_path (root : string) : string := path_join root "README.md".

(** ** update-result-index.py *)
Definition source_digest (value : json) : string := sha256 (dumps_compact value).

Section index.
Context (is_directory : string → bool).

Definition json_entry (root name : string) : IO json :=
  let path := path_join root name in
  text ← read path;
  value ← lift (loads text);
  provenance ← lift (jget_default "_provenance" (JObj []) value);
  classification ← lift (jget_opt "classification" provenance);
  lift (raise_when (negb (truthy classification)) (ValueError "missing provenance classification")) ≫= λ _,
  sources ← lift (jget_default "sources" provenance value);
  bytes ← file_size path;
  digest ← hash_file path;
  mret (JObj [("path", JStr name); ("classification", classification); ("bytes", JInt bytes); ("rows", JNull); ("sha256", JStr digest);
              ("source_sha256", JStr (source_digest sources))]).

(** The body of the loop over the files. *)
Definition index_step (root : string) (entries : list json) (name : string) : IO (list json) :=
  if bool_decide (name ∈ ["README.md"; "index.json"]) then mret entries
  else if decide (suffix name = ".json") then e ← json_entry root name; mret (entries ++ [e])
  else if decide (suffix name = ".csv") then throw (ValueError "CSV classification must be supplied by a packager")
  else throw (ValueError "unsupported result file").

Definition index_json (name : string) (entries : list json) : json :=
  JObj [("schema_version", JInt 1); ("result_set", JStr name); ("entries", JArr entries)].

(** [main()] with [--results root] *)
Definition update_index (root : string) : IO (list json) :=
  lift (raise_when (negb (is_directory root)) (FileNotFoundError root)) ≫= λ _,
  listing ← (λ w, (Ok (file_names root w), w));
  entries ← fold_io (index_step root) [] (sort_by str_leb (elements listing));
  publish_over (index_path root) [dumps (index_json (file_name root) entries); newline] ≫= λ _,
  mret entries.
End index.

(** ** update-results-manifest.py *)
Section results.
Context (ROOT : string).

Definition RESULTS_ROOT : string := path_join ROOT "results".
Definition RESULTS_OUTPUT : string := path_join ROOT "manifests/results.sha256".

(** The body of the loop over the dated directories: the paths and the number of result sets. *)
Definition result_set_step (st : list string * nat) (name : string) : IO (list string * nat) :=
  let root := path_join RESULTS_ROOT name in
  is_file ← exists_ (index_path root);
  if negb is_file then mret st
  else
    index ← load_json (index_path root);
    n ← lift (jget "result_set" index);
    lift (raise_when (negb (jeq_str n name)) (ValueError "result-set name mismatch")) ≫= λ _,
    entries ← lift (x ← jget "entries" index; jiter x);
    paths ← lift (mapR (jget_path root "path") entries);
    readme ← exists_ (readme_path root);
    mret (st.1 ++ paths ++ [index_path root] ++ (if (readme : bool) then [readme_path root] else []), S st.2).

Definition result_row (path : string) : IO entry :=
  is_file ← exists_ path;
  lift (raise_when (negb is_file) (FileNotFoundError path)) ≫= λ _,
  measure ROOT path.

Definition update_results : IO (list entry) :=
  listing ← (λ w, (Ok (dated RESULTS_ROOT w), w));
  '(paths, result_sets) ← fold_io result_set_step ([readme_path RESULTS_ROOT], O) listing;
  lift (raise_when (result_sets =? 0)%nat (ValueError "no dated result sets found")) ≫= λ _,
  rows ← map_io result_row paths;
  let rows := sort_by entry_leb rows in
  publish RESULTS_OUTPUT (entry_line <$> rows) ≫= λ _,
  mret rows.

(** ** verify-results.py *)
Record args := Args { a_results_root : string; a_results : list string }.

(** [Path(p).resolve()] *)
Context (resolve : string → string).

(** The body of the loop over the entries: the names seen and the paths expected in the manifest. *)
Definition verify_entry (root : string) (st : gset string * gset string) (entry : json) : IO (gset string * gset string) :=
  path ← lift (jget_path root "path" entry);
  is_file ← exists_ path;
  lift (raise_when (negb is_file) (FileNotFoundError path)) ≫= λ _,
  let st := ({[file_name path]} ∪ st.1, {[path]} ∪ st.2) in
  size ← file_size path;
  bytes ← lift (jget "bytes" entry);
  lift (raise_when (negb (jeq_int bytes size)) (ValueError "size mismatch")) ≫= λ _,
  digest ← hash_file_4m path;
  listed ← lift (jget "sha256" entry);
  lift (raise_when (negb (jeq_str listed digest)) (ValueError "hash mismatch")) ≫= λ _,
  rows ← lift (jget "rows" entry);
  match rows with
  | JNull => mret st
  | _ =>
      n ← csv_rows path;
      lift (raise_when (negb (jeq_int rows n)) (ValueError "row-count mismatch")) ≫= λ _,
      mret st
  end.

(** The body of the loop over the result directories. *)
Definition verify_set (st : nat * gset string) (root : string) : IO (nat * gset string) :=
  index ← load_json (index_path root);
  version ← lift (jget "schema_version" index);
  lift (raise_when (negb (jeq_int version 1)) (ValueError "unsupported result index schema")) ≫= λ _,
  n ← lift (jget "result_set" index);
  lift (raise_when (negb (jeq_str n (file_name root))) (ValueError "result-set name mismatch")) ≫= λ _,
  entries ← lift (x ← jget "entries" index; jiter x);
  '(indexed, expected) ← fold_io (verify_entry root) (∅, st.2) entries;
  actual ← (λ w, (Ok (file_names root w), w));
  let unexpected := actual ∖ indexed ∖ {["index.json"; "README.md"]} in
  lift (raise_when (negb (bool_decide (unexpected = ∅))) (ValueError "unindexed result files")) ≫= λ _,
  readme ← exists_ (readme_path root);
  mret ((st.1 + size indexed)%nat, (if (readme : bool) then {[readme_path root]} else ∅) ∪ ({[index_path root]} ∪ expected)).

(** The body of the loop over the lines of the manifest. *)
Definition verify_line (st : nat * gset string) (line : string) : IO (nat * gset string) :=
  '(digest, size, relative) ← lift (split_entry line);
  let path := path_join ROOT relative in
  is_file ← exists_ path;
  lift (raise_when (negb is_file) (FileNotFoundError path)) ≫= λ _,
  n ← file_size path;
  listed ← lift (int_str size);
  lift (raise_when (negb (n =? listed)) (ValueError "manifest size mismatch")) ≫= λ _,
  d ← hash_file_4m path;
  lift (raise_when (negb (bool_decide (d = digest))) (ValueError "manifest hash mismatch")) ≫= λ _,
  mret (S st.1, {[path]} ∪ st.2).

(** [result_directories] *)
Definition result_directories (a : args) (w : world) : list string :=
  match a_results a with
  | [] => filter (λ d, is_Some (files w !! index_path d)) (path_join (resolve (a_results_root a)) <$> dated (resolve (a_results_root a)) w)
  | l => resolve <$> l
  end.

Definition verify_results (a : args) : IO (nat * nat * nat) :=
  directories ← (λ w, (Ok (result_directories a w), w));
  lift (raise_when (bool_decide (directories = [])) (ValueError "no dated result sets found")) ≫= λ _,
  '(total_indexed, expected_manifest) ← fold_io verify_set (O, {[readme_path (resolve (a_results_root a))]}) directories;
  text ← read RESULTS_OUTPUT;
  '(manifested, manifested_paths) ← fold_io verify_line (O, ∅) (text_lines text);
  lift (raise_when (negb (bool_decide (manifested_paths = expected_manifest))) (ValueError "result manifest mismatch")) ≫= λ _,
  mret (length directories, total_indexed, manifested).
End results.

(** ** Directories that do not change *)
Lemma elem_of_below root w r : r ∈ below root w ↔ ∃ p, is_Some (files w !! p) ∧ relative_to root p = Ok r.
Proof.
  unfold below. rewrite list_elem_of_omap. split.
  - intros (p & ([q s] & -> & Hp%elem_of_map_to_list)%list_elem_of_fmap & Hr). exists q. cbn [fst] in *. split; [by eexists|].
    destruct (relative_to root q); congruence.
  - intros (p & [s Hs] & Hr). exists p. rewrite Hr. split; [|done]. apply list_elem_of_fmap. exists (p, s). split; [done|]. by apply elem_of_map_to_list.
Qed.

(** A change of a file outside a directory. *)
Lemma below_insert root w w' p s :
  files w' = <[p := s]> (files w) → is_ok (relative_to root p) = false → ∀ r, r ∈ below root w' ↔ r ∈ below root w.
Proof.
  intros Hw Hp r. rewrite !elem_of_below, Hw. split; intros (q & Hq & Hr); exists q; (split; [|done]).
  - rewrite lookup_insert_ne in Hq; [done|]. intros ->. by rewrite Hr in Hp.
  - rewrite lookup_insert_ne; [done|]. intros ->. by rewrite Hr in Hp.
Qed.

Lemma directory_insert root w w' p s :
  files w' = <[p := s]> (files w) → is_ok (relative_to root p) = false →
  names root w' = names root w ∧ file_names root w' = file_names root w ∧ dated root w' = dated root w.
Proof.
  intros Hw Hp. pose proof (below_insert _ _ _ _ _ Hw Hp) as Hb.
  assert (Hn : names root w' = names root w).
  { unfold names. apply set_eq. intros n. rewrite !elem_of_list_to_set, !list_elem_of_fmap. by setoid_rewrite Hb. }
  split_and!; [done| |unfold dated; by rewrite Hn].
  unfold file_names. apply set_eq. intros n. rewrite !elem_of_list_to_set, !list_elem_of_filter. by rewrite Hb.
Qed.

(** ** Indexes that describe their files *)

(** What an entry of an index promises of the file [p]. *)
Definition entry_ok (w : world) (root : string) (e : json) (p : string) : Prop :=
  jget_path root "path" e = Ok p ∧ ∃ s bytes digest rows,
    files w !! p = Some s ∧
    jget "bytes" e = Ok bytes ∧ jeq_int bytes (Z.of_nat (String.length s)) = true ∧
    jget "sha256" e = Ok digest ∧ jeq_str digest (sha256 s) = true ∧
    jget "rows" e = Ok rows ∧ (rows = JNull ∨ jeq_int rows (Z.of_nat (length (read_csv s)) - 1) = true).

(** A result set whose index describes every file [ps] it lists, and lists every file of the directory. *)
Definition set_ok (w : world) (root : string) (ps : list string) : Prop :=
  ∃ text index version name entries,
    files w !! index_path root = Some text ∧ loads text = Ok index ∧
    jget "schema_version" index = Ok version ∧ jeq_int version 1 = true ∧
    jget "result_set" index = Ok name ∧ jeq_str name (file_name root) = true ∧
    (x ← jget "entries" index; jiter x) = Ok entries ∧
    Forall2 (entry_ok w root) entries ps ∧
    file_names root w ⊆ list_to_set (file_name <$> ps) ∪ {["index.json"; "README.md"]}.

(** The paths that the manifest has to list for a set. *)
Definition set_paths (w : world) (root : string) (ps : list string) : list string :=
  ps ++ [index_path root] ++ (if bool_decide (is_Some (files w !! readme_path root)) then [readme_path root] else []).

Lemma csv_rows_eq p w s : files w !! p = Some s → csv_rows p w = (Ok (Z.of_nat (length (read_csv s)) - 1), w).
Proof. intros H. unfold csv_rows. by rewrite (io_bind_eq _ _ _ _ _ (read_eq _ _ _ H)). Qed.

Lemma hash_4m_eq p w s : files w !! p = Some s → hash_file_4m p w = (Ok (sha256 s), w).
Proof. rewrite hash_4m. apply hash_eq. Qed.

Lemma hash_4m_Ok p w d w' : hash_file_4m p w = (Ok d, w') → w' = w ∧ ∃ s, files w !! p = Some s ∧ d = sha256 s.
Proof. rewrite hash_4m. apply hash_file_Ok. Qed.

Definition seen (st : gset string * gset string) (p : string) : gset string * gset string := ({[file_name p]} ∪ st.1, {[p]} ∪ st.2).

(** An entry passes exactly when it describes its file. *)
Lemma verify_entry_eq w root st e p : entry_ok w root e p → verify_entry root st e w = (Ok (seen st p), w).
Proof.
  intros (Hp & s & bytes & digest & rows & Hs & Hb & Hbz & Hd & Hdz & Hr & Hrows). unfold verify_entry.
  rewrite (lift_bind_eq _ _ _ _ Hp), (io_bind_eq _ _ _ _ _ (exists_eq _ _ _ Hs)), guard_bind_eq by done.
  rewrite (io_bind_eq _ _ _ _ _ (file_size_eq _ _ _ Hs)), (lift_bind_eq _ _ _ _ Hb), guard_bind_eq by by rewrite Hbz.
  rewrite (io_bind_eq _ _ _ _ _ (hash_4m_eq _ _ _ Hs)), (lift_bind_eq _ _ _ _ Hd), guard_bind_eq by by rewrite Hdz.
  rewrite (lift_bind_eq _ _ _ _ Hr). destruct Hrows as [->|Hz]; [done|].
  destruct rows; try done; rewrite (io_bind_eq _ _ _ _ _ (csv_rows_eq _ _ _ Hs)), guard_bind_eq by (by rewrite Hz); done.
Qed.

Lemma verify_entry_Ok w root st e st' w' :
  verify_entry root st e w = (Ok st', w') → w' = w ∧ ∃ p, entry_ok w root e p ∧ st' = seen st p.
Proof.
  unfold verify_entry. intros H. apply io_bind_Ok in H as (p & w1 & [-> Hp]%lift_Ok & H). apply io_bind_Ok in H as (b & w2 & [-> ->]%exists_Ok & H).
  apply io_bind_Ok in H as (u & w3 & [-> _]%lift_Ok & H). apply io_bind_Ok in H as (n & w4 & [-> (s & Hs & ->)]%file_size_Ok & H).
  apply io_bind_Ok in H as (bytes & w5 & [-> Hb]%lift_Ok & H). apply io_bind_Ok in H as (u1 & w6 & [-> Hbz%raise_when_Ok]%lift_Ok & H).
  apply io_bind_Ok in H as (d & w7 & [-> (s1 & Hs1 & ->)]%hash_4m_Ok & H).
  apply io_bind_Ok in H as (digest & w8 & [-> Hd]%lift_Ok & H). apply io_bind_Ok in H as (u2 & w9 & [-> Hdz%raise_when_Ok]%lift_Ok & H).
  apply io_bind_Ok in H as (rows & w10 & [-> Hr]%lift_Ok & H). bool_facts. assert (s1 = s) as -> by congruence.
  assert (Hrest : w' = w ∧ st' = seen st p ∧ (rows = JNull ∨ jeq_int rows (Z.of_nat (length (read_csv s)) - 1) = true)).
  { destruct rows; try by (apply mret_Ok in H as [-> <-]; split_and!; [done|done|by left]).
    all: rewrite (io_bind_eq _ _ _ _ _ (csv_rows_eq _ _ _ Hs)) in H; apply io_bind_Ok in H as (u3 & w11 & [-> Hz%raise_when_Ok]%lift_Ok & [-> <-]%mret_Ok);
      bool_facts; split_and!; [done|done|by right]. }
  destruct Hrest as (-> & -> & Hrows). split; [done|]. exists p. split; [|done]. split; [done|]. by exists s, bytes, digest, rows.
Qed.

Lemma verify_entries_eq w root es ps st :
  Forall2 (entry_ok w root) es ps → fold_io (verify_entry root) st es w = (Ok (foldl seen st ps), w).
Proof.
  intros H. revert st. induction H as [|e p es ps He _ IH]; intros st; [done|]. cbn [fold_io foldl].
  by rewrite (io_bind_eq _ _ _ _ _ (verify_entry_eq _ _ _ _ _ He)).
Qed.

Lemma verify_entries_Ok w root es st st' w' :
  fold_io (verify_entry root) st es w = (Ok st', w') → w' = w ∧ ∃ ps, Forall2 (entry_ok w root) es ps ∧ st' = foldl seen st ps.
Proof.
  revert st. induction es as [|e es IH]; intros st H; cbn [fold_io] in H; [apply mret_Ok in H as [-> <-]; split; [done|]; by exists []|].
  apply io_bind_Ok in H as (st1 & w1 & [-> (p & Hp & ->)]%verify_entry_Ok & H). apply IH in H as [-> (ps & Hps & ->)].
  split; [done|]. exists (p :: ps). split; [by constructor|done].
Qed.

Lemma foldl_seen st ps : foldl seen st ps = (list_to_set (file_name <$> ps) ∪ st.1, list_to_set ps ∪ st.2).
Proof.
  revert st. induction ps as [|p ps IH]; intros [a b]; cbn [foldl]; [cbn; by rewrite !(left_id_L ∅ (∪))|].
  rewrite IH. unfold seen. rewrite fmap_cons, !list_to_set_cons. f_equal; set_solver.
Qed.

(** The state after a set. *)
Definition set_seen (w : world) (root : string) (ps : list string) (st : nat * gset string) : nat * gset string :=
  ((st.1 + size (list_to_set (file_name <$> ps) : gset string))%nat, list_to_set (set_paths w root ps) ∪ st.2).

Lemma set_paths_union w root ps (expected : gset string) :
  (if bool_decide (is_Some (files w !! readme_path root)) then {[readme_path root]} else ∅) ∪ ({[index_path root]} ∪ (list_to_set ps ∪ expected)) =
  list_to_set (set_paths w root ps) ∪ expected.
Proof.
  unfold set_paths. rewrite !list_to_set_app_L. destruct (bool_decide _); cbn [list_to_set]; set_solver.
Qed.

Lemma readme_eq root w : exists_ (readme_path root) w = (Ok (bool_decide (is_Some (files w !! readme_path root))), w).
Proof. done. Qed.

(** A set passes exactly when its index is right. *)
Lemma verify_set_eq w root ps st : set_ok w root ps → verify_set st root w = (Ok (set_seen w root ps st), w).
Proof.
  intros (text & index & version & name & entries & Ht & Hl & Hv & Hvz & Hn & Hnz & He & Hes & Hsub). unfold verify_set, load_json.
  rewrite (io_bind_eq _ _ _ index w) by (rewrite (io_bind_eq _ _ _ _ _ (read_eq _ _ _ Ht)); unfold lift; by rewrite Hl).
  rewrite (lift_bind_eq _ _ _ _ Hv), guard_bind_eq by by rewrite Hvz. rewrite (lift_bind_eq _ _ _ _ Hn), guard_bind_eq by by rewrite Hnz.
  rewrite (lift_bind_eq _ _ _ _ He), (io_bind_eq _ _ _ _ _ (verify_entries_eq _ _ _ _ _ Hes)), foldl_seen. cbn [fst snd].
  rewrite (io_bind_eq _ _ _ (file_names root w) w) by done. rewrite guard_bind_eq.
  - rewrite (io_bind_eq _ _ _ _ _ (readme_eq root w)). unfold mret, io_ret, set_seen. rewrite (right_id_L ∅ (∪)). by rewrite set_paths_union.
  - apply negb_false_iff, bool_decide_eq_true. set_solver.
Qed.

Lemma verify_set_Ok w root st st' w' : verify_set st root w = (Ok st', w') → w' = w ∧ ∃ ps, set_ok w root ps ∧ st' = set_seen w root ps st.
Proof.
  unfold verify_set, load_json. intros H. apply io_bind_Ok in H as (index & w1 & H1 & H).
  apply io_bind_Ok in H1 as (text & w2 & [-> Ht]%read_Ok & [-> Hl]%lift_Ok). apply io_bind_Ok in H as (version & w3 & [-> Hv]%lift_Ok & H).
  apply io_bind_Ok in H as (u & w4 & [-> Hvz%raise_when_Ok]%lift_Ok & H). apply io_bind_Ok in H as (name & w5 & [-> Hn]%lift_Ok & H).
  apply io_bind_Ok in H as (u1 & w6 & [-> Hnz%raise_when_Ok]%lift_Ok & H). apply io_bind_Ok in H as (entries & w7 & [-> He]%lift_Ok & H).
  apply io_bind_Ok in H as ([indexed expected] & w8 & [-> (ps & Hps & Hst)]%verify_entries_Ok & H). rewrite foldl_seen in Hst.
  injection Hst as -> ->. apply io_bind_Ok in H as (actual & w9 & Ha & H). injection Ha as <- <-.
  apply io_bind_Ok in H as (u2 & w10 & [-> Hu%raise_when_Ok]%lift_Ok & H). apply io_bind_Ok in H as (b & w11 & [-> ->]%exists_Ok & [-> <-]%mret_Ok).
  cbn [fst snd] in *. bool_facts. split; [done|]. exists ps. split.
  - exists text, index, version, name, entries. split_and!; try done. rewrite (right_id_L ∅ (∪)) in Hu.
    intros n Hin. destruct (decide (n ∈ ({["index.json"; "README.md"]} : gset string))); [set_solver|].
    destruct (decide (n ∈ (list_to_set (file_name <$> ps) : gset string))); set_solver.
  - unfold set_seen. rewrite (right_id_L ∅ (∪)). by rewrite set_paths_union.
Qed.

(** ** The manifest over all sets *)
Section manifest.
Context (ROOT : string).

(** Each line of the manifest that was written passes while its file is unchanged. *)
Lemma verify_lines_eq w es st :
  Forall (λ e, ∃ s, files w !! path_join ROOT (e_path e) = Some s ∧ e = describe (e_path e) s) es →
  fold_io (verify_line ROOT) st (entry_text <$> es) w =
  (Ok ((st.1 + length es)%nat, list_to_set (path_join ROOT ∘ e_path <$> es) ∪ st.2), w).
Proof.
  intros H. revert st. induction H as [|e es (s & Hs & He) _ IH]; intros [n ps]; cbn [fmap list_fmap fold_io].
  { cbn. by rewrite Nat.add_0_r, (left_id_L ∅ (∪)). }
  rewrite (io_bind_eq _ _ _ (S n, {[path_join ROOT (e_path e)]} ∪ ps) w).
  - unfold fmap in IH. rewrite IH. cbn [fst snd length]. unfold mret. f_equal. f_equal. f_equal; [lia|]. cbn [list_to_set]. unfold compose. set_solver.
  - assert (Hd : e_digest e = sha256 s) by by rewrite He. assert (Hz : e_size e = Z.of_nat (String.length s)) by by rewrite He.
    unfold verify_line. rewrite (lift_bind_eq _ _ _ (e_digest e, str_of_Z (e_size e), e_path e)).
    2: { apply split_entry_text. rewrite Hd. apply no_space_sha256. }
    rewrite (io_bind_eq _ _ _ _ _ (exists_eq _ _ _ Hs)), guard_bind_eq by done.
    rewrite (io_bind_eq _ _ _ _ _ (file_size_eq _ _ _ Hs)), (lift_bind_eq _ _ _ _ (int_str_of_Z _)), guard_bind_eq by by rewrite Hz, Z.eqb_refl.
    rewrite (io_bind_eq _ _ _ _ _ (hash_4m_eq _ _ _ Hs)), guard_bind_eq; [done|].
    by rewrite Hd, bool_decide_eq_true_2.
Qed.

(** A line that passed. *)
Definition line_ok (w : world) (line path : string) : Prop :=
  ∃ size relative s, split_entry line = Ok (sha256 s, size, relative) ∧ path = path_join ROOT relative ∧ files w !! path = Some s ∧
    int_str size = Ok (Z.of_nat (String.length s)).

Lemma verify_lines_Ok w ls st st' w' :
  fold_io (verify_line ROOT) st ls w = (Ok st', w') →
  w' = w ∧ ∃ ps, Forall2 (line_ok w) ls ps ∧ st' = ((st.1 + length ls)%nat, list_to_set ps ∪ st.2).
Proof.
  revert st. induction ls as [|line ls IH]; intros [n qs] H; cbn [fold_io] in H.
  { apply mret_Ok in H as [-> <-]. split; [done|]. exists []. cbn. by rewrite Nat.add_0_r, (left_id_L ∅ (∪)). }
  apply io_bind_Ok in H as (st1 & w1 & H1 & H). unfold verify_line in H1.
  apply io_bind_Ok in H1 as ([[d size] r] & w2 & [-> Hl]%lift_Ok & H1). apply io_bind_Ok in H1 as (b & w3 & [-> _]%exists_Ok & H1).
  apply io_bind_Ok in H1 as (u & w4 & [-> _]%lift_Ok & H1). apply io_bind_Ok in H1 as (z & w5 & [-> (s & Hs & ->)]%file_size_Ok & H1).
  apply io_bind_Ok in H1 as (z' & w6 & [-> Hz]%lift_Ok & H1). apply io_bind_Ok in H1 as (u1 & w7 & [-> Hzz%raise_when_Ok]%lift_Ok & H1).
  apply io_bind_Ok in H1 as (d' & w8 & [-> (s1 & Hs1 & ->)]%hash_4m_Ok & H1). apply io_bind_Ok in H1 as (u2 & w9 & [-> Hd%raise_when_Ok]%lift_Ok & H1).
  apply mret_Ok in H1 as [-> <-]. bool_facts. subst. assert (s1 = s) as -> by congruence. apply IH in H as [-> (ps & Hps & ->)]. split; [done|].
  exists (path_join ROOT r :: ps). split; [constructor; [by exists size, r, s|done]|]. cbn [fst snd length list_to_set]. f_equal; [lia|set_solver].
Qed.

(** ** The sets *)
Definition indexed_total (pss : list (list string)) : nat := foldr (λ ps n, (size (list_to_set (file_name <$> ps) : gset string) + n)%nat) O pss.

Definition all_paths (w : world) (dirs : list string) (pss : list (list string)) : list string := mjoin (zip_with (set_paths w) dirs pss).

Lemma verify_sets_eq w dirs pss st :
  Forall2 (set_ok w) dirs pss →
  fold_io verify_set st dirs w = (Ok ((st.1 + indexed_total pss)%nat, list_to_set (all_paths w dirs pss) ∪ st.2), w).
Proof.
  intros H. revert st. induction H as [|d ps dirs pss Hd _ IH]; intros [n qs]; cbn [fold_io].
  { cbn. by rewrite Nat.add_0_r, (left_id_L ∅ (∪)). }
  rewrite (io_bind_eq _ _ _ _ _ (verify_set_eq _ _ _ (n, qs) Hd)), IH. unfold set_seen, all_paths. cbn [fst snd indexed_total foldr zip_with mjoin list_join].
  rewrite list_to_set_app_L. f_equal. f_equal. f_equal; [unfold indexed_total; lia|set_solver].
Qed.

Lemma verify_sets_Ok w dirs st st' w' :
  fold_io verify_set st dirs w = (Ok st', w') →
  w' = w ∧ ∃ pss, Forall2 (set_ok w) dirs pss ∧ st' = ((st.1 + indexed_total pss)%nat, list_to_set (all_paths w dirs pss) ∪ st.2).
Proof.
  revert st. induction dirs as [|d dirs IH]; intros [n qs] H; cbn [fold_io] in H.
  { apply mret_Ok in H as [-> <-]. split; [done|]. exists []. cbn. by rewrite Nat.add_0_r, (left_id_L ∅ (∪)). }
  apply io_bind_Ok in H as (st1 & w1 & [-> (ps & Hps & ->)]%verify_set_Ok & H). apply IH in H as [-> (pss & Hpss & ->)]. split; [done|].
  exists (ps :: pss). split; [by constructor|]. unfold set_seen, all_paths. cbn [fst snd indexed_total foldr zip_with mjoin list_join].
  rewrite list_to_set_app_L. f_equal; [unfold indexed_total; lia|set_solver].
Qed.

(** ** What a verification and an update establish *)
Section verified.
Context (resolve : string → string).

(** What a passing verification says: every index is right, and the manifest lists the results' files with their digests and sizes. *)
Definition results_hold (a : args) (w : world) (sets indexed manifested : nat) : Prop :=
  let dirs := result_directories resolve a w in
  ∃ pss text qs,
    Forall2 (set_ok w) dirs pss ∧ sets = length dirs ∧ indexed = indexed_total pss ∧
    files w !! RESULTS_OUTPUT ROOT = Some text ∧ Forall2 (line_ok w) (text_lines text) qs ∧ manifested = length (text_lines text) ∧
    (list_to_set qs : gset string) = {[readme_path (resolve (a_results_root a))]} ∪ list_to_set (all_paths w dirs pss).

(** A verification of the results that passes changes nothing and has checked each index against its directory, and the
    manifest against the files, each listed with its digest and size, with no file of a result set left out. *)
Theorem results_sound a w sets indexed manifested w' :
  verify_results ROOT resolve a w = (Ok (sets, indexed, manifested), w') → w' = w ∧ results_hold a w sets indexed manifested.
Proof.
  unfold verify_results. intros H. apply io_bind_Ok in H as (dirs & w1 & Hd & H). injection Hd as <- <-.
  apply io_bind_Ok in H as (u & w2 & [-> _]%lift_Ok & H).
  apply io_bind_Ok in H as ([k expected] & w3 & [-> (pss & Hpss & Hst)]%verify_sets_Ok & H). injection Hst as -> ->.
  apply io_bind_Ok in H as (text & w4 & [-> Ht]%read_Ok & H).
  apply io_bind_Ok in H as ([m paths] & w5 & [-> (qs & Hqs & Hst)]%verify_lines_Ok & H). injection Hst as -> ->.
  apply io_bind_Ok in H as (u1 & w6 & [-> Hm%raise_when_Ok]%lift_Ok & H). apply mret_Ok in H as [-> Hn]. injection Hn as <- <- <-.
  cbn [fst snd] in *. bool_facts. split; [done|]. exists pss, text, qs. split_and!; try done. rewrite (right_id_L ∅ (∪)) in Hm. by rewrite Hm, (comm_L (∪)).
Qed.
End verified.

(** The rows of the paths that were listed. *)
Lemma result_rows_Ok w paths rows w' : map_io (result_row ROOT) paths w = (Ok rows, w') → w' = w ∧ Forall2 (describes ROOT w) paths rows.
Proof.
  revert rows. induction paths as [|p paths IH]; intros rows H; cbn [map_io] in H; [by apply mret_Ok in H as [-> <-]|].
  apply io_bind_Ok in H as (e & w1 & He & H). unfold result_row in He. apply io_bind_Ok in He as (b & w2 & [-> _]%exists_Ok & He).
  apply io_bind_Ok in He as (u & w3 & [-> _]%lift_Ok & (-> & r & s & Hr & Hs & ->)%measure_Ok).
  apply io_bind_Ok in H as (es & w4 & Hes & [-> <-]%mret_Ok). apply IH in Hes as [-> Hes]. split; [done|]. constructor; [|done].
  split; [done|]. by exists s.
Qed.

Definition set_dirs (w : world) (ns : list string) : list string :=
  filter (λ d, is_Some (files w !! index_path d)) (path_join (RESULTS_ROOT ROOT) <$> ns).

Lemma entry_paths w root es ps : Forall2 (entry_ok w root) es ps → mapR (jget_path root "path") es = Ok ps.
Proof. intros H. apply mapR_Ok. eapply Forall2_impl; [exact H|]. by intros e p [Hp _]. Qed.

(** The loop over the sets gathers the paths of each of them. *)
Lemma result_sets_Ok w ns pss st st' w' :
  Forall2 (set_ok w) (set_dirs w ns) pss → fold_io (result_set_step ROOT) st ns w = (Ok st', w') →
  w' = w ∧ st' = (st.1 ++ all_paths w (set_dirs w ns) pss, (st.2 + length pss)%nat).
Proof.
  revert pss st. induction ns as [|n ns IH]; intros pss [ps k] Hpss H; cbn [fold_io] in H.
  { apply mret_Ok in H as [-> <-]. inversion Hpss. split; [done|]. cbn. by rewrite app_nil_r, Nat.add_0_r. }
  apply io_bind_Ok in H as (st1 & w1 & H1 & H). unfold result_set_step in H1. set (root := path_join (RESULTS_ROOT ROOT) n) in *.
  apply io_bind_Ok in H1 as (b & w2 & [-> ->]%exists_Ok & H1). unfold set_dirs in *. rewrite fmap_cons, filter_cons in *. fold root in Hpss |- *.
  case_bool_decide as Hi; cbn [negb] in H1.
  - rewrite decide_True in Hpss |- * by done. inversion Hpss as [|? qs ? pss' Hqs Hpss']; subst.
    apply io_bind_Ok in H1 as (index & w3 & Hx & H1). unfold load_json in Hx. apply io_bind_Ok in Hx as (text & w4 & [-> Ht]%read_Ok & [-> Hl]%lift_Ok).
    apply io_bind_Ok in H1 as (name & w5 & [-> _]%lift_Ok & H1). apply io_bind_Ok in H1 as (u & w6 & [-> _]%lift_Ok & H1).
    apply io_bind_Ok in H1 as (es & w7 & [-> He]%lift_Ok & H1). apply io_bind_Ok in H1 as (paths & w8 & [-> Hp]%lift_Ok & H1).
    apply io_bind_Ok in H1 as (rb & w9 & [-> ->]%exists_Ok & [-> <-]%mret_Ok).
    destruct Hqs as (text' & index' & version & name' & es' & Ht' & Hl' & _ & _ & _ & _ & He' & Hes & _).
    assert (text' = text) as -> by congruence. assert (index' = index) as -> by congruence. assert (es' = es) as -> by congruence.
    rewrite (entry_paths _ _ _ _ Hes) in Hp. injection Hp as <-. apply (IH pss') in H as [-> ->]; [|done]. split; [done|].
    unfold all_paths, set_paths. cbn [fst snd zip_with mjoin list_join length]. f_equal; [by rewrite <-!app_assoc|lia].
  - rewrite decide_False in Hpss |- * by done. apply mret_Ok in H1 as [-> <-]. by apply (IH pss) in H.
Qed.

(** ** The manifest that was written is accepted *)

(** The manifest lies outside the directories of the results. *)
Lemma outside_results n : startswith "20" n = true → is_ok (relative_to (path_join (RESULTS_ROOT ROOT) n) (RESULTS_OUTPUT ROOT)) = false.
Proof.
  intros Hn. unfold relative_to, RESULTS_OUTPUT, RESULTS_ROOT. rewrite (path_join_above ROOT "results"), (path_join_above ROOT "manifests/results.sha256") by reflexivity.
  generalize (path_join ROOT EmptyString) as b. intros b. assert (Hr : startswith "/" n = false) by (apply startswith_spec in Hn as [t ->]; reflexivity).
  assert (Hlen : (1 < String.length (b +:+ "results"))%nat) by (rewrite length_str_app; simpl; lia).
  rewrite (path_join_long (b +:+ "results") n) by done. rewrite path_join_long; [|rewrite length_str_app; lia|reflexivity].
  rewrite <-!str_app_assoc, startswith_cancel. done.
Qed.

Lemma outside_results_root : is_ok (relative_to (RESULTS_ROOT ROOT) (RESULTS_OUTPUT ROOT)) = false.
Proof.
  unfold relative_to, RESULTS_OUTPUT, RESULTS_ROOT. rewrite (path_join_above ROOT "results"), (path_join_above ROOT "manifests/results.sha256") by reflexivity. generalize (path_join ROOT EmptyString) as b. intros b.
  assert (Hlen : (1 < String.length (b +:+ "results"))%nat) by (rewrite length_str_app; simpl; lia).
  rewrite path_join_long by done. by rewrite <-!str_app_assoc, startswith_cancel.
Qed.

Section unchanged.
Context (w w' : world) (text : string) (root : string).
Hypothesis written : files w' = <[RESULTS_OUTPUT ROOT := text]> (files w).
Hypothesis outside : is_ok (relative_to root (RESULTS_OUTPUT ROOT)) = false.

Lemma inside_unchanged name : startswith "/" name = false → files w' !! path_join root name = files w !! path_join root name.
Proof.
  intros Hn. rewrite written, lookup_insert_ne; [done|]. intros He. rewrite He, relative_to_join in outside; [discriminate outside|done].
Qed.

Lemma set_paths_unchanged ps : set_paths w' root ps = set_paths w root ps.
Proof. unfold set_paths, readme_path. by rewrite inside_unchanged. Qed.

Lemma set_ok_unchanged ps : (∀ p, p ∈ ps → p ≠ RESULTS_OUTPUT ROOT) → set_ok w root ps → set_ok w' root ps.
Proof.
  intros Hps (t & index & version & name & entries & Ht & Hl & Hv & Hvz & Hn & Hnz & He & Hes & Hsub).
  exists t, index, version, name, entries. split_and!; try done.
  - unfold index_path. rewrite inside_unchanged; done.
  - apply Forall2_same_length_lookup in Hes as [Hlen Hes]. apply Forall2_same_length_lookup. split; [done|]. intros i e p Hi Hp.
    destruct (Hes i e p Hi Hp) as (Hj & s & bytes & digest & rows & Hs & Hrest). split; [done|]. exists s, bytes, digest, rows. split; [|done].
    rewrite written, lookup_insert_ne; [done|]. intros He'. by apply (Hps p); [by eapply list_elem_of_lookup_2|].
  - destruct (directory_insert _ _ _ _ _ written outside) as (_ & -> & _). done.
Qed.
End unchanged.
Lemma forall_choice {A B} (P : A → B → Prop) (l : list A) : (∀ x, x ∈ l → ∃ y, P x y) → ∃ k, Forall2 P l k.
Proof.
  induction l as [|x l IH]; intros H; [by exists []|]. destruct (H x) as [y Hy]; [by left|]. destruct IH as [k Hk]; [intros; apply H; by right|].
  exists (y :: k). by constructor.
Qed.

Lemma filter_ext_in {A} (P Q : A → Prop) `{∀ x, Decision (P x), ∀ x, Decision (Q x)} (l : list A) :
  (∀ x, x ∈ l → P x ↔ Q x) → filter P l = filter Q l.
Proof.
  induction l as [|x l IH]; intros H1; [done|]. rewrite !filter_cons, IH by (intros; apply H1; by right).
  assert (Hx : P x ↔ Q x) by (apply H1; by left). do 2 case_decide; tauto.
Qed.

Lemma all_paths_cons w d ps dirs pss : all_paths w (d :: dirs) (ps :: pss) = set_paths w d ps ++ all_paths w dirs pss.
Proof. done. Qed.

Lemma sets_unchanged w w' text dirs pss :
  files w' = <[RESULTS_OUTPUT ROOT := text]> (files w) → (∀ d, d ∈ dirs → is_ok (relative_to d (RESULTS_OUTPUT ROOT)) = false) →
  (∀ p, p ∈ all_paths w dirs pss → p ≠ RESULTS_OUTPUT ROOT) → Forall2 (set_ok w) dirs pss →
  Forall2 (set_ok w') dirs pss ∧ all_paths w' dirs pss = all_paths w dirs pss.
Proof.
  intros Hw Hd Hp H. induction H as [|d ps dirs pss Hdp _ IH]; [done|]. rewrite all_paths_cons in Hp. rewrite !all_paths_cons.
  destruct IH as [IH1 ->]; [intros; apply Hd; by right|intros p Hin; apply Hp, elem_of_app; by right|].
  assert (Hd1 : is_ok (relative_to d (RESULTS_OUTPUT ROOT)) = false) by (apply Hd; by left).
  rewrite (set_paths_unchanged _ _ _ _ Hw Hd1). split; [|done]. constructor; [|done].
  apply (set_ok_unchanged _ _ _ _ Hw Hd1); [|done]. intros p Hin. apply Hp, elem_of_app. left. unfold set_paths. apply elem_of_app. by left.
Qed.

(** A name that a line of the manifest can carry. *)
Definition listable (e : entry) : Prop :=
  no_break (e_path e) = true ∧ startswith "/" (e_path e) = false ∧ e_path e ≠ "manifests/results.sha256".

#[export] Instance listable_dec e : Decision (listable e).
Proof. unfold listable. apply _. Defined.

Lemma describes_listable w p e : describes ROOT w p e → listable e → path_join ROOT (e_path e) = p ∧ p ≠ RESULTS_OUTPUT ROOT.
Proof.
  intros [Hr _] (_ & Hs & Hn). pose proof (join_relative _ _ _ Hr Hs) as Hj. split; [done|]. intros ->. apply Hn.
  by apply (path_join_inj ROOT).
Qed.

(** The paths of the rows. *)
Lemma rows_paths w paths rows :
  Forall2 (describes ROOT w) paths rows → Forall listable rows →
  path_join ROOT ∘ e_path <$> rows = paths ∧ Forall (λ p, p ≠ RESULTS_OUTPUT ROOT) paths.
Proof.
  induction 1 as [|p e paths rows Hd _ IH]; intros Hl; [done|]. apply Forall_cons in Hl as [He Hl]. destruct (IH Hl) as [IH1 IH2].
  destruct (describes_listable _ _ _ Hd He) as [Hj Hn]. split; [|by constructor]. rewrite fmap_cons, IH1. unfold compose. by rewrite Hj.
Qed.

(** The manifest that update-results-manifest.py wrote is accepted by verify-results.py whenever the index of every result set describes the
    files of its directory. *)
Lemma manifest_accepted resolve a w rows w' :
  update_results ROOT w = (Ok rows, w') → Forall listable rows →
  (∀ d, d ∈ set_dirs w (dated (RESULTS_ROOT ROOT) w) → ∃ ps, set_ok w d ps) →
  resolve (a_results_root a) = RESULTS_ROOT ROOT → a_results a = [] →
  ∃ pss, Forall2 (set_ok w') (set_dirs w (dated (RESULTS_ROOT ROOT) w)) pss ∧
    verify_results ROOT resolve a w' = (Ok (length pss, indexed_total pss, length rows), w').
Proof.
  intros H Hl Hok Hroot Hall. unfold update_results in H. apply io_bind_Ok in H as (ns & w1 & Hns & H). injection Hns as <- <-.
  set (ns := dated (RESULTS_ROOT ROOT) w) in *. set (dirs := set_dirs w ns) in *.
  assert (Hpss : ∃ pss, Forall2 (set_ok w) dirs pss) by by by apply forall_choice. destruct Hpss as [pss Hpss].
  apply io_bind_Ok in H as ([paths k] & w2 & Hst & H). pose proof (result_sets_Ok _ _ _ _ _ _ Hpss Hst) as [-> Hpk]. injection Hpk as -> ->.
  apply io_bind_Ok in H as (u & w3 & [-> Hk%raise_when_Ok]%lift_Ok & H). apply io_bind_Ok in H as (rows0 & w4 & [-> Hd]%result_rows_Ok & H).
  apply io_bind_Ok in H as (u1 & w5 & [_ Hw]%publish_Ok & H). apply mret_Ok in H as [-> <-]. cbn [fst snd] in *.
  assert (Hperm := sort_by_Permutation entry_leb rows0). set (rows := sort_by entry_leb rows0) in *.
  assert (Hl0 : Forall listable rows0) by by rewrite <-Hperm. destruct (rows_paths _ _ _ Hd Hl0) as [Hjoin Hne].
  apply Forall_cons in Hne as [Hne1 Hne]. rewrite Forall_forall in Hne.
  assert (Hout : ∀ d, d ∈ dirs → is_ok (relative_to d (RESULTS_OUTPUT ROOT)) = false).
  { intros d [_ (n & -> & Hn)%list_elem_of_fmap]%list_elem_of_filter. apply outside_results. unfold ns, dated in Hn.
    rewrite sort_by_Permutation in Hn. by apply list_elem_of_filter in Hn as [Hn _]. }
  destruct (sets_unchanged _ _ _ _ _ Hw Hout Hne Hpss) as [Hpss' Hpaths]. exists pss. split; [done|].
  assert (Hdirs : result_directories resolve a w5 = dirs).
  { unfold result_directories. rewrite Hall, Hroot. destruct (directory_insert _ _ _ _ _ Hw outside_results_root) as (_ & _ & ->). fold ns.
    unfold dirs, set_dirs. apply filter_ext_in. intros d (n & -> & Hn)%list_elem_of_fmap.
    unfold index_path. rewrite (inside_unchanged _ _ _ _ Hw); [done|apply outside_results|done]. unfold ns, dated in Hn.
    rewrite sort_by_Permutation in Hn. by apply list_elem_of_filter in Hn as [Hn _]. }
  unfold verify_results. rewrite (io_bind_eq _ _ _ dirs w5) by by rewrite Hdirs. rewrite guard_bind_eq.
  2: { apply bool_decide_eq_false. intros Hnil. apply Forall2_length in Hpss. rewrite Hnil in Hpss. destruct pss; [|done]. done. }
  rewrite (io_bind_eq _ _ _ _ _ (verify_sets_eq _ _ _ _ Hpss')). cbn [fst snd].
  rewrite (io_bind_eq _ _ _ (concat_texts (entry_line <$> rows)) w5) by (unfold read; by rewrite Hw, lookup_insert_eq).
  assert (Hrow : ∀ e, e ∈ rows → ∃ p, p ∈ readme_path (RESULTS_ROOT ROOT) :: all_paths w dirs pss ∧ describes ROOT w p e).
  { intros e He. rewrite Hperm in He. apply list_elem_of_lookup in He as [j Hj]. destruct (Forall2_lookup_r _ _ _ _ _ Hd Hj) as (p & Hp & Hpe).
    exists p. split; [by eapply list_elem_of_lookup_2|done]. }
  rewrite text_lines_entries.
  2: { apply Forall_forall. intros e He. rewrite Forall_forall in Hl. destruct (Hl e He) as (Hb & _). apply Hrow in He as (p & _ & Hpe). by eapply describes_text. }
  assert (Hlines : Forall (λ e, ∃ s, files w5 !! path_join ROOT (e_path e) = Some s ∧ e = describe (e_path e) s) rows).
  { rewrite Forall_forall in Hl |- *. intros e He. pose proof (Hl e He) as Hle. apply Hrow in He as (p & _ & Hpe).
    destruct (describes_listable _ _ _ Hpe Hle) as [-> Hpn]. destruct Hpe as (_ & s & Hs & Hse). exists s. split; [|done]. by rewrite Hw, lookup_insert_ne. }
  rewrite (io_bind_eq _ _ _ _ _ (verify_lines_eq w5 rows (O, ∅) Hlines)). cbn [fst snd]. rewrite guard_bind_eq.
  - by rewrite (Forall2_length _ _ _ Hpss).
  - apply negb_false_iff, bool_decide_eq_true. rewrite (right_id_L ∅ (∪)), Hpaths, Hroot.
    assert (Hset : (list_to_set (path_join ROOT ∘ e_path <$> rows) : gset string) = list_to_set (path_join ROOT ∘ e_path <$> rows0)) by (by rewrite Hperm).
    rewrite Hset, Hjoin. cbn [list_to_set]. by rewrite (comm_L (∪)).
Qed.
End manifest.

(** ** The index that was written is right *)
Lemma file_name_join root n : index_of "/" n = None → file_name (path_join root n) = n.
Proof.
  intros Hn. rewrite path_join_above by by apply not_absolute. pose proof (no_rfind _ _ Hn) as Hr. unfold file_name.
  assert (Ha : path_join root EmptyString = EmptyString ∨ ∃ a, path_join root EmptyString = a +:+ "/").
  { unfold path_join. cbn. destruct root as [|c r]; [by left|right]. assert (Hex : ∃ a, String c r +:+ "/" = a +:+ "/") by by eexists.
    destruct c as [[] [] [] [] [] [] [] []]; try exact Hex. destruct r; [by exists EmptyString|exact Hex]. }
  destruct Ha as [->|[a ->]]; [rewrite str_app_nil_l; by rewrite Hr|]. rewrite <-str_app_assoc. change ("/" +:+ n) with (String "/" n).
  rewrite (rfind_last _ _ _ Hr). change (String "/" n) with ("/" +:+ n). rewrite str_app_assoc.
  replace (S (String.length a)) with (String.length (a +:+ "/")) by (rewrite length_str_app; cbn; lia). apply str_drop_app.
Qed.

(** An index as the scripts write it, with the entries' order and values; json.loads gives it back in the order of the keys. *)
Definition dumped_index (w : world) (root : string) (entries : list json) : Prop :=
  files w !! index_path root = Some (dumps (index_json (file_name root) entries) +:+ newline).

Lemma entry_ok_canon w root e p : json_ok e = true → entry_ok w root e p → entry_ok w root (canon e) p.
Proof.
  intros He (Hp & s & bytes & digest & rows & Hs & Hb & Hbz & Hd & Hdz & Hr & Hrows).
  assert (Hjp : jget_path root "path" (canon e) = Ok p).
  { unfold jget_path in Hp |- *. apply bind_Ok in Hp as (x & Hx & Hp). rewrite (jget_canon _ _ _ He Hx). by destruct x. }
  split; [done|]. exists s, (canon bytes), (canon digest), (canon rows). split_and!; try done; try by apply jget_canon.
  - by destruct bytes.
  - by destruct digest.
  - destruct Hrows as [->|Hz]; [by left|right]. by destruct rows.
Qed.

(** A set whose index was written by a script, with entries that describe its files. *)
Lemma dumped_set_ok w root entries ps :
  dumped_index w root entries → is_ascii (file_name root) = true → Forall (λ e, json_ok e = true) entries →
  Forall2 (entry_ok w root) entries ps → file_names root w ⊆ list_to_set (file_name <$> ps) ∪ {["index.json"; "README.md"]} →
  set_ok w root ps.
Proof.
  intros Hd Hn Hes Hps Hsub. assert (Hok : json_ok (index_json (file_name root) entries) = true).
  { unfold index_json. json_object; cbn [json_ok]; [done|done|]. apply forallb_forall. intros e He%list_elem_of_In. rewrite Forall_forall in Hes. by apply Hes. }
  eexists _, (canon (index_json (file_name root) entries)), (JInt 1), (JStr (file_name root)), (canon <$> entries). split_and!.
  - exact Hd.
  - by apply loads_dumps.
  - exact (jget_canon "schema_version" (index_json _ entries) (JInt 1) Hok eq_refl).
  - done.
  - exact (jget_canon "result_set" (index_json _ entries) (JStr (file_name root)) Hok eq_refl).
  - by apply bool_decide_eq_true_2.
  - by rewrite (jget_canon "entries" (index_json _ entries) (JArr entries) Hok eq_refl).
  - clear -Hes Hps. induction Hps as [|e p es ps He _ IH]; [constructor|]. apply Forall_cons in Hes as [He1 Hes]. rewrite fmap_cons.
    constructor; [by apply entry_ok_canon|by apply IH].
  - done.
Qed.

Section index_written.
Context (is_directory : string → bool).

Definition indexed_name (n : string) : Prop := n ∉ ["README.md"; "index.json"].

#[export] Instance indexed_name_dec n : Decision (indexed_name n).
Proof. unfold indexed_name. apply _. Defined.

(** The entry of the result file [name], from the file's own text: its size and digest, the classification of its provenance, and
    the digest of its sources, which are its [sources] or else its provenance. *)
Definition entry_of_file (w : world) (root name : string) (e : json) : Prop :=
  ∃ text value provenance classification sources,
    files w !! path_join root name = Some text ∧ loads text = Ok value ∧
    jget_default "_provenance" (JObj []) value = Ok provenance ∧
    jget_opt "classification" provenance = Ok classification ∧ truthy classification = true ∧
    jget_default "sources" provenance value = Ok sources ∧
    e = JObj [("path", JStr name); ("classification", classification); ("bytes", JInt (Z.of_nat (String.length text))); ("rows", JNull);
              ("sha256", JStr (sha256 text)); ("source_sha256", JStr (sha256 (dumps_compact sources)))].

Lemma entry_of_file_ok w root name e : entry_of_file w root name e → entry_ok w root e (path_join root name).
Proof.
  intros (s & v & pr & c & src & Hs & _ & _ & _ & _ & _ & ->). split; [done|]. exists s. do 3 eexists. split_and!; try reflexivity; try done.
  - cbn [jeq_int]. apply Z.eqb_refl.
  - by apply bool_decide_eq_true_2.
  - by left.
Qed.

Lemma json_entry_Ok root name w e w' : json_entry root name w = (Ok e, w') → w' = w ∧ entry_of_file w root name e.
Proof.
  unfold json_entry. intros H. apply io_bind_Ok in H as (text & w1 & [-> Ht]%read_Ok & H). apply io_bind_Ok in H as (v & w2 & [-> Hv]%lift_Ok & H).
  apply io_bind_Ok in H as (pr & w3 & [-> Hpr]%lift_Ok & H). apply io_bind_Ok in H as (c & w4 & [-> Hc]%lift_Ok & H).
  apply io_bind_Ok in H as (u & w5 & [-> Hu%raise_when_Ok]%lift_Ok & H). apply io_bind_Ok in H as (src & w6 & [-> Hsrc]%lift_Ok & H).
  apply io_bind_Ok in H as (n & w7 & [-> (s & Hs & ->)]%file_size_Ok & H). apply io_bind_Ok in H as (d & w8 & [-> (s' & Hs' & ->)]%hash_file_Ok & H).
  apply mret_Ok in H as [-> <-]. assert (s' = s) as -> by congruence. assert (text = s) as -> by congruence. bool_facts. split; [done|].
  by exists s, v, pr, c, src.
Qed.

Lemma index_steps_Ok root names acc w entries w' :
  fold_io (index_step root) acc names w = (Ok entries, w') →
  w' = w ∧ ∃ es, entries = acc ++ es ∧ Forall2 (entry_of_file w root) (filter indexed_name names) es.
Proof.
  revert acc. induction names as [|n names IH]; intros acc H; cbn [fold_io] in H.
  { apply mret_Ok in H as [-> <-]. split; [done|]. exists []. by rewrite app_nil_r. }
  apply io_bind_Ok in H as (acc1 & w1 & H1 & H). unfold index_step in H1. rewrite filter_cons. case_bool_decide as Hn.
  { apply mret_Ok in H1 as [-> <-]. rewrite decide_False by by intros []. by apply IH. }
  rewrite decide_True by done. destruct (decide (suffix n = ".json")) as [Hj|Hj]; [|by destruct (decide (suffix n = ".csv"))].
  apply io_bind_Ok in H1 as (e & w2 & [-> He]%json_entry_Ok & [-> <-]%mret_Ok). apply IH in H as [-> (es & -> & Hes)]. split; [done|].
  exists (e :: es). rewrite <-app_assoc. split; [done|]. by constructor.
Qed.

(** The entries of files that stay as they are. *)
Lemma entries_of_unchanged w w' root ns es :
  (∀ n, n ∈ ns → files w' !! path_join root n = files w !! path_join root n) →
  Forall2 (entry_of_file w root) ns es → Forall2 (entry_of_file w' root) ns es.
Proof.
  intros Hf H. induction H as [|n e ns es (s & v & pr & c & src & Hs & He) _ IH]; [done|]. constructor; [|apply IH; intros; apply Hf; by right].
  exists s, v, pr, c, src. split; [|done]. rewrite Hf; [done|by left].
Qed.

Lemma entries_of_ok w root ns es : Forall2 (entry_of_file w root) ns es → Forall2 (entry_ok w root) es (path_join root <$> ns).
Proof. intros H. induction H as [|n e ns es He _ IH]; [done|]. rewrite fmap_cons. constructor; [by apply entry_of_file_ok|done]. Qed.

Lemma file_names_plain root w n : n ∈ file_names root w → index_of "/" n = None.
Proof. unfold file_names. rewrite elem_of_list_to_set, list_elem_of_filter. by intros []. Qed.

Lemma file_names_written root w w' q text :
  files w' = <[path_join root q := text]> (files w) → startswith "/" q = false → file_names root w' ⊆ file_names root w ∪ {[q]}.
Proof.
  intros Hw Hq n. unfold file_names. rewrite elem_of_union, !elem_of_list_to_set, !list_elem_of_filter, elem_of_singleton, !elem_of_below.
  intros (Hn & p & Hp & Hr). destruct (decide (p = path_join root q)) as [->|Hne].
  - right. rewrite relative_to_join in Hr by done. by injection Hr.
  - left. split; [done|]. exists p. split; [|done]. by rewrite Hw, lookup_insert_ne in Hp.
Qed.

(** C24 (functional): the index that update-result-index.py writes, and that stands in the directory afterwards, has one entry for each
    result file of the directory, in the order of their names: each with the file's size and digest, the classification that the file's own
    provenance gives (none is listed without one) and the digest of its sources.  So verify-results.py accepts the set. *)
Theorem index_written root w entries w' :
  update_index is_directory root w = (Ok entries, w') →
  is_ascii (file_name root) = true → Forall (λ e, json_ok e = true) entries →
  let ns := filter indexed_name (sort_by str_leb (elements (file_names root w))) in
  let ps := path_join root <$> ns in
  dumped_index w' root entries ∧ Forall2 (entry_of_file w' root) ns entries ∧
  set_ok w' root ps ∧ Forall2 (entry_ok w' root) entries ps ∧ ∀ st, verify_set st root w' = (Ok (set_seen w' root ps st), w').
Proof.
  intros H Hn Hok ns ps. unfold update_index in H. apply io_bind_Ok in H as (u & w1 & [-> _]%lift_Ok & H).
  apply io_bind_Ok in H as (listing & w2 & Hl & H). injection Hl as <- <-.
  apply io_bind_Ok in H as (es & w3 & [-> (es' & Hes & Hns)]%index_steps_Ok & H). cbn [app] in Hes. subst es'. fold ns in Hns.
  apply io_bind_Ok in H as ([] & w4 & [_ Hw]%publish_over_Ok & [-> <-]%mret_Ok).
  assert (Hplain : ∀ n, n ∈ ns → index_of "/" n = None ∧ n ≠ "index.json").
  { intros n [Hi Hin]%list_elem_of_filter. rewrite sort_by_Permutation, elem_of_elements in Hin. split; [by eapply file_names_plain|].
    intros ->. apply Hi. right. by left. }
  assert (Hns' : Forall2 (entry_of_file w4 root) ns es).
  { apply (entries_of_unchanged w); [|done]. intros n [Hs Hne]%Hplain. rewrite Hw, lookup_insert_ne; [done|].
    intros Heq. apply Hne. apply (path_join_inj root); [by apply not_absolute|done|done]. }
  assert (Hps' : Forall2 (entry_ok w4 root) es ps) by by apply entries_of_ok.
  assert (Hdump : dumped_index w4 root es).
  { unfold dumped_index. rewrite Hw, lookup_insert_eq. unfold concat_texts. cbn [foldr]. by rewrite str_app_nil_r. }
  assert (Hset : set_ok w4 root ps).
  { apply (dumped_set_ok _ _ es); [done|done|done|done|].
    intros n Hin. apply (file_names_written _ _ _ _ _ Hw eq_refl) in Hin. apply elem_of_union in Hin as [Hin| ->%elem_of_singleton]; [|set_solver].
    destruct (decide (indexed_name n)) as [Hi|Hi].
    - apply elem_of_union_l, elem_of_list_to_set, list_elem_of_fmap. exists (path_join root n). split; [symmetry; apply file_name_join; by eapply file_names_plain|].
      apply list_elem_of_fmap_2, list_elem_of_filter. split; [done|]. by rewrite sort_by_Permutation, elem_of_elements.
    - apply elem_of_union_r. unfold indexed_name in Hi. apply dec_stable in Hi. set_solver. }
  split_and!; [done..|]. intros st. by apply verify_set_eq.
Qed.
End index_written.

(** ** An example: a set is indexed, the manifest is written, and both are verified. *)
Definition ex_root : string := "/repo/results/2026-09-11".
Definition ex_is_directory : string → bool := λ p, bool_decide (p = ex_root).
Definition ex_result : string := dumps (JObj [("_provenance", JObj [("classification", JStr "RPC-derived")]); ("total", JInt 7)]).
Definition ex_results_world : world := World (list_to_map [("/repo/results/README.md", "read"); (ex_root +:+ "/a.json", ex_result)]) None.

Definition ex_entries : list json := get [] (update_index ex_is_directory ex_root ex_results_world).1.
Definition ex_indexed : world := (update_index ex_is_directory ex_root ex_results_world).2.
Lemma ex_index : update_index ex_is_directory ex_root ex_results_world = (Ok ex_entries, ex_indexed).
Proof. unfold ex_entries, ex_indexed. apply run_Ok, get_Ok. by vm_compute. Qed.

Definition ex_rows : list entry := get [] (update_results "/repo" ex_indexed).1.
Definition ex_manifested : world := (update_results "/repo" ex_indexed).2.
Lemma ex_manifest : update_results "/repo" ex_indexed = (Ok ex_rows, ex_manifested).
Proof. unfold ex_rows, ex_manifested. apply run_Ok, get_Ok. by vm_compute. Qed.

Definition ex_verify_args : args := Args "results" [].
Definition ex_resolve (p : string) : string := path_join "/repo" p.

Example ex_results_verified : (verify_results "/repo" ex_resolve ex_verify_args ex_manifested).1 = Ok (1%nat, 1%nat, 3%nat).
Proof. by vm_compute. Qed.

(** A file that is in no index, and a file that changed. *)
Example ex_result_unindexed :
  (verify_results "/repo" ex_resolve ex_verify_args (World (<[ex_root +:+ "/b.json" := "{}"]> (files ex_manifested)) None)).1 =
  Err (ValueError "unindexed result files").
Proof. by vm_compute. Qed.

Example ex_result_changed :
  (verify_results "/repo" ex_resolve ex_verify_args (World (<["/repo/results/README.md" := "rEad"]> (files ex_manifested)) None)).1 =
  Err (ValueError "manifest hash mismatch").
Proof. by vm_compute. Qed.

Lemma index_written_witness :
  set_ok ex_indexed ex_root [ex_root +:+ "/a.json"] ∧
  ex_entries = [JObj [("path", JStr "a.json"); ("classification", JStr "RPC-derived"); ("bytes", JInt (Z.of_nat (String.length ex_result)));
                      ("rows", JNull); ("sha256", JStr (sha256 ex_result)); ("source_sha256", JStr (sha256 (dumps_compact
                        (JObj [("classification", JStr "RPC-derived")]))))]].
Proof.
  assert (Hns : filter indexed_name (sort_by str_leb (elements (file_names ex_root ex_results_world))) = ["a.json"]) by by vm_compute.
  assert (Hok : Forall (λ e, json_ok e = true) ex_entries).
  { apply Forall_forall. intros e He%list_elem_of_In. revert e He. apply forallb_forall. by vm_compute. }
  pose proof (index_written ex_is_directory ex_root ex_results_world ex_entries ex_indexed ex_index ltac:(by vm_compute) Hok) as H.
  cbv zeta in H. rewrite Hns in H. destruct H as (_ & He & Hs & _). split; [exact Hs|]. clear Hs Hok Hns.
  revert He. generalize ex_entries as l. intros l He. inversion He as [|n e ns es (s & v & pr & c & src & Ht & Hv & Hp & Hc & _ & Hsrc & ->) Hnil]; subst.
  inversion Hnil; subst. assert (Hx : files ex_indexed !! path_join ex_root "a.json" = Some ex_result) by by vm_compute.
  rewrite Hx in Ht. injection Ht as <-. vm_compute in Hv. injection Hv as <-. injection Hp as <-. injection Hc as <-. injection Hsrc as <-. done.
Defined.

Lemma results_sound_witness : results_hold "/repo" ex_resolve ex_verify_args ex_manifested 1 1 3.
Proof.
  assert (Hb : (verify_results "/repo" ex_resolve ex_verify_args ex_manifested).1 = Ok (1%nat, 1%nat, 3%nat)) by by vm_compute.
  pose proof (run_Ok (verify_results "/repo" ex_resolve ex_verify_args) ex_manifested _ Hb) as H.
  by apply (results_sound "/repo" ex_resolve ex_verify_args ex_manifested 1 1 3) in H as [_ H].
Defined.

(** With two sets, one of them alone cannot be verified: the manifest lists the files of both, and the run asked for one expects only its own. *)
Definition ex_second : string := "/repo/results/2026-09-16".
Definition ex_two_world : world :=
  (update_index (λ _, true) ex_second (World (<[ex_second +:+ "/b.json" := ex_result]> (files ex_indexed)) None)).2.

Example one_of_two_sets :
  (verify_results "/repo" ex_resolve (Args "results" ["results/2026-09-11"]) (update_results "/repo" ex_two_world).2).1 =
  Err (ValueError "result manifest mismatch").
Proof. by vm_compute. Qed.

Example both_sets : (verify_results "/repo" ex_resolve ex_verify_args (update_results "/repo" ex_two_world).2).1 = Ok (2%nat, 2%nat, 5%nat).
Proof. by vm_compute. Qed.
