(* ===== verification/Regex.v ===== *)
(** * Regular expressions

    The part of Python's re module that the checks of the public files use: character classes, concatenation, alternatives, counted repetition
    and word boundaries.  [matches] says which part of a text an expression matches; [ends] computes the ends of all matches that start
    at a place, and [search] is [bool(pattern.search(text))].  [search_spec] relates the two: the order in which Python tries the alternatives
    decides which match is found, but not whether there is one. *)
From S2P Require Import Prelude PyStr.

Inductive regex :=
  | Chars (p : ascii → bool)
  | Boundary
  | Seq (r1 r2 : regex)
  | Alt (r1 r2 : regex)
  | Repeat (least : nat) (most : option nat) (r : regex).

(** A place in a text: the character before it and the rest. *)
Definition place : Type := option ascii * string.

Definition word_char (c : ascii) : bool := is_digit c || bool_decide (lower_char c ≠ upper_char c) || bool_decide (c = "_"%char).

Definition word_before (x : place) : bool := match x.1 with Some c => word_char c | None => false end.
Definition word_after (x : place) : bool := match x.2 with String c _ => word_char c | EmptyString => false end.

(** [\b] *)
Definition at_boundary (x : place) : bool := xorb (word_before x) (word_after x).

(** ** What an expression matches *)
Inductive matches : regex → place → place → Prop :=
  | m_chars p b c s : p c = true → matches (Chars p) (b, String c s) (Some c, s)
  | m_boundary x : at_boundary x = true → matches Boundary x x
  | m_seq r1 r2 x y z : matches r1 x y → matches r2 y z → matches (Seq r1 r2) x z
  | m_alt_l r1 r2 x y : matches r1 x y → matches (Alt r1 r2) x y
  | m_alt_r r1 r2 x y : matches r2 x y → matches (Alt r1 r2) x y
  | m_stop most r x : matches (Repeat O most r) x x
  | m_more least most r x y z :
      most ≠ Some O → matches r x y → matches (Repeat (pred least) (pred <$> most) r) y z → matches (Repeat least most r) x z.

(** The places of a text. *)
Inductive later : place → place → Prop :=
  | later_here x : later x x
  | later_next b c s y : later (Some c, s) y → later (b, String c s) y.

(** The expression matches somewhere in the text. *)
Definition found (r : regex) (s : string) : Prop := ∃ x y, later (None, s) x ∧ matches r x y.

(** ** Matching *)

(** The ends of a repetition of [f] from [least] to [most] times; every round passes over a character. *)
Fixpoint repeat_ends (f : place → list place) (fuel least : nat) (most : option nat) (x : place) : list place :=
  match fuel with
  | O => []
  | S fuel =>
      (if (least =? 0)%nat then [x] else []) ++
      (if decide (most = Some O) then [] else y ← f x; repeat_ends f fuel (pred least) (pred <$> most) y)
  end.

Fixpoint ends (r : regex) (x : place) : list place :=
  match r with
  | Chars p => match x.2 with String c s => if p c then [(Some c, s)] else [] | EmptyString => [] end
  | Boundary => if at_boundary x then [x] else []
  | Seq r1 r2 => y ← ends r1 x; ends r2 y
  | Alt r1 r2 => ends r1 x ++ ends r2 x
  | Repeat least most r => repeat_ends (ends r) (S (String.length x.2)) least most x
  end.

Definition matches_at (r : regex) (x : place) : bool := match ends r x with [] => false | _ => true end.

Fixpoint search_at (r : regex) (before : option ascii) (s : string) : bool :=
  matches_at r (before, s) || match s with String c s' => search_at r (Some c) s' | EmptyString => false end.

(** [bool(re.compile(r).search(s))] *)
Definition search (r : regex) (s : string) : bool := search_at r None s.

(** ** The expressions of a pattern *)
Definition char (c : ascii) : regex := Chars (λ d, bool_decide (d = c)).
Definition any_of (s : string) : regex := Chars (λ d, existsb (λ c, bool_decide (d = c)) (String.list_ascii_of_string s)).

Fixpoint sequence (l : list regex) : regex :=
  match l with
  | [] => Repeat O (Some O) Boundary
  | [r] => r
  | r :: l => Seq r (sequence l)
  end.

Fixpoint choice (r : regex) (l : list regex) : regex := match l with [] => r | r' :: l => Alt r (choice r' l) end.

(** A literal text, and one whose case is ignored. *)
Definition text (s : string) : regex := sequence (char <$> String.list_ascii_of_string s).
Definition any_case (s : string) : regex := sequence ((λ c, Chars (λ d, bool_decide (lower_char d = lower_char c))) <$> String.list_ascii_of_string s).

Definition digit : regex := Chars is_digit.
Definition space : regex := Chars str_space.
Definition many (r : regex) : regex := Repeat O None r.
Definition some (r : regex) : regex := Repeat 1 None r.
Definition optional (r : regex) : regex := Repeat O (Some 1%nat) r.
Definition at_least (n : nat) (r : regex) : regex := Repeat n None r.

(** ** Repetitions that end *)

(** Every match passes over a character. *)
Fixpoint consuming (r : regex) : bool :=
  match r with
  | Chars _ => true
  | Boundary => false
  | Seq r1 r2 => consuming r1 || consuming r2
  | Alt r1 r2 => consuming r1 && consuming r2
  | Repeat least most r => negb (least =? 0)%nat && consuming r
  end.

(** What is repeated without a bound passes over characters. *)
Fixpoint well_formed (r : regex) : bool :=
  match r with
  | Chars _ | Boundary => true
  | Seq r1 r2 | Alt r1 r2 => well_formed r1 && well_formed r2
  | Repeat _ most r => well_formed r && (bool_decide (most = Some O) || consuming r)
  end.

Notation left x := (String.length x.2).

Lemma matches_left r x y : matches r x y → (left y ≤ left x)%nat.
Proof. induction 1; cbn in *; lia. Qed.

Lemma matches_consumes r x y : matches r x y → consuming r = true → (left y < left x)%nat.
Proof.
  induction 1 as [p b c s Hp|x Hx|r1 r2 x y z H1 IH1 H2 IH2|r1 r2 x y H IH|r1 r2 x y H IH|most r x|least most r x y z Hm H1 IH1 H2 IH2];
    cbn [consuming snd]; intros Hc.
  - cbn. lia.
  - done.
  - pose proof (matches_left _ _ _ H1). pose proof (matches_left _ _ _ H2). apply orb_true_iff in Hc as [Hc|Hc]; [apply IH1 in Hc|apply IH2 in Hc]; lia.
  - apply andb_true_iff in Hc as [Hc _]. by apply IH.
  - apply andb_true_iff in Hc as [_ Hc]. by apply IH.
  - done.
  - apply andb_true_iff in Hc as [_ Hc]. pose proof (matches_left _ _ _ H2). apply IH1 in Hc. lia.
Qed.

Section repeat.
Context (f : place → list place) (r : regex).
Hypothesis f_spec : ∀ x y, y ∈ f x ↔ matches r x y.

Lemma repeat_sound fuel least most x y : y ∈ repeat_ends f fuel least most x → matches (Repeat least most r) x y.
Proof.
  revert least most x. induction fuel as [|fuel IH]; intros least most x; [by intros ?%not_elem_of_nil|]. cbn [repeat_ends].
  intros [Hy|Hy]%elem_of_app.
  - destruct least; cbn in Hy; [|by apply not_elem_of_nil in Hy]. apply list_elem_of_singleton in Hy as ->. constructor.
  - case_decide as Hm; [by apply not_elem_of_nil in Hy|]. apply list_elem_of_bind in Hy as (z & Hy & Hz). apply f_spec in Hz. eapply m_more; [done|done|].
    by apply IH.
Qed.

Lemma repeat_complete fuel least most x y :
  consuming r = true ∨ most = Some O → (left x < fuel)%nat → matches (Repeat least most r) x y → y ∈ repeat_ends f fuel least most x.
Proof.
  intros Hc. revert least most x Hc. induction fuel as [|fuel IH]; intros least most x Hc Hf H; [lia|]. cbn [repeat_ends].
  apply elem_of_app. inversion H as [| | | | |? ? ?|? ? ? ? z ? Hm H1 H2]; subst; [left; by left|right].
  rewrite decide_False by done. destruct Hc as [Hc|Hc]; [|done]. apply list_elem_of_bind. exists z. split; [|by apply f_spec].
  apply IH; [by left| |done]. pose proof (matches_consumes _ _ _ H1 Hc). lia.
Qed.
End repeat.

(** [ends] finds exactly the ends of the matches. *)
Lemma ends_spec r x y : well_formed r = true → y ∈ ends r x ↔ matches r x y.
Proof.
  revert x y. induction r as [p| |r1 IH1 r2 IH2|r1 IH1 r2 IH2|least most r IH]; intros [b s] y Hw; cbn [ends well_formed snd] in *.
  - split.
    + destruct s as [|c s]; [by intros ?%not_elem_of_nil|]. destruct (p c) eqn:Hp; [|by intros ?%not_elem_of_nil]. intros ->%list_elem_of_singleton. by constructor.
    + intros H. inversion H as [p' b' c s' Hp| | | | | |]; subst. rewrite Hp. by left.
  - split.
    + destruct (at_boundary (b, s)) eqn:Hb; [|by intros ?%not_elem_of_nil]. intros ->%list_elem_of_singleton. by constructor.
    + intros H. inversion H as [|x Hx| | | | |]; subst. rewrite Hx. by left.
  - apply andb_true_iff in Hw as [H1 H2]. rewrite list_elem_of_bind. split.
    + intros (z & Hy & Hz). econstructor; [by apply IH1|by apply IH2].
    + intros H. inversion H as [| |? ? ? z ? Ha Hb| | | |]; subst. exists z. split; [by apply IH2|by apply IH1].
  - apply andb_true_iff in Hw as [H1 H2]. rewrite elem_of_app. split.
    + intros [Hy|Hy]; [apply m_alt_l; by apply IH1|apply m_alt_r; by apply IH2].
    + intros H. inversion H; subst; [left; by apply IH1|right; by apply IH2].
  - apply andb_true_iff in Hw as [Hr Hw]. split.
    + apply repeat_sound. intros x' y'. by apply IH.
    + apply repeat_complete; [intros x' y'; by apply IH| |cbn; lia]. apply orb_true_iff in Hw as [Hw|Hw]; [right; by apply bool_decide_eq_true in Hw|by left].
Qed.

Lemma matches_at_spec r x : well_formed r = true → matches_at r x = true ↔ ∃ y, matches r x y.
Proof.
  intros Hw. unfold matches_at. split.
  - destruct (ends r x) as [|y l] eqn:He; [done|]. intros _. exists y. apply ends_spec; [done|]. rewrite He. by left.
  - intros [y Hy%(ends_spec _ _ _ Hw)]. destruct (ends r x); [by apply not_elem_of_nil in Hy|done].
Qed.

(** A search finds a match exactly when there is one. *)
Lemma search_spec r s : well_formed r = true → search r s = true ↔ found r s.
Proof.
  intros Hw. unfold search, found. generalize (@None ascii) as b. induction s as [|c s IH]; intros b; cbn [search_at]; rewrite orb_true_iff, (matches_at_spec _ _ Hw).
  - split.
    + intros [[y Hy]|Hf]; [|done]. exists (b, EmptyString), y. split; [constructor|done].
    + intros (x & y & Hl & Hm). inversion Hl; subst. left. by exists y.
  - rewrite IH. split.
    + intros [[y Hy]|(x & y & Hl & Hm)]; [exists (b, String c s), y; split; [constructor|done]|exists x, y; split; [by constructor|done]].
    + intros (x & y & Hl & Hm). inversion Hl; subst; [left; by exists y|right; by exists x, y].
Qed.
