(* ===== verification/PublicChecks.v ===== *)
(** * Checks before a publication

    src/scripts/check-numerical-embargo.py refuses to publish results that are still under embargo ([embargo]), check-public-package.py private
    paths, hosts and binary files ([hygiene]), and verify-provenance.py published texts that differ from the digests recorded for them
    ([provenance]).  The patterns are those of Regex.v. *)
From S2P Require Import Prelude PyStr PyData Sha256 Files Csv Json JsonText Manifests ResultSets Regex.

(** ** check-numerical-embargo.py *)
Definition SENSITIVE_PATHS : list string := ["docs/findings/"; "results/20"; "manifests/releases/20"; "embargoed/"].
Definition SENSITIVE_FILES : list string := ["manifests/results.sha256"].
Definition TEXT_SUFFIXES : list string := [".csv"; ".go"; ".json"; ".md"; ".py"; ".sh"; ".txt"; ".yaml"; ".yml"].

Definition MONETARY_RESULT : regex :=
  choice
    (sequence [Boundary; digit; many (Chars (λ c, is_digit c || bool_decide (c = ","%char))); char "."; some digit; some space; any_case "ONE"; Boundary])
    [sequence [Boundary; Alt (at_least 4 digit) (Seq (Repeat 1 (Some 3%nat) digit) (some (Seq (char ",") (Repeat 3 (Some 3%nat) digit))));
               some space; any_case "ONE"; Boundary];
     sequence [Boundary; at_least 20 digit; some space; any_case "atto"; optional (any_case "-ONE"); Boundary]].

Definition quote : regex := char dquote.
Definition not_quote : regex := Chars (λ c, negb (bool_decide (c = dquote))).

Definition RESULT_JSON_VALUE : regex :=
  sequence [quote; many not_quote;
    choice (any_case "atto") (any_case <$> ["amount"; "balance"; "claim"; "payout"; "reclaim"; "issuance"; "supply"; "gap"]);
    many not_quote; quote; many space; char ":"; many space; optional quote; optional (char "-"); at_least 7 digit; optional quote].

Inductive finding := MonetaryResult (relative : string) (line : nat) | ResultField (relative : string) (line : nat).

(** [path.suffix.lower()] *)
Definition lower_suffix (relative : string) : string := lower (suffix (file_name relative)).

Section embargo.
Context (ROOT : string).
Context (ls_files : gmap string string → result string).

Definition sensitive (relative : string) : bool :=
  bool_decide (relative ∈ SENSITIVE_FILES) || existsb (λ p, startswith p relative) SENSITIVE_PATHS.

(** The body of the loop over the lines. *)
Definition line_findings (relative : string) (number : nat) (line : string) : list finding :=
  (if search MONETARY_RESULT line then [MonetaryResult relative number] else []) ++
  (if bool_decide (lower_suffix relative = ".json") && search RESULT_JSON_VALUE line then [ResultField relative number] else []).

(** The body of the loop over the files. *)
Definition embargo_step (findings : list finding) (relative : string) : IO (list finding) :=
  if bool_decide (lower_suffix relative ∈ TEXT_SUFFIXES) then
    text ← read (path_join ROOT relative);
    mret (findings ++ mjoin (imap (λ i line, line_findings relative (S i) line) (splitlines text)))
  else mret findings.

Definition embargo : IO nat :=
  stdout ← (λ w, (ls_files (files w), w));
  let paths := listed_items stdout in
  lift (raise_when (negb (bool_decide (List.filter sensitive paths = []))) (ValueError "embargoed files are publishable")) ≫= λ _,
  findings ← fold_io embargo_step [] paths;
  lift (raise_when (negb (match findings with [] => true | _ => false end)) (ValueError "possible numerical result outside embargo")) ≫= λ _,
  mret (length paths).
End embargo.

(** ** check-public-package.py *)
Definition FORBIDDEN : list (string * regex) :=
  [("private macOS path", text "/Users/");
   ("private Linux home", Seq (text "/home/") (Alt (text "ubuntu") (text "polymorpher")));
   ("private mount", text "/mnt/data");
   ("production database path", text "/data/harmony_db");
   ("private RPC hostname", sequence [Boundary; text "rpc.hs"; Boundary]);
   ("archival host IP", sequence [Boundary; text "69.67.149.19"; Boundary]);
   ("private LAN address", Seq Boundary (text "192.168."));
   ("embedded SSH target", Seq Boundary (text "ubuntu@"));
   ("private key marker", sequence [text "-----BEGIN "; optional (choice (text "RSA ") [text "EC "; text "OPENSSH "]); text "PRIVATE KEY-----"])].

Definition FORBIDDEN_SUFFIXES : list string := [".so"; ".dylib"; ".ldb"; ".sst"; ".partial"; ".download"].
Definition MAX_PUBLIC_BYTES : Z := 1000000.

Section hygiene.
Context (ROOT : string).
Context (ls_files : gmap string string → result string) (is_symlink : string → bool).
(** [Path(p).resolve()] and the script's own path. *)
Context (resolve : string → string) (own_path : string).

(** The body of the loop of [files()]. *)
Definition public_path (relative : string) : IO string :=
  let path := path_join ROOT relative in
  lift (raise_when (is_symlink path) (ValueError "public package contains symlink")) ≫= λ _,
  is_file ← exists_ path;
  lift (raise_when (negb is_file) (FileNotFoundError path)) ≫= λ _,
  mret path.

(** What is wrong with a file. *)
Definition content_problems (encoded : string) : list string :=
  (if (MAX_PUBLIC_BYTES <? Z.of_nat (String.length encoded)) then ["exceeds"] else []) ++
  (if negb (all_chars (λ c, negb (bool_decide (c = nul))) encoded) then ["contains binary NUL"]
   else fst <$> List.filter (λ lp, search lp.2 encoded) FORBIDDEN).

Definition file_problems (path encoded : string) : list string :=
  (if bool_decide (suffix (file_name path) ∈ FORBIDDEN_SUFFIXES) then ["forbidden generated/binary suffix"] else []) ++ content_problems encoded.

(** The body of the loop: the problems and the number of files checked. *)
Definition hygiene_step (st : list (string * string) * nat) (relative : string) : IO (list (string * string) * nat) :=
  path ← public_path relative;
  if decide (resolve path = resolve own_path) then mret st
  else
    r ← lift (relative_to ROOT path);
    encoded ← read path;
    mret (st.1 ++ (pair r <$> file_problems path encoded), S st.2).

Definition hygiene : IO nat :=
  stdout ← (λ w, (ls_files (files w), w));
  '(problems, checked) ← fold_io hygiene_step ([], O) (listed_items stdout);
  lift (raise_when (negb (match problems with [] => true | _ => false end)) (ValueError "public-package check failed")) ≫= λ _,
  mret checked.
End hygiene.

(** ** verify-provenance.py *)
Section provenance.
Context (ROOT : string) (resolve : string → string).

Definition checked_path (relative : string) : result string :=
  let path := resolve (path_join ROOT relative) in
  relative_to (resolve ROOT) path;;
  Ok path.

(** The body of both loops: the file that [item[name]] names under [directory], against [item[digest]]. *)
Definition check_item (directory name digest message : string) (item : json) : IO unit :=
  relative ← lift (jget_path directory name item);
  path ← lift (checked_path relative);
  d ← hash_file path;
  listed ← lift (jget digest item);
  lift (raise_when (negb (jeq_str listed d)) (ValueError message)).

Definition verify_hashes (manifest directory name digest message : string) : IO Z :=
  manifest ← load_json (path_join ROOT manifest);
  items ← lift (jget "files" manifest);
  l ← lift (jiter items);
  for_io (check_item directory name digest message) l ≫= λ _,
  lift (jlen items).

Definition verify_findings : IO Z :=
  verify_hashes "docs/findings/SOURCE-HASHES.json" EmptyString "target" "published_sha256" "published finding hash mismatch".

Definition verify_run_templates : IO Z :=
  verify_hashes "repro/as-run/2026-09-08-11/SOURCE-HASHES.json" "repro/as-run/2026-09-08-11" "file" "sanitized_sha256"
    "sanitized run-template hash mismatch".

Definition provenance : IO (Z * Z) :=
  findings ← verify_findings;
  templates ← verify_run_templates;
  mret (findings, templates).
End provenance.

(** ** Theorems *)
Lemma patterns_well_formed : well_formed MONETARY_RESULT = true ∧ well_formed RESULT_JSON_VALUE = true ∧ Forall (λ lp, well_formed lp.2 = true) FORBIDDEN.
Proof. split_and!; try by vm_compute. repeat (apply Forall_cons; split; [by vm_compute|]). by apply Forall_nil. Qed.

Lemma search_false r s : well_formed r = true → search r s = false ↔ ¬ found r s.
Proof. intros Hw. rewrite <-(search_spec _ _ Hw). by rewrite not_true_iff_false. Qed.

Lemma filter_nil {A} (f : A → bool) l : List.filter f l = [] ↔ Forall (λ x, f x = false) l.
Proof.
  induction l as [|x l IH]; [done|]. cbn [List.filter]. rewrite Forall_cons, <-IH. destruct (f x); [|tauto]. split; [done|by intros []].
Qed.

Lemma mjoin_nil {A} (ls : list (list A)) : mjoin ls = [] ↔ Forall (λ l, l = []) ls.
Proof.
  induction ls as [|l ls IH]; [done|]. change (mjoin (l :: ls)) with (l ++ mjoin ls). rewrite Forall_cons, <-IH.
  split; [by intros []%app_eq_nil|by intros [-> ->]].
Qed.

(** A loop that collects findings and ends without any. *)
Section collect.
Context {A B S : Type} (step : S → A → IO S) (collected : S → list B) (count : S → nat).
(** What an item of the loop has to satisfy for nothing to be found; [counts] says whether it is counted. *)
Context (w : world) (clean : A → Prop) (counts : A → nat).
Hypothesis step_Ok : ∀ s x s' w', step s x w = (Ok s', w') → w' = w ∧ ∃ new, collected s' = collected s ++ new ∧ (new = [] → clean x ∧ count s' = (count s + counts x)%nat).
Hypothesis step_clean : ∀ s x, clean x → ∃ s', step s x w = (Ok s', w) ∧ collected s' = collected s ∧ count s' = (count s + counts x)%nat.

Lemma collected_Ok l s s' w' :
  fold_io step s l w = (Ok s', w') → w' = w ∧ ∃ new, collected s' = collected s ++ new ∧
    (new = [] → Forall clean l ∧ count s' = (count s + sum_list_with counts l)%nat).
Proof.
  revert s. induction l as [|x l IH]; intros s H; cbn [fold_io] in H.
  { apply mret_Ok in H as [-> <-]. split; [done|]. exists []. rewrite app_nil_r. split; [done|]. intros _. cbn. by rewrite Nat.add_0_r. }
  apply io_bind_Ok in H as (s1 & w1 & [-> (n1 & Hn1 & Hc1)]%step_Ok & H). apply IH in H as [-> (n2 & Hn2 & Hc2)]. split; [done|].
  exists (n1 ++ n2). rewrite Hn2, Hn1, app_assoc. split; [done|]. intros [-> ->]%app_eq_nil. destruct Hc1 as [Hx Hs1]; [done|]. destruct Hc2 as [Hl Hs2]; [done|].
  split; [by constructor|]. rewrite Hs2, Hs1. cbn. lia.
Qed.

Lemma collect_clean l s : Forall clean l → ∃ s', fold_io step s l w = (Ok s', w) ∧ collected s' = collected s ∧ count s' = (count s + sum_list_with counts l)%nat.
Proof.
  intros H. revert s. induction H as [|x l Hx _ IH]; intros s; cbn [fold_io]; [exists s; split_and!; [done|done|cbn; lia]|].
  destruct (step_clean s x Hx) as (s1 & H1 & Hc1 & Hn1). destruct (IH s1) as (s2 & H2 & Hc2 & Hn2). exists s2.
  rewrite (io_bind_eq _ _ _ _ _ H1), H2, Hc2, Hc1, Hn2, Hn1. split_and!; [done|done|cbn; lia].
Qed.
End collect.

(** A file that the embargo lets pass. *)
Definition unembargoed (ROOT : string) (w : world) (relative : string) : Prop :=
  lower_suffix relative ∈ TEXT_SUFFIXES → ∃ text, files w !! path_join ROOT relative = Some text ∧
    ∀ line, line ∈ splitlines text → ¬ found MONETARY_RESULT line ∧ (lower_suffix relative = ".json" → ¬ found RESULT_JSON_VALUE line).

Lemma line_findings_nil relative n line :
  line_findings relative n line = [] ↔ ¬ found MONETARY_RESULT line ∧ (lower_suffix relative = ".json" → ¬ found RESULT_JSON_VALUE line).
Proof.
  destruct patterns_well_formed as (Hm & Hr & _). rewrite <-(search_false _ _ Hm), <-(search_false _ _ Hr). unfold line_findings.
  assert (Happ : ∀ l k : list finding, l ++ k = [] ↔ l = [] ∧ k = []) by (intros l k; split; [by intros []%app_eq_nil|by intros [-> ->]]).
  rewrite Happ. case_bool_decide as Hj; destruct (search MONETARY_RESULT line), (search RESULT_JSON_VALUE line); cbn; naive_solver.
Qed.

Lemma lines_findings_nil relative lines :
  mjoin (imap (λ i line, line_findings relative (S i) line) lines) = [] ↔
  ∀ line, line ∈ lines → ¬ found MONETARY_RESULT line ∧ (lower_suffix relative = ".json" → ¬ found RESULT_JSON_VALUE line).
Proof.
  rewrite mjoin_nil, Forall_lookup. setoid_rewrite list_lookup_imap. split.
  - intros H line [i Hi]%list_elem_of_lookup. apply (line_findings_nil relative (S i)). apply (H i). by rewrite Hi.
  - intros H i fs Hf. destruct (lines !! i) as [line|] eqn:Hi; [|done]. injection Hf as <-. apply line_findings_nil. apply H. by eapply list_elem_of_lookup_2.
Qed.

Lemma embargo_step_Ok ROOT w fs relative fs' w' :
  embargo_step ROOT fs relative w = (Ok fs', w') → w' = w ∧ ∃ new, fs' = fs ++ new ∧ (new = [] → unembargoed ROOT w relative).
Proof.
  unfold embargo_step, unembargoed. case_bool_decide as Ht; intros H.
  - apply io_bind_Ok in H as (text & w1 & [-> Hs]%read_Ok & [-> <-]%mret_Ok). split; [done|]. eexists. split; [done|]. intros Hnil _.
    exists text. split; [done|]. by apply lines_findings_nil.
  - apply mret_Ok in H as [-> <-]. split; [done|]. exists []. rewrite app_nil_r. by split.
Qed.

Lemma embargo_step_clean ROOT w fs relative : unembargoed ROOT w relative → embargo_step ROOT fs relative w = (Ok fs, w).
Proof.
  unfold embargo_step, unembargoed. case_bool_decide as Ht; intros H; [|done]. destruct (H Ht) as (text & Hs & Hl).
  rewrite (io_bind_eq _ _ _ _ _ (read_eq _ _ _ Hs)). apply lines_findings_nil in Hl. by rewrite Hl, app_nil_r.
Qed.

(** C23 (equivalence): the embargo check passes exactly when no listed file lies in a sensitive place and no line of a text file has a part in
    the language of the patterns; then it returns the number of the listed files. *)
Theorem embargo_passes ROOT ls_files w n w' :
  embargo ROOT ls_files w = (Ok n, w') ↔
  w' = w ∧ ∃ stdout, ls_files (files w) = Ok stdout ∧ n = length (listed_items stdout) ∧
    Forall (λ r, sensitive r = false ∧ unembargoed ROOT w r) (listed_items stdout).
Proof.
  unfold embargo. split.
  - intros H. apply io_bind_Ok in H as (out & w1 & Hout & H). injection Hout as Hout <-. apply io_bind_Ok in H as (u & w2 & [-> Hs%raise_when_Ok]%lift_Ok & H).
    apply io_bind_Ok in H as (fs & w3 & Hfs & H). apply (collected_Ok (B := finding) (embargo_step ROOT) id (λ _, O) w (unembargoed ROOT w) (λ _, O)) in Hfs.
    2: { intros s x s' w0 (-> & new & -> & Hn)%embargo_step_Ok. split; [done|]. exists new. split; [done|]. intros He. split; [by apply Hn|done]. }
    destruct Hfs as (-> & new & Hnew & Hclean). apply io_bind_Ok in H as (u1 & w4 & [-> Hf%raise_when_Ok]%lift_Ok & [-> <-]%mret_Ok).
    split; [done|]. exists out. split_and!; [done|done|]. bool_facts. apply filter_nil in Hs. cbn in Hnew. subst new. destruct fs; [|done].
    destruct Hclean as [Hclean _]; [done|]. rewrite Forall_forall in Hs, Hclean |- *. intros r Hr. split; [by apply Hs|by apply Hclean].
  - intros (-> & out & Hout & -> & Hall). rewrite (io_bind_eq _ _ _ out w) by by rewrite Hout. rewrite Forall_forall in Hall.
    rewrite guard_bind_eq.
    2: { apply negb_false_iff, bool_decide_eq_true, filter_nil, Forall_forall. intros r Hr. by apply Hall. }
    destruct (collect_clean (B := finding) (embargo_step ROOT) id (λ _, O) w (unembargoed ROOT w) (λ _, O)) with (listed_items out) (@nil finding) as (fs & Hfs & Hid & _).
    + intros s x Hx. exists s. split_and!; [by apply embargo_step_clean|done|done].
    + apply Forall_forall. intros r Hr. by apply Hall.
    + cbn in Hid. subst fs. by rewrite (io_bind_eq _ _ _ _ _ Hfs).
Qed.

(** A file without private parts. *)
Definition clean_file (path content : string) : Prop :=
  suffix (file_name path) ∉ FORBIDDEN_SUFFIXES ∧ Z.of_nat (String.length content) ≤ MAX_PUBLIC_BYTES ∧
  all_chars (λ c, negb (bool_decide (c = nul))) content = true ∧ ∀ label pattern, (label, pattern) ∈ FORBIDDEN → ¬ found pattern content.

Lemma file_problems_nil path content : file_problems path content = [] ↔ clean_file path content.
Proof.
  assert (Happ : ∀ l k : list string, l ++ k = [] ↔ l = [] ∧ k = []) by (intros l k; split; [by intros []%app_eq_nil|by intros [-> ->]]).
  unfold file_problems, content_problems, clean_file. rewrite !Happ. apply Morphisms_Prop.and_iff_morphism; [case_bool_decide; naive_solver|].
  apply Morphisms_Prop.and_iff_morphism; [destruct (Z.ltb_spec MAX_PUBLIC_BYTES (Z.of_nat (String.length content))); split; try done; lia|].
  destruct patterns_well_formed as (_ & _ & Hw). rewrite Forall_forall in Hw.
  assert (Hf : List.filter (λ lp, search lp.2 content) FORBIDDEN = [] ↔ ∀ label pattern, (label, pattern) ∈ FORBIDDEN → ¬ found pattern content).
  { rewrite filter_nil, Forall_forall. split.
    - intros H label pattern Hin. apply (search_false _ _ (Hw _ Hin)). by apply H.
    - intros H [label pattern] Hin. apply (search_false _ _ (Hw _ Hin)). by eapply H. }
  destruct (all_chars _ content); cbn [negb]; [|split; [done|by intros []]]. rewrite <-Hf. split.
  - intros H%fmap_nil_inv. by split.
  - by intros [_ ->].
Qed.

Section hygiene_passes.
Context (ROOT : string) (ls_files : gmap string string → result string) (is_symlink : string → bool) (resolve : string → string) (own_path : string).

Definition own (relative : string) : bool := bool_decide (resolve (path_join ROOT relative) = resolve own_path).

(** A file that may be published. *)
Definition publishable (w : world) (relative : string) : Prop :=
  let path := path_join ROOT relative in
  is_symlink path = false ∧ ∃ content, files w !! path = Some content ∧
    (own relative = false → is_ok (relative_to ROOT path) = true ∧ clean_file path content).

Definition checked (relative : string) : nat := if own relative then 0 else 1.

Lemma public_path_Ok w relative p w' :
  public_path ROOT is_symlink relative w = (Ok p, w') →
  w' = w ∧ p = path_join ROOT relative ∧ is_symlink p = false ∧ ∃ content, files w !! p = Some content.
Proof.
  unfold public_path. intros H. apply io_bind_Ok in H as (u & w1 & [-> Hl%raise_when_Ok]%lift_Ok & H).
  apply io_bind_Ok in H as (b & w2 & [-> ->]%exists_Ok & H). apply io_bind_Ok in H as (u1 & w3 & [-> Hb%raise_when_Ok]%lift_Ok & [-> <-]%mret_Ok).
  apply negb_false_iff, bool_decide_eq_true in Hb as [c Hc]. split_and!; [done|done|done|by exists c].
Qed.

Lemma hygiene_step_Ok w st relative st' w' :
  hygiene_step ROOT is_symlink resolve own_path st relative w = (Ok st', w') →
  w' = w ∧ ∃ new, st'.1 = st.1 ++ new ∧ (new = [] → publishable w relative ∧ st'.2 = (st.2 + checked relative)%nat).
Proof.
  unfold hygiene_step, publishable, checked, own. intros H. apply io_bind_Ok in H as (p & w1 & (-> & -> & Hl & content & Hc)%public_path_Ok & H).
  case_decide as Ho.
  - apply mret_Ok in H as [-> <-]. split; [done|]. exists []. rewrite app_nil_r. split; [done|]. intros _. rewrite bool_decide_eq_true_2 by done.
    split; [|lia]. split; [done|]. by exists content.
  - apply io_bind_Ok in H as (r & w2 & [-> Hr]%lift_Ok & H). apply io_bind_Ok in H as (s & w3 & [-> Hs]%read_Ok & [-> <-]%mret_Ok).
    assert (s = content) as -> by congruence. split; [done|]. eexists. split; [done|]. intros Hn%fmap_nil_inv%file_problems_nil.
    rewrite bool_decide_eq_false_2 by done. split; [|cbn; lia]. split; [done|]. exists content. split; [done|]. intros _. split; [by rewrite Hr|done].
Qed.

Lemma hygiene_step_clean w st relative :
  publishable w relative →
  ∃ st', hygiene_step ROOT is_symlink resolve own_path st relative w = (Ok st', w) ∧ st'.1 = st.1 ∧ st'.2 = (st.2 + checked relative)%nat.
Proof.
  intros (Hl & content & Hc & Hown). unfold hygiene_step, checked, own in *.
  assert (Hp : public_path ROOT is_symlink relative w = (Ok (path_join ROOT relative), w)).
  { unfold public_path. rewrite guard_bind_eq by done. by rewrite (io_bind_eq _ _ _ _ _ (exists_eq _ _ _ Hc)), guard_bind_eq. }
  rewrite (io_bind_eq _ _ _ _ _ Hp). destruct (decide (resolve (path_join ROOT relative) = resolve own_path)) as [Ho|Ho].
  - exists st. rewrite bool_decide_eq_true_2 by done. split_and!; [done|done|lia].
  - rewrite bool_decide_eq_false_2 in Hown |- * by done. destruct Hown as [Hr Hf]; [done|]. assert (Hrel : ∃ r, relative_to ROOT (path_join ROOT relative) = Ok r) by (destruct (relative_to _ _) as [r|]; [by exists r|done]).
    destruct Hrel as [r Hrel]. rewrite (lift_bind_eq _ _ _ _ Hrel), (io_bind_eq _ _ _ _ _ (read_eq _ _ _ Hc)). apply file_problems_nil in Hf. rewrite Hf.
    eexists. split; [done|]. cbn. rewrite app_nil_r. split; [done|lia].
Qed.

(** C25 (equivalence): the hygiene check passes exactly when each listed file is a plain file and, the check's own source apart, has an allowed suffix,
    at most a million bytes, no NUL, and no part in the language of a forbidden pattern. *)
Theorem hygiene_passes w n w' :
  hygiene ROOT ls_files is_symlink resolve own_path w = (Ok n, w') ↔
  w' = w ∧ ∃ stdout, ls_files (files w) = Ok stdout ∧ n = sum_list_with checked (listed_items stdout) ∧ Forall (publishable w) (listed_items stdout).
Proof.
  unfold hygiene. split.
  - intros H. apply io_bind_Ok in H as (out & w1 & Hout & H). injection Hout as Hout <-. apply io_bind_Ok in H as ([ps k] & w2 & Hst & H).
    apply (collected_Ok _ fst snd w (publishable w) checked (hygiene_step_Ok w)) in Hst as (-> & new & Hnew & Hclean).
    apply io_bind_Ok in H as (u & w3 & [-> Hf%raise_when_Ok]%lift_Ok & [-> <-]%mret_Ok). cbn [fst snd] in *. destruct ps; [|done].
    destruct Hclean as [Hall ->]; [by destruct new|]. split; [done|]. by exists out.
  - intros (-> & out & Hout & -> & Hall). rewrite (io_bind_eq _ _ _ out w) by by rewrite Hout.
    destruct (collect_clean _ fst snd w (publishable w) checked (hygiene_step_clean w) (listed_items out) ([], O) Hall) as ([ps k] & Hst & Hps & Hk).
    cbn [fst snd] in *. subst ps k. by rewrite (io_bind_eq _ _ _ _ _ Hst).
Qed.
End hygiene_passes.

Section provenance_passes.
Context (ROOT : string) (resolve : string → string).

(** An item whose file is inside the repository and has the recorded digest. *)
Definition item_ok (w : world) (directory name digest : string) (item : json) : Prop :=
  ∃ relative path content listed, jget_path directory name item = Ok relative ∧ checked_path ROOT resolve relative = Ok path ∧
    files w !! path = Some content ∧ jget digest item = Ok listed ∧ jeq_str listed (sha256 content) = true.

Definition hashes_ok (w : world) (manifest directory name digest : string) (n : Z) : Prop :=
  ∃ text v items l, files w !! path_join ROOT manifest = Some text ∧ loads text = Ok v ∧ jget "files" v = Ok items ∧ jiter items = Ok l ∧ jlen items = Ok n ∧
    Forall (item_ok w directory name digest) l.

Lemma check_item_Ok w directory name digest message item u w' :
  check_item ROOT resolve directory name digest message item w = (Ok u, w') ↔ w' = w ∧ item_ok w directory name digest item.
Proof.
  unfold check_item, item_ok. destruct u. split.
  - intros H. apply io_bind_Ok in H as (r & w1 & [-> Hr]%lift_Ok & H). apply io_bind_Ok in H as (p & w2 & [-> Hp]%lift_Ok & H).
    apply io_bind_Ok in H as (d & w3 & [-> (s & Hs & ->)]%hash_file_Ok & H). apply io_bind_Ok in H as (x & w4 & [-> Hx]%lift_Ok & [-> Hd%raise_when_Ok]%lift_Ok).
    bool_facts. split; [done|]. by exists r, p, s, x.
  - intros (-> & r & p & s & x & Hr & Hp & Hs & Hx & Hd). rewrite (lift_bind_eq _ _ _ _ Hr), (lift_bind_eq _ _ _ _ Hp).
    rewrite (io_bind_eq _ _ _ _ _ (hash_eq _ _ _ Hs)), (lift_bind_eq _ _ _ _ Hx). unfold lift. by rewrite Hd.
Qed.

Lemma for_io_checks {A} (f : A → IO unit) (P : A → Prop) w l w' :
  (∀ x u w', f x w = (Ok u, w') ↔ w' = w ∧ P x) → for_io f l w = (Ok tt, w') ↔ w' = w ∧ Forall P l.
Proof.
  intros Hf. induction l as [|x l IH]; cbn [for_io]; [split; [by intros [-> _]%mret_Ok|by intros [-> _]]|]. split.
  - intros H. apply io_bind_Ok in H as (u & w1 & [-> Hx]%Hf & [-> Hl]%IH). split; [done|by constructor].
  - intros [-> [Hx Hl]%Forall_cons]. rewrite (io_bind_eq _ _ _ tt w) by by apply Hf. by apply IH.
Qed.

Lemma verify_hashes_Ok w manifest directory name digest message n w' :
  verify_hashes ROOT resolve manifest directory name digest message w = (Ok n, w') ↔ w' = w ∧ hashes_ok w manifest directory name digest n.
Proof.
  unfold verify_hashes, hashes_ok, load_json. split.
  - intros H. apply io_bind_Ok in H as (v & w1 & Hv & H). apply io_bind_Ok in Hv as (text & w2 & [-> Ht]%read_Ok & [-> Hv]%lift_Ok).
    apply io_bind_Ok in H as (items & w3 & [-> Hi]%lift_Ok & H). apply io_bind_Ok in H as (l & w4 & [-> Hl]%lift_Ok & H).
    apply io_bind_Ok in H as ([] & w5 & Hf & [-> Hn]%lift_Ok). apply (for_io_checks _ (item_ok w directory name digest)) in Hf as [-> Hf];
      [|intros; apply check_item_Ok]. split; [done|]. by exists text, v, items, l.
  - intros (-> & text & v & items & l & Ht & Hv & Hi & Hl & Hn & Hf).
    rewrite (io_bind_eq _ _ _ v w) by (rewrite (io_bind_eq _ _ _ _ _ (read_eq _ _ _ Ht)); unfold lift; by rewrite Hv).
    rewrite (lift_bind_eq _ _ _ _ Hi), (lift_bind_eq _ _ _ _ Hl), (io_bind_eq _ _ _ tt w); [unfold lift; by rewrite Hn|].
    apply (for_io_checks _ (item_ok w directory name digest)); [intros; apply check_item_Ok|done].
Qed.

(** The provenance check passes exactly when every file that the two lists name lies in the repository and has the digest recorded for it. *)
Theorem provenance_passes w n m w' :
  provenance ROOT resolve w = (Ok (n, m), w') ↔
  w' = w ∧ hashes_ok w "docs/findings/SOURCE-HASHES.json" EmptyString "target" "published_sha256" n ∧
  hashes_ok w "repro/as-run/2026-09-08-11/SOURCE-HASHES.json" "repro/as-run/2026-09-08-11" "file" "sanitized_sha256" m.
Proof.
  unfold provenance, verify_findings, verify_run_templates. split.
  - intros H. apply io_bind_Ok in H as (x & w1 & [-> Hx]%verify_hashes_Ok & H). apply io_bind_Ok in H as (y & w2 & [-> Hy]%verify_hashes_Ok & [-> Hn]%mret_Ok).
    injection Hn as -> ->. done.
  - intros (-> & Hn & Hm). rewrite (io_bind_eq _ _ _ n w) by by apply verify_hashes_Ok. by rewrite (io_bind_eq _ _ _ m w) by by apply verify_hashes_Ok.
Qed.
End provenance_passes.

(** ** Examples *)
Definition ex_listing : gmap string string → result string := λ _, Ok ("README.md" +:+ String nul ("tool.py" +:+ String nul EmptyString)).
Definition ex_public_world (readme : string) : world := World (list_to_map [("/repo/README.md", readme); ("/repo/tool.py", "print()")]) None.
Definition ex_plain_path : string → bool := λ _, false.

Example ex_embargo_passes : (embargo "/repo" ex_listing (ex_public_world "no results here, 1.5 ONEs")).1 = Ok 2%nat.
Proof. by vm_compute. Qed.

Example ex_embargo_refuses :
  (embargo "/repo" ex_listing (ex_public_world ("a" +:+ newline +:+ "in total 12,345 one"))).1 = Err (ValueError "possible numerical result outside embargo").
Proof. by vm_compute. Qed.

Example ex_hygiene_refuses :
  (hygiene "/repo" ex_listing ex_plain_path id "/repo/check.py" (ex_public_world "ssh ubuntu@host")).1 = Err (ValueError "public-package check failed").
Proof. by vm_compute. Qed.
