(* ===== verification/EvmTest.v ===== *)
(** * The repeated call during construction

    src/scripts/test-cx-constructor-evm.py: runs a Go test of a Harmony checkout, takes the trace that the test logs, and checks what the
    cross-shard audit finds in it.  What the test does is the Go toolchain's and Harmony's, so [go_test] is a parameter: from the files, the
    checkout and the overlay to the standard output.

    [constructor_test_passes] says, by positions in the trace, what a run that passes has established. *)
From S2P Require Import Prelude PyStr PyData Files Json Manifests Bech32 Trace.

#[export] Instance inspection_eq_dec : EqDecision inspection.
Proof. solve_decision. Defined.

Definition TEST : string := "core/vm/zz_supply_audit_review_test.go".
Definition FIXTURE : string := "toolkit/tests/fixtures/cx_constructor_evm_test.go.txt".

(** [s.split(sep, 1)[1]], when [sep in s] *)
Fixpoint after (sep s : string) : option string :=
  if startswith sep s then Some (str_drop (String.length sep) s)
  else match s with String _ s => after sep s | EmptyString => None end.

(** [next(json.loads(line.split("TRACE=", 1)[1]) for line in lines if "TRACE=" in line)] *)
Fixpoint first_trace (lines : list string) : result json :=
  match lines with
  | line :: lines => match after "TRACE=" line with Some text => loads text | None => first_trace lines end
  | [] => Err StopIteration
  end.

Definition overlay (target fixture : string) : json := JObj [("Replace", JObj [(target, JStr fixture)])].

(** The receipt of the test.  The fields of an identity that [inspect_trace] does not read are left empty. *)
Definition test_receipt (trace : json) : result identity :=
  to ← jget "to" trace;
  from ← match to with JStr s => Ok (lower s) | _ => Err AttributeError end;
  Ok (Identity 0 1 0 EmptyString 0 EmptyString from "0x0000000000000000000000000000000000002222" 100).

Definition expected : inspection := Inspection 2 1 2 1 0 0.

Section constructor.
(** The repository, [Path(p).resolve(strict=True)] and the subprocess. *)
Context (ROOT : string) (resolve : string → result string) (go_test : gmap string string → string → json → result string).

Definition target_of (harmony : string) : string := path_join harmony TEST.

Definition constructor_test (harmony_source : string) : IO unit :=
  harmony ← lift (resolve harmony_source);
  present ← exists_ (target_of harmony);
  lift (raise_when present (FileExistsError (target_of harmony))) ≫= λ _,
  stdout ← (λ w, (go_test (files w) harmony (overlay (target_of harmony) (path_join ROOT FIXTURE)), w));
  trace ← lift (first_trace (splitlines stdout));
  receipt ← lift (test_receipt trace);
  observed ← lift (inspect_trace trace receipt);
  lift (raise_when (negb (bool_decide (observed = expected))) (AssertionError "unexpected audit evidence for real EVM trace")).
End constructor.

(** ** What the expected counts say *)

(** A call to the precompile. *)
Definition called_at (t : call) (p : list nat) : Prop :=
  ∃ c, at_path t p = Some c ∧ is_precompile_call (c_to c) (c_type c) = true.

(** There are two calls to the precompile, both with the receipt's payload; one completed, with no failed call between the root and it, and the
    other one was rejected. *)
Definition one_debit (id : identity) (t : call) : Prop :=
  ∃ p q, p ≠ q ∧ (∀ r, called_at t r ↔ r = p ∨ r = q) ∧ carries_payload id t p ∧ carries_payload id t q ∧
    completed_at t p ∧ ¬ completed_at t q ∧ ¬ failed_above t p.

Lemma count_filter {A} (p q : A → bool) l : (∀ x, q x = true → p x = true) → count q l = count q (filter (λ x, p x = true) l).
Proof.
  intros Hq. unfold count. induction l as [|x l IH]; [done|]. rewrite sum_by_cons, IH, filter_cons. case_decide as Hp; [by rewrite sum_by_cons|].
  destruct (q x) eqn:Hx; [|done]. by rewrite Hq in Hp.
Qed.

Lemma counts_filter id l : counts id l = counts id (filter (λ v, is_precompile v = true) l).
Proof.
  unfold counts. f_equal; apply count_filter; intros x; unfold completed, matching; rewrite ?andb_true_iff; tauto.
Qed.

Lemma counts_Permutation id l l' : l ≡ₚ l' → counts id l = counts id l'.
Proof. intros H. unfold counts, count. f_equal; by apply sum_by_Permutation. Qed.

Lemma called_elem t v : v ∈ trace_invocations t → is_precompile v = true ↔ called_at t (inv_path v).
Proof. intros (Hp & _ & _)%elem_trace. unfold is_precompile, called_at. split; [naive_solver|]. intros (c & Hc & H). by simplify_eq. Qed.

Lemma called_payload id t v :
  v ∈ trace_invocations t → is_precompile v = true → matching id v = true ↔ carries_payload id t (inv_path v).
Proof.
  intros (Hp & Hs & _)%elem_trace. unfold matching, carries_payload. rewrite andb_true_iff, <-Hs. intros ->. split; [naive_solver|].
  intros (c & Hc & H). split; [done|]. congruence.
Qed.

(** The counts of two calls to the precompile. *)
Lemma counts_two id v w :
  is_precompile v = true → is_precompile w = true →
  counts id [v; w] = expected ↔
  matching id v = true ∧ matching id w = true ∧
  (completed v = true ∧ inv_failed_ancestor v = false ∧ completed w = false ∨
   completed w = true ∧ inv_failed_ancestor w = false ∧ completed v = false).
Proof.
  intros Hv Hw. unfold counts, count, expected. rewrite !sum_by_cons, !sum_by_nil, Hv, Hw.
  destruct (matching id v), (matching id w), (completed v), (completed w), (inv_failed_ancestor v), (inv_failed_ancestor w); cbn; naive_solver.
Qed.

Lemma calls_NoDup t : NoDup (trace_invocations t).
Proof. eapply NoDup_fmap_1. apply (invocations_NoDup t [] false (lower (c_from t))). Qed.

Lemma path_call t p : called_at t p → ∃ v, v ∈ trace_invocations t ∧ inv_path v = p ∧ is_precompile v = true.
Proof.
  intros (c & Hc & H). exists (Inv p c (failed_along [] t false p) (sender_at t p)). split_and!; [|done|done].
  unfold trace_invocations. apply elem_invocations. by exists p, c.
Qed.

Lemma expected_calls id t : counts id (trace_invocations t) = expected ↔ one_debit id t.
Proof.
  rewrite counts_filter. set (l := filter _ _).
  assert (Hl : ∀ v, v ∈ l ↔ is_precompile v = true ∧ v ∈ trace_invocations t) by (intros v; apply (list_elem_of_filter (λ v, is_precompile v = true))).
  assert (Hr : ∀ v w, v ∈ l → w ∈ l → completed v = true → inv_failed_ancestor v = false → completed w = false → matching id v = true →
    matching id w = true → (∀ x, x ∈ l → x = v ∨ x = w) → one_debit id t).
  { intros v w [Hv1 Hv]%Hl [Hw1 Hw]%Hl Hc Hf Hd Hmv Hmw Hall. exists (inv_path v), (inv_path w). split_and!.
    - intros Heq. assert (v = w) as -> by by apply (invocation_unique t). congruence.
    - intros r. split; [|intros [->| ->]; by apply called_elem].
      intros (x & Hx & <- & Hx1)%path_call. destruct (Hall x) as [->| ->]; [by apply Hl|by left|by right].
    - by apply called_payload.
    - by apply called_payload.
    - by apply completed_elem.
    - rewrite <-completed_elem by done. congruence.
    - apply elem_trace in Hv as (_ & _ & <-). congruence. }
  split.
  - intros H. assert (Hlen : count is_precompile l = 2) by by injection H. rewrite count_length in Hlen.
    assert (Hsame : filter (λ v, is_precompile v = true) l = l) by (unfold l; by rewrite list_filter_filter_l).
    rewrite Hsame in Hlen. destruct l as [|v [|w [|]]] eqn:El; [done|done| |cbn in Hlen; lia].
    assert (Hv : v ∈ [v; w]) by by left. assert (Hw : w ∈ [v; w]) by by right; left.
    apply counts_two in H as (Hmv & Hmw & [(H1 & H2 & H3)|(H1 & H2 & H3)]); [| |by apply Hl|by apply Hl].
    + apply (Hr v w); try done. intros x. set_solver.
    + apply (Hr w v); try done. intros x. set_solver.
  - intros (p & q & Hne & Hpq & Hp & Hq & Hc & Hd & Hf).
    destruct (path_call t p) as (v & Hv & <- & Hv1); [apply Hpq; by left|]. destruct (path_call t q) as (w & Hw & <- & Hw1); [apply Hpq; by right|].
    assert (Hperm : l ≡ₚ [v; w]).
    { apply NoDup_Permutation; [apply NoDup_filter, calls_NoDup| |].
      - apply NoDup_cons. split; [|apply NoDup_singleton]. intros ->%list_elem_of_singleton. done.
      - intros x. rewrite Hl, !elem_of_cons. split; [|by intros [->|[->|[]%not_elem_of_nil]]]. intros [Hx1 Hx].
        destruct (proj1 (Hpq (inv_path x))) as [He|He]; [by apply called_elem|left; by apply (invocation_unique t)|
          right; left; by apply (invocation_unique t)]. }
    rewrite (counts_Permutation _ _ _ Hperm). apply counts_two; [done..|]. split_and!; [by apply (called_payload id t)|by apply (called_payload id t)|].
    left. split_and!; [by apply (completed_elem t)| |].
    + apply not_true_iff_false. intros Ha. apply Hf. by apply (elem_trace t v).
    + apply not_true_iff_false. by rewrite (completed_elem t).
Qed.

(** The test passes exactly when no file is in the way of the fixture, the Go test ends and logs a trace, and the trace has two calls to the
    cross-shard precompile, both with the payload of the receipt that the created contract sends, of which one completed, with nothing failed
    above it, and the other one was rejected.  No file is changed. *)
Theorem constructor_test_passes ROOT resolve go_test harmony_source w w' :
  constructor_test ROOT resolve go_test harmony_source w = (Ok tt, w') ↔
  w' = w ∧ ∃ harmony stdout trace receipt t,
    resolve harmony_source = Ok harmony ∧ files w !! target_of harmony = None ∧
    go_test (files w) harmony (overlay (target_of harmony) (path_join ROOT FIXTURE)) = Ok stdout ∧
    first_trace (splitlines stdout) = Ok trace ∧ test_receipt trace = Ok receipt ∧ trace_call trace = Ok t ∧ one_debit receipt t.
Proof.
  unfold constructor_test. split.
  - intros H. apply io_bind_Ok in H as (harmony & w1 & [-> Hh]%lift_Ok & H). apply io_bind_Ok in H as (b & w2 & [-> Hb]%exists_Ok & H).
    apply io_bind_Ok in H as (u & w3 & [-> Hu%raise_when_Ok]%lift_Ok & H). apply io_bind_Ok in H as (stdout & w4 & [= Hg ->] & H).
    apply io_bind_Ok in H as (trace & w5 & [-> Ht]%lift_Ok & H). apply io_bind_Ok in H as (receipt & w6 & [-> Hr]%lift_Ok & H).
    apply io_bind_Ok in H as (observed & w7 & [-> Ho]%lift_Ok & H). apply lift_Ok in H as [-> H%raise_when_Ok].
    apply negb_false_iff, bool_decide_eq_true in H. subst b observed. apply bool_decide_eq_false, eq_None_not_Some in Hu.
    rewrite inspect_counts in Ho. apply bind_Ok in Ho as (t & Hc & He). split; [done|].
    exists harmony, stdout, trace, receipt, t. split_and!; [done..|]. apply expected_calls. congruence.
  - intros (-> & harmony & stdout & trace & receipt & t & Hh & Hn & Hg & Ht & Hr & Hc & Hd%expected_calls).
    assert (Hex : exists_ (target_of harmony) w = (Ok false, w)) by (unfold exists_; rewrite bool_decide_eq_false_2; [done|]; rewrite Hn; by intros [? ?]).
    rewrite (lift_bind_eq _ _ _ _ Hh), (io_bind_eq _ _ _ _ _ Hex), (lift_bind_eq _ _ _ tt) by done.
    rewrite (io_bind_eq _ _ _ stdout w) by by rewrite Hg.
    rewrite (lift_bind_eq _ _ _ _ Ht), (lift_bind_eq _ _ _ _ Hr), (lift_bind_eq _ _ _ expected) by (done || (rewrite inspect_counts, Hc; cbn; by rewrite Hd)).
    unfold lift. by rewrite bool_decide_eq_true_2.
Qed.

(** The fixture's trace, as the node's tracer logs it, and one in which the duplicate went through. *)
Definition ex_go_test (calls : list json) (files : gmap string string) (harmony : string) (overlay : json) : result string :=
  Ok ("=== RUN" +:+ newline +:+ "    TRACE=" +:+ dumps_compact (constructor_trace calls) +:+ newline +:+ "PASS" +:+ newline).

Example ex_constructor_passes : (constructor_test "/repo" Ok (ex_go_test constructor_calls) "/harmony" (World ∅ None)).1 = Ok tt.
Proof. by vm_compute. Qed.

Example ex_constructor_repeated :
  (constructor_test "/repo" Ok (ex_go_test [sample_call []; sample_call []]) "/harmony" (World ∅ None)).1 =
  Err (AssertionError "unexpected audit evidence for real EVM trace").
Proof. by vm_compute. Qed.
