(* ===== verification/Labels.v ===== *)
(** * Values of the packaged results

    What src/scripts/package-results.py does to the JSON value of a result before it is packaged: machine paths are replaced
    ([normalize]), and the labels of the curated results are corrected ([correct_max_rate_labels],
    [correct_migration_policy_labels]).  The Python code changes the value in place; no part of a decoded value is shared, so
    each change is a function from the old value to the new one. *)
From S2P Require Import Prelude PyStr PyData Json JsonText.

(** ** Strings *)

(** [s.replace(old, new)] for a non-empty [old]; [skip] characters of an occurrence are still to be passed. *)
Fixpoint replace_from (old new : string) (skip : nat) (s : string) : string :=
  match s with
  | EmptyString => EmptyString
  | String c s' =>
      match skip with
      | S k => replace_from old new k s'
      | O => if startswith old s then new +:+ replace_from old new (String.length old - 1) s' else String c (replace_from old new O s')
      end
  end.

Definition str_replace (old new s : string) : string := replace_from old new O s.

(** [Path(value).name] of any absolute path *)
Definition posix_name (value : string) : string := List.last (filter (λ part, part ≠ EmptyString ∧ part ≠ ".") (split_on "/" value)) EmptyString.

Definition absolute_prefixes : list string := ["/Users/"; "/home/"; "/mnt/"; "/data/"].

Definition machine_path (s : string) : bool := existsb (λ p, startswith p s) absolute_prefixes.

Definition normalize_string (value : string) : string :=
  let value := str_replace "local/harmony-balance-accounting/artifacts/supply-reconciliation-20260911/" "results/2026-09-11/" value in
  let value := str_replace "local/harmony-balance-accounting/" "source://harmony-balance-accounting/" value in
  if machine_path value then "redacted://" +:+ posix_name value else value.

Fixpoint normalize (value : json) : json :=
  match value with
  | JObj m => JObj (map (λ kv, (kv.1, normalize kv.2)) m)
  | JArr l => JArr (map normalize l)
  | JStr s => JStr (normalize_string s)
  | _ => value
  end.

(** ** Changes in place *)

Definition assoc_del {A} (k : string) (m : list (string * A)) : list (string * A) := filter (λ kv, kv.1 ≠ k) m.

(** [rename_key(value, old, new)] *)
Definition rename_key (old new : string) (value : json) : result json :=
  present ← jin old value;
  if negb present then Ok value
  else
    match value with
    | JObj m => x ← of_option (assoc old m) (KeyError old); Ok (JObj (assoc_set new x (assoc_del old m)))
    | JArr _ => Err TypeError
    | _ => Err AttributeError
    end.

Definition rename_keys (renames : list (string * string)) (value : json) : result json :=
  foldM (λ value r, rename_key r.1 r.2 value) value renames.

(** The change [f] of [value[k]], and of [value[i]]. *)
Definition jupdate (k : string) (f : json → result json) (value : json) : result json :=
  x ← jget k value;
  y ← f x;
  jset k y value.

Definition jupdate_at (i : nat) (f : json → result json) (value : json) : result json :=
  match value with
  | JArr l => x ← of_option (l !! i) IndexError; y ← f x; Ok (JArr (<[i := y]> l))
  | JObj _ => Err (KeyError (str_of_Z (Z.of_nat i)))
  | JStr s => c ← of_option (chars s !! i) IndexError; f (JStr c)
  | _ => Err TypeError
  end.

(** ** Labels of the MaxRate incident *)
Definition legacy : string := "proven_cross_shard_rollback_leakage".
Definition split : list string := ["trace_proven_cross_shard_rollback_leakage"; "canonical_state_proven_source_debit_absence"].

Definition hashable (v : json) : bool := match v with JArr _ | JObj _ => false | _ => true end.

Definition cross_shard_component_names (reconciliation : json) : result (list string) :=
  components ← jget_default "components" (JArr []) reconciliation;
  components ← jiter components;
  names ← mapR (λ c, n ← jget "name" c; raise_when (negb (hashable n)) TypeError;; Ok n) components;
  let named n := existsb (λ x, jeq_str x n) names in
  raise_when (named legacy && existsb named split) (ValueError "reconciliation mixes legacy and split cross-shard components");;
  if named legacy then Ok [legacy]
  else
    let present := List.filter named split in
    raise_when (negb (bool_decide (present = [])) && negb (length present =? length split)%nat)
      (ValueError "split cross-shard reconciliation requires both evidence components");;
    raise_when (bool_decide (present = [])) (ValueError "reconciliation has no cross-shard evidence component");;
    Ok split.

Definition payout_renames : list (string * string) :=
  [("activation_inclusive_gross_duplicate_payout_atto", "activation_inclusive_peak_duplicated_claim_exposure_atto");
   ("activation_inclusive_gross_duplicate_payout_one", "activation_inclusive_peak_duplicated_claim_exposure_one");
   ("opening_duplicate_payout_atto", "opening_duplicated_claim_exposure_atto");
   ("opening_duplicate_payout_one", "opening_duplicated_claim_exposure_one");
   ("post_checkpoint_gross_duplicate_payout_atto", "post_checkpoint_peak_duplicated_claim_exposure_atto");
   ("post_checkpoint_gross_duplicate_payout_one", "post_checkpoint_peak_duplicated_claim_exposure_one")].

(** The labels of the opening payout audit. *)
Definition correct_opening_audit (value : json) : result json :=
  value ← rename_keys payout_renames value;
  value ← jset "finding" (JStr ("three age-seven liquid releases not counted by the first-incident " +:+
    "reconstruction left the same principal in pending undelegation " +:+ "state when validator-wrapper persistence failed")) value;
  value ← jset "accounting_interpretation" (JObj [("age_seven_liquid_release_paid_once", JBool true); ("pending_claim_failed_to_clear", JBool true);
    ("another_liquid_payout_after_age_seven_proved", JBool false);
    ("effect", JStr ("liquid principal and the stale pending claim represented the " +:+ "same value twice until cleanup or redelegation"))]) value;
  jset "scope_note" (JStr ("the opening exposure is absent from the first-incident " +:+
    "reconstruction, which stops at paid epoch 1731, and from the " +:+
    "post-checkpoint exposure reconstruction, which starts after block " +:+ "51,150,847")) value.

Definition max_rate_renames : list (string * string) :=
  [("activation_inclusive_gross_duplicate_payouts_atto", "activation_inclusive_peak_duplicated_claim_exposure_atto");
   ("activation_inclusive_gross_duplicate_payouts_one", "activation_inclusive_peak_duplicated_claim_exposure_one");
   ("activation_opening_duplicate_payouts_atto", "activation_opening_duplicated_claim_exposure_atto");
   ("activation_opening_duplicate_payouts_one", "activation_opening_duplicated_claim_exposure_one");
   ("gross_cleanup_reward_equation_closure_atto", "claim_exposure_cleanup_equation_closure_atto");
   ("gross_cleanup_reward_equation_closure_one", "claim_exposure_cleanup_equation_closure_one");
   ("gross_duplicate_payout_breakdown", "duplicated_claim_exposure_breakdown");
   ("net_retained_mint_at_cleanup_atto", "net_state_formula_effect_at_cleanup_atto");
   ("net_retained_mint_at_cleanup_one", "net_state_formula_effect_at_cleanup_one");
   ("post_checkpoint_gross_duplicate_payouts_atto", "post_checkpoint_peak_duplicated_claim_exposure_atto");
   ("post_checkpoint_gross_duplicate_payouts_one", "post_checkpoint_peak_duplicated_claim_exposure_one")].

Definition max_rate_interpretation : json :=
  JObj [("age_seven_behavior", JStr ("principal was released to liquid once, but failed wrapper " +:+ "persistence left the same principal as a pending claim"));
    ("age_over_seven_behavior", JStr ("the MaxRate rule suppressed another liquid payout and tried " +:+ "to remove the stale entry without payment"));
    ("realization_path", JStr ("a stale pending claim could be redelegated into active stake " +:+ "without removing the already released liquid"));
    ("cleanup", JStr ("TopMaxRate removed stale pending claims; it did not debit " +:+ "liquid balances"));
    ("peak_exposure_is_not_second_liquid_payout_total", JBool true)].

Definition breakdown_names : list string :=
  ["stale pending claims represented alongside already released " +:+ "liquid at cleanup, adjusted for partial redelegations";
   "stale pending claims fully consumed by redelegation before cleanup";
   "age-eight flagged stale claims omitted by the published " +:+ "greater-than-eight filter; not proved second liquid payouts"].

(** [breakdown[i]["name"] = name] for the three entries *)
Definition name_breakdown (breakdown : json) : result json :=
  foldM (λ b x, jupdate_at x.1 (jset "name" (JStr x.2)) b) breakdown (imap (λ i n, (i, n)) breakdown_names).

(** The block [max_rate = value["post_2023_max_rate"]]. *)
Definition correct_max_rate (max_rate : json) : result json :=
  max_rate ← rename_keys max_rate_renames max_rate;
  max_rate ← jset "causal_confidence" (JStr ("very high; peak duplicated claim exposure, cleanup, and omitted " +:+
    "rewards match the measured interval effect within the recorded " +:+ "sub-nano-ONE closure")) max_rate;
  max_rate ← jset "accounting_interpretation" max_rate_interpretation max_rate;
  max_rate ← jupdate "duplicated_claim_exposure_breakdown" name_breakdown max_rate;
  jset "pre_cleanup_net_formula_residual_increase_definition" (JStr ("post-checkpoint duplicated claim exposure after the offset from " +:+
    "formula-counted validator rewards that failed to persist, plus " +:+ "sub-nano-ONE accounting differences")) max_rate.

(** The labels of the reconciliation. *)
Definition correct_reconciliation (value : json) : result json :=
  cross_shard_components ← cross_shard_component_names value;
  value ← rename_key "known_unauthorized_gross_creation" "known_unauthorized_peak_claim_inflation" value;
  value ← jupdate "known_unauthorized_peak_claim_inflation" (λ peak,
    peak ← jset "definition" (JStr ("combined peak claim inflation: actual unsupported credits from " +:+
      "the December and cross-shard incidents plus the max-rate value " +:+ "temporarily represented both as released liquid and as a stale " +:+
      "pending claim; this is not a total of second liquid payouts, and " +:+ "burn-address balances are not deducted")) peak;
    jset "includes" (JArr (JStr <$> ["december_2023_repeated_undelegation_mint";
      "post_2023_max_rate_activation_inclusive_peak_duplicated_claim_exposure"] ++ cross_shard_components)) peak) value;
  value ← jupdate "known_unauthorized_net_cutoff_component"
    (jset "includes" (JArr (JStr <$> ["december_2023_repeated_undelegation_mint"; "post_2023_max_rate_net_effect_at_cleanup"] ++ cross_shard_components))) value;
  jupdate "post_2023_max_rate" correct_max_rate value.

Definition correct_max_rate_labels (target_name : string) (value : json) : result json :=
  value ← (if decide (target_name = "max-rate-opening-payout-audit.json") then correct_opening_audit value else Ok value);
  if decide (target_name = "reconciliation.json") then correct_reconciliation value else Ok value.

(** ** Labels of the migration policy *)
Definition component_summary : json := JStr "results/2026-09-16/migration-non-issuance-summary.json".
Definition composite_summary : json := JStr "results/2026-09-17/migration-policy-reconciliation.json".

Definition jset_all (l : list (string * json)) (value : json) : result json := foldM (λ value kx, jset kx.1 kx.2 value) value l.

Definition migration_policy : json :=
  JObj [("incident_component_summary", component_summary); ("composite_policy_summary", composite_summary); ("old_chain_gross_claim_changed", JBool false);
    ("migration_allocation_reduced", JBool true); ("fixed_erc20_total_supply_changed", JBool false); ("treasury_destination", JNull);
    ("available_for_other_use", JBool false)].

Definition migration_treatment : json :=
  JObj [("old_chain_balance_accounting", JStr "included"); ("migration_allocation", JStr "not_issued"); ("fixed_erc20_total_supply_changed", JBool false);
    ("treasury_destination", JNull); ("available_for_other_use", JBool false); ("incident_non_issuance_component_summary", component_summary);
    ("composite_policy_summary", composite_summary)].

Definition summaries : list (string * json) :=
  [("incident_non_issuance_component_summary", component_summary); ("composite_policy_summary", composite_summary)].

Definition correct_reconciliation_policy (value : json) : result json :=
  value ← rename_key "treasury_reclaim_inventory" "historical_treasury_routing_inventory" value;
  value ← jupdate "historical_treasury_routing_inventory" (jset_all [("policy_status", JStr "superseded");
    ("current_treatment", JStr "the reviewed amount is not issued on the replacement chain")]) value;
  jset "migration_non_issuance_policy" migration_policy value.

Definition correct_treasury_policy (value : json) : result json :=
  value ← rename_key "policy" "historical_treasury_policy" value;
  jset_all ([("policy_status", JStr "superseded"); ("current_treatment", JStr ("the selected amount is not issued on the replacement chain; " +:+
    "the historical treasury calculation is retained only as evidence"))] ++ summaries) value.

Definition treasury_targets : list string := ["extra-mint-blacklist-reclaim-summary.json"; "treasury-reclaim-inventory-summary.json"].
Definition blacklist_targets : list string :=
  ["blacklisted-address-cutoff-summary.json"; "reported-wallet-theft-perpetrator-cutoff-summary.json"; "wallet-theft-report-coverage.json"].

Definition correct_migration_policy_labels (target_name : string) (value : json) : result json :=
  value ← (if decide (target_name = "reconciliation.json") then correct_reconciliation_policy value else Ok value);
  value ← (if bool_decide (target_name ∈ treasury_targets) then correct_treasury_policy value else Ok value);
  value ← (if bool_decide (target_name ∈ blacklist_targets) then
    v ← rename_key "migration_policy" "historical_migration_policy" value; jset_all summaries v else Ok value);
  if decide (target_name = "burn-address-audit.json") then jset "migration_treatment" migration_treatment value else Ok value.

(** ** Machine paths and numbers *)

(** [P] of every string value; the keys are not values. *)
Fixpoint all_strings (P : string → bool) (v : json) : bool :=
  match v with
  | JStr s => P s
  | JArr l => forallb (all_strings P) l
  | JObj m => forallb (λ kv, all_strings P kv.2) m
  | _ => true
  end.

(** No string value is an absolute machine path. *)
Definition portable : json → bool := all_strings (λ s, negb (machine_path s)).

(** The numbers of a value. *)
Fixpoint numbers (v : json) : list Z :=
  match v with
  | JInt n => [n]
  | JArr l => concat (map numbers l)
  | JObj m => concat (map (λ kv, numbers kv.2) m)
  | _ => []
  end.

Lemma normalize_string_portable s : machine_path (normalize_string s) = false.
Proof. unfold normalize_string. match goal with |- context [if machine_path ?x then _ else _] => by destruct (machine_path x) eqn:E end. Qed.

Lemma normalize_portable v : portable (normalize v) = true.
Proof.
  unfold portable. induction v as [|b|n|s|l IH|m IH] using json_ind'; cbn [normalize all_strings]; try done.
  - by rewrite normalize_string_portable.
  - apply forallb_forall. intros x Hx. apply in_map_iff in Hx as (y & <- & Hy). rewrite Forall_forall in IH. by apply IH, list_elem_of_In.
  - apply forallb_forall. intros x Hx. apply in_map_iff in Hx as (y & <- & Hy). rewrite Forall_forall in IH. by apply (IH y), list_elem_of_In.
Qed.

Lemma normalize_numbers v : numbers (normalize v) = numbers v.
Proof.
  induction v as [|b|n|s|l IH|m IH] using json_ind'; cbn [normalize numbers]; try done.
  - rewrite map_map. f_equal. apply map_ext_in. intros x Hx. rewrite Forall_forall in IH. by apply IH, list_elem_of_In.
  - rewrite map_map. f_equal. apply map_ext_in. intros x Hx. rewrite Forall_forall in IH. by apply (IH x), list_elem_of_In.
Qed.

(** What a change of labels keeps: it brings in no machine path and no number. *)
Definition kept (v v' : json) : Prop := (portable v = true → portable v' = true) ∧ numbers v' ⊆+ numbers v.

Definition relabels (f : json → result json) : Prop := ∀ v v', f v = Ok v' → kept v v'.

Definition members (m : list (string * json)) : list Z := concat (map (λ kv, numbers kv.2) m).
Definition portable_members (m : list (string * json)) : bool := forallb (λ kv, portable kv.2) m.

Lemma members_cons kv m : members (kv :: m) = numbers kv.2 ++ members m.
Proof. done. Qed.

Lemma members_set k y m : members (assoc_set k y m) ⊆+ numbers y ++ members m.
Proof.
  induction m as [|[k' x] m IH]; cbn [assoc_set]; [by rewrite members_cons|]. case_decide; rewrite !members_cons; cbn [snd].
  - apply submseteq_app; [done|]. by apply submseteq_inserts_l.
  - rewrite (Permutation_app_swap_app (numbers y)). by apply submseteq_app.
Qed.

Lemma members_update k x y m : assoc k m = Some x → numbers y ⊆+ numbers x → members (assoc_set k y m) ⊆+ members m.
Proof.
  intros Hk Hy. induction m as [|[k' x'] m IH]; [done|]. cbn [assoc] in Hk. cbn [assoc_set]. case_decide; rewrite !members_cons; cbn [snd].
  - injection Hk as ->. by apply submseteq_app.
  - apply submseteq_app; [done|by apply IH].
Qed.

Lemma members_del k m : members (assoc_del k m) ⊆+ members m.
Proof.
  unfold assoc_del. induction m as [|[k' x'] m IH]; [done|]. rewrite filter_cons. case_decide; rewrite !members_cons; [by apply submseteq_app|].
  by apply submseteq_inserts_l.
Qed.

Lemma members_moved k x m : assoc k m = Some x → numbers x ++ members (assoc_del k m) ⊆+ members m.
Proof.
  induction m as [|[k' x'] m IH]; [done|]. cbn [assoc]. unfold assoc_del in *. rewrite filter_cons. cbn [fst].
  case_decide as Hk; [intros [= ->]; rewrite decide_False by tauto|intros Hx; rewrite decide_True by done]; rewrite !members_cons; cbn [snd].
  - apply submseteq_app; [done|apply members_del].
  - rewrite (Permutation_app_swap_app (numbers x)). apply submseteq_app; [done|by apply IH].
Qed.

Lemma portable_set k y m : portable y = true → portable_members m = true → portable_members (assoc_set k y m) = true.
Proof.
  intros Hy Hm. unfold portable_members in *. rewrite forallb_forall in Hm |- *. intros x Hx%list_elem_of_In%elem_of_assoc_set.
  destruct Hx as [->|Hx]; [done|]. by apply Hm, list_elem_of_In.
Qed.

Lemma portable_del k m : portable_members m = true → portable_members (assoc_del k m) = true.
Proof.
  unfold portable_members, assoc_del. rewrite !forallb_forall. intros Hm x Hx%list_elem_of_In. apply list_elem_of_filter in Hx as [_ Hx].
  by apply Hm, list_elem_of_In.
Qed.

Lemma portable_assoc k x m : assoc k m = Some x → portable_members m = true → portable x = true.
Proof.
  intros Hk%assoc_Some Hm. unfold portable_members in Hm. rewrite forallb_forall in Hm. by apply (Hm (k, x)), list_elem_of_In.
Qed.

(** ** The changes keep what they should *)
#[export] Instance kept_preorder : PreOrder kept.
Proof.
  split; [by intros v; split|]. intros u v w [H1 H2] [H3 H4]. split; [tauto|]. by etrans.
Qed.

Create HintDb labels.

Lemma relabels_Ok : relabels Ok.
Proof. by intros v v' [= ->]. Qed.

Lemma relabels_bind f g : relabels f → relabels g → relabels (λ v, v' ← f v; g v').
Proof. intros Hf Hg v v' H. apply bind_Ok in H as (u & Hu & H). transitivity u; [by apply Hf|by apply Hg]. Qed.

Lemma relabels_after {A} (c : json → result A) f : (∀ a, relabels (f a)) → relabels (λ v, a ← c v; f a v).
Proof. intros Hf v v' H. apply bind_Ok in H as (a & _ & H). by eapply Hf. Qed.

Lemma relabels_foldM {A} (f : json → A → result json) l : (∀ x, x ∈ l → relabels (λ v, f v x)) → relabels (λ v, foldM f v l).
Proof.
  induction l as [|x l IH]; intros Hf; [apply relabels_Ok|]. cbn [foldM]. apply (relabels_bind (λ v, f v x)); [apply Hf; by left|].
  apply IH. intros y Hy. apply Hf. by right.
Qed.

(** A label without numbers or machine paths. *)
Definition label (x : json) : Prop := portable x = true ∧ numbers x = [].

Lemma relabels_jset k x : label x → relabels (jset k x).
Proof.
  intros [Hp Hn] v v' H. destruct v as [| | | | |m]; try done. injection H as <-. split; [by apply portable_set|].
  etrans; [apply members_set|]. by rewrite Hn.
Qed.

Lemma relabels_rename old new : relabels (rename_key old new).
Proof.
  intros v v' H. unfold rename_key in H. apply bind_Ok in H as (b & Hb & H). destruct b; cbn [negb] in H; [|by injection H as <-].
  destruct v as [| | | | |m]; try done. apply bind_Ok in H as (x & Hx%of_option_Ok & [= <-]). split.
  - intros Hm. apply portable_set; [by eapply portable_assoc|by apply portable_del].
  - etrans; [apply members_set|]. by apply members_moved.
Qed.

Lemma relabels_jupdate k f : relabels f → relabels (jupdate k f).
Proof.
  intros Hf v v' H. unfold jupdate in H. apply bind_Ok in H as (x & Hx & H). apply bind_Ok in H as (y & Hy & H).
  apply jget_Ok in Hx as (m & -> & Hx). injection H as <-. apply Hf in Hy as [Hp Hn]. split.
  - intros Hm. apply portable_set; [|done]. apply Hp. by eapply portable_assoc.
  - by eapply members_update.
Qed.

Lemma numbers_insert i x y l : l !! i = Some x → numbers y ⊆+ numbers x → numbers (JArr (<[i := y]> l)) ⊆+ numbers (JArr l).
Proof.
  intros Hi Hy. revert i Hi. induction l as [|z l IH]; intros i Hi; [done|]. destruct i as [|i]; cbn in Hi |- *.
  - injection Hi as ->. by apply submseteq_app.
  - apply submseteq_app; [done|]. by apply IH.
Qed.

Lemma relabels_jupdate_at i f : (∀ v v', f v = Ok v' → (∃ m, v = JObj m) ∧ kept v v') → relabels (jupdate_at i f).
Proof.
  intros Hf v v' H. destruct v as [| | |s|l|m]; try done; cbn [jupdate_at] in H.
  - apply bind_Ok in H as (c & _ & H). apply Hf in H as [(m & Hm) _]. done.
  - apply bind_Ok in H as (x & Hx%of_option_Ok & H). apply bind_Ok in H as (y & Hy & [= <-]). apply Hf in Hy as (_ & Hp & Hn).
    split; [|by eapply numbers_insert]. unfold portable in *. cbn [all_strings]. rewrite !forallb_forall. intros Hl z Hz%list_elem_of_In.
    apply list_elem_of_lookup in Hz as [j Hj]. destruct (decide (i = j)) as [->|Hne].
    + rewrite list_lookup_insert_eq in Hj by by eapply lookup_lt_Some. injection Hj as <-. apply Hp, Hl, list_elem_of_In. by eapply list_elem_of_lookup_2.
    + rewrite list_lookup_insert_ne in Hj by done. apply Hl, list_elem_of_In. by eapply list_elem_of_lookup_2.
Qed.

#[export] Hint Resolve relabels_Ok relabels_bind relabels_jset relabels_rename relabels_jupdate : labels.

Lemma relabels_rename_keys rs : relabels (rename_keys rs).
Proof. apply relabels_foldM. auto with labels. Qed.

Lemma relabels_jset_all l : (∀ kx, kx ∈ l → label kx.2) → relabels (jset_all l).
Proof. intros Hl. apply relabels_foldM. auto with labels. Qed.

(** A list of labels is made of strings. *)
Lemma label_strings l : forallb (λ s, negb (machine_path s)) l = true → label (JArr (JStr <$> l)).
Proof.
  intros Hl. rewrite forallb_forall in Hl. split.
  - unfold portable. cbn [all_strings]. apply forallb_forall. intros x Hx%list_elem_of_In. apply list_elem_of_fmap in Hx as (s & -> & Hs).
    by apply Hl, list_elem_of_In.
  - cbn [numbers]. clear Hl. by induction l.
Qed.

Lemma component_names_labels v l : cross_shard_component_names v = Ok l → l = [legacy] ∨ l = split.
Proof.
  unfold cross_shard_component_names. intros H. apply bind_Ok in H as (c & _ & H). apply bind_Ok in H as (c1 & _ & H).
  apply bind_Ok in H as (names & _ & H). apply bind_Ok in H as (u & _ & H). destruct (existsb _ names); [injection H as <-; by left|].
  apply bind_Ok in H as (u1 & _ & H). apply bind_Ok in H as (u2 & _ & [= <-]). by right.
Qed.
#[export] Hint Resolve relabels_rename_keys relabels_jset_all : labels.

Lemma relabels_opening_audit : relabels correct_opening_audit.
Proof.
  unfold correct_opening_audit. repeat (apply (relabels_bind (rename_keys payout_renames)) || apply relabels_bind); auto with labels;
    apply relabels_jset; by split.
Qed.

Lemma relabels_breakdown : relabels name_breakdown.
Proof.
  unfold name_breakdown. apply relabels_foldM. intros [i n] Hin. apply relabels_jupdate_at. intros v v' H. split.
  - destruct v; try done. by eexists.
  - revert H. apply relabels_jset. split; [|done]. unfold portable. cbn [all_strings snd].
    apply list_elem_of_lookup in Hin as [j Hj]. rewrite list_lookup_imap in Hj. destruct (breakdown_names !! j) as [s|] eqn:Hs; [|done].
    injection Hj as <- <-. by do 3 (destruct j as [|j]; [by injection Hs as <-|]).
Qed.
#[export] Hint Resolve relabels_opening_audit relabels_breakdown : labels.

Lemma relabels_max_rate : relabels correct_max_rate.
Proof.
  unfold correct_max_rate. apply relabels_bind; [auto with labels|]. apply relabels_bind; [by apply relabels_jset|].
  apply relabels_bind; [by apply relabels_jset|]. apply relabels_bind; [auto with labels|]. by apply relabels_jset.
Qed.

Lemma relabels_reconciliation : relabels correct_reconciliation.
Proof.
  intros v v' H. unfold correct_reconciliation in H. apply bind_Ok in H as (ns & Hns & H).
  assert (Hl : ∀ l, forallb (λ s, negb (machine_path s)) l = true → label (JArr (JStr <$> l ++ ns))).
  { intros l Hl. apply label_strings. rewrite forallb_app, Hl. by destruct (component_names_labels _ _ Hns) as [-> | ->]. }
  revert v v' Hns H. intros v v' _. revert v v'. apply relabels_bind; [auto with labels|]. apply relabels_bind.
  - apply relabels_jupdate, relabels_bind; [by apply relabels_jset|]. by apply relabels_jset, Hl.
  - apply relabels_bind; apply relabels_jupdate; [by apply relabels_jset, Hl|apply relabels_max_rate].
Qed.
#[export] Hint Resolve relabels_max_rate relabels_reconciliation : labels.

Lemma relabels_if (b : bool) f g : relabels f → relabels g → relabels (λ v, if b then f v else g v).
Proof. by destruct b. Qed.

Lemma relabels_decide (P : Prop) `{Decision P} f g : relabels f → relabels g → relabels (λ v, if decide P then f v else g v).
Proof. intros. by case_decide. Qed.

Lemma relabels_max_rate_labels target : relabels (correct_max_rate_labels target).
Proof.
  unfold correct_max_rate_labels. apply (relabels_bind (λ v, if decide _ then correct_opening_audit v else Ok v) (λ v, if decide _ then correct_reconciliation v else Ok v));
    apply relabels_decide; auto with labels.
Qed.

Lemma relabels_migration_policy_labels target : relabels (correct_migration_policy_labels target).
Proof.
  assert (Hs : ∀ l, (∀ kx, kx ∈ l → label kx.2) → relabels (jset_all (l ++ summaries))).
  { intros l Hl. apply relabels_jset_all. intros kx [Hk|Hk]%elem_of_app; [by apply Hl|].
    unfold summaries in Hk. repeat (apply elem_of_cons in Hk as [->|Hk]; [by split|]). by apply not_elem_of_nil in Hk. }
  assert (Hset : ∀ k x y, label x → label y → ∀ kx : string * json, kx ∈ [(k, x); ("current_treatment", y)] → label kx.2).
  { intros k x y Hx Hy kx Hk. repeat (apply elem_of_cons in Hk as [->|Hk]; [done|]). by apply not_elem_of_nil in Hk. }
  unfold correct_migration_policy_labels.
  apply (relabels_bind (λ v, if decide _ then correct_reconciliation_policy v else Ok v)).
  { apply relabels_decide; [|auto with labels]. unfold correct_reconciliation_policy. apply relabels_bind; [auto with labels|].
    apply relabels_bind; [|by apply relabels_jset]. apply relabels_jupdate, relabels_jset_all. by apply Hset. }
  apply (relabels_bind (λ v, if bool_decide _ then correct_treasury_policy v else Ok v)).
  { apply relabels_if; [|auto with labels]. unfold correct_treasury_policy. apply relabels_bind; [auto with labels|]. apply Hs. by apply Hset. }
  apply (relabels_bind (λ v, if bool_decide _ then v ← rename_key _ _ v; jset_all summaries v else Ok v)).
  { apply relabels_if; [|auto with labels]. apply relabels_bind; [auto with labels|]. apply (Hs []). by intros kx ?%not_elem_of_nil. }
  apply relabels_decide; [by apply relabels_jset|auto with labels].
Qed.

(** ** What a renaming moves *)
Lemma assoc_assoc_del {A} k k' (m : list (string * A)) : assoc k' (assoc_del k m) = if decide (k' = k) then None else assoc k' m.
Proof.
  unfold assoc_del. induction m as [|[k1 x] m IH]; [by case_decide|]. rewrite filter_cons. cbn [fst assoc].
  repeat (case_decide; subst; cbn [assoc]); try congruence; try tauto.
Qed.

Lemma rename_key_at old new m v : old ≠ new → rename_key old new (JObj m) = Ok v →
  ∃ m', v = JObj m' ∧ ∀ k, assoc k m' = match assoc old m with
    | Some x => if decide (k = new) then Some x else if decide (k = old) then None else assoc k m
    | None => assoc k m
    end.
Proof.
  intros Hne H. unfold rename_key in H. cbn [jin mbind result_bind] in H. destruct (assoc old m) as [x|] eqn:Hx.
  - rewrite bool_decide_eq_true_2 in H by done. cbn [negb of_option mbind result_bind] in H. injection H as <-. eexists. split; [done|].
    intros k. by rewrite assoc_assoc_set, assoc_assoc_del.
  - rewrite bool_decide_eq_false_2 in H by by intros []. injection H as <-. by exists m.
Qed.

(** The fields [rs] are found under their new names, with the values they had, and the other fields are as they were. *)
Definition renamed (rs : list (string * string)) (m m' : list (string * json)) : Prop :=
  (∀ o n x, (o, n) ∈ rs → assoc o m = Some x → assoc n m' = Some x ∧ assoc o m' = None) ∧
  ∀ k, k ∉ rs.*1 ++ rs.*2 → assoc k m' = assoc k m.

Lemma rename_keys_renamed rs m v :
  NoDup (rs.*1 ++ rs.*2) → rename_keys rs (JObj m) = Ok v → ∃ m', v = JObj m' ∧ renamed rs m m'.
Proof.
  revert m. induction rs as [|[o n] rs IH]; intros m Hnd H; cbn in H.
  { injection H as <-. exists m. split; [done|]. split; [by intros ? ? ? ?%not_elem_of_nil|done]. }
  apply bind_Ok in H as (v1 & H1 & H). rewrite !fmap_cons in Hnd. cbn [fst snd app] in Hnd. apply NoDup_cons in Hnd as [Ho Hnd].
  rewrite <-Permutation_middle in Ho, Hnd. apply NoDup_cons in Hnd as [Hn Hnd]. assert (Hne : o ≠ n) by (intros ->; apply Ho; by left).
  apply (rename_key_at _ _ _ _ Hne) in H1 as (m1 & -> & Hm1). apply IH in H as (m' & -> & Hr & Hk); [|done]. exists m'. split; [done|].
  assert (Ho' : o ∉ rs.*1 ++ rs.*2) by (intros Hin; apply Ho; by right). split.
  - intros o1 n1 x [[= -> ->]|Hin]%elem_of_cons Hx.
    + rewrite Hx in Hm1. split; rewrite Hk by done; rewrite Hm1; [by rewrite decide_True|by rewrite decide_False, decide_True].
    + apply Hr; [done|]. assert (Hin1 : o1 ∈ rs.*1 ++ rs.*2) by (apply elem_of_app; left; by apply (list_elem_of_fmap_2 fst) in Hin).
      rewrite Hm1. destruct (assoc o m); [|done]. rewrite !decide_False; [done| |]; intros ->; tauto.
  - intros k Hkn. rewrite !fmap_cons in Hkn. cbn [fst snd app] in Hkn. rewrite <-Permutation_middle in Hkn.
    rewrite Hk by (intros Hin; apply Hkn; by do 2 right). rewrite Hm1. destruct (assoc o m); [|done].
    rewrite !decide_False; [done|intros ->; apply Hkn; by left|intros ->; apply Hkn; right; by left].
Qed.
