(* ===== verification/Package.v ===== *)
(** * Packaging the compact results

    src/scripts/package-results.py: copies the results of the accounting tree into one result set, the JSON values normalised and relabelled
    by Labels.v, and writes the set's index.

    [package_step] is the body of the loop over the files, [main] adds the choice of the files and the index. *)
From S2P Require Import Prelude PyStr PyData Sha256 Files Csv Json JsonText Manifests ResultSets Labels.

Record args := Args { a_accounting_root : string; a_output_root : string; a_overwrite : bool }.

(** A source, the name of its target and its classification. *)
Record mapping := Mapping { m_source : string; m_target : string; m_classification : string }.

#[export] Instance mapping_eq_dec : EqDecision mapping.
Proof. solve_decision. Defined.

Definition curated : string := "curated external evidence".
Definition database : string := "database-derived".
Definition rpc : string := "RPC-derived".
Definition scenario : string := "policy scenario".

(** Files that keep their names. *)
Definition same (dir name classification : string) : mapping := Mapping (path_join dir name) name classification.

Definition base_mappings (accounting : string) : list mapping :=
  let supply := path_join accounting "artifacts/supply-reconciliation-20260911" in
  let cutoff := path_join accounting "artifacts/cutoff-20260910" in
  [same supply "reconciliation.json" curated;
   same supply "december-2023-undelegation-mint-reconstruction.json" rpc;
   same supply "max-rate-opening-payout-audit.json" curated;
   same supply "burn-address-audit.json" curated;
   same supply "staking-precompile-target-audit-summary.json" database;
   same supply "blacklisted-address-cutoff.csv" database;
   same supply "blacklisted-address-cutoff-summary.json" database;
   same supply "extra-mint-blacklist-burn-path-audit.json" curated;
   same supply "extra-mint-blacklist-reclaim.csv" scenario;
   same supply "extra-mint-blacklist-reclaim-summary.json" scenario;
   same supply "reported-wallet-theft-perpetrator-cutoff.csv" database;
   same supply "reported-wallet-theft-perpetrator-cutoff-summary.json" database;
   same supply "wallet-theft-report-coverage.json" curated;
   same supply "blacklist-operations-history.json" curated;
   same supply "treasury-reclaim-inventory.csv" scenario;
   same supply "treasury-reclaim-inventory-summary.json" scenario;
   same cutoff "cross-shard-supply-cutoff.json" database;
   same cutoff "cutoff-reconciliation.verify.json" database;
   same (path_join cutoff "state") "actual-supply-cutoff.json" database;
   same (path_join cutoff "claims") "actual-supply-ledger-cutoff-summary.json" database;
   Mapping (path_join cutoff "interval-audit/shard0-summary.json") "cutoff-interval-shard0-summary.json" rpc;
   Mapping (path_join cutoff "interval-audit/shard1-summary.json") "cutoff-interval-shard1-summary.json" rpc;
   same accounting "historical-exploit-flow-summary.json" rpc].

Definition source_audit_mappings (accounting : string) : list mapping :=
  let supply := path_join accounting "artifacts/supply-reconciliation-20260911" in
  [same supply "source-audit-summary.json" "RPC and canonical-state evidence"; same supply "source-audit-verification.json" "verification-derived"].

(** [mappings], with [mappings[1:1] = source_audit_mappings] when the evidence is packaged. *)
Definition mappings_of (accounting : string) (evidence : bool) : list mapping :=
  if evidence then take 1 (base_mappings accounting) ++ source_audit_mappings accounting ++ drop 1 (base_mappings accounting)
  else base_mappings accounting.

Definition provenance_notes : list (string * string) :=
  [("reconciliation.json", "Synthesis of database, RPC, and curated incident evidence; cutoff formula and historical closure are independently recomputed by verify-reconciliation.py.");
   ("source-audit-summary.json", "Exact non-overlapping receipt totals with mechanism proof separated from independent source-debit-absence evidence.");
   ("source-audit-verification.json", "Identity-set, evidence-digest, classification-transition, and aggregate-preservation checks for the archival rerun.");
   ("burn-address-audit.json", "Transaction and cutoff-state evidence with curated burn-address classification.");
   ("max-rate-opening-payout-audit.json", "Opening-boundary evidence assembled from recorded historical RPC checks; the broader peak claim-exposure decomposition remains curated.");
   ("extra-mint-blacklist-burn-path-audit.json", "Assembled from a recorded top-level transaction-history check; no standalone generator was preserved.");
   ("wallet-theft-report-coverage.json", "Addresses extracted from named investigation reports; not a legal attribution.");
   ("blacklist-operations-history.json", "Git and operations-history extraction; not chain state.");
   ("extra-mint-blacklist-reclaim.csv", "Superseded historical treasury calculation; the selected amount is now not issued.");
   ("extra-mint-blacklist-reclaim-summary.json", "Superseded historical treasury calculation; the selected amount is now not issued.");
   ("treasury-reclaim-inventory.csv", "Superseded historical treasury-routing inventory retained as calculation evidence.");
   ("treasury-reclaim-inventory-summary.json", "Superseded historical treasury-routing inventory retained as calculation evidence.")].

(** The text [normalization] of the provenance. *)
Definition normalization (target_name : string) : string :=
  "absolute machine paths replaced; factual numeric fields unchanged" +:+
  (if bool_decide (target_name ∈ ["reconciliation.json"; "max-rate-opening-payout-audit.json"]) then "; max-rate accounting labels corrected" else EmptyString) +:+
  (if bool_decide (target_name ∈ ["reconciliation.json"; "burn-address-audit.json"; "extra-mint-blacklist-reclaim-summary.json"; "treasury-reclaim-inventory-summary.json"])
   then "; superseded treasury policy marked" else EmptyString).

Definition provenance (m : mapping) (source_hash : string) : json :=
  JObj [("classification", JStr (m_classification m)); ("source_name", JStr (file_name (m_source m))); ("source_sha256", JStr source_hash);
        ("normalization", JStr (normalization (m_target m))); ("note", JStr (default EmptyString (assoc (m_target m) provenance_notes)))].

(** The value that is packaged for a decoded source. *)
Definition package_value (m : mapping) (source_hash : string) (decoded : json) : result json :=
  let value := normalize decoded in
  raise_when (match value with JObj _ => false | _ => true end) (ValueError "expected JSON object");;
  value ← correct_max_rate_labels (m_target m) value;
  value ← correct_migration_policy_labels (m_target m) value;
  jset "_provenance" (provenance m source_hash) value.

(** The JSON branch of the loop's body and the other one: what is written, and the number of rows. *)
Definition package_json (m : mapping) (target source_hash : string) : IO json :=
  text ← read (m_source m);
  decoded ← lift (loads text);
  value ← lift (package_value m source_hash decoded);
  put_over target (dumps value +:+ newline) ≫= λ _,
  mret JNull.

Definition package_copy (m : mapping) (target : string) : IO json :=
  text ← read (m_source m);
  put_over target text ≫= λ _,
  n ← csv_rows target;
  mret (JInt n).

(** The body of the loop over the mappings. *)
Definition package_step (overwrite : bool) (output : string) (entries : list json) (m : mapping) : IO (list json) :=
  is_file ← exists_ (m_source m);
  lift (raise_when (negb is_file) (FileNotFoundError (m_source m))) ≫= λ _,
  let target := path_join output (m_target m) in
  present ← exists_ target;
  refused ← (if (present : bool) && negb overwrite then mret true else exists_ (partial target));
  lift (raise_when refused (FileExistsError target)) ≫= λ _,
  source_hash ← hash_file_4m (m_source m);
  rows ← (if decide (suffix (file_name (m_source m)) = ".json") then package_json m target source_hash else package_copy m target);
  bytes ← file_size target;
  digest ← hash_file_4m target;
  mret (entries ++ [JObj [("path", JStr (m_target m)); ("classification", JStr (m_classification m)); ("bytes", JInt bytes); ("rows", rows);
                          ("sha256", JStr digest); ("source_sha256", JStr source_hash)]]).

Definition entry_path (e : json) : string := match jget "path" e with Ok (JStr s) => s | _ => EmptyString end.

(** [sorted(entries, key=lambda item: item["path"])] *)
Definition sort_entries : list json → list json := sort_by (λ a b, str_leb (entry_path a) (entry_path b)).

Definition RESULT_SET : string := "2026-09-11".

Section main.
(** [Path(p).resolve()] *)
Context (resolve : string → string).

(** The choice of the files: the source audit is packaged whole or, before the components were split, not at all. *)
Definition select_mappings (accounting : string) : IO (list mapping) :=
  reconciliation ← load_json (path_join (path_join accounting "artifacts/supply-reconciliation-20260911") "reconciliation.json");
  names ← lift (cross_shard_component_names reconciliation);
  evidence_exists ← map_io (λ m, exists_ (m_source m)) (source_audit_mappings accounting);
  let wanted := negb (bool_decide (names = [legacy])) || existsb id evidence_exists in
  lift (raise_when (wanted && negb (forallb id evidence_exists)) (FileNotFoundError "source-audit evidence package is incomplete")) ≫= λ _,
  mret (mappings_of accounting wanted).

Definition main (a : args) : IO (list json) :=
  let accounting := resolve (a_accounting_root a) in
  let output := resolve (a_output_root a) in
  mappings ← select_mappings accounting;
  entries ← fold_io (package_step (a_overwrite a) output) [] mappings;
  let entries := sort_entries entries in
  pending ← exists_ (partial (index_path output));
  lift (raise_when pending (FileExistsError (partial (index_path output)))) ≫= λ _,
  put_over (index_path output) (dumps (index_json RESULT_SET entries) +:+ newline) ≫= λ _,
  mret entries.
End main.

(** ** The packaged values *)
Lemma file_name_relative p : startswith "/" (file_name p) = false.
Proof.
  unfold file_name. destruct (rfind "/" p) as [n|] eqn:Hr.
  - revert n Hr. induction p as [|c p IH]; intros n Hr; [done|]. cbn [rfind] in Hr. destruct (rfind "/" p) as [k|] eqn:Hk.
    + injection Hr as <-. by apply IH.
    + case_decide; [|done]. injection Hr as <-. cbn [str_drop]. destruct p as [|d p]; [done|]. cbn [rfind] in Hk.
      unfold startswith. cbn [String.prefix]. destruct (ascii_dec "/" d) as [<-|]; [|done]. by destruct (rfind "/" p); [|rewrite decide_True in Hk].
  - destruct p as [|d p]; [done|]. cbn [rfind] in Hr. unfold startswith. cbn [String.prefix]. destruct (ascii_dec "/" d) as [<-|]; [|done].
    by destruct (rfind "/" p); [|rewrite decide_True in Hr].
Qed.

Lemma machine_path_absolute s : machine_path s = true → startswith "/" s = true.
Proof.
  unfold machine_path, absolute_prefixes. rewrite existsb_exists. intros (p & Hp & Hs). apply startswith_spec in Hs as [t ->].
  repeat (destruct Hp as [<-|Hp]; [apply startswith_spec; eexists; by rewrite str_app_cons|]). done.
Qed.

Lemma sha256_not_path s : machine_path (sha256 s) = false.
Proof.
  apply not_true_is_false. intros H%machine_path_absolute%startswith_spec. destruct H as [t Ht]. pose proof (sha256_chars s) as Hc. by rewrite Ht in Hc.
Qed.

Lemma texts_not_paths accounting evidence :
  Forall (λ m, machine_path (m_classification m) = false ∧ machine_path (normalization (m_target m)) = false ∧
               machine_path (default EmptyString (assoc (m_target m) provenance_notes)) = false) (mappings_of accounting evidence).
Proof. destruct evidence; repeat (apply Forall_cons; split; [by split_and!|]); by apply Forall_nil. Qed.

Lemma provenance_label accounting evidence m s : m ∈ mappings_of accounting evidence → label (provenance m (sha256 s)).
Proof.
  intros Hm. pose proof (texts_not_paths accounting evidence) as H. rewrite Forall_forall in H. destruct (H m Hm) as (H1 & H2 & H3).
  assert (H4 : machine_path (file_name (m_source m)) = false).
  { apply not_true_is_false. intros Hp%machine_path_absolute. by rewrite file_name_relative in Hp. }
  split; [|done]. unfold portable, provenance. cbn [all_strings forallb snd]. by rewrite H1, H2, H3, H4, sha256_not_path.
Qed.

(** C22 (safety): no string of a packaged value is an absolute machine path, no number of it is made up or altered, and its provenance names the
    source with its digest and its classification. *)
Theorem packaged_value_safe accounting evidence m s decoded value :
  m ∈ mappings_of accounting evidence → package_value m (sha256 s) decoded = Ok value →
  portable value = true ∧ numbers value ⊆+ numbers decoded ∧ jget "_provenance" value = Ok (provenance m (sha256 s)).
Proof.
  intros Hm H. unfold package_value in H. apply bind_Ok in H as (u & _ & H). apply bind_Ok in H as (v1 & H1 & H). apply bind_Ok in H as (v2 & H2 & H).
  apply relabels_max_rate_labels in H1. apply relabels_migration_policy_labels in H2.
  assert (Hk : kept (normalize decoded) value).
  { transitivity v1; [done|]. transitivity v2; [done|]. revert H. by eapply relabels_jset, provenance_label. }
  destruct Hk as [Hp Hn]. rewrite normalize_numbers in Hn. split_and!; [apply Hp, normalize_portable|done|].
  destruct v2 as [| | | | |o]; try done. injection H as <-. cbn [jget]. by rewrite assoc_assoc_set, decide_True.
Qed.

Lemma packaged_value_safe_witness :
  let m := same "/acc/artifacts/supply-reconciliation-20260911" "blacklist-operations-history.json" curated in
  let decoded := JObj [("log", JStr "/home/op/audit/log.csv"); ("rows", JInt 12)] in
  ∃ value, package_value m (sha256 "abc") decoded = Ok value ∧ jget "log" value = Ok (JStr "redacted://log.csv") ∧
    portable value = true ∧ numbers value ⊆+ numbers decoded ∧ jget "_provenance" value = Ok (provenance m (sha256 "abc")).
Proof.
  intros m decoded. destruct (package_value m (sha256 "abc") decoded) as [value|] eqn:H; [|by vm_compute in H]. exists value.
  split; [done|]. split; [|apply (packaged_value_safe "/acc" true m "abc" decoded value); [apply (bool_decide_unpack _); by vm_compute|exact H]].
  vm_compute in H. injection H as <-. by vm_compute.
Defined.

(** ** The files *)

(** What is written for a source. *)
Definition packaged (m : mapping) (s t : string) : Prop :=
  if decide (suffix (file_name (m_source m)) = ".json") then
    ∃ decoded value, loads s = Ok decoded ∧ package_value m (sha256 s) decoded = Ok value ∧ t = dumps value +:+ newline
  else t = s.

(** The entry of the index. *)
Definition entry_of (m : mapping) (s t : string) : json :=
  JObj [("path", JStr (m_target m)); ("classification", JStr (m_classification m)); ("bytes", JInt (Z.of_nat (String.length t)));
        ("rows", if decide (suffix (file_name (m_source m)) = ".json") then JNull else JInt (Z.of_nat (length (read_csv t)) - 1));
        ("sha256", JStr (sha256 t)); ("source_sha256", JStr (sha256 s))].

Lemma put_over_new p s w u w' : put_over p s w = (Ok u, w') → files w !! partial p = None → files w' = <[p := s]> (files w).
Proof. intros H%put_over_Ok Hp. by rewrite H, delete_id. Qed.

Lemma package_step_Ok overwrite output es m w es' w' :
  package_step overwrite output es m w = (Ok es', w') →
  ∃ s t, files w !! m_source m = Some s ∧ packaged m s t ∧ files w' = <[path_join output (m_target m) := t]> (files w) ∧ es' = es ++ [entry_of m s t].
Proof.
  unfold package_step. intros H. apply io_bind_Ok in H as (b & w1 & [-> _]%exists_Ok & H). apply io_bind_Ok in H as (u & w2 & [-> _]%lift_Ok & H).
  set (target := path_join output (m_target m)) in *. apply io_bind_Ok in H as (present & w3 & [-> _]%exists_Ok & H).
  apply io_bind_Ok in H as (refused & w4 & Hr & H).
  assert (Hp : w4 = w ∧ (refused = false → files w !! partial target = None)).
  { destruct (_ && _) in Hr; [by apply mret_Ok in Hr as [-> <-]|]. apply exists_Ok in Hr as [-> ->]. split; [done|]. intros Hb%bool_decide_eq_false.
    by apply eq_None_not_Some. }
  destruct Hp as [-> Hp]. apply io_bind_Ok in H as (u1 & w5 & [-> Href%raise_when_Ok]%lift_Ok & H). specialize (Hp Href).
  apply io_bind_Ok in H as (h & w6 & [-> (s & Hs & ->)]%hash_4m_Ok & H). apply io_bind_Ok in H as (rows & w7 & Hrows & H).
  assert (Ht : ∃ t, packaged m s t ∧ files w7 = <[target := t]> (files w) ∧
    rows = if decide (suffix (file_name (m_source m)) = ".json") then JNull else JInt (Z.of_nat (length (read_csv t)) - 1)).
  { unfold packaged. destruct (decide (suffix (file_name (m_source m)) = ".json")).
    - unfold package_json in Hrows. apply io_bind_Ok in Hrows as (s1 & w8 & [-> Hs1]%read_Ok & Hrows). assert (s1 = s) as -> by congruence.
      apply io_bind_Ok in Hrows as (d & w9 & [-> Hd]%lift_Ok & Hrows). apply io_bind_Ok in Hrows as (v & w10 & [-> Hv]%lift_Ok & Hrows).
      apply io_bind_Ok in Hrows as (u2 & w11 & Hput & [-> <-]%mret_Ok). eexists. split; [by exists d, v|]. split; [by eapply put_over_new|done].
    - unfold package_copy in Hrows. apply io_bind_Ok in Hrows as (s1 & w8 & [-> Hs1]%read_Ok & Hrows). assert (s1 = s) as -> by congruence.
      apply io_bind_Ok in Hrows as (u2 & w9 & Hput & Hrows). apply (put_over_new _ _ _ _ _ Hput) in Hp as Hw.
      rewrite (io_bind_eq _ _ _ _ _ (csv_rows_eq target w9 s ltac:(by rewrite Hw, lookup_insert_eq))) in Hrows. apply mret_Ok in Hrows as [-> <-].
      by exists s. }
  destruct Ht as (t & Hpk & Hw & ->). apply io_bind_Ok in H as (n & w8 & [-> (t1 & Ht1 & ->)]%file_size_Ok & H).
  apply io_bind_Ok in H as (d & w9 & [-> (t2 & Ht2 & ->)]%hash_4m_Ok & H). apply mret_Ok in H as [-> <-].
  rewrite Hw, lookup_insert_eq in Ht1, Ht2. injection Ht1 as <-. injection Ht2 as <-. by exists s, t.
Qed.

Section steps.
Context (overwrite : bool) (output : string).

Definition target_path (m : mapping) : string := path_join output (m_target m).

(** What a mapping left in [w'], of a source read in [w]. *)
Definition left_behind (w w' : world) (m : mapping) (e : json) : Prop :=
  ∃ s t, files w !! m_source m = Some s ∧ packaged m s t ∧ files w' !! target_path m = Some t ∧ e = entry_of m s t.

Lemma package_steps_Ok ms es w es' w' :
  NoDup (target_path <$> ms) → Forall (λ m, m_source m ∉ target_path <$> ms) ms →
  fold_io (package_step overwrite output) es ms w = (Ok es', w') →
  ∃ out, es' = es ++ out ∧ Forall2 (left_behind w w') ms out ∧ ∀ p, p ∉ target_path <$> ms → files w' !! p = files w !! p.
Proof.
  revert es w. induction ms as [|m ms IH]; intros es w Hnd Hsrc H; cbn [fold_io] in H.
  { apply mret_Ok in H as [-> <-]. exists []. by rewrite app_nil_r. }
  apply io_bind_Ok in H as (es1 & w1 & (s & t & Hs & Hp & Hw & ->)%package_step_Ok & H).
  rewrite fmap_cons in Hnd, Hsrc. apply NoDup_cons in Hnd as [Hm Hnd]. apply Forall_cons in Hsrc as [Hsm Hsrc].
  apply IH in H as (out & -> & Hout & Hrest); [|done|eapply Forall_impl; [exact Hsrc|]; intros m' Hm' Hin; apply Hm'; by right].
  exists (entry_of m s t :: out). rewrite <-app_assoc. split_and!; [done| |].
  - constructor.
    + exists s, t. split_and!; [done|done| |done]. rewrite Hrest by done. unfold target_path. by rewrite Hw, lookup_insert_eq.
    + rewrite Forall_forall in Hsrc. apply Forall2_same_length_lookup in Hout as [Hlen Hout]. apply Forall2_same_length_lookup. split; [done|].
      intros i m' e Hi He. destruct (Hout i m' e Hi He) as (s' & t' & Hs' & Hrest'). exists s', t'. split; [|done].
      rewrite Hw, lookup_insert_ne in Hs'; [done|]. intros Heq. apply (Hsrc m'); [by eapply list_elem_of_lookup_2|]. rewrite <-Heq. by left.
  - intros p Hnp. rewrite Hrest by (intros Hin; apply Hnp; by right). rewrite Hw, lookup_insert_ne; [done|]. intros <-. apply Hnp. by left.
Qed.
End steps.

Lemma targets_plain accounting evidence :
  Forall (λ m, startswith "/" (m_target m) = false ∧ index_of "/" (m_target m) = None ∧ m_target m ≠ "index.json" ∧
               is_ascii (m_target m) = true ∧ is_ascii (m_classification m) = true) (mappings_of accounting evidence).
Proof. destruct evidence; repeat (apply Forall_cons; split; [by split_and!|]); by apply Forall_nil. Qed.

Lemma targets_distinct accounting evidence : NoDup (m_target <$> mappings_of accounting evidence).
Proof. destruct evidence; apply (bool_decide_unpack _); by vm_compute. Qed.

Lemma target_paths_distinct output ms :
  Forall (λ m, startswith "/" (m_target m) = false) ms → NoDup (m_target <$> ms) → NoDup (target_path output <$> ms).
Proof.
  intros Hms Hnd. assert (He : target_path output <$> ms = path_join output <$> (m_target <$> ms)) by by rewrite <-list_fmap_compose.
  rewrite He. clear He. assert (Hps : Forall (λ t, startswith "/" t = false) (m_target <$> ms)) by by apply Forall_fmap.
  induction Hnd as [|t ts Ht Hnd IH]; [constructor|]. apply Forall_cons in Hps as [Ht1 Hps]. rewrite fmap_cons. constructor; [|by apply IH].
  intros (t' & Heq & Hin)%list_elem_of_fmap. apply Ht. rewrite Forall_forall in Hps. apply path_join_inj in Heq as ->; [done|done|by apply Hps].
Qed.

Lemma entry_of_ok w output m s t :
  files w !! target_path output m = Some t → entry_ok w output (entry_of m s t) (path_join output (entry_path (entry_of m s t))).
Proof.
  intros Ht. split; [done|]. exists t. do 3 eexists. split_and!; try reflexivity; [exact Ht|cbn [jeq_int]; by apply Z.eqb_refl|by apply bool_decide_eq_true_2|].
  case_decide; [by left|right]. cbn [jeq_int]. by apply Z.eqb_refl.
Qed.

Lemma entry_of_json m s t : is_ascii (m_target m) = true → is_ascii (m_classification m) = true → json_ok (entry_of m s t) = true.
Proof. intros H1 H2. unfold entry_of. json_object; cbn [json_ok]; try done; [by case_decide|apply is_ascii_sha256|apply is_ascii_sha256]. Qed.

(** ** The result set *)
Section packaged_set.
Context (resolve : string → string) (a : args).

Definition accounting_of : string := resolve (a_accounting_root a).
Definition output_of : string := resolve (a_output_root a).

Lemma select_mappings_Ok accounting w ms w' : select_mappings accounting w = (Ok ms, w') → w' = w ∧ ∃ evidence, ms = mappings_of accounting evidence.
Proof.
  intros H. assert (Hr : w' = w).
  { revert H. apply reads_only_world. unfold select_mappings, load_json. apply reads_only_bind; [apply reads_only_bind; auto with py|intros r].
    apply reads_only_bind; [auto with py|intros ns]. apply reads_only_bind; [apply reads_only_map_io; auto with py|intros ev].
    apply reads_only_bind; auto with py. }
  split; [done|]. unfold select_mappings in H. apply io_bind_Ok in H as (r & w1 & _ & H). apply io_bind_Ok in H as (ns & w2 & _ & H).
  apply io_bind_Ok in H as (ev & w3 & _ & H). apply io_bind_Ok in H as (u & w4 & _ & H). apply mret_Ok in H as [_ <-]. by eexists.
Qed.

(** What a run leaves. *)
Definition set_packaged (w w' : world) (evidence : bool) (entries : list json) : Prop :=
  let ms := mappings_of accounting_of evidence in
  (∀ m, m ∈ ms → ∃ s t, files w !! m_source m = Some s ∧ packaged m s t ∧ files w' !! target_path output_of m = Some t ∧ entry_of m s t ∈ entries) ∧
  (∀ p, p ∉ target_path output_of <$> ms → p ≠ index_path output_of → files w' !! p = files w !! p) ∧
  (file_names output_of w ⊆ list_to_set (m_target <$> ms) ∪ {["index.json"; "README.md"]} → ∃ ps, set_ok w' output_of ps).

Lemma mappings_all evidence m : m ∈ mappings_of accounting_of evidence → m ∈ mappings_of accounting_of true.
Proof. destruct evidence; [done|]. intros Hm. unfold mappings_of in *. rewrite <-(take_drop 1 (base_mappings accounting_of)) in Hm. set_solver. Qed.

Lemma base_packaged evidence m : m ∈ base_mappings accounting_of → m ∈ mappings_of accounting_of evidence.
Proof.
  unfold mappings_of. generalize (base_mappings accounting_of) as l. intros l Hm. destruct evidence; [|done]. rewrite <-(take_drop 1 l) in Hm. set_solver.
Qed.

(** The sources lie outside the result set. *)
Hypothesis outside : ∀ m, m ∈ mappings_of accounting_of true → is_ok (relative_to output_of (m_source m)) = false.
Hypothesis named : file_name output_of = RESULT_SET.

Lemma source_outside evidence : Forall (λ m, m_source m ∉ target_path output_of <$> mappings_of accounting_of evidence) (mappings_of accounting_of evidence).
Proof.
  apply Forall_forall. intros m Hm%mappings_all%outside (m' & Heq & Hm')%list_elem_of_fmap. rewrite Heq in Hm. unfold target_path in Hm.
  pose proof (targets_plain accounting_of evidence) as Hp. rewrite Forall_forall in Hp. rewrite relative_to_join in Hm; [done|]. by apply Hp.
Qed.

Lemma left_entries w w' ms out :
  Forall2 (left_behind output_of w w') ms out → Forall (λ m, is_ascii (m_target m) = true ∧ is_ascii (m_classification m) = true) ms →
  Forall (λ e, json_ok e = true) out ∧ Forall (λ e, entry_ok w' output_of e (path_join output_of (entry_path e))) out ∧ entry_path <$> out = m_target <$> ms.
Proof.
  induction 1 as [|m e ms out (s & t & Hs & Hp & Ht & ->) _ IH]; intros Hms; [done|]. apply Forall_cons in Hms as [[H1 H2] Hms].
  destruct (IH Hms) as (IH1 & IH2 & IH3). split_and!; [constructor; [by apply entry_of_json|done]|constructor; [by apply entry_of_ok|done]|].
  by rewrite !fmap_cons, IH3.
Qed.

(** The files of the result set after the run are those it had and those that were packaged. *)
Lemma set_names w w' wi evidence text n :
  (∀ p, p ∉ target_path output_of <$> mappings_of accounting_of evidence → files wi !! p = files w !! p) →
  files w' = <[index_path output_of := text]> (files wi) →
  file_names output_of w ⊆ list_to_set (m_target <$> mappings_of accounting_of evidence) ∪ {["index.json"; "README.md"]} →
  n ∈ file_names output_of w' → n ∈ (list_to_set (m_target <$> mappings_of accounting_of evidence) ∪ {["index.json"; "README.md"]} : gset string).
Proof.
  intros Hrest Hw Hsub Hn. set (ms := mappings_of accounting_of evidence) in *.
  assert (Hrel : Forall (λ m, startswith "/" (m_target m) = false) ms)
    by (eapply Forall_impl; [apply targets_plain|]; by intros m (Hm & _)).
  unfold file_names in Hn. rewrite elem_of_list_to_set, list_elem_of_filter, elem_of_below in Hn.
  destruct Hn as (Hn & p & Hp & Hr). destruct (decide (p = index_path output_of)) as [->|Hpi].
  { unfold index_path in Hr. rewrite relative_to_join in Hr by done. injection Hr as <-. set_solver. }
  rewrite Hw, lookup_insert_ne in Hp by done. destruct (decide (p ∈ target_path output_of <$> ms)) as [(m & -> & Hm)%list_elem_of_fmap|Hpt].
  { unfold target_path in Hr. rewrite Forall_forall in Hrel. rewrite relative_to_join in Hr by by apply Hrel. injection Hr as <-.
    apply elem_of_union_l, elem_of_list_to_set. by apply list_elem_of_fmap_2. }
  rewrite Hrest in Hp by done. apply Hsub. unfold file_names. rewrite elem_of_list_to_set, list_elem_of_filter, elem_of_below.
  split; [done|]. by exists p.
Qed.

(** The names of the paths that the index lists. *)
Lemma indexed_names evidence out :
  entry_path <$> out = m_target <$> mappings_of accounting_of evidence →
  (list_to_set (file_name <$> (path_join output_of <$> (entry_path <$> sort_entries out))) : gset string) =
  list_to_set (m_target <$> mappings_of accounting_of evidence).
Proof.
  intros Hpaths. assert (Hperm : sort_entries out ≡ₚ out) by apply sort_by_Permutation.
  apply list_to_set_perm_L. rewrite Hperm, Hpaths, <-list_fmap_compose.
  rewrite <-(list_fmap_id (m_target <$> mappings_of accounting_of evidence)) at 2. apply Permutation_refl', list_fmap_ext. intros i t Hi. unfold compose.
  apply list_elem_of_lookup_2, list_elem_of_fmap in Hi as (m & -> & Hm). pose proof (targets_plain accounting_of evidence) as Hplain.
  rewrite Forall_forall in Hplain. apply file_name_join. by apply Hplain.
Qed.

Lemma packaged_run w entries w' : main resolve a w = (Ok entries, w') → ∃ evidence, set_packaged w w' evidence entries.
Proof.
  unfold main. fold accounting_of output_of. intros H. apply io_bind_Ok in H as (ms & w1 & [-> (evidence & ->)]%select_mappings_Ok & H).
  set (ms := mappings_of accounting_of evidence) in *. pose proof (targets_plain accounting_of evidence) as Hplain. fold ms in Hplain.
  assert (Hrel : Forall (λ m, startswith "/" (m_target m) = false) ms) by (eapply Forall_impl; [exact Hplain|]; by intros m (Hm & _)).
  assert (Hnd : NoDup (target_path output_of <$> ms)) by (apply target_paths_distinct; [done|apply targets_distinct]).
  apply io_bind_Ok in H as (es & w2 & Hes & H). destruct (package_steps_Ok _ _ _ _ _ _ _ Hnd (source_outside evidence) Hes) as (out & Heq & Hout & Hrest).
  cbn [app] in Heq. subst es. apply io_bind_Ok in H as (b & w3 & [-> ->]%exists_Ok & H). apply io_bind_Ok in H as (u & w4 & [-> Hb%raise_when_Ok]%lift_Ok & H).
  apply bool_decide_eq_false, eq_None_not_Some in Hb. apply io_bind_Ok in H as (u1 & w5 & Hput & [-> <-]%mret_Ok).
  apply (put_over_new _ _ _ _ _ Hput) in Hb as Hw. exists evidence.
  assert (Hperm := sort_by_Permutation (λ a b, str_leb (entry_path a) (entry_path b)) out). fold (sort_entries out) in Hperm.
  assert (Hindex : ∀ m, m ∈ ms → target_path output_of m ≠ index_path output_of).
  { intros m Hm Heq. rewrite Forall_forall in Hplain. destruct (Hplain m Hm) as (Hm1 & _ & Hm2 & _). apply Hm2. by apply (path_join_inj output_of). }
  split_and!.
  - intros m Hm. apply list_elem_of_lookup in Hm as [i Hi]. destruct (Forall2_lookup_l _ _ _ _ _ Hout Hi) as (e & He & s & t & Hs & Hp & Ht & ->).
    exists s, t. split_and!; [done|done| |rewrite Hperm; by eapply list_elem_of_lookup_2]. rewrite Hw, lookup_insert_ne; [done|].
    intros Heq. by apply (Hindex m); [eapply list_elem_of_lookup_2|].
  - intros p Hp Hpi. rewrite Hw, lookup_insert_ne by done. by apply Hrest.
  - intros Hsub. exists (path_join output_of <$> (entry_path <$> sort_entries out)).
    assert (Hlab : Forall (λ m, is_ascii (m_target m) = true ∧ is_ascii (m_classification m) = true) ms)
      by (eapply Forall_impl; [exact Hplain|]; by intros m (_ & _ & _ & ? & ?)).
    assert (Hout5 : Forall2 (left_behind output_of w w5) ms out).
    { apply Forall2_same_length_lookup in Hout as [Hlen Hout]. apply Forall2_same_length_lookup. split; [done|]. intros i m e Hi He.
      destruct (Hout i m e Hi He) as (s & t & Hs & Hp & Ht & ->). exists s, t. split_and!; [done|done| |done]. rewrite Hw, lookup_insert_ne; [done|].
      intros Heq. by apply (Hindex m); [eapply list_elem_of_lookup_2|]. }
    destruct (left_entries _ _ _ _ Hout5 Hlab) as (Hj & He & Hpaths). apply (dumped_set_ok _ _ (sort_entries out)).
    + unfold dumped_index. by rewrite Hw, lookup_insert_eq, named.
    + by rewrite named.
    + by rewrite Hperm.
    + rewrite <-list_fmap_compose. apply Forall2_fmap_r. apply Forall_Forall2_diag. by rewrite Hperm.
    + intros n Hn. rewrite (indexed_names evidence) by done. by eapply set_names.
Qed.
End packaged_set.
