(* ===== verification/Release.v ===== *)
(** * A release of the results

    package-results.py writes a result set (Package.v), update-results-manifest.py lists the files of all sets, and verify-results.py checks
    both (ResultSets.v): what the first two write, the third accepts. *)
From S2P Require Import Prelude PyStr PyData Sha256 Files Csv Json JsonText Manifests ResultSets Labels Package.

Section release.
Context (ROOT : string) (resolve : string → string) (packager : Package.args) (verifier : ResultSets.args).

Let output : string := path_join (RESULTS_ROOT ROOT) RESULT_SET.
Let accounting : string := resolve (a_accounting_root packager).

Hypothesis output_root : resolve (a_output_root packager) = output.
Hypothesis sources_outside : ∀ m, m ∈ mappings_of accounting true → is_ok (relative_to output (m_source m)) = false.
Hypothesis results_root : resolve (a_results_root verifier) = RESULTS_ROOT ROOT.
Hypothesis all_sets : a_results verifier = [].

(** C12 (refinement): A result set that was packaged into a directory without other files, with the manifest written after it, passes the
    verification together with any other sets whose indexes are right. *)
Theorem release_verified w entries w1 rows w2 :
  Package.main resolve packager w = (Ok entries, w1) →
  file_names output w ⊆ list_to_set (m_target <$> base_mappings accounting) ∪ {["index.json"; "README.md"]} →
  update_results ROOT w1 = (Ok rows, w2) → Forall listable rows →
  (∀ d, d ∈ set_dirs ROOT w1 (dated (RESULTS_ROOT ROOT) w1) → d ≠ output → ∃ ps, set_ok w1 d ps) →
  (∃ evidence, set_packaged resolve packager w w1 evidence entries) ∧
  ∃ pss, Forall2 (set_ok w2) (set_dirs ROOT w1 (dated (RESULTS_ROOT ROOT) w1)) pss ∧
    verify_results ROOT resolve verifier w2 = (Ok (length pss, indexed_total pss, length rows), w2).
Proof.
  intros Hmain Hsub Hupdate Hl Hothers. assert (Hout : output_of resolve packager = output) by done.
  assert (Hname : file_name output = RESULT_SET) by by apply file_name_join.
  destruct (packaged_run resolve packager) with w entries w1 as [evidence Hset]; [by rewrite Hout|by rewrite Hout|done|].
  split; [by exists evidence|]. apply (manifest_accepted ROOT resolve verifier w1 rows w2); [done|done| |done|done].
  intros d Hd. destruct (decide (d = output)) as [->|Hne]; [|by apply Hothers]. destruct Hset as (_ & _ & Hset). rewrite Hout in Hset. apply Hset.
  intros n [Hn|Hn]%Hsub%elem_of_union; [|by apply elem_of_union_r]. apply elem_of_union_l. revert Hn. rewrite !elem_of_list_to_set.
  intros (m & -> & Hm)%list_elem_of_fmap. apply list_elem_of_fmap_2. apply base_packaged. exact Hm.
Qed.
End release.

(** ** An example *)
Definition ex_reconciliation : json :=
  JObj [("components", JArr [JObj [("name", JStr legacy)]]); ("known_unauthorized_gross_creation", JObj [("total_atto", JInt 5)]);
        ("known_unauthorized_net_cutoff_component", JObj []); ("treasury_reclaim_inventory", JObj [("path", JStr "/home/u/inventory.csv")]);
        ("post_2023_max_rate", JObj [("gross_duplicate_payout_breakdown", JArr [JObj [("atto", JInt 1)]; JObj [("atto", JInt 2)]; JObj []])])].

Definition ex_content (m : mapping) : string :=
  if decide (m_target m = "reconciliation.json") then dumps ex_reconciliation
  else if decide (suffix (m_target m) = ".csv") then "address,atto" +:+ newline +:+ "0xa,1" +:+ newline else "{}".

Definition ex_accounting_world : world :=
  World (list_to_map (("/repo/results/README.md", "results") :: ((λ m, (m_source m, ex_content m)) <$> base_mappings "/acc"))) None.

Definition ex_packager : Package.args := Package.Args "/acc" "/repo/results/2026-09-11" false.
Definition ex_verifier : ResultSets.args := ResultSets.Args "/repo/results" [].

Definition ex_output : string := path_join (RESULTS_ROOT "/repo") RESULT_SET.

(** The two runs, and the facts about their results that the theorem asks for. *)
Definition ex_release_check : bool :=
  match Package.main id ex_packager ex_accounting_world with
  | (Ok _, w1) =>
      match update_results "/repo" w1 with
      | (Ok rows, _) => bool_decide (Forall listable rows) && bool_decide (set_dirs "/repo" w1 (dated (RESULTS_ROOT "/repo") w1) = [ex_output])
      | _ => false
      end
  | _ => false
  end.

Lemma ex_release_checked : ex_release_check = true.
Proof. by vm_compute. Qed.

Lemma ex_release_runs : ∃ entries w1 rows w2,
  Package.main id ex_packager ex_accounting_world = (Ok entries, w1) ∧ update_results "/repo" w1 = (Ok rows, w2) ∧ Forall listable rows ∧
  set_dirs "/repo" w1 (dated (RESULTS_ROOT "/repo") w1) = [ex_output].
Proof.
  pose proof ex_release_checked as H. unfold ex_release_check in H. destruct (Package.main id ex_packager ex_accounting_world) as [[entries|] w1] eqn:H1; [|done].
  destruct (update_results "/repo" w1) as [[rows|] w2] eqn:H2; [|done]. apply andb_true_iff in H as [Hl%bool_decide_eq_true Hd%bool_decide_eq_true].
  exists entries, w1, rows, w2. split_and!; [first [exact H1|reflexivity]|exact H2|exact Hl|exact Hd].
Qed.

Lemma release_verified_witness : ∃ w1 w2 sets indexed manifested,
  (∃ entries, Package.main id ex_packager ex_accounting_world = (Ok entries, w1)) ∧ (update_results "/repo" w1).2 = w2 ∧
  verify_results "/repo" id ex_verifier w2 = (Ok (sets, indexed, manifested), w2).
Proof.
  destruct ex_release_runs as (entries & w1 & rows & w2 & H1 & H2 & Hl & Hd).
  destruct (release_verified "/repo" id ex_packager ex_verifier eq_refl) with ex_accounting_world entries w1 rows w2
    as [_ (pss & _ & Hv)]; [| | | | | | | |exists w1, w2; do 3 eexists; split_and!; [by exists entries|by rewrite H2|exact Hv]].
  - assert (Ho : Forall (λ m, is_ok (relative_to ex_output (m_source m)) = false) (mappings_of "/acc" true))
      by (apply (bool_decide_unpack _); by vm_compute).
    rewrite Forall_forall in Ho. unfold ex_output in Ho. exact Ho.
  - done.
  - done.
  - exact H1.
  - apply (bool_decide_unpack _). by vm_compute.
  - exact H2.
  - exact Hl.
  - rewrite Hd. intros d ->%list_elem_of_singleton Hne. destruct Hne. reflexivity.
Defined.
