(* ===== verification/Timestamps.v ===== *)
(** * UTC timestamps

    [parse_utc] of the policy reconciliation: [datetime.fromisoformat] of Python's standard
    library on a text that ends in [Z], which the script replaces by [+00:00].  The parser is
    that of CPython 3.10, the oldest version the repository supports (later versions accept
    more texts): a date, any separator, and [HH[:MM[:SS[.fff[fff]]]]].  An offset inside the
    text cannot be followed by [+00:00], so it is refused.

    A timestamp is its seven fields, from the year to the microsecond, and both timestamps
    that the script compares are UTC: they compare field by field. *)
From S2P Require Import Prelude PyStr.

Record utc := Utc { u_date : Z * Z * Z; u_clock : Z * Z * Z; u_micro : Z }.

#[export] Instance utc_eq_dec : EqDecision utc.
Proof. solve_decision. Defined.

Definition fields_of (t : utc) : list Z :=
  let '(y, m, d) := u_date t in let '(h, mi, s) := u_clock t in [y; m; d; h; mi; s; u_micro t].

Fixpoint lex_ltb (a b : list Z) : bool :=
  match a, b with
  | x :: a, y :: b => (x <? y) || (x =? y) && lex_ltb a b
  | [], _ :: _ => true
  | _, [] => false
  end.

Definition utc_ltb (a b : utc) : bool := lex_ltb (fields_of a) (fields_of b).

(** [n] digits *)
Fixpoint digits (n : nat) (acc : Z) (s : string) : option (Z * string) :=
  match n, s with
  | O, _ => Some (acc, s)
  | S n, String c s => d ← digit_val c; digits n (10 * acc + d) s
  | S _, EmptyString => None
  end.

Definition fraction (s : string) : option Z :=
  match digits (String.length s) 0 s with
  | Some (n, _) =>
      if (String.length s =? 6)%nat then Some n else if (String.length s =? 3)%nat then Some (1000 * n) else None
  | None => None
  end.

(** The clock fields before the offset: a single character after them is passed over, unless it
    is a sign, which starts an offset of its own. *)
Fixpoint clock (k : nat) (s : string) : option (list Z * Z) :=
  match digits 2 0 s with
  | Some (v, EmptyString) => Some ([v], 0)
  | Some (v, String c EmptyString) => if decide (c = "+"%char ∨ c = "-"%char) then None else Some ([v], 0)
  | Some (v, String c rest) =>
      if decide (c = "."%char) then us ← fraction rest; Some ([v], us)
      else if decide (c = ":"%char) then
        match k with
        | S k => '(l, us) ← clock k rest; Some (v :: l, us)
        | O => us ← fraction rest; Some ([v], us)
        end
      else None
  | None => None
  end.

Definition leap (y : Z) : bool := (y mod 4 =? 0) && (negb (y mod 100 =? 0) || (y mod 400 =? 0)).

Definition days_in_month (y m : Z) : Z :=
  if m =? 2 then if leap y then 29 else 28
  else if bool_decide (m ∈ [4; 6; 9; 11]) then 30 else 31.

Definition date_of (s : string) : option (Z * Z * Z) :=
  '(y, s) ← digits 4 0 s;
  match s with
  | String "-" s =>
      '(m, s) ← digits 2 0 s;
      match s with
      | String "-" s => '(d, s) ← digits 2 0 s; Some (y, m, d)
      | _ => None
      end
  | _ => None
  end.

Definition valid_date (t : Z * Z * Z) : bool :=
  let '(y, m, d) := t in (1 <=? y) && (1 <=? m) && (m <=? 12) && (1 <=? d) && (d <=? days_in_month y m).

Definition valid_clock (t : Z * Z * Z) : bool :=
  let '(h, m, s) := t in (h <? 24) && (m <? 60) && (s <? 60).

(** The text before the [Z]. *)
Definition fromisoformat (s : string) : option utc :=
  date ← date_of (str_take 10 s);
  if (String.length s <=? 10)%nat then None
  else
    '(l, us) ← clock 2 (str_drop 11 s);
    let c := (nth 0 l 0, nth 1 l 0, nth 2 l 0) in
    if valid_date date && valid_clock c then Some (Utc date c us) else None.

Definition parse_utc (value : string) : result utc :=
  let n := (String.length value - 1)%nat in
  raise_when (negb (bool_decide (str_drop n value = "Z"))) (ValueError "UTC timestamp must end in Z");;
  of_option (fromisoformat (str_take n value)) (ValueError "Invalid isoformat string").

(** The order is total on timestamps. *)
Lemma lex_ltb_total a b : length a = length b → lex_ltb a b = false → lex_ltb b a = false → a = b.
Proof.
  revert b. induction a as [|x a IH]; intros [|y b] Hl; try done. simpl. intros H1 H2.
  apply orb_false_iff in H1 as [H1 H1'], H2 as [H2 H2']. assert (x = y) as -> by lia.
  rewrite Z.eqb_refl in *. simpl in *. f_equal. apply IH; [by injection Hl|done..].
Qed.

Example parse_utc_seconds : parse_utc "2026-03-10T23:59:58Z" = Ok (Utc (2026, 3, 10) (23, 59, 58) 0).
Proof. by vm_compute. Qed.
Example parse_utc_millis : parse_utc "2024-02-29T00:00:00.120Z" = Ok (Utc (2024, 2, 29) (0, 0, 0) 120000).
Proof. by vm_compute. Qed.
Example parse_utc_day : parse_utc "2023-02-29T00:00:00Z" = Err (ValueError "Invalid isoformat string").
Proof. by vm_compute. Qed.
Example parse_utc_offset : parse_utc "2023-02-28T00:00:00+01:00Z" = Err (ValueError "Invalid isoformat string").
Proof. by vm_compute. Qed.
Example parse_utc_order :
  utc_ltb (Utc (2026, 3, 10) (23, 59, 58) 0) (Utc (2026, 3, 10) (23, 59, 58) 1) = true.
Proof. by vm_compute. Qed.
