(* ===== verification/Policy.v ===== *)
(** * The migration-policy reconciliation

    toolkit/scripts/verify/migration-policy-reconciliation.py: re-sums the address-level stage
    policy of the migration, checks every row's amounts, its stage and its treatment, and checks
    the totals against the stage summary, the migration summary and the summary of the
    non-issuance audit (NonIssuance.v).

    [policy_row] is what the loop takes from a row after the row's own checks, [policy_step] its
    body, [reconcile] is [main] up to its result, and [main] writes the result and the report.
    Directories exist, so [os.makedirs] does nothing. *)
From S2P Require Import Prelude PyStr PyData Sha256 Files Csv Json Timestamps.

Record args := Args {
  a_stage_policy : string;
  a_stage_summary : string;
  a_migration_summary : string;
  a_existing : list string;
  a_retention : list string;
  a_supply_summary : string;
  a_output : string;
  a_report : string;
  a_replace : bool;
}.

Definition file_sha256 : string → IO string := file_sha256_at (Z.to_nat (4 * 1024 * 1024)).

Definition load_passed (path label : string) : IO json :=
  value ← load_json path;
  status ← lift (jget_opt "status" value);
  lift (raise_when (negb (jeq_str status "passed")) (ValueError (label +:+ " did not pass"))) ≫= λ _,
  mret value.

Definition write_text (path text : string) (replace : bool) : IO unit :=
  b ← exists_ (partial path);
  lift (raise_when b (FileExistsError (partial path))) ≫= λ _,
  b ← exists_ path;
  lift (raise_when ((b : bool) && negb replace) (FileExistsError path)) ≫= λ _,
  publish path [text].

(** ** The sources and their digests *)
Fixpoint numbered (name : string) (i : Z) (paths : list string) : list (string * string) :=
  match paths with [] => [] | p :: ps => (name +:+ "_" +:+ str_of_Z i, p) :: numbered name (i + 1) ps end.

Definition sources (a : args) : list (string * string) :=
  [("stage_policy", a_stage_policy a); ("stage_summary", a_stage_summary a);
   ("migration_summary", a_migration_summary a); ("supply_non_issuance_summary", a_supply_summary a)]
  ++ numbered "existing_non_issuance" 1 (a_existing a) ++ numbered "historical_retention" 1 (a_retention a).

Definition hash_source (np : string * string) : IO (string * string) := d ← file_sha256 np.2; mret (np.1, d).

(** [recorded] holds one digest for each of [paths], in the same order. *)
Definition check_recorded (hashes : list (string * string)) (name : string) (paths : list string) (recorded : json) : result unit :=
  let records := match recorded with JArr l => l | _ => [recorded] end in
  let local := (λ np, JStr (default EmptyString (assoc np.1 hashes))) <$> numbered name 1 paths in
  digests ← mapR (jget "sha256") records;
  raise_when (negb (py_eq (JArr local) (JArr digests))) (ValueError (name +:+ " hash mismatch")).

Definition check_hashes (a : args) (hashes : list (string * string)) (stage_summary : json) : result unit :=
  let hash name := default EmptyString (assoc name hashes) in
  o ← jget "output_sha256" stage_summary;
  raise_when (negb (jeq_str o (hash "stage_policy"))) (ValueError "stage-policy hash mismatch");;
  m ← jpath ["sources"; "migration_summary"; "sha256"] stage_summary;
  raise_when (negb (jeq_str m (hash "migration_summary"))) (ValueError "migration_summary hash mismatch");;
  e ← jpath ["sources"; "existing_non_issuance"] stage_summary;
  check_recorded hashes "existing_non_issuance" (a_existing a) e;;
  r ← jpath ["sources"; "historical_retention"] stage_summary;
  check_recorded hashes "historical_retention" (a_retention a) r.

(** ** The rows *)
Definition REQUIRED : list string :=
  ["address"; "account_classification"; "policy_group"; "routing_category"; "migration_stage";
   "issuance_treatment"; "qualification_total_atto"; "gross_allocation_atto"; "existing_non_issuance_atto";
   "historical_retained_cap_atto"; "wone_source_offset_atto"; "reviewed_contract_non_issuance_atto";
   "reviewed_contract_wallet_non_issuance_atto"; "reviewed_contract_staked_non_issuance_atto";
   "migration_wallet_allocation_atto"; "migration_staked_to_vault_atto"; "migration_allocation_atto";
   "last_activity_time_utc"].

Definition header (text : string) : list string := default [] (head (read_csv text)).

Definition missing_fields (text : string) : list string := filter (λ f, f ∉ header text) REQUIRED.

(** [values] *)
Record amounts := Amounts {
  m_gross : Z;
  m_existing : Z;
  m_retained : Z;
  m_wone : Z;
  m_contract : Z;
  m_contract_wallet : Z;
  m_contract_staked : Z;
  m_wallet : Z;
  m_staked : Z;
  m_allocation : Z;
}.

Definition no_amounts : amounts := Amounts 0 0 0 0 0 0 0 0 0 0.

Definition add_amounts (a b : amounts) : amounts :=
  Amounts (m_gross a + m_gross b) (m_existing a + m_existing b) (m_retained a + m_retained b) (m_wone a + m_wone b)
    (m_contract a + m_contract b) (m_contract_wallet a + m_contract_wallet b) (m_contract_staked a + m_contract_staked b)
    (m_wallet a + m_wallet b) (m_staked a + m_staked b) (m_allocation a + m_allocation b).

Definition amount_list (v : amounts) : list Z :=
  [m_gross v; m_existing v; m_retained v; m_wone v; m_contract v; m_contract_wallet v; m_contract_staked v;
   m_wallet v; m_staked v; m_allocation v].

Definition row_amounts (r : row) : result amounts :=
  gross ← cell_int r "gross_allocation_atto";
  existing ← cell_int r "existing_non_issuance_atto";
  retained ← cell_int r "historical_retained_cap_atto";
  wone ← cell_int r "wone_source_offset_atto";
  contract ← cell_int r "reviewed_contract_non_issuance_atto";
  contract_wallet ← cell_int r "reviewed_contract_wallet_non_issuance_atto";
  contract_staked ← cell_int r "reviewed_contract_staked_non_issuance_atto";
  wallet ← cell_int r "migration_wallet_allocation_atto";
  staked ← cell_int r "migration_staked_to_vault_atto";
  allocation ← cell_int r "migration_allocation_atto";
  Ok (Amounts gross existing retained wone contract contract_wallet contract_staked wallet staked allocation).

Definition threshold : Z := 1000 * ATTO.

Record policy_row := PolicyRow {
  p_address : string;
  p_values : amounts;
  p_qualification : Z;
  p_stage : option string;
  p_treatment : string;
  p_class : option string;
  p_group : option string;
  p_routing : option string;
  p_activity : option utc;
}.

Definition meets_threshold (p : policy_row) : bool :=
  threshold <=? p_qualification p - m_existing (p_values p) - m_retained (p_values p).

Definition is_wallet (p : policy_row) : bool :=
  bool_decide (p_class p ∈ [Some "wallet"; Some "validator_wallet"]).

(** The sums within a row. *)
Definition check_amounts (v : amounts) (qualification : Z) : result unit :=
  raise_when (qualification <? threshold) (ValueError "below-threshold stage row");;
  raise_when (negb (m_gross v - m_existing v - m_retained v - m_wone v - m_contract v =? m_allocation v))
    (ValueError "stage row does not close").

Definition check_components (v : amounts) : result unit :=
  raise_when (negb (m_wallet v + m_staked v =? m_allocation v)) (ValueError "final components do not close");;
  raise_when (negb (m_contract_wallet v + m_contract_staked v =? m_contract v))
    (ValueError "contract non-issuance components do not close").

Definition check_treatment (stage treatment : option string) (v : amounts) : result string :=
  if decide (treatment = Some "issue") then
    raise_when (negb (cell_truthy stage) || (m_allocation v <=? 0)) (ValueError "issued row has no stage or amount");;
    Ok "issue"
  else if decide (treatment = Some "not_issued") then
    raise_when (cell_truthy stage || negb (m_allocation v =? 0)) (ValueError "not-issued row has stage or amount");;
    Ok "not_issued"
  else Err (ValueError "invalid issuance treatment").

(** The row, from the check for duplicates to [activity_time]. *)
Definition read_row (seen : gset string) (r : row) : result policy_row :=
  a ← cell_str r "address";
  let address := lower a in
  raise_when (bool_decide (address ∈ seen)) (ValueError "duplicate stage address");;
  values ← row_amounts r;
  raise_when (existsb (λ n, n <? 0) (amount_list values)) (ValueError "negative stage amount");;
  qualification ← cell_int r "qualification_total_atto";
  check_amounts values qualification;;
  stage ← cell r "migration_stage";
  t ← cell r "issuance_treatment";
  check_components values;;
  treatment ← check_treatment stage t values;
  time ← cell r "last_activity_time_utc";
  activity ← match time with
             | Some (String _ _ as text) => Some <$> parse_utc text
             | _ => Ok None
             end;
  class ← cell r "account_classification";
  group ← cell r "policy_group";
  routing ← cell r "routing_category";
  Ok (PolicyRow address values qualification stage treatment class group routing activity).

Definition active (since : utc) (p : policy_row) : bool :=
  match p_activity p with Some t => negb (utc_ltb t since) | None => false end.

(** A wallet that the incident deductions take below the threshold. *)
Definition below_threshold (p : policy_row) : bool :=
  is_wallet p && (0 <? m_allocation (p_values p)) && negb (meets_threshold p).

Definition initial_valid (since : utc) (p : policy_row) : bool :=
  is_wallet p && (0 <? m_allocation (p_values p)) && meets_threshold p && active since p.

(** The checks on the stage. *)
Definition check_stage (since : utc) (p : policy_row) : result unit :=
  raise_when (below_threshold p && negb (bool_decide (p_stage p = Some "deferred")))
    (ValueError "wallet below threshold after incident deductions is not deferred");;
  (if decide (p_stage p = Some "initial") then raise_when (negb (initial_valid since p)) (ValueError "invalid initial-stage row")
   else raise_when (bool_decide (p_stage p = Some "deferred") && initial_valid since p)
          (ValueError "active wallet incorrectly deferred"));;
  raise_when (bool_decide (p_class p = Some "genuine_contract") && bool_decide (p_stage p = Some "initial"))
    (ValueError "genuine contract entered initial stage").

(** ** The loop *)
Record stage_total := StageTotal { sg_addresses : Z; sg_allocation : Z }.

Definition no_stage : stage_total := StageTotal 0 0.

Record group := Group {
  g_addresses : Z;
  g_allocation : Z;
  g_wallet : Z;
  g_staked : Z;
  g_not_issued : Z;
  g_not_issued_wallet : Z;
  g_not_issued_staked : Z;
}.

Definition no_group : group := Group 0 0 0 0 0 0 0.

Definition add_to_group (v : amounts) (g : group) : group :=
  Group (g_addresses g + 1) (g_allocation g + m_allocation v) (g_wallet g + m_wallet v) (g_staked g + m_staked v)
    (g_not_issued g + m_contract v) (g_not_issued_wallet g + m_contract_wallet v)
    (g_not_issued_staked g + m_contract_staked v).

Record state := State {
  s_seen : gset string;
  s_stages : gmap string stage_total;
  s_treatments : gmap string Z;
  s_contracts : gmap (option string) group;
  s_totals : amounts;
  s_routing : gmap (option string) Z;
  s_validators : Z;
  s_below : stage_total;
}.

Definition initial_state : state := State ∅ ∅ ∅ ∅ no_amounts ∅ 0 no_stage.

Definition add_to_stage (v : amounts) (g : stage_total) : stage_total :=
  StageTotal (sg_addresses g + 1) (sg_allocation g + m_allocation v).

Definition add_row (s : state) (p : policy_row) : state :=
  let v := p_values p in
  State ({[p_address p]} ∪ s_seen s)
    (match p_stage p with
     | Some (String _ _ as stage) => <[stage := add_to_stage v (default no_stage (s_stages s !! stage))]> (s_stages s)
     | _ => s_stages s
     end)
    (madd (p_treatment p) 1 (s_treatments s))
    (if decide (p_class p = Some "genuine_contract") then
       <[p_group p := add_to_group v (default no_group (s_contracts s !! p_group p))]> (s_contracts s)
     else s_contracts s)
    (add_amounts (s_totals s) v)
    (if decide (p_stage p = Some "initial") then madd (p_routing p) 1 (s_routing s) else s_routing s)
    (if decide (p_stage p = Some "initial") then s_validators s + Z.b2z (bool_decide (p_class p = Some "validator_wallet"))
     else s_validators s)
    (if below_threshold p then add_to_stage v (s_below s) else s_below s).

(** The body of the loop over the rows. *)
Definition policy_step (since : utc) (s : state) (r : row) : result state :=
  p ← read_row (s_seen s) r;
  check_stage since p;;
  Ok (add_row s p).

(** ** The checks on the totals *)

(** [v1 != d[k1] or v2 != d[k2] or ...] *)
Fixpoint differs (l : list (Z * list string)) (d : json) : result bool :=
  match l with
  | [] => Ok false
  | (n, ks) :: l => v ← jpath ks d; if jeq_int v n then differs l d else Ok true
  end.

(** [set(stages) != set(v)] *)
Definition keys_differ (stages : gset string) (v : json) : result bool :=
  l ← jiter v;
  raise_when (existsb (λ x, match x with JArr _ | JObj _ => true | _ => false end) l) TypeError;;
  let strings := omap (λ x, match x with JStr s => Some s | _ => None end) l in
  Ok (negb ((length strings =? length l)%nat && bool_decide (list_to_set strings = stages))).

Definition check_stages (s : state) (stage_summary : json) : result unit :=
  n ← jpath_int ["qualified_rows"] stage_summary;
  raise_when (negb (Z.of_nat (size (s_seen s)) =? n)) (ValueError "stage row count mismatch");;
  rows ← jget "stage_rows" stage_summary;
  d ← keys_differ (dom (s_stages s)) rows;
  raise_when d (ValueError "stage labels do not match summary");;
  foldM (λ _ kv, v ← jpath ["stage_rows"; kv.1] stage_summary;
           raise_when (negb (jeq_int v (sg_addresses kv.2))) (ValueError "address count mismatch")) tt (map_to_list (s_stages s)).

Definition treatments_json (s : state) : json :=
  JObj (prod_map id JInt <$> sort_by (λ a b, str_leb a.1 b.1) (map_to_list (s_treatments s))).

Definition check_group (stage_summary : json) (kg : option string * group) : result unit :=
  expected ← (groups ← jpath ["contracts"; "groups"] stage_summary;
              match kg.1 with Some k => jget k groups | None => Err (KeyError "None") end);
  let g := kg.2 in
  d ← differs [(g_addresses g, ["addresses"]); (g_allocation g, ["allocation_atto"]); (g_wallet g, ["wallet_allocation_atto"]);
               (g_staked g, ["staked_allocation_atto"]); (g_not_issued g, ["not_issued_atto"]);
               (g_not_issued_wallet g, ["not_issued_wallet_atto"]); (g_not_issued_staked g, ["not_issued_staked_atto"])] expected;
  raise_when d (ValueError "contract totals mismatch").

Definition check_labels (s : state) (stage_summary : json) : result unit :=
  check_stages s stage_summary;;
  t ← jget "issuance_treatment_rows" stage_summary;
  raise_when (negb (py_eq (treatments_json s) t)) (ValueError "issuance-treatment counts do not match summary");;
  foldM (λ _ kg, check_group stage_summary kg) tt (map_to_list (s_contracts s)).

Record supply := Supply { su_existing : Z; su_historical : Z; su_retained : Z; su_leak : Z }.

(** The reviewed amounts against the summary of the non-issuance audit. *)
Definition check_supply (allocation supply_non_issuance : json) : result supply :=
  existing ← jpath_int ["existing_non_issuance_atto"] allocation;
  historical ← jpath_int ["historical_retained_caps_atto"] allocation;
  e ← jpath_int ["existing_non_issuance"; "not_issued_atto"] supply_non_issuance;
  raise_when (negb (existing =? e)) (ValueError "existing non-issuance total mismatch");;
  retained ← jpath_int ["historical_hack_retained_initial_addresses"; "not_issued_atto"] supply_non_issuance;
  section ← jget_default "revert_leak_credited_recipients" (JObj []) supply_non_issuance;
  l ← jget_default "not_issued_atto" (JInt 0) section;
  leak ← jint l;
  raise_when (negb (historical =? retained + leak)) (ValueError "historical retained-cap total mismatch");;
  t ← jpath_int ["totals"; "not_issued_atto"] supply_non_issuance;
  raise_when (negb (existing + historical =? t)) (ValueError "supply non-issuance total does not close");;
  Ok (Supply existing historical retained leak).

Definition stage_of (s : state) (stage : string) : stage_total := default no_stage (s_stages s !! stage).

Definition total_migration (gross wone : Z) (su : supply) (s : state) : Z :=
  gross - su_existing su - su_historical su - wone - m_contract (s_totals s).

(** What [main] has derived when every check has passed. *)
Record reconciled := Reconciled {
  r_state : state;
  r_supply : supply;
  r_gross : Z;
  r_wone : Z;
  r_total : Z;
  r_deferred : Z;
}.

Definition check_composition (s : state) (stage_summary : json) : result unit :=
  d ← differs [(mget (s_routing s) (Some "automatic_policy"), ["initial_wallets"; "automatic_policy_addresses"]);
               (mget (s_routing s) (Some "exchange_or_manual"), ["initial_wallets"; "manual_routing_addresses"]);
               (s_validators s, ["validator_wrappers"; "initial_addresses"])] stage_summary;
  raise_when d (ValueError "initial wallet composition mismatch");;
  deferred ← jget "deferred_wallets" stage_summary;
  n ← jpath_int ["below_threshold_after_incident_deductions_addresses"] deferred;
  bad ← (if negb (sg_addresses (s_below s) =? n) then Ok true
         else m ← jpath_int ["below_threshold_after_incident_deductions_atto"] deferred;
              Ok (negb (sg_allocation (s_below s) =? m)));
  raise_when bad (ValueError "below-threshold-after-deductions wallets mismatch").

Definition check_totals (s : state) (stage_summary migration supply_non_issuance : json) : result reconciled :=
  allocation ← jget "allocation" stage_summary;
  su ← check_supply allocation supply_non_issuance;
  gross ← jpath_int ["native_total_claim_atto"] migration;
  wone ← jpath_int ["wone_retained_not_issued_atto"] migration;
  let total := total_migration gross wone su s in
  g ← jpath_int ["gross_native_snapshot_atto"] allocation;
  raise_when (negb (gross =? g)) (ValueError "gross native snapshot mismatch");;
  t ← jpath_int ["total_migration_atto"] allocation;
  raise_when (negb (total =? t)) (ValueError "total migration allocation mismatch");;
  reserve ← jpath_int ["wone_reserve_atto"] migration;
  raise_when (negb (m_wone (s_totals s) =? reserve)) (ValueError "WONE source offset mismatch");;
  contract ← jpath_int ["reviewed_contract_non_issuance_atto"] allocation;
  raise_when (negb (m_contract (s_totals s) =? contract)) (ValueError "reviewed-contract non-issuance mismatch");;
  i ← jpath_int ["initial_wallets_atto"] allocation;
  raise_when (negb (sg_allocation (stage_of s "initial") =? i)) (ValueError "initial wallet allocation mismatch");;
  check_composition s stage_summary;;
  n ← jpath_int ["next_stage_contracts_atto"] allocation;
  raise_when (negb (sg_allocation (stage_of s "next_stage") =? n)) (ValueError "next-stage allocation mismatch");;
  deferred ← jpath_int ["deferred_wallets_atto"] allocation;
  raise_when (negb (sg_allocation (stage_of s "initial") + sg_allocation (stage_of s "next_stage") + deferred =? total))
    (ValueError "stage allocation does not close");;
  Ok (Reconciled s su gross wone total deferred).

(** [main] up to its result, with what the result quotes. *)
Definition reconcile (a : args) : IO (reconciled * list (string * string) * json) :=
  stage_summary ← load_passed (a_stage_summary a) "stage summary";
  migration ← load_passed (a_migration_summary a) "migration summary";
  supply_non_issuance ← load_passed (a_supply_summary a) "supply non-issuance summary";
  hashes ← map_io hash_source (sources a);
  lift (check_hashes a hashes stage_summary) ≫= λ _,
  since_text ← lift (jpath ["initial_window"; "since_time_utc"] stage_summary);
  initial_since ← lift (t ← jstr since_text; parse_utc t);
  text ← read (a_stage_policy a);
  lift (raise_when (negb (bool_decide (missing_fields text = []))) (ValueError "stage policy is missing fields")) ≫= λ _,
  s ← lift (foldM (policy_step initial_since) initial_state (dict_rows text));
  lift (check_labels s stage_summary) ≫= λ _,
  r ← lift (check_totals s stage_summary migration supply_non_issuance);
  mret (r, hashes, since_text).

(** ** The result *)

(** The stages as the result lists them: the checks have looked two of them up in a [defaultdict]. *)
Definition listed_stages (s : state) : gmap string stage_total :=
  let touch k m := match m !! k with Some _ => m | None => <[k := no_stage]> m end in
  touch "next_stage" (touch "initial" (s_stages s)).

Definition stage_json (g : stage_total) : json :=
  JObj [("addresses", JInt (sg_addresses g)); ("allocation_atto", JInt (sg_allocation g))].

Definition group_json (g : group) : json :=
  JObj [("addresses", JInt (g_addresses g)); ("allocation_atto", JInt (g_allocation g));
        ("wallet_allocation_atto", JInt (g_wallet g)); ("staked_allocation_atto", JInt (g_staked g));
        ("not_issued_atto", JInt (g_not_issued g)); ("not_issued_wallet_atto", JInt (g_not_issued_wallet g));
        ("not_issued_staked_atto", JInt (g_not_issued_staked g))].

Definition sorted_items {A} (f : A → json) (m : gmap string A) : list (string * json) :=
  prod_map id f <$> sort_by (λ a b, str_leb a.1 b.1) (map_to_list m).

(** The groups: their labels are strings, for [check_group] found each in an object. *)
Definition named_groups (s : state) : gmap string group :=
  list_to_map (omap (M := list) (λ kg : option string * group, (λ k, (k, kg.2)) <$> kg.1) (map_to_list (s_contracts s))).

Definition allocation_json (r : reconciled) : json :=
  let s := r_state r in
  JObj [("gross_native_snapshot_atto", JInt (r_gross r));
        ("existing_non_issuance_atto", JInt (su_existing (r_supply r)));
        ("historical_retained_caps_atto", JInt (su_historical (r_supply r)));
        ("historical_incident_contract_recipients_atto", JInt (su_retained (r_supply r)));
        ("revert_leak_credited_recipients_atto", JInt (su_leak (r_supply r)));
        ("wone_retained_not_issued_atto", JInt (r_wone r));
        ("reviewed_contract_non_issuance_atto", JInt (m_contract (s_totals s)));
        ("abandoned_contracts_public_aggregate_atto", JInt (r_wone r + m_contract (s_totals s)));
        ("initial_wallets_atto", JInt (sg_allocation (stage_of s "initial")));
        ("next_stage_contracts_atto", JInt (sg_allocation (stage_of s "next_stage")));
        ("deferred_wallets_atto", JInt (r_deferred r));
        ("total_exclusions_atto", JInt (r_gross r - r_total r));
        ("total_migration_atto", JInt (r_total r))].

Definition result_json (a : args) (r : reconciled) (hashes : list (string * string)) (since : json) : json :=
  let s := r_state r in
  JObj [("schema_version", JInt 1); ("status", JStr "passed");
        ("method", JStr "independent row-level re-sum of migration-stage policy and cross-repository non-issuance sources");
        ("_provenance", JObj
           [("classification", JStr "policy-scenario verification");
            ("factual_input", JStr "cutoff-pinned migration ledger, contract identities, activity, and retained-balance evidence");
            ("note", JStr "stage and non-issuance treatments are user-selected migration policy; gross native supply remains factual")]);
        ("sources", JObj ((λ np, (np.1, JObj [("path", JStr np.2);
                             ("sha256", JStr (default EmptyString (assoc np.1 hashes)))])) <$> sources a));
        ("qualified_rows", JInt (Z.of_nat (size (s_seen s))));
        ("initial_wallets", JObj
           [("automatic_policy_addresses", JInt (mget (s_routing s) (Some "automatic_policy")));
            ("manual_routing_addresses", JInt (mget (s_routing s) (Some "exchange_or_manual")));
            ("validator_wrapper_addresses", JInt (s_validators s)); ("since_time_utc", since)]);
        ("deferred_below_threshold_after_incident_deductions", stage_json (s_below s));
        ("stages", JObj (sorted_items stage_json (listed_stages s)));
        ("issuance_treatments", treatments_json s);
        ("contracts", JObj (sorted_items group_json (named_groups s)));
        ("allocation", allocation_json r); ("output", JStr (a_output a))].

(** ** The report *)

(** [f"{n:,}"] for [n >= 0] *)
Fixpoint commas_from (fuel : nat) (n : Z) (tail : string) : string :=
  match fuel with
  | S fuel => if n <? 1000 then str_of_Z n +:+ tail else commas_from fuel (n / 1000) ("," +:+ zpad 3 (n mod 1000) +:+ tail)
  | O => tail
  end.

Definition commas (n : Z) : string := commas_from (S (Z.to_nat (Z.log2 n))) n EmptyString.

Definition table (headers : list string) (rows : list (list string)) : string :=
  join newline (("| " +:+ join " | " headers +:+ " |") :: ("|" +:+ join "|" ((λ _, "---") <$> headers) +:+ "|") ::
    ((λ row, "| " +:+ join " | " row +:+ " |") <$> rows)).

(** [contracts[name]] in the report: a group with no row raises. *)
Definition find_group (s : state) (name : string) : result group := of_option (named_groups s !! name) (KeyError name).

Definition stage_table (r : reconciled) : string :=
  let s := r_state r in
  let line label stage := [label; commas (sg_addresses (stage_of s stage)); one (sg_allocation (stage_of s stage))] in
  table ["Allocation bucket"; "Addresses"; "ONE"]
    [line "Initial wallets" "initial"; line "Next-stage reviewed contracts" "next_stage";
     ["Deferred wallets"; "not a destination manifest"; one (r_deferred r)];
     ["Total migration allocation"; EmptyString; one (r_total r)]].

Definition contract_table (s : state) : result string :=
  multisig ← find_group s "multisig";
  bridge ← find_group s "layerzero_bridge_collateral";
  onewallet ← find_group s "onewallet";
  smartvault ← find_group s "smartvault";
  other ← find_group s "other_reviewed_contract";
  Ok (table ["Internal group"; "Addresses"; "ONE"; "Migration stage"; "Issuance treatment"]
    [["Multisigs"; commas (g_addresses multisig); one (g_allocation multisig); "next stage"; "issue after per-address destination approval"];
     ["LayerZero collateral"; commas (g_addresses bridge); one (g_allocation bridge); "next stage"; "issue after reconciliation"];
     ["1wallet"; commas (g_addresses onewallet); one (g_allocation onewallet); "next stage"; "issue after recovery destination approval"];
     ["SmartVault"; commas (g_addresses smartvault); one (g_not_issued smartvault); "—"; "not issued"];
     ["Other reviewed contracts"; commas (g_addresses other); one (g_not_issued other); "—"; "not issued"]]).

Definition lines_of (l : list string) : string := join newline l.

Definition report_head (r : reconciled) : string :=
  let s := r_state r in
  lines_of
    ["# Migration policy reconciliation"; ""; "Prepared: `2026-09-17`"; "";
     "This independently re-sums the migration repository's address-level stage";
     "policy from shared source artifacts rather than an editorial calculation."; ""; "## Result"; "";
     stage_table r; "";
     "The initial cohort contains only positive eligible wallets that hold at least";
     "1,000 ONE after incident deductions (reviewed non-issuance and retained";
     "exploit caps) and have indexed activity in the six calendar months before";
     "cutoff. `" +:+ commas (sg_addresses (s_below s)) +:+ "`";
     "snapshot-qualified wallets";
     "(`" +:+ one (sg_allocation (s_below s)) +:+ " ONE`";
     "remaining) fall below 1,000 ONE after those deductions and are deferred with";
     "the below-threshold wallets. Reviewed contracts are not";
     "present in its activity rows. Exchange/manual routing rows remain allocations;";
     "their routing category does not mean non-issuance. In the migration";
     "repository's compiled routing, confirmed exchange wallets leave this cohort for";
     "the `exchange_manual` stage: they are excluded from the airdrop and delivered";
     "manually from the 2050 supply reserve, so the stage-policy count below is an";
     "upper bound on the airdropped initial cohort.";
     "It contains `" +:+ commas (mget (s_routing s) (Some "automatic_policy")) +:+ "`";
     "automatic-policy rows and";
     "`" +:+ commas (mget (s_routing s) (Some "exchange_or_manual")) +:+ "` exchange/manual";
     "rows, including";
     "`" +:+ commas (s_validators s) +:+ "` verified";
     "validator wallets."; ""; "## Reviewed contract partition"; ""].

Definition report_tail (a : args) (r : reconciled) : string :=
  let contract := m_contract (s_totals (r_state r)) in
  lines_of
    [""; "“Abandoned contracts” is the approved public aggregate label:";
     "`" +:+ one contract +:+ " + `"; "`" +:+ one (r_wone r) +:+ " = `"; "`" +:+ one (r_wone r + contract) +:+ " ONE`.";
     "It is not an on-chain abandonment finding."; ""; "## Conservation"; ""; "```text";
     "gross native snapshot                      " +:+ one (r_gross r);
     "- existing non-issuance                    " +:+ one (su_existing (r_supply r));
     "- historical retained caps                 " +:+ one (su_historical (r_supply r));
     "    incident-contract recipients           " +:+ one (su_retained (r_supply r));
     "    revert-leak credited wallets         " +:+ one (su_leak (r_supply r));
     "- retained WONE backing                     " +:+ one (r_wone r);
     "- reviewed-contract non-issuance            " +:+ one contract;
     "= total migration allocation               " +:+ one (r_total r);
     "```"; "";
     "The fixed premint is unchanged. Not issued means omitted from migration token";
     "and vault allocations and retained within the 2050 premint reserve; it is not";
     "a burn or treasury transfer."; ""; "## Verification"; "";
     "- Address-stage rows are unique and match the recorded SHA-256.";
     "- The threshold-qualified stage set is disjoint by stage.";
     "- Every initial wallet holds at least 1,000 ONE after incident deductions;";
     "  every wallet below that is deferred, and their count and amount match the";
     "  stage summary.";
     "- Validator wrappers remain wallet accounts.";
     "- Contract group amounts, WONE source offset, and both non-issuance inventories";
     "  re-sum independently.";
     "- Initial + next-stage + deferred equals the total migration allocation."; "";
     "Machine-readable result: `" +:+ a_output a +:+ "`."; ""].

Definition render_report (a : args) (r : reconciled) : result string :=
  t ← contract_table (r_state r);
  Ok (lines_of [report_head r; t; report_tail a r]).

Definition main (a : args) : IO reconciled :=
  '(r, hashes, since) ← reconcile a;
  write_text (a_output a) (dumps (result_json a r hashes since) +:+ newline) (a_replace a) ≫= λ _,
  report ← lift (render_report a r);
  write_text (a_report a) report (a_replace a) ≫= λ _,
  mret r.

(** ** Lemmas: a row *)

(** What the checks of a row establish. *)
Record row_ok (since : utc) (p : policy_row) : Prop := {
  ro_positive : Forall (λ n, 0 ≤ n) (amount_list (p_values p));
  ro_qualified : threshold ≤ p_qualification p;
  ro_closes : m_gross (p_values p) - m_existing (p_values p) - m_retained (p_values p) - m_wone (p_values p) -
    m_contract (p_values p) = m_allocation (p_values p);
  ro_components : m_wallet (p_values p) + m_staked (p_values p) = m_allocation (p_values p);
  ro_contract : m_contract_wallet (p_values p) + m_contract_staked (p_values p) = m_contract (p_values p);
  ro_treatment : (p_treatment p = "issue" ∧ cell_truthy (p_stage p) = true ∧ 0 < m_allocation (p_values p)) ∨
    (p_treatment p = "not_issued" ∧ cell_truthy (p_stage p) = false ∧ m_allocation (p_values p) = 0);
  ro_initial : p_stage p = Some "initial" → initial_valid since p = true;
  ro_deferred : p_stage p = Some "deferred" → initial_valid since p = false;
  ro_below : below_threshold p = true → p_stage p = Some "deferred";
  ro_genuine : p_class p = Some "genuine_contract" → p_stage p ≠ Some "initial";
}.

(** The figures of a row are its cells. *)
Record row_of (r : row) (p : policy_row) : Prop := {
  rf_address : ∃ address, cell_str r "address" = Ok address ∧ p_address p = lower address;
  rf_gross : cell_int r "gross_allocation_atto" = Ok (m_gross (p_values p));
  rf_existing : cell_int r "existing_non_issuance_atto" = Ok (m_existing (p_values p));
  rf_retained : cell_int r "historical_retained_cap_atto" = Ok (m_retained (p_values p));
  rf_wone : cell_int r "wone_source_offset_atto" = Ok (m_wone (p_values p));
  rf_contract : cell_int r "reviewed_contract_non_issuance_atto" = Ok (m_contract (p_values p));
  rf_contract_wallet : cell_int r "reviewed_contract_wallet_non_issuance_atto" = Ok (m_contract_wallet (p_values p));
  rf_contract_staked : cell_int r "reviewed_contract_staked_non_issuance_atto" = Ok (m_contract_staked (p_values p));
  rf_wallet : cell_int r "migration_wallet_allocation_atto" = Ok (m_wallet (p_values p));
  rf_staked : cell_int r "migration_staked_to_vault_atto" = Ok (m_staked (p_values p));
  rf_allocation : cell_int r "migration_allocation_atto" = Ok (m_allocation (p_values p));
  rf_qualification : cell_int r "qualification_total_atto" = Ok (p_qualification p);
  rf_stage : cell r "migration_stage" = Ok (p_stage p);
  rf_treatment : cell r "issuance_treatment" = Ok (Some (p_treatment p));
}.

Lemma check_treatment_Ok stage t v t' :
  check_treatment stage t v = Ok t' →
  t = Some t' ∧
  ((t' = "issue" ∧ cell_truthy stage = true ∧ 0 < m_allocation v) ∨
   (t' = "not_issued" ∧ cell_truthy stage = false ∧ m_allocation v = 0)).
Proof.
  unfold check_treatment. case_decide; [|case_decide; [|done]]; intros H1; inv_ok H1; subst t'; bool_facts; (split; [done|]).
  - left. apply negb_false_iff in H1 || idtac. split_and!; [done| |lia]. by destruct (cell_truthy stage).
  - right. split_and!; [done..|lia].
Qed.

Lemma check_stage_Ok since p :
  check_stage since p = Ok tt →
  (p_stage p = Some "initial" → initial_valid since p = true) ∧
  (p_stage p = Some "deferred" → initial_valid since p = false) ∧
  (below_threshold p = true → p_stage p = Some "deferred") ∧
  (p_class p = Some "genuine_contract" → p_stage p ≠ Some "initial").
Proof.
  unfold check_stage. intros H.
  apply bind_Ok in H as ([] & H1%raise_when_Ok & H). apply bind_Ok in H as ([] & H2 & H3%raise_when_Ok).
  split_and!.
  - intros E. rewrite decide_True in H2 by done. apply raise_when_Ok, negb_false_iff in H2. done.
  - intros E. rewrite decide_False in H2 by congruence. apply raise_when_Ok in H2.
    rewrite bool_decide_eq_true_2 in H2 by done. done.
  - intros E. rewrite E in H1. simpl in H1. by apply negb_false_iff, bool_decide_eq_true in H1.
  - intros E1 E2. rewrite !bool_decide_eq_true_2 in H3 by done. done.
Qed.

Lemma read_row_Ok since seen r p :
  read_row seen r = Ok p → check_stage since p = Ok tt → p_address p ∉ seen ∧ row_of r p ∧ row_ok since p.
Proof.
  intros H Hs. apply check_stage_Ok in Hs as (Hs1 & Hs2 & Hs3 & Hs4). unfold read_row in H.
  unfold check_amounts, check_components in H. inv_ok H. subst p. bool_facts.
  match goal with H : check_treatment _ _ _ = Ok _ |- _ => apply check_treatment_Ok in H as [-> Htreat] end.
  split; [done|]. split.
  { match goal with H : row_amounts _ = Ok _ |- _ => unfold row_amounts in H; inv_ok H; subst end. split; simpl; eauto. }
  split; simpl; try done; try lia.
  apply Forall_forall. intros n Hn. destruct (Z.le_gt_cases 0 n) as [|Hneg]; [done|].
  match goal with H : existsb _ _ = false |- _ => rewrite <-not_true_iff_false, existsb_exists in H; destruct H end.
  exists n. split; [by apply list_elem_of_In|lia].
Qed.

(** ** Lemmas: the loop *)
Definition allocated (p : policy_row) : Z := m_allocation (p_values p).
Definition stage_rows (stage : string) (ps : list policy_row) : list policy_row := filter (λ p, p_stage p = Some stage) ps.

(** The state after the rows [ps]. *)
Record summed (ps : list policy_row) (s : state) : Prop := {
  sm_seen : s_seen s = list_to_set (p_address <$> ps);
  sm_distinct : NoDup (p_address <$> ps);
  sm_addresses : ∀ st, st ≠ EmptyString → sg_addresses (stage_of s st) = Z.of_nat (length (stage_rows st ps));
  sm_allocation : ∀ st, st ≠ EmptyString → sg_allocation (stage_of s st) = sum_by allocated (stage_rows st ps);
  sm_stages : msum (sg_allocation <$> s_stages s) = sum_by allocated ps;
  sm_totals : s_totals s = foldl add_amounts no_amounts (p_values <$> ps);
  sm_treatments : ∀ t, mget (s_treatments s) t = Z.of_nat (length (filter (λ p, p_treatment p = t) ps));
  sm_below_rows : sg_addresses (s_below s) = Z.of_nat (length (filter (λ p, below_threshold p = true) ps));
  sm_below : sg_allocation (s_below s) = sum_by allocated (filter (λ p, below_threshold p = true) ps);
  sm_groups : msum (g_not_issued <$> s_contracts s) =
    sum_by (λ p, m_contract (p_values p)) (filter (λ p, p_class p = Some "genuine_contract") ps);
}.

Lemma no_rows_summed : summed [] initial_state.
Proof. split; try done. constructor. Qed.

Lemma stage_of_add s p st :
  st ≠ EmptyString →
  stage_of (add_row s p) st = if decide (p_stage p = Some st) then add_to_stage (p_values p) (stage_of s st) else stage_of s st.
Proof.
  intros Hne. unfold stage_of. cbn [s_stages add_row]. case_decide as Hs.
  - rewrite Hs. destruct st as [|c t]; [done|]. by rewrite lookup_insert_eq.
  - destruct (p_stage p) as [[|c t]|]; [done| |done]. by rewrite lookup_insert_ne by congruence.
Qed.

(** A row outside every stage allocates nothing. *)
Lemma row_ok_unstaged since p : row_ok since p → cell_truthy (p_stage p) = false → allocated p = 0.
Proof. intros Hr Hs. destruct (ro_treatment _ _ Hr) as [(_ & Ht & _)|(_ & _ & H)]; [congruence|exact H]. Qed.

Lemma add_row_stages since s p :
  row_ok since p → msum (sg_allocation <$> s_stages (add_row s p)) = msum (sg_allocation <$> s_stages s) + allocated p.
Proof.
  intros Hr. pose proof (row_ok_unstaged since p Hr) as Hz. simpl. destruct (p_stage p) as [[|c t]|]; simpl in *.
  - rewrite Hz by done. lia.
  - rewrite (msum_fmap_insert _ no_stage) by done. unfold allocated. simpl. lia.
  - rewrite Hz by done. lia.
Qed.

Lemma add_row_summed since ps s p :
  summed ps s → p_address p ∉ s_seen s → row_ok since p → summed (ps ++ [p]) (add_row s p).
Proof.
  intros [] Hn Hr. split.
  - simpl. rewrite fmap_app, list_to_set_app_L, sm_seen0. simpl. by rewrite union_empty_r_L, union_comm_L.
  - rewrite fmap_app. apply NoDup_snoc; [done|]. rewrite sm_seen0 in Hn. by rewrite elem_of_list_to_set in Hn.
  - intros st Hst. rewrite stage_of_add by done. unfold stage_rows in *. rewrite filter_app, keep_one, length_app.
    case_decide; simpl; rewrite sm_addresses0 by done; lia.
  - intros st Hst. rewrite stage_of_add by done. unfold stage_rows in *. rewrite filter_app, keep_one, sum_by_app.
    case_decide; simpl; rewrite sm_allocation0, ?sum_by_cons, sum_by_nil by done; unfold allocated; lia.
  - rewrite (add_row_stages since), sm_stages0, sum_by_snoc by done. done.
  - simpl. by rewrite sm_totals0, fmap_app, foldl_app.
  - intros t. simpl. rewrite mget_madd, sm_treatments0, filter_app, keep_one, length_app. case_decide; simpl; lia.
  - rewrite filter_app, keep_one, length_app. simpl. destruct (below_threshold p); simpl; rewrite sm_below_rows0; lia.
  - rewrite filter_app, keep_one, sum_by_app. simpl. unfold allocated in *.
    destruct (below_threshold p); simpl; rewrite sm_below0, ?sum_by_cons, sum_by_nil; lia.
  - rewrite filter_app, keep_one, sum_by_app. simpl. case_decide.
    + rewrite (msum_fmap_insert _ no_group), sm_groups0, sum_by_cons, sum_by_nil by done. simpl. lia.
    + rewrite sm_groups0, sum_by_nil. lia.
Qed.

(** The rows that the loop read, in the order of the table. *)
Definition rows_read (rows : list row) (ps : list policy_row) : Prop := Forall2 row_of rows ps.

Lemma policy_loop since rows s :
  foldM (policy_step since) initial_state rows = Ok s →
  ∃ ps, rows_read rows ps ∧ Forall (row_ok since) ps ∧ summed ps s.
Proof.
  apply (foldM_ind _ (λ rows s, ∃ ps, rows_read rows ps ∧ Forall (row_ok since) ps ∧ summed ps s)).
  - exists []. split_and!; [constructor|constructor|apply no_rows_summed].
  - intros pre r s1 s2 (ps & Hread & Hok & Hsum) _ H. unfold policy_step in H.
    apply bind_Ok in H as (p & Hp & H). apply bind_Ok in H as ([] & Hs & [= <-]).
    destruct (read_row_Ok since _ _ _ Hp Hs) as (Hn & Hf & Hr). exists (ps ++ [p]). split_and!.
    + apply Forall2_app; [done|]. by constructor.
    + apply Forall_app_2; [done|]. by apply Forall_singleton.
    + by apply (add_row_summed since).
Qed.

(** ** Lemmas: the run *)
Lemma totals_field (f : amounts → Z) ps :
  (∀ a b, f (add_amounts a b) = f a + f b) → f no_amounts = 0 →
  f (foldl add_amounts no_amounts (p_values <$> ps)) = sum_by (λ p, f (p_values p)) ps.
Proof.
  intros Ha H0. induction ps as [|p ps IH] using rev_ind; [done|].
  rewrite fmap_app, foldl_app, sum_by_snoc. simpl. by rewrite Ha, IH.
Qed.

Lemma jeq_str_eq v s : jeq_str v s = true → v = JStr s.
Proof. destruct v; try done. by intros ->%bool_decide_eq_true. Qed.

(** A summary that is on disk and says that it passed. *)
Definition passed_at (w : world) (path : string) (v : json) : Prop :=
  ∃ text, files w !! path = Some text ∧ loads text = Ok v ∧ jget_opt "status" v = Ok (JStr "passed").

Lemma load_passed_Ok path label w v w' : load_passed path label w = (Ok v, w') → w' = w ∧ passed_at w path v.
Proof.
  intros H. unfold load_passed, load_json in H. apply io_bind_Ok in H as (x & w1 & H1 & H).
  apply io_bind_Ok in H1 as (t & w2 & [-> Ht]%read_Ok & [-> Hx]%lift_Ok).
  apply io_bind_Ok in H as (st & w1 & [-> Hst]%lift_Ok & H). apply io_bind_Ok in H as ([] & w1 & [-> Hp%raise_when_Ok]%lift_Ok & H).
  apply mret_Ok in H as [-> <-]. split; [done|]. exists t. split_and!; [done..|]. bool_facts. by apply jeq_str_eq in Hp as ->.
Qed.

Lemma hash_sources_Ok l w hs w' :
  map_io hash_source l w = (Ok hs, w') →
  w' = w ∧ Forall2 (λ np nh, nh.1 = np.1 ∧ ∃ s, files w !! np.2 = Some s ∧ nh.2 = sha256 s) l hs.
Proof.
  revert hs w'. induction l as [|np l IH]; intros hs w' H; cbn [map_io] in H; [by apply mret_Ok in H as [-> <-]|].
  apply io_bind_Ok in H as (y & w1 & H1 & H). apply io_bind_Ok in H as (ys & w2 & H2 & [-> <-]%mret_Ok).
  unfold hash_source, file_sha256 in H1. apply io_bind_Ok in H1 as (d & w3 & H3 & [-> <-]%mret_Ok).
  rewrite file_sha256_at_read in H3 by lia. injection H3 as Hs <-. apply IH in H2 as [-> H2]. split; [done|]. constructor; [|done].
  split; [done|]. destruct (files w !! np.2) as [s|]; [|done]. injection Hs as <-. by exists s.
Qed.

(** What a run has checked about the figures of the summaries: [allocation] is that of the stage summary, [mi] the migration
    summary and [sn] the summary of the non-issuance audit. *)
Record summaries_agree (allocation mi sn : json) (ps : list policy_row) (r : reconciled) : Prop := {
  sa_gross : jpath_int ["native_total_claim_atto"] mi = Ok (r_gross r);
  sa_gross_stage : jpath_int ["gross_native_snapshot_atto"] allocation = Ok (r_gross r);
  sa_wone : jpath_int ["wone_retained_not_issued_atto"] mi = Ok (r_wone r);
  sa_wone_reserve : jpath_int ["wone_reserve_atto"] mi = Ok (sum_by (λ p, m_wone (p_values p)) ps);
  sa_contract : jpath_int ["reviewed_contract_non_issuance_atto"] allocation = Ok (sum_by (λ p, m_contract (p_values p)) ps);
  sa_existing_stage : jpath_int ["existing_non_issuance_atto"] allocation = Ok (su_existing (r_supply r));
  sa_existing : jpath_int ["existing_non_issuance"; "not_issued_atto"] sn = Ok (su_existing (r_supply r));
  sa_historical_stage : jpath_int ["historical_retained_caps_atto"] allocation = Ok (su_retained (r_supply r) + su_leak (r_supply r));
  sa_retained : jpath_int ["historical_hack_retained_initial_addresses"; "not_issued_atto"] sn = Ok (su_retained (r_supply r));
  sa_leak : (section ← jget_default "revert_leak_credited_recipients" (JObj []) sn; l ← jget_default "not_issued_atto" (JInt 0) section; jint l) =
    Ok (su_leak (r_supply r));
  sa_not_issued : jpath_int ["totals"; "not_issued_atto"] sn = Ok (su_existing (r_supply r) + (su_retained (r_supply r) + su_leak (r_supply r)));
  sa_total : jpath_int ["total_migration_atto"] allocation = Ok (r_total r);
  sa_initial : jpath_int ["initial_wallets_atto"] allocation = Ok (sum_by allocated (stage_rows "initial" ps));
  sa_next : jpath_int ["next_stage_contracts_atto"] allocation = Ok (sum_by allocated (stage_rows "next_stage" ps));
  sa_deferred : jpath_int ["deferred_wallets_atto"] allocation = Ok (r_deferred r);
}.

Lemma check_supply_Ok allocation v su :
  check_supply allocation v = Ok su →
  su_historical su = su_retained su + su_leak su ∧
  jpath_int ["existing_non_issuance_atto"] allocation = Ok (su_existing su) ∧
  jpath_int ["historical_retained_caps_atto"] allocation = Ok (su_retained su + su_leak su) ∧
  jpath_int ["existing_non_issuance"; "not_issued_atto"] v = Ok (su_existing su) ∧
  jpath_int ["historical_hack_retained_initial_addresses"; "not_issued_atto"] v = Ok (su_retained su) ∧
  (section ← jget_default "revert_leak_credited_recipients" (JObj []) v; l ← jget_default "not_issued_atto" (JInt 0) section; jint l) = Ok (su_leak su) ∧
  jpath_int ["totals"; "not_issued_atto"] v = Ok (su_existing su + (su_retained su + su_leak su)).
Proof.
  unfold check_supply. intros H. inv_ok H. subst su. bool_facts. subst. simpl. split_and!; try done.
  match goal with H : jget_default "revert_leak_credited_recipients" _ _ = Ok _ |- _ => rewrite H end. simpl.
  match goal with H : jget_default "not_issued_atto" _ _ = Ok _ |- _ => by rewrite H end.
Qed.

(** The equations between the totals of a run. *)
Definition closes (r : reconciled) : Prop :=
  r_total r = total_migration (r_gross r) (r_wone r) (r_supply r) (r_state r) ∧
  su_historical (r_supply r) = su_retained (r_supply r) + su_leak (r_supply r) ∧
  sg_allocation (stage_of (r_state r) "initial") + sg_allocation (stage_of (r_state r) "next_stage") + r_deferred r = r_total r.

Lemma check_totals_Ok s stage_summary migration v r ps :
  summed ps s → check_totals s stage_summary migration v = Ok r →
  r_state r = s ∧ closes r ∧ ∃ allocation, jget "allocation" stage_summary = Ok allocation ∧ summaries_agree allocation migration v ps r.
Proof.
  intros Hs H. unfold check_totals in H. inv_ok H. subst r. bool_facts.
  match goal with E : check_supply _ _ = Ok _ |- _ => apply check_supply_Ok in E as (Hh & H1 & H2 & H3 & H4 & H5 & H6) end.
  split; [done|]. split; [by split_and!|]. eexists. split; [done|].
  assert (Hwone : m_wone (s_totals s) = sum_by (λ p, m_wone (p_values p)) ps) by (rewrite (sm_totals _ _ Hs); by apply (totals_field m_wone)).
  assert (Hcontract : m_contract (s_totals s) = sum_by (λ p, m_contract (p_values p)) ps) by (rewrite (sm_totals _ _ Hs); by apply (totals_field m_contract)).
  pose proof (sm_allocation _ _ Hs "initial" ltac:(done)) as Hi. pose proof (sm_allocation _ _ Hs "next_stage" ltac:(done)) as Hn.
  split; simpl; rewrite <-?Hwone, <-?Hcontract, <-?Hi, <-?Hn; congruence.
Qed.

(** What a run reads, and what its checks establish. *)
Record checked (a : args) (w : world) (r : reconciled) (since : utc) (ps : list policy_row) : Prop := {
  ck_text : ∃ text, files w !! a_stage_policy a = Some text ∧ missing_fields text = [] ∧ rows_read (dict_rows text) ps;
  ck_rows : Forall (row_ok since) ps;
  ck_summed : summed ps (r_state r);
  ck_closes : closes r;
}.

(** The summaries that a run reads: they are on disk, they passed, their figures agree with the rows and with one another, and the
    stage summary gives the number of rows and the digests of the table and of the migration summary. *)
Definition summaries_read (a : args) (w : world) (r : reconciled) (ps : list policy_row) : Prop :=
  ∃ ss mi sn allocation,
    passed_at w (a_stage_summary a) ss ∧ passed_at w (a_migration_summary a) mi ∧ passed_at w (a_supply_summary a) sn ∧
    jget "allocation" ss = Ok allocation ∧ summaries_agree allocation mi sn ps r ∧
    jpath_int ["qualified_rows"] ss = Ok (Z.of_nat (length ps)) ∧
    (∃ text, files w !! a_stage_policy a = Some text ∧ jget "output_sha256" ss = Ok (JStr (sha256 text))) ∧
    (∃ text, files w !! a_migration_summary a = Some text ∧ jpath ["sources"; "migration_summary"; "sha256"] ss = Ok (JStr (sha256 text))).

Lemma check_hashes_Ok a w hashes ss :
  Forall2 (λ np nh, nh.1 = np.1 ∧ ∃ s, files w !! np.2 = Some s ∧ nh.2 = sha256 s) (sources a) hashes → check_hashes a hashes ss = Ok tt →
  (∃ text, files w !! a_stage_policy a = Some text ∧ jget "output_sha256" ss = Ok (JStr (sha256 text))) ∧
  (∃ text, files w !! a_migration_summary a = Some text ∧ jpath ["sources"; "migration_summary"; "sha256"] ss = Ok (JStr (sha256 text))).
Proof.
  intros Hh H. unfold sources in Hh. cbn [app] in Hh.
  inversion Hh as [|? [n1 d1] ? hs1 (E1 & s1 & F1 & D1) Hh1]; subst. inversion Hh1 as [|? [n2 d2] ? hs2 (E2 & _) Hh2]; subst.
  inversion Hh2 as [|? [n3 d3] ? hs3 (E3 & s3 & F3 & D3) _]; subst. cbn [fst snd] in *. subst.
  unfold check_hashes in H. apply bind_Ok in H as (o & Ho & H). apply bind_Ok in H as ([] & Heq%raise_when_Ok & H).
  apply bind_Ok in H as (m & Hm & H). apply bind_Ok in H as ([] & Heqm%raise_when_Ok & _). bool_facts.
  apply jeq_str_eq in Heq as ->. apply jeq_str_eq in Heqm as ->. split; [by exists s1|by exists s3].
Qed.

Lemma check_labels_rows s ss ps : summed ps s → check_labels s ss = Ok tt → jpath_int ["qualified_rows"] ss = Ok (Z.of_nat (length ps)).
Proof.
  intros Hs H. unfold check_labels in H. apply bind_Ok in H as ([] & H & _). unfold check_stages in H.
  apply bind_Ok in H as (n & Hn & H). apply bind_Ok in H as ([] & Heq%raise_when_Ok & _). bool_facts.
  rewrite Hn. f_equal. rewrite <-Heq, (sm_seen _ _ Hs), size_list_to_set, length_fmap by apply (sm_distinct _ _ Hs). done.
Qed.

Lemma reconcile_Ok a w r hashes since w' :
  reconcile a w = (Ok (r, hashes, since), w') →
  w' = w ∧ ∃ text t ps, since = JStr text ∧ parse_utc text = Ok t ∧ checked a w r t ps ∧ summaries_read a w r ps.
Proof.
  intros H. unfold reconcile in H.
  apply io_bind_Ok in H as (ss & w1 & [-> Hss]%load_passed_Ok & H). apply io_bind_Ok in H as (mi & w1 & [-> Hmi]%load_passed_Ok & H).
  apply io_bind_Ok in H as (sn & w1 & [-> Hsn]%load_passed_Ok & H).
  apply io_bind_Ok in H as (hs & w1 & [-> Hhs]%hash_sources_Ok & H).
  apply io_bind_Ok in H as ([] & w1 & [-> Hdigests]%lift_Ok & H). apply io_bind_Ok in H as (st & w1 & [-> _]%lift_Ok & H).
  apply io_bind_Ok in H as (t & w1 & [-> Ht]%lift_Ok & H). apply io_bind_Ok in H as (text & w1 & [-> Htext]%read_Ok & H).
  apply io_bind_Ok in H as ([] & w1 & [-> Hm%raise_when_Ok]%lift_Ok & H).
  apply io_bind_Ok in H as (s & w1 & [-> Hs]%lift_Ok & H). apply io_bind_Ok in H as ([] & w1 & [-> Hl]%lift_Ok & H).
  apply io_bind_Ok in H as (r' & w1 & [-> Hr]%lift_Ok & H). apply mret_Ok in H as [-> [= -> -> ->]].
  split; [done|]. apply bind_Ok in Ht as (tt' & Hj & Ht). destruct since as [| | |t'| |]; try done. injection Hj as ->.
  apply policy_loop in Hs as (ps & Hread & Hok & Hsum). apply (check_totals_Ok _ _ _ _ _ ps Hsum) in Hr as (Hst & Hc & allocation & Ha & Hagree).
  destruct (check_hashes_Ok _ _ _ _ Hhs Hdigests) as [Hd1 Hd2].
  exists tt', t, ps. split_and!; [done..| |].
  - bool_facts. split; [by eexists|done|by rewrite Hst|done].
  - exists ss, mi, sn, allocation. split_and!; try done. by eapply check_labels_rows.
Qed.

(** C17 (invariant): the stage policy conserves the claims.  Every address has one row, whose figures are the cells of the table; in each
    row the gross amount less the four deductions is the allocation, which is its wallet and staked part, and the contract amount
    is its two parts.  So the same holds of the totals, and the allocations of the stages add up to the allocation of all rows.
    The gross snapshot is the one that the migration summary and the stage summary both give; the existing, retained, leaked and
    WONE amounts are those of the migration summary, the non-issuance audit and the stage summary; the rows' WONE offsets
    are the migration summary's reserve, and their contract amounts the stage summary's.  The total migration is the gross snapshot less these
    amounts, and is exactly the initial, next-stage and deferred allocations together. *)
Theorem policy_conserves a w r hashes since w' :
  reconcile a w = (Ok (r, hashes, since), w') →
  w' = w ∧ ∃ text ps, files w !! a_stage_policy a = Some text ∧ rows_read (dict_rows text) ps ∧
  let total f := sum_by (λ p, f (p_values p)) ps in
  NoDup (p_address <$> ps) ∧
  (∀ p, p ∈ ps → let v := p_values p in
     m_gross v - m_existing v - m_retained v - m_wone v - m_contract v = m_allocation v ∧
     m_wallet v + m_staked v = m_allocation v ∧ m_contract_wallet v + m_contract_staked v = m_contract v) ∧
  total m_gross - total m_existing - total m_retained - total m_wone - total m_contract = total m_allocation ∧
  msum (sg_allocation <$> s_stages (r_state r)) = total m_allocation ∧
  (∀ stage, stage ≠ EmptyString → sg_allocation (stage_of (r_state r) stage) = sum_by allocated (stage_rows stage ps)) ∧
  summaries_read a w r ps ∧
  r_total r = r_gross r - su_existing (r_supply r) - (su_retained (r_supply r) + su_leak (r_supply r)) - r_wone r - total m_contract ∧
  sum_by allocated (stage_rows "initial" ps) + sum_by allocated (stage_rows "next_stage" ps) + r_deferred r = r_total r.
Proof.
  intros (-> & text & t & ps & _ & _ & [(txt & Htxt & _ & Hread) Hok Hs Hc] & Hsum)%reconcile_Ok. split; [done|].
  exists txt, ps. split; [done|]. split; [done|]. cbv zeta. destruct Hc as (Hc1 & Hc2 & Hc3). destruct Hs. split_and!.
  - done.
  - intros p Hp. rewrite Forall_forall in Hok. destruct (Hok p Hp). done.
  - clear -Hok. induction Hok as [|p ps Hp Hps IH]; [done|]. rewrite !sum_by_cons. pose proof (ro_closes _ _ Hp). lia.
  - exact sm_stages0.
  - done.
  - exact Hsum.
  - rewrite Hc1. unfold total_migration. rewrite Hc2, sm_totals0. rewrite (totals_field m_contract) by done. lia.
  - rewrite <-!sm_allocation0 by done. exact Hc3.
Qed.

(** A row in the initial stage is a wallet that still holds at least 1,000 ONE after the
    incident deductions and was active since the start of the window.  A wallet that meets all
    of this is never deferred, a wallet that the deductions take below the threshold always is,
    a row is issued exactly when it has a stage, and no contract enters the initial stage. *)
Theorem initial_stage_sound a w r hashes since w' :
  reconcile a w = (Ok (r, hashes, since), w') →
  ∃ text start ps, since = JStr text ∧ parse_utc text = Ok start ∧ checked a w r start ps ∧
  ∀ p, p ∈ ps →
    (p_stage p = Some "initial" →
       is_wallet p = true ∧ 0 < allocated p ∧
       threshold ≤ p_qualification p - m_existing (p_values p) - m_retained (p_values p) ∧
       (∃ t, p_activity p = Some t ∧ utc_ltb t start = false) ∧ p_class p ≠ Some "genuine_contract") ∧
    (initial_valid start p = true → p_stage p ≠ Some "deferred") ∧
    (is_wallet p = true → 0 < allocated p →
       p_qualification p - m_existing (p_values p) - m_retained (p_values p) < threshold → p_stage p = Some "deferred") ∧
    (p_treatment p = "issue" ↔ cell_truthy (p_stage p) = true) ∧ (p_treatment p = "issue" ↔ 0 < allocated p).
Proof.
  intros (-> & text & t & ps & Ht & Hp & Hck & _)%reconcile_Ok. exists text, t, ps. split_and!; [done..|].
  intros p Hin. pose proof (proj1 (Forall_forall _ _) (ck_rows _ _ _ _ _ Hck) p Hin) as Hr. unfold allocated. split_and!.
  - intros Hs. pose proof (ro_initial _ _ Hr Hs) as Hv. unfold initial_valid in Hv.
    apply andb_true_iff in Hv as [Hv Ha]. apply andb_true_iff in Hv as [Hv Hm]. apply andb_true_iff in Hv as [Hw Hpos].
    unfold meets_threshold in Hm. split_and!; [done|lia|lia| |].
    + unfold active in Ha. destruct (p_activity p) as [u|]; [|done]. exists u. by apply negb_true_iff in Ha.
    + intros Hg. by apply (ro_genuine _ _ Hr Hg).
  - intros Hv Hd. pose proof (ro_deferred _ _ Hr Hd). congruence.
  - intros Hw Hpos Hlt. apply (ro_below _ _ Hr). unfold below_threshold, meets_threshold. rewrite Hw.
    rewrite (proj2 (Z.ltb_lt _ _) Hpos), (proj2 (Z.leb_gt _ _) Hlt). done.
  - destruct (ro_treatment _ _ Hr) as [(-> & -> & _)|(-> & -> & _)]; done.
  - destruct (ro_treatment _ _ Hr) as [(-> & _ & ?)|(-> & _ & ->)]; split; (done || lia).
Qed.

(** ** The output *)
Lemma write_text_Ok p text replace w w' :
  write_text p text replace w = (Ok tt, w') →
  files w !! partial p = None ∧ (replace = false → files w !! p = None) ∧ files w' = <[p := text]> (files w).
Proof.
  intros (H1 & H2 & H3)%(write_guarded_Ok p [text] replace w w'). unfold concat_texts in H3. simpl in H3.
  by rewrite str_app_nil_r in H3.
Qed.

Lemma reads_only_load_passed path label : reads_only (load_passed path label).
Proof. unfold load_passed, load_json. repeat (apply reads_only_bind; [auto with py|intros ?]); auto with py. Qed.

Lemma reconcile_reads_only a : reads_only (reconcile a).
Proof.
  unfold reconcile. repeat (apply reads_only_bind; [first [apply reads_only_load_passed | apply reads_only_lift | apply reads_only_read
    | apply reads_only_map_io; intros; apply reads_only_bind; [apply reads_only_file_sha256_at|done]]|intros ?]). done.
Qed.

(** A run whose checks fail raises and leaves every file as it was.  A run that returns has
    written the result and then the report, and nothing else; without [--replace] the result did
    not exist before. *)
Theorem policy_output a w res w' :
  main a w = (res, w') →
  (∀ e, (reconcile a w).1 = Err e → res = Err e ∧ w' = w) ∧
  (∀ r, res = Ok r → ∃ hashes since report,
     reconcile a w = (Ok (r, hashes, since), w) ∧ render_report a r = Ok report ∧
     files w' = <[a_report a := report]> (<[a_output a := dumps (result_json a r hashes since) +:+ newline]> (files w)) ∧
     (a_replace a = false → files w !! a_output a = None)).
Proof.
  intros H. split.
  - intros e He. pose proof (reconcile_reads_only a w) as Hw. unfold main, mbind, io_bind in H.
    destruct (reconcile a w) as [x w1]. simpl in He, Hw. subst. by injection H.
  - intros r ->. unfold main in H. apply io_bind_Ok in H as ([[r' hashes] since] & w1 & Hr & H).
    apply reads_only_world in Hr as Hw; [|apply reconcile_reads_only]. subst w1.
    apply io_bind_Ok in H as ([] & w2 & (_ & Hn & Hw2)%write_text_Ok & H).
    apply io_bind_Ok in H as (report & w3 & [-> Hrep]%lift_Ok & H).
    apply io_bind_Ok in H as ([] & w4 & (_ & _ & Hw4)%write_text_Ok & H). apply mret_Ok in H as [-> ->].
    exists hashes, since, report. split_and!; [done|done|by rewrite Hw4, Hw2|done].
Qed.

(** ** Witnesses *)
Definition ex_row (address class group routing stage treatment : string) (gross existing : Z) (contract allocation : Z) (time : string) : list string :=
  let n z := str_of_Z (z * ATTO) in
  [address; class; group; routing; stage; treatment; n gross; n gross; n existing; "0"; "0"; n contract; n contract; "0";
   n allocation; "0"; n allocation; time].

Definition ex_policy : string := write_csv (REQUIRED ::
  [ex_row "0xA1" "wallet" "" "automatic_policy" "initial" "issue" 3000 500 0 2500 "2026-05-01T00:00:00Z";
   ex_row "0xa2" "validator_wallet" "" "exchange_or_manual" "initial" "issue" 1000 0 0 1000 "2026-04-01T12:30:00Z";
   ex_row "0xa3" "wallet" "" "automatic_policy" "deferred" "issue" 1200 400 0 800 "2026-05-01T00:00:00Z";
   ex_row "0xa4" "wallet" "" "automatic_policy" "deferred" "issue" 5000 0 0 5000 "";
   ex_row "0xc1" "genuine_contract" "multisig" "" "next_stage" "issue" 7000 0 0 7000 "";
   ex_row "0xc2" "genuine_contract" "smartvault" "" "" "not_issued" 2000 0 2000 0 "";
   ex_row "0xc3" "genuine_contract" "layerzero_bridge_collateral" "" "next_stage" "issue" 1000 0 0 1000 "";
   ex_row "0xc4" "genuine_contract" "onewallet" "" "next_stage" "issue" 1000 0 0 1000 "";
   ex_row "0xc5" "genuine_contract" "other_reviewed_contract" "" "" "not_issued" 1000 0 1000 0 ""]).

Definition ex_atto (n : Z) : json := JStr (str_of_Z (n * ATTO)).
Definition ex_num (n : Z) : json := JInt (n * ATTO).

Definition ex_group (rows allocation not_issued : Z) : json :=
  JObj [("addresses", JInt rows); ("allocation_atto", ex_num allocation); ("wallet_allocation_atto", ex_num allocation);
        ("staked_allocation_atto", JInt 0); ("not_issued_atto", ex_num not_issued);
        ("not_issued_wallet_atto", ex_num not_issued); ("not_issued_staked_atto", JInt 0)].

Definition ex_supply : json :=
  JObj [("status", JStr "passed"); ("existing_non_issuance", JObj [("not_issued_atto", ex_atto 900)]);
        ("historical_hack_retained_initial_addresses", JObj [("not_issued_atto", ex_atto 0)]);
        ("totals", JObj [("not_issued_atto", ex_atto 900)])].

Definition ex_migration : json :=
  JObj [("status", JStr "passed"); ("native_total_claim_atto", ex_atto 22300);
        ("wone_retained_not_issued_atto", ex_atto 50); ("wone_reserve_atto", JStr "0")].

Definition ex_record (text : string) : json := JObj [("sha256", JStr (sha256 text))].

Definition ex_summary : json :=
  JObj [("status", JStr "passed"); ("output_sha256", JStr (sha256 ex_policy));
        ("sources", JObj [("migration_summary", ex_record (dumps ex_migration)); ("existing_non_issuance", ex_record "inventory");
                          ("historical_retention", JArr [ex_record "retention"])]);
        ("initial_window", JObj [("since_time_utc", JStr "2026-03-10T23:59:58Z")]);
        ("qualified_rows", JInt 9);
        ("stage_rows", JObj [("initial", JInt 2); ("deferred", JInt 2); ("next_stage", JInt 3)]);
        ("issuance_treatment_rows", JObj [("issue", JInt 7); ("not_issued", JInt 2)]);
        ("contracts", JObj [("groups", JObj
           [("multisig", ex_group 1 7000 0); ("smartvault", ex_group 1 0 2000); ("layerzero_bridge_collateral", ex_group 1 1000 0);
            ("onewallet", ex_group 1 1000 0); ("other_reviewed_contract", ex_group 1 0 1000)])]);
        ("initial_wallets", JObj [("automatic_policy_addresses", JInt 1); ("manual_routing_addresses", JInt 1)]);
        ("validator_wrappers", JObj [("initial_addresses", JInt 1)]);
        ("deferred_wallets", JObj [("below_threshold_after_incident_deductions_addresses", JInt 1);
                                   ("below_threshold_after_incident_deductions_atto", ex_atto 800)]);
        ("allocation", JObj
           [("existing_non_issuance_atto", ex_atto 900); ("historical_retained_caps_atto", JStr "0");
            ("gross_native_snapshot_atto", ex_atto 22300); ("total_migration_atto", ex_atto 18350);
            ("reviewed_contract_non_issuance_atto", ex_atto 3000); ("initial_wallets_atto", ex_atto 3500);
            ("next_stage_contracts_atto", ex_atto 9000); ("deferred_wallets_atto", ex_atto 5850)])].

Definition ex_world : world := World (list_to_map
  [("policy.csv", ex_policy); ("stage.json", dumps ex_summary); ("migration.json", dumps ex_migration);
   ("supply.json", dumps ex_supply); ("inventory.csv", "inventory"); ("retention.csv", "retention")]) None.

Definition ex_args : args :=
  Args "policy.csv" "stage.json" "migration.json" ["inventory.csv"] ["retention.csv"] "supply.json" "result.json" "report.md" false.

Definition ex_nothing : reconciled := Reconciled initial_state (Supply 0 0 0 0) 0 0 0 0.
Definition ex_result : reconciled * list (string * string) * json := get (ex_nothing, [], JNull) (reconcile ex_args ex_world).1.

Lemma ex_reconcile : reconcile ex_args ex_world = (Ok ex_result, (reconcile ex_args ex_world).2).
Proof. apply run_Ok, get_Ok. by vm_compute. Qed.

Definition ex_reconciled : reconciled := ex_result.1.1.

Lemma ex_reconcile_parts : reconcile ex_args ex_world = (Ok (ex_reconciled, ex_result.1.2, ex_result.2), (reconcile ex_args ex_world).2).
Proof.
  rewrite ex_reconcile at 1. unfold ex_reconciled. by destruct ex_result as [[r h] s].
Qed.

Lemma policy_conserves_witness :
  (reconcile ex_args ex_world).2 = ex_world ∧ r_gross ex_reconciled = 22300 * ATTO ∧ ∃ ps,
  length ps = 9%nat ∧ (∀ p, p ∈ ps → m_wallet (p_values p) + m_staked (p_values p) = m_allocation (p_values p)) ∧
  sum_by allocated (stage_rows "initial" ps) + sum_by allocated (stage_rows "next_stage" ps) + r_deferred ex_reconciled = r_total ex_reconciled.
Proof.
  destruct (policy_conserves ex_args ex_world ex_reconciled _ _ _ ex_reconcile_parts)
    as (Hw & _ & ps & _ & _ & _ & Hrow & _ & _ & _ & (ss & mi & sn & al & (tss & Fs & Ls & _) & (t & F & L & _) & _ & _ & Ha & Hn & _) & _ & H).
  split; [exact Hw|].
  assert (Em : (v ← loads (dumps ex_migration); jpath_int ["native_total_claim_atto"] v) = Ok (22300 * ATTO)) by by vm_compute.
  assert (Es : (v ← loads (dumps ex_summary); jpath_int ["qualified_rows"] v) = Ok 9) by by vm_compute.
  change (Some (dumps ex_migration) = Some t) in F. change (Some (dumps ex_summary) = Some tss) in Fs. injection F as <-. injection Fs as <-.
  rewrite L in Em. rewrite Ls in Es. change (jpath_int ["native_total_claim_atto"] mi = Ok (22300 * ATTO)) in Em.
  change (jpath_int ["qualified_rows"] ss = Ok 9) in Es. rewrite (sa_gross _ _ _ _ _ Ha) in Em. rewrite Hn in Es.
  split; [congruence|]. exists ps. split; [injection Es as Es; lia|]. split; [intros p Hp; apply (Hrow p Hp)|exact H].
Defined.

Lemma initial_stage_sound_witness : ∃ start ps, checked ex_args ex_world ex_reconciled start ps.
Proof.
  destruct (initial_stage_sound ex_args ex_world ex_reconciled _ _ _ ex_reconcile_parts) as (_ & start & ps & _ & _ & H & _).
  by exists start, ps.
Defined.

Definition ex_output : reconciled := get ex_nothing (main ex_args ex_world).1.

Lemma ex_policy_main : main ex_args ex_world = (Ok ex_output, (main ex_args ex_world).2).
Proof. apply run_Ok, get_Ok. by vm_compute. Qed.

Lemma policy_output_witness : ∃ report, render_report ex_args ex_output = Ok report.
Proof.
  destruct (policy_output ex_args ex_world _ _ ex_policy_main) as [_ H].
  destruct (H ex_output eq_refl) as (_ & _ & report & _ & Hr & _). by exists report.
Defined.

Example ex_report : is_ok (render_report ex_args ex_reconciled) = true.
Proof. by vm_compute. Qed.

(** A contract group without a row is missing from the report's table, which is rendered after the
    result has been written. *)
Example report_without_group : render_report ex_args ex_nothing = Err (KeyError "multisig").
Proof. by vm_compute. Qed.
