(* ===== verification/Reconcile.v ===== *)
(** * The reconciliation verifier

    toolkit/scripts/verify/verify-reconciliation.py: checks the committed result files against
    each other.  The gap between the recorded claims and the supply formula must be the sum of
    its named components, the formula must be rebuilt from its inputs, the historical closure
    (Closure.v, run again here) must reproduce the chain of residuals, and the amounts not issued
    must agree between the reconciliation, the summary of the non-issuance audit (NonIssuance.v)
    and the exported rows.

    Each [check_...] is one group of checks of [main], in its order, and returns what later
    checks use.  [a_root] is the repository's root, which the script finds from its own path. *)
From S2P Require Import Prelude PyStr PyData Sha256 Files Csv Json Closure.

Record args := Args {
  a_results : string;
  a_formula_input : string;
  a_closure_input : string;
  a_non_issuance_results : string;
  a_non_issuance_release : string;
  a_root : string;
}.

Definition load (root name : string) : IO json := load_json (path_join root name).

Definition file_sha256 : string → IO string := file_sha256_at (Z.to_nat (4 * 1024 * 1024)).

(** ** The components of the gap *)
Record cross_shard := CrossShard { trace_proven : Z; source_debit_absent : Z; total_unbacked_credit : Z }.

Definition cross_shard_components (by_name : gmap string Z) : result cross_shard :=
  let legacy := by_name !! "proven_cross_shard_rollback_leakage" in
  let trace := by_name !! "trace_proven_cross_shard_rollback_leakage" in
  let absent := by_name !! "canonical_state_proven_source_debit_absence" in
  let split_present := bool_decide (is_Some trace) || bool_decide (is_Some absent) in
  raise_when (bool_decide (is_Some legacy) && split_present)
    (ValueError "cross-shard reconciliation mixes legacy and split components");;
  match legacy with
  | Some legacy => Ok (CrossShard legacy 0 legacy)
  | None =>
      raise_when (negb split_present) (ValueError "cross-shard reconciliation component is missing");;
      match trace, absent with
      | Some trace, Some absent => Ok (CrossShard trace absent (trace + absent))
      | _, _ => Err (ValueError "split cross-shard reconciliation requires both evidence components")
      end
  end.

Definition named_atto (m : gmap string Z) (component : json) : result (gmap string Z) :=
  name ← jget "name" component;
  n ← jget_int "atto" component;
  add_named m name n.

Record gaps := Gaps { gp_state : Z; gp_pending : Z; gp_claim : Z; gp_by_name : gmap string Z }.

Definition check_gaps (reconciliation : json) : result gaps :=
  cs ← jget "components" reconciliation;
  components ← jiter cs;
  amounts ← mapR (jget_int "atto") components;
  state_gap ← jget_int "state_resident_formula_gap_atto" reconciliation;
  raise_when (negb (zsum amounts =? state_gap)) (ValueError "component sum != state gap");;
  pending ← jget_int "supported_pending_receipts_outside_state_atto" reconciliation;
  claim_gap ← jget_int "claim_adjusted_formula_gap_atto" reconciliation;
  raise_when (negb (state_gap + pending =? claim_gap))
    (ValueError "claim-adjusted gap does not equal state gap plus pending receipts");;
  by_name ← foldM named_atto ∅ components;
  Ok (Gaps state_gap pending claim_gap by_name).

Definition lookup_name (m : gmap string Z) (name : string) : result Z := of_option (m !! name) (KeyError name).

Record incidents := Incidents { ic_cross_shard : Z; ic_december : Z; ic_max_rate_net : Z; ic_rounding : Z; ic_known_peak : Z }.

(** [max_rate]: the exposure and its clean-up. *)
Definition check_max_rate (max_rate : json) (max_rate_peak : Z) : result unit :=
  post_peak ← jget_int "post_checkpoint_peak_duplicated_claim_exposure_atto" max_rate;
  opening ← jget_int "activation_opening_duplicated_claim_exposure_atto" max_rate;
  raise_when (negb (post_peak + opening =? max_rate_peak)) (ValueError "max-rate activation-inclusive exposure mismatch");;
  labelled ← jpath ["accounting_interpretation"; "peak_exposure_is_not_second_liquid_payout_total"] max_rate;
  raise_when (negb (truthy labelled)) (ValueError "max-rate peak exposure is mislabeled as liquid payout");;
  stale_cleanup ← jget_int "stale_undelegation_liabilities_removed_at_cleanup_atto" max_rate;
  missing_rewards ← jget_int "formula_counted_validator_rewards_not_committed_atto" max_rate;
  closure ← jget_int "claim_exposure_cleanup_equation_closure_atto" max_rate;
  measured ← jget_int "measured_net_effect_through_october_atto" max_rate;
  raise_when (negb (post_peak - stale_cleanup - missing_rewards + closure =? measured))
    (ValueError "max-rate exposure/cleanup/reward equation mismatch").

Definition check_incidents (reconciliation : json) (by_name : gmap string Z) : result incidents :=
  cs ← cross_shard_components by_name;
  let cross := total_unbacked_credit cs in
  december ← lookup_name by_name "december_2023_repeated_undelegation_mint";
  max_rate_net ← lookup_name by_name "post_2023_max_rate_net_effect_at_cleanup";
  rounding ← lookup_name by_name "post_top_max_rate_rounding_drift";
  max_rate ← jget "post_2023_max_rate" reconciliation;
  net ← jget_int "net_state_formula_effect_at_cleanup_atto" max_rate;
  raise_when (negb (net =? max_rate_net)) (ValueError "max-rate component does not match cleanup result");;
  known_net ← jpath_int ["known_unauthorized_net_cutoff_component"; "atto"] reconciliation;
  raise_when (negb (cross + december + max_rate_net =? known_net)) (ValueError "known unauthorized net subtotal mismatch");;
  max_rate_peak ← jget_int "activation_inclusive_peak_duplicated_claim_exposure_atto" max_rate;
  known_peak ← jpath_int ["known_unauthorized_peak_claim_inflation"; "atto"] reconciliation;
  raise_when (negb (cross + december + max_rate_peak =? known_peak)) (ValueError "known peak claim-inflation subtotal mismatch");;
  check_max_rate max_rate max_rate_peak;;
  Ok (Incidents cross december max_rate_net rounding known_peak).

(** ** The formula and the cutoff *)

(** It returns [formula_before_exclusions]. *)
Definition check_formula (formula_input : json) : result Z :=
  genesis ← jget_int "genesis_atto" formula_input;
  pre_staking ← jget_int "pre_staking_rewards_atto" formula_input;
  base_accumulator ← jget_int "base_accumulator_atto" formula_input;
  base_wrappers ← jget_int "base_wrapper_rewards_atto" formula_input;
  cutoff_wrappers ← jget_int "cutoff_wrapper_rewards_atto" formula_input;
  let wrapper_delta := cutoff_wrappers - base_wrappers in
  d ← jget_int "wrapper_reward_delta_atto" formula_input;
  raise_when (negb (wrapper_delta =? d)) (ValueError "cutoff wrapper-reward delta mismatch");;
  let reconstructed_accumulator := base_accumulator + wrapper_delta in
  r ← jget_int "reconstructed_accumulator_atto" formula_input;
  raise_when (negb (reconstructed_accumulator =? r)) (ValueError "reconstructed cutoff accumulator mismatch");;
  let formula_before_exclusions := genesis + pre_staking + reconstructed_accumulator in
  f ← jget_int "formula_before_exclusions_atto" formula_input;
  raise_when (negb (formula_before_exclusions =? f)) (ValueError "cutoff formula component sum mismatch");;
  Ok formula_before_exclusions.

Record cutoff := Cutoff { cu_shard0 : Z; cu_shard1 : Z; cu_total : Z }.

Definition check_cutoff (g : gaps) (formula_before_exclusions : Z) (cutoff_supply ledger receipts : json) : result cutoff :=
  shard0_claims ← jget_int "account_and_staking_claims_atto" cutoff_supply;
  shard1_claims ← jget_int "liquid_shard1_atto" ledger;
  ledger_total ← jget_int "total_claim_atto" ledger;
  ledger_pending ← jget_int "pending_cross_shard_atto" ledger;
  bad ← (if negb (ledger_pending =? gp_pending g) then Ok true
         else p ← jget_int "pending_active_atto" receipts; Ok (negb (ledger_pending =? p)));
  raise_when bad (ValueError "pending-receipt totals disagree");;
  raise_when (negb (shard0_claims + shard1_claims + gp_pending g =? ledger_total))
    (ValueError "cutoff ledger components do not sum to total claim");;
  raise_when (negb (shard0_claims + shard1_claims - formula_before_exclusions =? gp_state g))
    (ValueError "state gap is not derived from cutoff result files");;
  raise_when (negb (ledger_total - formula_before_exclusions =? gp_claim g))
    (ValueError "claim gap is not derived from cutoff result files");;
  Ok (Cutoff shard0_claims shard1_claims ledger_total).

(** ** The historical closure *)
Definition add_point (m : gmap string json) (point : json) : result (gmap string json) :=
  name ← jget "name" point;
  add_named m name point.

Definition find_point (points : gmap string json) (name : string) : result json := of_option (points !! name) (KeyError name).

Definition check_closure (reconciliation : json) (g : gaps) (ic : incidents) (cu : cutoff) (c : closure) : result unit :=
  points ← foldM add_point ∅ (checkpoint_json <$> cl_checkpoints c);
  first ← find_point points "post-2023-fix";
  first_residual ← jget_int "residual_atto" first;
  deficit ← jpath_int ["pre_existing_net_deficit"; "net_atto"] reconciliation;
  raise_when (negb (first_residual =? deficit)) (ValueError "pre-existing checkpoint residual mismatch");;
  cleanup ← find_point points "top-max-rate-cleanup";
  cleanup_change ← jget_int "change_from_previous_atto" cleanup;
  raise_when (negb (cleanup_change =? ic_max_rate_net ic)) (ValueError "historical closure does not reproduce max-rate net effect");;
  cutoff_point ← find_point points "cutoff";
  gap ← jget_int "formula_gap_atto" cutoff_point;
  raise_when (negb (gap =? gp_state g)) (ValueError "historical cutoff formula gap mismatch");;
  s0 ← jget_int "shard0_claims_atto" cutoff_point;
  raise_when (negb (s0 =? cu_shard0 cu)) (ValueError "historical closure shard-0 cutoff mismatch");;
  s1 ← jget_int "shard1_claims_atto" cutoff_point;
  raise_when (negb (s1 =? cu_shard1 cu)) (ValueError "historical closure shard-1 cutoff mismatch");;
  residual ← jget_int "residual_atto" cutoff_point;
  raise_when (negb (residual =? first_residual + ic_max_rate_net ic + ic_rounding ic))
    (ValueError "historical residual chain does not close at cutoff").

(** ** Other result files *)
Definition sum_json (field : string) (l : json) : result Z :=
  xs ← jiter l; zs ← mapR (jget_int field) xs; Ok (zsum zs).

Definition check_december (december_result : json) (december : Z) : result unit :=
  t ← jget_int "total_atto" december_result;
  raise_when (negb (t =? december)) (ValueError "December reconstruction does not match reconciliation");;
  l ← jget "by_delegator" december_result;
  s ← sum_json "atto" l;
  raise_when (negb (s =? december)) (ValueError "December per-delegator sum mismatch").

Definition check_burn (burn : json) : result unit :=
  l ← jget "positive_inaccessible_or_precompile_addresses" burn;
  inaccessible ← sum_json "cutoff_atto" l;
  t ← jget_int "positive_inaccessible_total_atto" burn;
  raise_when (negb (inaccessible =? t)) (ValueError "inaccessible-address total mismatch").

Definition check_precompile (precompile : json) : result unit :=
  b ← jget "blocks_scanned" precompile;
  raise_when (negb (jeq_int b 13697024)) (ValueError "staking-precompile block count mismatch");;
  c ← jget "top_level_staking_precompile_calls" precompile;
  raise_when (negb (jeq_int c 79602)) (ValueError "staking-precompile call count mismatch");;
  u ← jget "unknown_target_transactions" precompile;
  raise_when (negb (jeq_int u 0)) (ValueError "unexpected unknown staking-precompile target").

Definition check_treasury (treasury reconciliation : json) : result unit :=
  meta ← jget "historical_treasury_routing_inventory" reconciliation;
  t ← jpath ["totals_atto"; "treasury_reclaim"] treasury;
  m ← jget "treasury_reclaim_atto" meta;
  raise_when (negb (py_eq t m)) (ValueError "historical treasury calculation mismatch");;
  p ← jget "policy_status" treasury;
  raise_when (negb (jeq_str p "superseded")) (ValueError "historical treasury policy is not marked superseded").

(** ** The policy *)
Definition is_true (k : string) (v : json) : result bool := x ← jget k v; Ok (truthy x).
Definition is_false (k : string) (v : json) : result bool := x ← jget k v; Ok (negb (truthy x)).
Definition is_set (k : string) (v : json) : result bool := x ← jget k v; Ok (match x with JNull => false | _ => true end).
Definition other_summary (v : json) : result bool :=
  s ← jget_str "composite_policy_summary" v;
  Ok (negb (endswith "2026-09-17/migration-policy-reconciliation.json" s)).

Definition check_policy (reconciliation non_issuance : json) : result unit :=
  rp ← jget "migration_non_issuance_policy" reconciliation;
  bad ← orM [is_set "treasury_destination" rp; is_true "available_for_other_use" rp;
             is_true "old_chain_gross_claim_changed" rp; is_false "migration_allocation_reduced" rp;
             is_true "fixed_erc20_total_supply_changed" rp; other_summary rp];
  raise_when bad (ValueError "reconciliation points to an invalid migration policy");;
  policy ← jget "policy" non_issuance;
  t ← jget "migration_treatment" policy;
  raise_when (negb (jeq_str t "not_issued")) (ValueError "current migration treatment is not non-issuance");;
  bad ← orM [is_true "old_chain_gross_claim_changed" policy; is_false "migration_allocation_reduced" policy;
             is_true "fixed_erc20_total_supply_changed" policy; is_set "treasury_destination" policy;
             is_true "available_for_other_use" policy; other_summary policy];
  raise_when bad (ValueError "non-issuance policy semantics are inconsistent").

(** ** The amounts not issued *)
Record issuance := Issuance {
  is_existing : Z;
  is_retained : Z;
  is_leak : Z;
  is_combined : Z;
  is_section : option json;
}.

Definition check_historical (treasury non_issuance : json) : result Z :=
  historical_treasury ← jpath_int ["totals_atto"; "treasury_reclaim"] treasury;
  existing ← jpath_int ["existing_non_issuance"; "not_issued_atto"] non_issuance;
  raise_when (existing <? historical_treasury) (ValueError "historical policy amount exceeds current non-issuance");;
  Ok existing.

Definition check_issuance (flow non_issuance : json) (existing ledger_total : Z) : result issuance :=
  distribution ← jget "distribution" flow;
  values ← jvalues distribution;
  held ← mapR (jget_int "held_cap_atto") values;
  retained ← jpath_int ["historical_hack_retained_initial_addresses"; "not_issued_atto"] non_issuance;
  raise_when (negb (retained =? zsum held)) (ValueError "historical retained-balance totals disagree");;
  overlap ← jpath ["historical_hack_retained_initial_addresses"; "overlap_with_existing_non_issuance_addresses"] non_issuance;
  raise_when (truthy overlap) (ValueError "historical retained addresses overlap existing policy");;
  s ← jget_opt "revert_leak_credited_recipients" non_issuance;
  let leak_section := if truthy s then Some s else None in
  revert_leak ← match leak_section with Some s => jget_int "not_issued_atto" s | None => Ok 0 end;
  combined ← jpath_int ["totals"; "not_issued_atto"] non_issuance;
  raise_when (negb (combined =? existing + retained + revert_leak)) (ValueError "combined non-issuance total mismatch");;
  gross ← jpath_int ["totals"; "gross_cutoff_claim_atto"] non_issuance;
  raise_when (negb (gross =? ledger_total)) (ValueError "non-issuance gross claim does not match cutoff ledger");;
  remaining ← jpath_int ["totals"; "remaining_full_claim_after_non_issuance_atto"] non_issuance;
  raise_when (negb (remaining + combined =? ledger_total)) (ValueError "gross claim does not close after non-issuance");;
  Ok (Issuance existing retained revert_leak combined leak_section).

(** ** The exported rows *)
Record retained_state := RetainedState { rs_rows : Z; rs_total : Z; rs_addresses : gset string }.

(** The body of the loop over the retained rows; [directory] is the export's. *)
Definition retained_row (directory : string) (s : retained_state) (r : row) : IO retained_state :=
  a ← lift (cell_str r "address_hex");
  let address := lower a in
  lift (raise_when (bool_decide (address ∈ rs_addresses s)) (ValueError "duplicate retained address")) ≫= λ _,
  amount ← lift (cell_int r "retained_cap_atto");
  initial ← lift (cell_int r "initial_distribution_atto");
  balance ← lift (cell_int r "cutoff_balance_atto");
  lift (raise_when (negb (amount =? Z.min initial balance)) (ValueError "invalid retained cap")) ≫= λ _,
  treatment ← lift (cell r "migration_treatment");
  lift (raise_when (negb (bool_decide (treatment = Some "not_issued"))) (ValueError "retained address is not terminal")) ≫= λ _,
  e ← lift (cell r "source_evidence");
  evidence ← lift (of_option e TypeError);
  is_file ← exists_ (path_join directory evidence);
  lift (raise_when (negb is_file) (FileNotFoundError (path_join directory evidence))) ≫= λ _,
  mret (RetainedState (rs_rows s + 1) (rs_total s + amount) ({[address]} ∪ rs_addresses s)).

(** [path] is the export; it returns the number of its rows. *)
Definition check_retained_csv (path : string) (non_issuance : json) (retained : Z) : IO Z :=
  digest ← file_sha256 path;
  d ← lift (jpath ["outputs"; "retained_not_issued_csv_sha256"] non_issuance);
  lift (raise_when (negb (jeq_str d digest)) (ValueError "retained non-issuance CSV hash mismatch")) ≫= λ _,
  text ← read path;
  s ← fold_io (retained_row (parent path)) (RetainedState 0 0 ∅) (dict_rows text);
  n ← lift (jpath ["outputs"; "retained_not_issued_rows"] non_issuance);
  lift (raise_when (negb (jeq_int n (rs_rows s))) (ValueError "retained non-issuance CSV row-count mismatch")) ≫= λ _,
  lift (raise_when (negb (rs_total s =? retained)) (ValueError "retained non-issuance CSV total mismatch")) ≫= λ _,
  mret (rs_rows s).

(** [assets.get(name)] and the comparison with the file. *)
Definition asset_differs (asset : json) (path : string) (rows : Z) : IO bool :=
  b ← lift (jget "bytes" asset);
  text ← read path;
  if negb (jeq_int b (Z.of_nat (String.length text))) then mret true
  else
    r ← lift (jget "rows" asset);
    if negb (jeq_int r rows) then mret true
    else
      h ← lift (jget "sha256" asset);
      digest ← file_sha256 path;
      mret (negb (jeq_str h digest)).

Definition release_assets (release : json) : result (gmap string json) :=
  l ← jget "assets" release;
  assets ← jiter l;
  foldM add_point ∅ assets.

Definition check_retained_asset (assets : gmap string json) (path : string) (rows : Z) : IO unit :=
  match assets !! file_name path with
  | None => throw (ValueError "retained non-issuance CSV missing from release manifest")
  | Some asset =>
      bad ← asset_differs asset path rows;
      lift (raise_when bad (ValueError "retained non-issuance release metadata mismatch"))
  end.

(** The body of the loop over the withheld leak credits, on [(rows, total)]. *)
Definition leak_row (s : Z * Z) (r : row) : result (Z * Z) :=
  let '(rows, total) := s in
  amount ← cell_int r "retained_cap_atto";
  credit ← cell_int r "unbacked_credit_atto";
  claim ← cell_int r "cutoff_native_claim_atto";
  prior ← cell_int r "prior_non_issuance_atto";
  let expected := Z.min credit (Z.max (claim - prior) 0) in
  bad ← (if negb (amount =? expected) || (amount <=? 0) then Ok true
         else t ← cell r "migration_treatment"; Ok (negb (bool_decide (t = Some "not_issued"))));
  (if (bad : bool) then _ ← cell r "address_hex"; Err (ValueError "invalid revert-leak amount") else Ok tt);;
  Ok (rows + 1, total + amount).

Definition check_leak_csv (root : string) (non_issuance section : json) (revert_leak : Z) (assets : gmap string json) : IO unit :=
  n ← lift (jpath ["sources"; "revert_leak_retention"; "name"] non_issuance);
  name ← lift (as_path n);
  let path := path_join (path_join root "artifacts/revert-leak-retention-20260923") (file_name name) in
  digest ← file_sha256 path;
  d ← lift (jpath ["sources"; "revert_leak_retention"; "sha256"] non_issuance);
  lift (raise_when (negb (jeq_str d digest)) (ValueError "revert-leak non-issuance CSV hash mismatch")) ≫= λ _,
  text ← read path;
  '(rows, total) ← lift (foldM leak_row (0, 0) (dict_rows text));
  p ← lift (jget "positive_addresses" section);
  lift (raise_when (negb (jeq_int p rows) || negb (total =? revert_leak))
          (ValueError "revert-leak non-issuance CSV total mismatch")) ≫= λ _,
  bad ← match assets !! file_name path with Some asset => asset_differs asset path rows | None => mret true end;
  lift (raise_when bad (ValueError "revert-leak non-issuance release metadata mismatch")).

(** ** [main] *)

(** The line that a run which passes prints. *)
Definition pass_line (state_gap claim_gap known_peak combined_not_issued : Z) : string :=
  "PASS reconciliation: state_gap_atto=" +:+ str_of_Z state_gap +:+ " claim_gap_atto=" +:+ str_of_Z claim_gap +:+
  " known_peak_claim_inflation_atto=" +:+ str_of_Z known_peak +:+ " not_issued_atto=" +:+ str_of_Z combined_not_issued.

Definition retained_csv (a : args) (non_issuance : json) : result string :=
  n ← jpath ["outputs"; "retained_not_issued_csv"] non_issuance;
  name ← as_path n;
  Ok (path_join (path_join (a_root a) "artifacts/historical-retention-snapshot-20260916") name).

(** It returns the line that it prints. *)
Definition main (a : args) : IO string :=
  let root := a_results a in
  reconciliation ← load root "reconciliation.json";
  formula_input ← load_json (a_formula_input a);
  g ← lift (check_gaps reconciliation);
  ic ← lift (check_incidents reconciliation (gp_by_name g));
  formula_before_exclusions ← lift (check_formula formula_input);
  cutoff_supply ← load root "actual-supply-cutoff.json";
  ledger ← load root "actual-supply-ledger-cutoff-summary.json";
  receipts ← load root "cross-shard-supply-cutoff.json";
  cu ← lift (check_cutoff g formula_before_exclusions cutoff_supply ledger receipts);
  closure_configuration ← load_json (a_closure_input a);
  c ← calculate closure_configuration (parent (a_closure_input a));
  lift (check_closure reconciliation g ic cu c) ≫= λ _,
  december_result ← load root "december-2023-undelegation-mint-reconstruction.json";
  lift (check_december december_result (ic_december ic)) ≫= λ _,
  burn ← load root "burn-address-audit.json";
  lift (check_burn burn) ≫= λ _,
  precompile ← load root "staking-precompile-target-audit-summary.json";
  lift (check_precompile precompile) ≫= λ _,
  treasury ← load root "treasury-reclaim-inventory-summary.json";
  lift (check_treasury treasury reconciliation) ≫= λ _,
  non_issuance ← load (a_non_issuance_results a) "migration-non-issuance-summary.json";
  lift (check_policy reconciliation non_issuance) ≫= λ _,
  existing ← lift (check_historical treasury non_issuance);
  flow ← load root "historical-exploit-flow-summary.json";
  i ← lift (check_issuance flow non_issuance existing (cu_total cu));
  path ← lift (retained_csv a non_issuance);
  rows ← check_retained_csv path non_issuance (is_retained i);
  release ← load_json (a_non_issuance_release a);
  assets ← lift (release_assets release);
  check_retained_asset assets path rows ≫= λ _,
  match is_section i with
  | Some section => check_leak_csv (a_root a) non_issuance section (is_leak i) assets
  | None => mret tt
  end ≫= λ _,
  mret (pass_line (gp_state g) (gp_claim g) (ic_known_peak ic) (is_combined i)).

(** ** Lemmas: dicts by name *)

(** [x] is the last element of [l] that satisfies [P]. *)
Definition last_of {A} (P : A → Prop) (l : list A) (x : A) : Prop := ∃ pre post, l = pre ++ x :: post ∧ P x ∧ Forall (λ y, ¬ P y) post.

Definition has_name (name : string) (v : json) : Prop := jget "name" v = Ok (JStr name).

Lemma last_of_new {A} (P : A → Prop) l x : P x → last_of P (l ++ [x]) x.
Proof. intros H. by exists l, []. Qed.

Lemma last_of_old {A} (P : A → Prop) l x y : last_of P l y → ¬ P x → last_of P (l ++ [x]) y.
Proof.
  intros (pre & post & -> & Hy & Hp) Hx. exists pre, (post ++ [x]). rewrite <-app_assoc. split_and!; [done..|].
  apply Forall_app_2; [done|]. by apply Forall_singleton.
Qed.

(** [{x["name"]: f(x) for x in l}]: under a name is the value of the last element with it. *)
Lemma named_fold {A} (f : json → result A) l m name :
  foldM (λ m x, n ← jget "name" x; v ← f x; add_named m n v) ∅ l = Ok m →
  match m !! name with
  | Some v => ∃ x, last_of (has_name name) l x ∧ f x = Ok v
  | None => Forall (λ x, ¬ has_name name x) l
  end.
Proof.
  apply (foldM_ind _ (λ l (m : gmap string A), match m !! name with
    | Some v => ∃ x, last_of (has_name name) l x ∧ f x = Ok v | None => Forall (λ x, ¬ has_name name x) l end)); [constructor|].
  intros pre x m1 m2 Hm _ H. apply bind_Ok in H as (n & Hn & H). apply bind_Ok in H as (v & Hv & H).
  assert (Hother : ¬ has_name name x → match m1 !! name with
    | Some v => ∃ y, last_of (has_name name) (pre ++ [x]) y ∧ f y = Ok v | None => Forall (λ y, ¬ has_name name y) (pre ++ [x]) end).
  { intros Hx. destruct (m1 !! name) as [z|]; [|by apply Forall_app_2, Forall_singleton].
    destruct Hm as (y & Hy & Hz). exists y. split; [by apply last_of_old|done]. }
  unfold has_name in Hother. rewrite Hn in Hother. destruct n as [| | |k| |]; try done; injection H as <-; try by apply Hother.
  destruct (decide (k = name)) as [->|Hne].
  - rewrite lookup_insert_eq. exists x. split; [by apply last_of_new|done].
  - rewrite lookup_insert_ne by done. apply Hother. congruence.
Qed.

Lemma add_points_Ok l points name j : foldM add_point ∅ l = Ok points → points !! name = Some j → last_of (has_name name) l j.
Proof.
  intros H Hj. pose proof (named_fold Ok l points name H) as Hn. rewrite Hj in Hn. by destruct Hn as (x & Hx & [= <-]).
Qed.

(** ** Lemmas: the gap *)

(** The component [name] of the reconciliation amounts to [z]. *)
Definition component (components : list json) (name : string) (z : Z) : Prop :=
  ∃ c, last_of (has_name name) components c ∧ jget_int "atto" c = Ok z.

Definition no_component (components : list json) (name : string) : Prop := Forall (λ c, ¬ has_name name c) components.

Lemma component_at components m name z : foldM named_atto ∅ components = Ok m → m !! name = Some z → component components name z.
Proof. intros H Hz. pose proof (named_fold (jget_int "atto") _ _ name H) as Hn. by rewrite Hz in Hn. Qed.

Lemma no_component_at components m name : foldM named_atto ∅ components = Ok m → m !! name = None → no_component components name.
Proof. intros H Hz. pose proof (named_fold (jget_int "atto") _ _ name H) as Hn. by rewrite Hz in Hn. Qed.

(** The cross-shard credits: one component, or the two that it was split into, but not both. *)
Definition cross_shard_amount (components : list json) (cross : Z) : Prop :=
  (component components "proven_cross_shard_rollback_leakage" cross ∧
   no_component components "trace_proven_cross_shard_rollback_leakage" ∧
   no_component components "canonical_state_proven_source_debit_absence") ∨
  (no_component components "proven_cross_shard_rollback_leakage" ∧ ∃ trace absent,
   component components "trace_proven_cross_shard_rollback_leakage" trace ∧
   component components "canonical_state_proven_source_debit_absence" absent ∧ cross = trace + absent).

Lemma cross_shard_Ok components m cs :
  foldM named_atto ∅ components = Ok m → cross_shard_components m = Ok cs → cross_shard_amount components (total_unbacked_credit cs).
Proof.
  intros Hm H. unfold cross_shard_components in H. unfold cross_shard_amount.
  pose proof (λ n z, component_at components m n z Hm) as Hc. pose proof (λ n, no_component_at components m n Hm) as Hn.
  destruct (m !! "proven_cross_shard_rollback_leakage") as [l|] eqn:El, (m !! "trace_proven_cross_shard_rollback_leakage") as [t|] eqn:Et,
    (m !! "canonical_state_proven_source_debit_absence") as [b|] eqn:Eb; simpl in H; try discriminate H; injection H as <-; simpl.
  - left. auto.
  - right. split; [auto|]. exists t, b. auto.
Qed.

(** What the files say of the gap: [reconciliation], the supply at the cutoff, the ledger's summary and the receipts. *)
Record gap_evidence (reconciliation supply ledger receipts : json) (formula state_gap pending claim_gap shard0 shard1 total : Z) : Prop := {
  ge_components : (cs ← jget "components" reconciliation; sum_json "atto" cs) = Ok state_gap;
  ge_state_gap : jget_int "state_resident_formula_gap_atto" reconciliation = Ok state_gap;
  ge_pending : jget_int "supported_pending_receipts_outside_state_atto" reconciliation = Ok pending;
  ge_claim_gap : jget_int "claim_adjusted_formula_gap_atto" reconciliation = Ok claim_gap;
  ge_pending_ledger : jget_int "pending_cross_shard_atto" ledger = Ok pending;
  ge_pending_receipts : jget_int "pending_active_atto" receipts = Ok pending;
  ge_shard0 : jget_int "account_and_staking_claims_atto" supply = Ok shard0;
  ge_shard1 : jget_int "liquid_shard1_atto" ledger = Ok shard1;
  ge_total : jget_int "total_claim_atto" ledger = Ok total;
  ge_sum : shard0 + shard1 + pending = total;
  ge_state : shard0 + shard1 - formula = state_gap;
  ge_claim : total - formula = claim_gap;
  ge_gaps : state_gap + pending = claim_gap;
}.

Lemma check_gaps_Ok v g :
  check_gaps v = Ok g →
  (cs ← jget "components" v; sum_json "atto" cs) = Ok (gp_state g) ∧ jget_int "state_resident_formula_gap_atto" v = Ok (gp_state g) ∧
  jget_int "supported_pending_receipts_outside_state_atto" v = Ok (gp_pending g) ∧
  jget_int "claim_adjusted_formula_gap_atto" v = Ok (gp_claim g) ∧ gp_state g + gp_pending g = gp_claim g ∧
  ∃ components, (cs ← jget "components" v; jiter cs) = Ok components ∧ foldM named_atto ∅ components = Ok (gp_by_name g).
Proof.
  unfold check_gaps, sum_json. intros H. inv_ok H. subst g. bool_facts. subst.
  repeat match goal with E : ?x = Ok _ |- context [?x] => rewrite E end. simpl.
  repeat match goal with E : ?x = Ok _ |- context [?x] => rewrite E end. simpl.
  repeat match goal with E : ?x = Ok _ |- context [?x] => rewrite E end. simpl. split_and!; try done. by eexists.
Qed.

(** The supply formula: genesis, the rewards before staking, and the accumulator corrected by the change of the wrappers' rewards. *)
Definition formula_evidence (formula_input : json) (formula : Z) : Prop :=
  ∃ genesis pre_staking base_accumulator base_wrappers cutoff_wrappers,
    let accumulator := base_accumulator + (cutoff_wrappers - base_wrappers) in
    jget_int "genesis_atto" formula_input = Ok genesis ∧ jget_int "pre_staking_rewards_atto" formula_input = Ok pre_staking ∧
    jget_int "base_accumulator_atto" formula_input = Ok base_accumulator ∧
    jget_int "base_wrapper_rewards_atto" formula_input = Ok base_wrappers ∧
    jget_int "cutoff_wrapper_rewards_atto" formula_input = Ok cutoff_wrappers ∧
    jget_int "wrapper_reward_delta_atto" formula_input = Ok (cutoff_wrappers - base_wrappers) ∧
    jget_int "reconstructed_accumulator_atto" formula_input = Ok accumulator ∧
    jget_int "formula_before_exclusions_atto" formula_input = Ok formula ∧ formula = genesis + pre_staking + accumulator.

Lemma check_formula_Ok v f : check_formula v = Ok f → formula_evidence v f.
Proof.
  unfold check_formula. intros H. inv_ok H. bool_facts. subst. unfold formula_evidence.
  eexists _, _, _, _, _. cbv zeta. split_and!; eassumption || reflexivity.
Qed.

Lemma check_cutoff_Ok v g formula supply ledger receipts cu :
  check_gaps v = Ok g → check_cutoff g formula supply ledger receipts = Ok cu →
  gap_evidence v supply ledger receipts formula (gp_state g) (gp_pending g) (gp_claim g) (cu_shard0 cu) (cu_shard1 cu) (cu_total cu).
Proof.
  intros (H1 & H2 & H3 & H4 & H5 & _)%check_gaps_Ok H. unfold check_cutoff in H.
  apply bind_Ok in H as (s0 & E0 & H). apply bind_Ok in H as (s1 & E1 & H). apply bind_Ok in H as (t & Et & H).
  apply bind_Ok in H as (lp & El & H). apply bind_Ok in H as (bad & Hb & H). apply bind_Ok in H as ([] & ->%raise_when_Ok & H).
  destruct (lp =? gp_pending g) eqn:Elp; simpl in Hb; [|done]. apply bind_Ok in Hb as (rp & Er & [= Hrp]). inv_ok H. subst cu. bool_facts.
  subst. split; simpl; done || lia.
Qed.

(** What the reconciliation says of the incidents; [max_rate] is its section of that name. *)
Record incident_evidence (reconciliation max_rate : json) (components : list json) (cross december max_rate_net rounding known_peak : Z) : Prop := {
  ie_components : (cs ← jget "components" reconciliation; jiter cs) = Ok components;
  ie_cross : cross_shard_amount components cross;
  ie_december : component components "december_2023_repeated_undelegation_mint" december;
  ie_max_rate : component components "post_2023_max_rate_net_effect_at_cleanup" max_rate_net;
  ie_rounding : component components "post_top_max_rate_rounding_drift" rounding;
  ie_section : jget "post_2023_max_rate" reconciliation = Ok max_rate;
  ie_effect : jget_int "net_state_formula_effect_at_cleanup_atto" max_rate = Ok max_rate_net;
  ie_net : jpath_int ["known_unauthorized_net_cutoff_component"; "atto"] reconciliation = Ok (cross + december + max_rate_net);
  ie_known_peak : jpath_int ["known_unauthorized_peak_claim_inflation"; "atto"] reconciliation = Ok known_peak;
  ie_exposure : ∃ post_peak opening stale missing closure,
    jget_int "post_checkpoint_peak_duplicated_claim_exposure_atto" max_rate = Ok post_peak ∧
    jget_int "activation_opening_duplicated_claim_exposure_atto" max_rate = Ok opening ∧
    jget_int "activation_inclusive_peak_duplicated_claim_exposure_atto" max_rate = Ok (post_peak + opening) ∧
    known_peak = cross + december + (post_peak + opening) ∧
    jget_int "stale_undelegation_liabilities_removed_at_cleanup_atto" max_rate = Ok stale ∧
    jget_int "formula_counted_validator_rewards_not_committed_atto" max_rate = Ok missing ∧
    jget_int "claim_exposure_cleanup_equation_closure_atto" max_rate = Ok closure ∧
    jget_int "measured_net_effect_through_october_atto" max_rate = Ok (post_peak - stale - missing + closure);
  ie_label : ∃ v, jpath ["accounting_interpretation"; "peak_exposure_is_not_second_liquid_payout_total"] max_rate = Ok v ∧ truthy v = true;
}.

Lemma check_incidents_Ok v g ic :
  check_gaps v = Ok g → check_incidents v (gp_by_name g) = Ok ic →
  ∃ max_rate components,
    incident_evidence v max_rate components (ic_cross_shard ic) (ic_december ic) (ic_max_rate_net ic) (ic_rounding ic) (ic_known_peak ic).
Proof.
  intros (_ & _ & _ & _ & _ & components & Hcs & Hm)%check_gaps_Ok H. unfold check_incidents, lookup_name in H.
  apply bind_Ok in H as (cs & Hcross & H). cbv zeta in H. apply bind_Ok in H as (d & Hd%of_option_Ok & H).
  apply bind_Ok in H as (mr & Hmr%of_option_Ok & H). apply bind_Ok in H as (ro & Hro%of_option_Ok & H).
  apply bind_Ok in H as (section & Hsec & H). apply bind_Ok in H as (net & Hnet & H). apply bind_Ok in H as ([] & Hc1%raise_when_Ok & H).
  apply bind_Ok in H as (kn & Hkn & H). apply bind_Ok in H as ([] & Hc2%raise_when_Ok & H). apply bind_Ok in H as (peak & Hpeak & H).
  apply bind_Ok in H as (kp & Hkp & H). apply bind_Ok in H as ([] & Hc3%raise_when_Ok & H).
  apply bind_Ok in H as ([] & Hmax & [= <-]). bool_facts. unfold check_max_rate in Hmax. inv_ok Hmax. bool_facts. subst.
  exists section, components. split; simpl; try done.
  - by apply (cross_shard_Ok _ (gp_by_name g)).
  - by apply (component_at _ (gp_by_name g)).
  - by apply (component_at _ (gp_by_name g)).
  - by apply (component_at _ (gp_by_name g)).
  - eexists _, _, _, _, _. split_and!; try eassumption; reflexivity.
  - eexists. split; eassumption.
Qed.

(** ** Lemmas: the closure *)
Lemma find_checkpoint cs points name j :
  foldM add_point ∅ (checkpoint_json <$> cs) = Ok points → find_point points name = Ok j →
  ∃ c, last_of (λ c, cp_name c = JStr name) cs c ∧ j = checkpoint_json c.
Proof.
  intros H Hj%of_option_Ok. destruct (add_points_Ok _ _ _ _ H Hj) as (pre & post & Hl & Hn & Hp).
  assert (Hname : ∀ c, has_name name (checkpoint_json c) ↔ cp_name c = JStr name).
  { intros c. unfold has_name, jget. simpl. split; [by intros [= ->]|by intros ->]. }
  apply fmap_app_inv in Hl as (l1 & l2 & -> & Hl2 & ->). symmetry in Hl2. apply fmap_cons_inv in Hl2 as (c & l3 & -> & -> & ->).
  exists c. split; [|done]. exists l1, l3. split; [done|]. split; [by apply Hname|]. rewrite Forall_fmap in Hp.
  eapply Forall_impl; [exact Hp|]. intros x Hx Hc. apply Hx. by apply Hname.
Qed.

Lemma checkpoint_int c :
  jget_int "residual_atto" (checkpoint_json c) = Ok (cp_residual c) ∧
  jget_int "formula_gap_atto" (checkpoint_json c) = Ok (cp_gap c) ∧
  jget_int "shard0_claims_atto" (checkpoint_json c) = Ok (cp_shard0 c) ∧
  jget_int "shard1_claims_atto" (checkpoint_json c) = Ok (cp_shard1 c).
Proof. unfold jget_int, jget. simpl. by rewrite !int_str_of_Z. Qed.

Lemma checkpoint_change c z : jget_int "change_from_previous_atto" (checkpoint_json c) = Ok z → cp_change c = Some z.
Proof.
  unfold jget_int, jget. simpl. destruct (cp_change c) as [x|]; simpl; [|done]. rewrite int_str_of_Z. by intros [= ->].
Qed.

(** The chain of residuals: the closure is calculated again from its configuration; the residual of a checkpoint is its claims less the
    formula and the adjustments, and the change is the difference to the residual before.  The reconciliation's deficit is the first
    checkpoint's residual, and over the clean-up's change and the rounding it leads to the cutoff's. *)
Definition closure_evidence (w : world) (reconciliation configuration : json) (base : string)
    (state_gap shard0 shard1 max_rate_net rounding : Z) : Prop :=
  ∃ c p1 p2 p3,
    calculate configuration base w = (Ok c, w) ∧
    (∀ p, p ∈ cl_checkpoints c → cp_residual p =
       cp_shard0 p + cp_shard1 p - (cl_genesis c + cl_pre_staking c + cp_accumulator p) - sum_by snd (cp_adjustments p)) ∧
    (∀ i p q, cl_checkpoints c !! i = Some p → cl_checkpoints c !! S i = Some q → cp_change q = Some (cp_residual q - cp_residual p)) ∧
    last_of (λ p, cp_name p = JStr "post-2023-fix") (cl_checkpoints c) p1 ∧
    last_of (λ p, cp_name p = JStr "top-max-rate-cleanup") (cl_checkpoints c) p2 ∧
    last_of (λ p, cp_name p = JStr "cutoff") (cl_checkpoints c) p3 ∧
    jpath_int ["pre_existing_net_deficit"; "net_atto"] reconciliation = Ok (cp_residual p1) ∧
    cp_change p2 = Some max_rate_net ∧ cp_residual p3 = cp_residual p1 + max_rate_net + rounding ∧
    cp_gap p3 = state_gap ∧ cp_shard0 p3 = shard0 ∧ cp_shard1 p3 = shard1.

Lemma calculated_residual configuration base w c w' p :
  calculate configuration base w = (Ok c, w') → p ∈ cl_checkpoints c →
  cp_residual p = cp_shard0 p + cp_shard1 p - (cl_genesis c + cl_pre_staking c + cp_accumulator p) - sum_by snd (cp_adjustments p).
Proof.
  intros (_ & ps & points & _ & _ & Hc)%calculate_Ok [i Hi]%list_elem_of_lookup. destruct (lookup_lt_is_Some_2 points i) as [pt Hpt].
  { rewrite (chain_length _ _ _ _ Hc). by apply lookup_lt_Some in Hi. }
  destruct (chain_lookup _ _ _ _ Hc i pt p Hpt Hi) as (prev & [_ Hr _ _ _]). exact Hr.
Qed.

Lemma check_closure_Ok v g ic cu configuration base w c u :
  calculate configuration base w = (Ok c, w) → check_closure v g ic cu c = Ok u →
  closure_evidence w v configuration base (gp_state g) (cu_shard0 cu) (cu_shard1 cu) (ic_max_rate_net ic) (ic_rounding ic).
Proof.
  intros Hcalc H. unfold check_closure in H. inv_ok H. bool_facts.
  repeat match goal with
  | E : find_point _ _ = Ok _ |- _ =>
      eapply find_checkpoint in E; [|eassumption]; destruct E as (? & ? & ->)
  end.
  repeat match goal with E : context [jget_int _ (checkpoint_json ?p)] |- _ =>
    first [apply checkpoint_change in E | rewrite (proj1 (checkpoint_int p)) in E
      | rewrite (proj1 (proj2 (checkpoint_int p))) in E | rewrite (proj1 (proj2 (proj2 (checkpoint_int p)))) in E
      | rewrite (proj2 (proj2 (proj2 (checkpoint_int p)))) in E] end.
  simplify_eq.
  match goal with H1 : last_of (λ p, cp_name p = JStr "post-2023-fix") _ ?p, H2 : last_of (λ p, cp_name p = JStr "top-max-rate-cleanup") _ ?q,
    H3 : last_of (λ p, cp_name p = JStr "cutoff") _ ?r |- _ => exists c, p, q, r end.
  split; [exact Hcalc|]. split; [intros p; by apply (calculated_residual configuration base w c w)|].
  split; [destruct (calculate_Ok _ _ _ _ _ Hcalc) as (_ & ps & points & _ & _ & Hch); by apply (chain_changes _ _ _ _ Hch)|].
  split_and!; done || congruence.
Qed.

(** The reconstruction of December 2023. *)
Definition december_evidence (december_result : json) (december : Z) : Prop :=
  jget_int "total_atto" december_result = Ok december ∧ (l ← jget "by_delegator" december_result; sum_json "atto" l) = Ok december.

Lemma check_december_Ok v d u : check_december v d = Ok u → december_evidence v d.
Proof.
  unfold check_december. intros H. apply bind_Ok in H as (t & Ht & H). apply bind_Ok in H as ([] & H1%raise_when_Ok & H).
  apply bind_Ok in H as (l & Hl & H). apply bind_Ok in H as (z & Hz & H2%raise_when_Ok). bool_facts. subst. split; [done|]. by rewrite Hl.
Qed.

(** ** Lemmas: the amounts not issued *)

(** What the files say of the amounts: [non_issuance], the flow's summary, the treasury's inventory and the ledger's summary. *)
Record issuance_evidence (non_issuance flow treasury ledger : json) (existing retained leak combined gross : Z) : Prop := {
  iv_existing : jpath_int ["existing_non_issuance"; "not_issued_atto"] non_issuance = Ok existing;
  iv_treasury : ∃ reclaim, jpath_int ["totals_atto"; "treasury_reclaim"] treasury = Ok reclaim ∧ reclaim ≤ existing;
  iv_retained : jpath_int ["historical_hack_retained_initial_addresses"; "not_issued_atto"] non_issuance = Ok retained;
  iv_flow : (d ← jget "distribution" flow; l ← jvalues d; held ← mapR (jget_int "held_cap_atto") l; Ok (zsum held)) = Ok retained;
  iv_overlap : ∃ o, jpath ["historical_hack_retained_initial_addresses"; "overlap_with_existing_non_issuance_addresses"] non_issuance = Ok o ∧
    truthy o = false;
  iv_combined : jpath_int ["totals"; "not_issued_atto"] non_issuance = Ok combined;
  iv_sum : combined = existing + retained + leak;
  iv_gross : jpath_int ["totals"; "gross_cutoff_claim_atto"] non_issuance = Ok gross;
  iv_ledger : jget_int "total_claim_atto" ledger = Ok gross;
  iv_remaining : jpath_int ["totals"; "remaining_full_claim_after_non_issuance_atto"] non_issuance = Ok (gross - combined);
}.

(** The section about the leaked credits: [None] when it is missing or empty, and then nothing is withheld for them. *)
Definition leak_section (non_issuance : json) (section : option json) (leak : Z) : Prop :=
  ∃ s, jget_opt "revert_leak_credited_recipients" non_issuance = Ok s ∧
  match section with
  | Some v => truthy s = true ∧ v = s ∧ jget_int "not_issued_atto" s = Ok leak
  | None => truthy s = false ∧ leak = 0
  end.

Lemma check_issuance_Ok flow n treasury ledger existing i total :
  check_historical treasury n = Ok existing → jget_int "total_claim_atto" ledger = Ok total → check_issuance flow n existing total = Ok i →
  issuance_evidence n flow treasury ledger existing (is_retained i) (is_leak i) (is_combined i) total ∧ leak_section n (is_section i) (is_leak i).
Proof.
  intros He Hl H. unfold check_historical in He. apply bind_Ok in He as (reclaim & Hrec & He). apply bind_Ok in He as (x & Hx & He).
  apply bind_Ok in He as ([] & Hle%raise_when_Ok & [= ->]). bool_facts.
  unfold check_issuance in H. apply bind_Ok in H as (d & Hd & H). apply bind_Ok in H as (l & Hv & H). apply bind_Ok in H as (held & Hh & H).
  apply bind_Ok in H as (retained & Hr & H). apply bind_Ok in H as ([] & H1%raise_when_Ok & H). apply bind_Ok in H as (o & Ho & H).
  apply bind_Ok in H as ([] & H2%raise_when_Ok & H). apply bind_Ok in H as (s & Hs & H). cbv zeta in H.
  apply bind_Ok in H as (leak & Hleak & H). apply bind_Ok in H as (combined & Hc & H). apply bind_Ok in H as ([] & H3%raise_when_Ok & H).
  apply bind_Ok in H as (gross & Hg & H). apply bind_Ok in H as ([] & H4%raise_when_Ok & H). apply bind_Ok in H as (remaining & Hrem & H).
  apply bind_Ok in H as ([] & H5%raise_when_Ok & [= <-]). bool_facts. simpl. split.
  - split; try done.
    + by exists reclaim.
    + rewrite Hd. simpl. rewrite Hv. simpl. rewrite Hh. simpl. congruence.
    + by exists o.
    + congruence.
    + rewrite Hrem. f_equal. lia.
  - exists s. split; [done|]. destruct (truthy s); [done|]. split; [done|congruence].
Qed.

(** ** Lemmas: the retained rows *)
Definition row_hex (r : row) : string := lower (get EmptyString (cell_str r "address_hex")).
Definition row_field (k : string) (r : row) : Z := get 0 (cell_int r k).

(** What the loop checks of a row. *)
Definition retained_ok (w : world) (directory : string) (r : row) : Prop :=
  row_field "retained_cap_atto" r = Z.min (row_field "initial_distribution_atto" r) (row_field "cutoff_balance_atto" r) ∧
  r !! "migration_treatment" = Some (Some "not_issued") ∧
  ∃ e, r !! "source_evidence" = Some (Some e) ∧ is_Some (files w !! path_join directory e).

Record retained_read (w : world) (directory : string) (rows : list row) (s : retained_state) : Prop := {
  rr_rows : rs_rows s = Z.of_nat (length rows);
  rr_total : rs_total s = sum_by (row_field "retained_cap_atto") rows;
  rr_addresses : rs_addresses s = list_to_set (row_hex <$> rows);
  rr_distinct : NoDup (row_hex <$> rows);
  rr_ok : Forall (retained_ok w directory) rows;
}.

Lemma retained_row_Ok directory s r w s' w' :
  retained_row directory s r w = (Ok s', w') →
  w' = w ∧ row_hex r ∉ rs_addresses s ∧ retained_ok w directory r ∧
  s' = RetainedState (rs_rows s + 1) (rs_total s + row_field "retained_cap_atto" r) ({[row_hex r]} ∪ rs_addresses s).
Proof.
  intros H. unfold retained_row in H.
  apply io_bind_Ok in H as (a & w1 & [-> Ha]%lift_Ok & H). apply io_bind_Ok in H as ([] & w1 & [-> Hn%raise_when_Ok]%lift_Ok & H).
  apply io_bind_Ok in H as (n & w1 & [-> Hn1]%lift_Ok & H). apply io_bind_Ok in H as (i & w1 & [-> Hi]%lift_Ok & H).
  apply io_bind_Ok in H as (b & w1 & [-> Hb]%lift_Ok & H). apply io_bind_Ok in H as ([] & w1 & [-> Hm%raise_when_Ok]%lift_Ok & H).
  apply io_bind_Ok in H as (t & w1 & [-> Ht%of_option_Ok]%lift_Ok & H).
  apply io_bind_Ok in H as ([] & w1 & [-> Htr%raise_when_Ok]%lift_Ok & H).
  apply io_bind_Ok in H as (e & w1 & [-> He%of_option_Ok]%lift_Ok & H).
  apply io_bind_Ok in H as (ev & w1 & [-> Hev%of_option_Ok]%lift_Ok & H).
  apply io_bind_Ok in H as (f & w1 & [= <- <-] & H). apply io_bind_Ok in H as ([] & w1 & [-> Hf%raise_when_Ok]%lift_Ok & H).
  apply mret_Ok in H as [-> <-]. bool_facts. subst. unfold retained_ok, row_hex, row_field. rewrite Ha, Hn1, Hi, Hb. simpl.
  split_and!; try done. by exists ev.
Qed.

Lemma retained_rows_Ok directory rows w s w' :
  fold_io (retained_row directory) (RetainedState 0 0 ∅) rows w = (Ok s, w') → w' = w ∧ retained_read w directory rows s.
Proof.
  enough (Hgen : ∀ pre s0, retained_read w directory pre s0 → fold_io (retained_row directory) s0 rows w = (Ok s, w') →
    w' = w ∧ retained_read w directory (pre ++ rows) s).
  { apply (Hgen []). split; try done; constructor. }
  induction rows as [|r rows IH]; intros pre s0 Hp H; cbn [fold_io] in H.
  - apply mret_Ok in H as [-> <-]. by rewrite app_nil_r.
  - apply io_bind_Ok in H as (s1 & w1 & (-> & Hn & Hok & ->)%retained_row_Ok & H).
    rewrite (cons_middle r pre rows), app_assoc. revert H. apply IH. destruct Hp as [H1 H2 H3 H4 H5]. split; simpl.
    + rewrite H1, length_app. simpl. lia.
    + by rewrite H2, sum_by_snoc.
    + rewrite H3, fmap_app, list_to_set_app_L. simpl. by rewrite union_empty_r_L, union_comm_L.
    + rewrite fmap_app. apply NoDup_snoc; [done|]. by rewrite H3, elem_of_list_to_set in Hn.
    + apply Forall_app_2; [done|]. by apply Forall_singleton.
Qed.

Lemma file_sha256_Ok p w d w' : file_sha256 p w = (Ok d, w') → w' = w ∧ ∃ s, files w !! p = Some s ∧ d = sha256 s.
Proof.
  unfold file_sha256. rewrite file_sha256_at_read by lia. destruct (files w !! p) as [s|]; intros [= <- <-]; eauto.
Qed.

(** What holds of the export of the retained addresses once it has passed. *)
Record retained_verified (w : world) (path : string) (non_issuance : json) (retained rows : Z) (text : string) : Prop := {
  rv_text : files w !! path = Some text;
  rv_digest : ∃ d, jpath ["outputs"; "retained_not_issued_csv_sha256"] non_issuance = Ok d ∧ jeq_str d (sha256 text) = true;
  rv_count : rows = Z.of_nat (length (dict_rows text));
  rv_distinct : NoDup (row_hex <$> dict_rows text);
  rv_rows : Forall (retained_ok w (parent path)) (dict_rows text);
  rv_total : sum_by (row_field "retained_cap_atto") (dict_rows text) = retained;
}.

Lemma check_retained_csv_Ok path n retained w rows w' :
  check_retained_csv path n retained w = (Ok rows, w') → w' = w ∧ ∃ text, retained_verified w path n retained rows text.
Proof.
  intros H. unfold check_retained_csv in H. apply io_bind_Ok in H as (h & w1 & (-> & text & Ht & ->)%file_sha256_Ok & H).
  apply io_bind_Ok in H as (d & w1 & [-> Hd]%lift_Ok & H). apply io_bind_Ok in H as ([] & w1 & [-> Hh%raise_when_Ok]%lift_Ok & H).
  apply io_bind_Ok in H as (text' & w1 & [-> Ht']%read_Ok & H). rewrite Ht in Ht'. injection Ht' as <-.
  apply io_bind_Ok in H as (s & w1 & (-> & Hs)%retained_rows_Ok & H). apply io_bind_Ok in H as (k & w1 & [-> Hk]%lift_Ok & H).
  apply io_bind_Ok in H as ([] & w1 & [-> Hc%raise_when_Ok]%lift_Ok & H).
  apply io_bind_Ok in H as ([] & w1 & [-> Hz%raise_when_Ok]%lift_Ok & H). apply mret_Ok in H as [-> <-].
  split; [done|]. exists text. bool_facts. destruct Hs as [H1 H2 H3 H4 H5]. split; try done; [|lia].
  by exists d.
Qed.

(** What the loop checks of a withheld leak credit. *)
Definition leak_ok (r : row) : Prop :=
  row_field "retained_cap_atto" r =
    Z.min (row_field "unbacked_credit_atto" r) (Z.max (row_field "cutoff_native_claim_atto" r - row_field "prior_non_issuance_atto" r) 0) ∧
  0 < row_field "retained_cap_atto" r ∧ r !! "migration_treatment" = Some (Some "not_issued").

Lemma leak_row_Ok s r s' : leak_row s r = Ok s' → leak_ok r ∧ s' = (s.1 + 1, s.2 + row_field "retained_cap_atto" r).
Proof.
  destruct s as [n t]. unfold leak_row. intros H.
  apply bind_Ok in H as (a & Ha & H). apply bind_Ok in H as (c & Hc & H). apply bind_Ok in H as (l & Hl & H).
  apply bind_Ok in H as (p & Hp & H). cbv zeta in H. apply bind_Ok in H as (bad & Hb & H).
  destruct bad; [apply bind_Ok in H as ([] & He & _); by apply bind_Ok in He as (? & _ & ?)|].
  simpl in H. injection H as <-. destruct (negb (a =? _) || (a <=? 0)) eqn:E; [done|].
  apply bind_Ok in Hb as (tr & Htr & [= Hb]). apply of_option_Ok in Htr. bool_facts. subst.
  unfold leak_ok, row_field. rewrite Ha, Hc, Hl, Hp. simpl. split_and!; try done; lia.
Qed.

Lemma csv_rows_leak rows s : foldM leak_row (0, 0) rows = Ok s →
  Forall leak_ok rows ∧ s = (Z.of_nat (length rows), sum_by (row_field "retained_cap_atto") rows).
Proof.
  apply (foldM_ind _ (λ rows s, Forall leak_ok rows ∧ s = (Z.of_nat (length rows), sum_by (row_field "retained_cap_atto") rows))).
  - done.
  - intros pre x s1 s2 [Hp ->] _ [Hx ->]%leak_row_Ok. split; [by apply Forall_app_2, Forall_singleton|].
    rewrite sum_by_snoc, length_app. simpl. f_equal. lia.
Qed.

(** The release lists the file [name] with the size, the number of rows and the digest of [text]. *)
Definition asset_ok (asset : json) (text : string) (rows : Z) : Prop :=
  (∃ b, jget "bytes" asset = Ok b ∧ jeq_int b (Z.of_nat (String.length text)) = true) ∧
  (∃ r, jget "rows" asset = Ok r ∧ jeq_int r rows = true) ∧
  (∃ h, jget "sha256" asset = Ok h ∧ jeq_str h (sha256 text) = true).

Definition asset_listed (release : json) (name text : string) (rows : Z) : Prop :=
  ∃ assets asset, (l ← jget "assets" release; jiter l) = Ok assets ∧ last_of (has_name name) assets asset ∧ asset_ok asset text rows.

Lemma asset_found release assets name asset text rows :
  release_assets release = Ok assets → assets !! name = Some asset → asset_ok asset text rows → asset_listed release name text rows.
Proof.
  intros H Ha Hok. unfold release_assets in H. apply bind_Ok in H as (l & Hl & H). apply bind_Ok in H as (xs & Hxs & H).
  exists xs, asset. split; [by rewrite Hl|]. split; [by eapply add_points_Ok|done].
Qed.

Lemma asset_differs_Ok asset path rows w w' text :
  files w !! path = Some text → asset_differs asset path rows w = (Ok false, w') → w' = w ∧ asset_ok asset text rows.
Proof.
  intros Ht H. unfold asset_differs in H. apply io_bind_Ok in H as (b & w1 & [-> Hb]%lift_Ok & H).
  apply io_bind_Ok in H as (t & w1 & [-> Ht']%read_Ok & H). rewrite Ht in Ht'. injection Ht' as <-.
  destruct (jeq_int b _) eqn:Eb; cbn [negb] in H; [|by apply mret_Ok in H as [_ ?]].
  apply io_bind_Ok in H as (r & w1 & [-> Hr]%lift_Ok & H). destruct (jeq_int r _) eqn:Er; cbn [negb] in H; [|by apply mret_Ok in H as [_ ?]].
  apply io_bind_Ok in H as (h & w1 & [-> Hh]%lift_Ok & H). apply io_bind_Ok in H as (d & w1 & (-> & t' & Ht' & ->)%file_sha256_Ok & H).
  rewrite Ht in Ht'. injection Ht' as <-. apply mret_Ok in H as [-> Hx]. apply negb_false_iff in Hx. split; [done|]. split_and!; eauto.
Qed.

Lemma check_retained_asset_Ok assets path rows w u w' text :
  files w !! path = Some text → check_retained_asset assets path rows w = (Ok u, w') →
  w' = w ∧ ∃ asset, assets !! file_name path = Some asset ∧ asset_ok asset text rows.
Proof.
  intros Ht H. unfold check_retained_asset in H. destruct (assets !! file_name path) as [asset|]; [|done].
  apply io_bind_Ok in H as (bad & w1 & H1 & [-> ->%raise_when_Ok]%lift_Ok). apply (asset_differs_Ok _ _ _ _ _ text) in H1 as [-> Hok]; [|done].
  split; [done|]. by exists asset.
Qed.

(** The withheld credits: their export stands next to the release, which lists it. *)
Definition leak_verified (root : string) (w : world) (non_issuance section release : json) (revert_leak : Z) (text : string) : Prop :=
  ∃ name p, jpath ["sources"; "revert_leak_retention"; "name"] non_issuance = Ok name ∧
    as_path name = Ok p ∧
    let path := path_join (path_join root "artifacts/revert-leak-retention-20260923") (file_name p) in
    files w !! path = Some text ∧
    (∃ d, jpath ["sources"; "revert_leak_retention"; "sha256"] non_issuance = Ok d ∧ jeq_str d (sha256 text) = true) ∧
    (∃ n, jget "positive_addresses" section = Ok n ∧ jeq_int n (Z.of_nat (length (dict_rows text))) = true) ∧
    Forall leak_ok (dict_rows text) ∧ sum_by (row_field "retained_cap_atto") (dict_rows text) = revert_leak ∧
    asset_listed release (file_name path) text (Z.of_nat (length (dict_rows text))).

Lemma check_leak_csv_Ok root n section total release assets w u w' :
  release_assets release = Ok assets → check_leak_csv root n section total assets w = (Ok u, w') →
  w' = w ∧ ∃ text, leak_verified root w n section release total text.
Proof.
  intros Hrel H. unfold check_leak_csv in H. apply io_bind_Ok in H as (j & w1 & [-> Hj]%lift_Ok & H).
  apply io_bind_Ok in H as (p & w1 & [-> Hp]%lift_Ok & H). cbv zeta in H.
  apply io_bind_Ok in H as (h & w1 & (-> & text & Ht & ->)%file_sha256_Ok & H).
  apply io_bind_Ok in H as (d & w1 & [-> Hd]%lift_Ok & H). apply io_bind_Ok in H as ([] & w1 & [-> Hh%raise_when_Ok]%lift_Ok & H).
  apply io_bind_Ok in H as (text' & w1 & [-> Ht']%read_Ok & H). rewrite Ht in Ht'. injection Ht' as <-.
  apply io_bind_Ok in H as ([rows z] & w1 & [-> [Hok [= -> ->]]%csv_rows_leak]%lift_Ok & H).
  apply io_bind_Ok in H as (k & w1 & [-> Hk]%lift_Ok & H). apply io_bind_Ok in H as ([] & w1 & [-> Hz%raise_when_Ok]%lift_Ok & H).
  apply io_bind_Ok in H as (b & w1 & Hb & [-> ->%raise_when_Ok]%lift_Ok).
  apply negb_false_iff in Hh. apply orb_false_iff in Hz as [Hz1%negb_false_iff Hz2%negb_false_iff].
  destruct (assets !! _) as [asset|] eqn:Ha in Hb; [|by apply mret_Ok in Hb as [_ ?]].
  apply (asset_differs_Ok _ _ _ _ _ text) in Hb as [-> Haok]; [|done]. split; [done|].
  exists text, j, p. cbv zeta. split_and!; eauto; [lia|]. by eapply asset_found.
Qed.

(** ** What a run reads *)

(** [json_at w p v]: the file [p] of [w] is the JSON text of [v]. *)
Definition json_at (w : world) (p : string) (v : json) : Prop := ∃ text, files w !! p = Some text ∧ loads text = Ok v.

Lemma load_json_at p w v w' : load_json p w = (Ok v, w') → w' = w ∧ json_at w p v.
Proof.
  intros H. unfold load_json in H. apply io_bind_Ok in H as (t & w1 & [-> Ht]%read_Ok & [-> Hl]%lift_Ok). split; [done|]. by exists t.
Qed.

Record inputs := Inputs {
  in_reconciliation : json;
  in_formula : json;
  in_supply : json;
  in_ledger : json;
  in_receipts : json;
  in_closure : json;
  in_december : json;
  in_treasury : json;
  in_non_issuance : json;
  in_flow : json;
  in_release : json;
}.

(** The values that the files of a run hold. *)
Record inputs_at (a : args) (w : world) (i : inputs) : Prop := {
  at_reconciliation : json_at w (path_join (a_results a) "reconciliation.json") (in_reconciliation i);
  at_formula : json_at w (a_formula_input a) (in_formula i);
  at_supply : json_at w (path_join (a_results a) "actual-supply-cutoff.json") (in_supply i);
  at_ledger : json_at w (path_join (a_results a) "actual-supply-ledger-cutoff-summary.json") (in_ledger i);
  at_receipts : json_at w (path_join (a_results a) "cross-shard-supply-cutoff.json") (in_receipts i);
  at_closure : json_at w (a_closure_input a) (in_closure i);
  at_december : json_at w (path_join (a_results a) "december-2023-undelegation-mint-reconstruction.json") (in_december i);
  at_treasury : json_at w (path_join (a_results a) "treasury-reclaim-inventory-summary.json") (in_treasury i);
  at_non_issuance : json_at w (path_join (a_non_issuance_results a) "migration-non-issuance-summary.json") (in_non_issuance i);
  at_flow : json_at w (path_join (a_results a) "historical-exploit-flow-summary.json") (in_flow i);
  at_release : json_at w (a_non_issuance_release a) (in_release i);
}.

(** What the files say of the supply gap when a run has passed. *)
Definition gap_verified (a : args) (w : world) (i : inputs) (state_gap claim_gap known_peak : Z) : Prop :=
  ∃ formula pending shard0 shard1 total max_rate components cross december max_rate_net rounding,
    gap_evidence (in_reconciliation i) (in_supply i) (in_ledger i) (in_receipts i) formula state_gap pending claim_gap shard0 shard1 total ∧
    formula_evidence (in_formula i) formula ∧
    incident_evidence (in_reconciliation i) max_rate components cross december max_rate_net rounding known_peak ∧
    december_evidence (in_december i) december ∧
    closure_evidence w (in_reconciliation i) (in_closure i) (parent (a_closure_input a)) state_gap shard0 shard1 max_rate_net rounding.

(** What they say of the amounts not issued. *)
Definition issuance_verified (a : args) (w : world) (i : inputs) (combined : Z) : Prop :=
  ∃ existing retained leak gross section,
    issuance_evidence (in_non_issuance i) (in_flow i) (in_treasury i) (in_ledger i) existing retained leak combined gross ∧
    leak_section (in_non_issuance i) section leak ∧
    (∃ path rows text, retained_csv a (in_non_issuance i) = Ok path ∧ retained_verified w path (in_non_issuance i) retained rows text ∧
       asset_listed (in_release i) (file_name path) text rows) ∧
    match section with
    | Some s => ∃ text, leak_verified (a_root a) w (in_non_issuance i) s (in_release i) leak text
    | None => leak = 0
    end.

(** Steps of a run that only read, in the order of the program. *)
Ltac next_load H n E := apply io_bind_Ok in H as (n & ? & [-> E]%load_json_at & H).
Ltac next_lift H n E := apply io_bind_Ok in H as (n & ? & [-> E]%lift_Ok & H).

Lemma main_passed a w line w' :
  main a w = (Ok line, w') →
  w' = w ∧ ∃ i state_gap claim_gap known_peak combined,
    inputs_at a w i ∧ gap_verified a w i state_gap claim_gap known_peak ∧ issuance_verified a w i combined ∧
    line = pass_line state_gap claim_gap known_peak combined.
Proof.
  intros H. unfold main, load in H. cbv zeta in H. next_load H r Hr. next_load H fi Hfi. next_lift H g Hg. next_lift H ic Hic. next_lift H f Hf.
  next_load H j1 H1. next_load H j2 H2. next_load H j3 H3. next_lift H cu Hcu. next_load H cc Hcc.
  apply io_bind_Ok in H as (c & w1 & Hc & H). apply reads_only_world in Hc as Hw; [|apply reads_only_calculate]. subst w1.
  next_lift H u0 Hcl. next_load H d Hd. next_lift H u1 Hde. next_load H bu Hbu. next_lift H u2 Hb. next_load H pr Hpr. next_lift H u3 Hp.
  next_load H tr Htr. next_lift H u4 Ht. next_load H n Hn. next_lift H u5 Hpol. next_lift H existing Hex. next_load H flow Hflow. next_lift H i Hi.
  next_lift H path Hpath. apply io_bind_Ok in H as (rows & w1 & (-> & text & Hret)%check_retained_csv_Ok & H).
  next_load H release Hrel. next_lift H assets Hass.
  apply io_bind_Ok in H as ([] & w1 & Hra & H). apply (check_retained_asset_Ok _ _ _ _ _ _ text) in Hra as (-> & asset & Ha & Haok); [|apply Hret].
  apply io_bind_Ok in H as ([] & w1 & Hl & H). apply mret_Ok in H as [-> <-].
  pose proof (check_cutoff_Ok _ _ _ _ _ _ _ Hg Hcu) as Hgap.
  pose proof (check_issuance_Ok _ _ _ _ _ _ _ Hex (ge_total _ _ _ _ _ _ _ _ _ _ _ Hgap) Hi) as [Hiss Hsec].
  assert (Hw : w1 = w ∧ match is_section i with
    | Some section => ∃ text, leak_verified (a_root a) w n section release (is_leak i) text
    | None => is_leak i = 0 end).
  { destruct (is_section i) as [s|]; [by eapply check_leak_csv_Ok|]. apply mret_Ok in Hl as [-> _]. split; [done|].
    by destruct Hsec as (x & _ & _ & ?). }
  destruct Hw as [-> Hleak]. split; [done|].
  exists (Inputs r fi j1 j2 j3 cc d tr n flow release), (gp_state g), (gp_claim g), (ic_known_peak ic), (is_combined i).
  split; [by split|]. split; [|split; [|done]].
  - destruct (check_incidents_Ok _ _ _ Hg Hic) as (mr & components & Hev).
    exists f, (gp_pending g), (cu_shard0 cu), (cu_shard1 cu), (cu_total cu), mr, components, (ic_cross_shard ic), (ic_december ic),
      (ic_max_rate_net ic), (ic_rounding ic).
    split; [exact Hgap|]. split; [by apply check_formula_Ok|]. split; [exact Hev|]. split; [by eapply check_december_Ok|].
    by eapply check_closure_Ok.
  - exists existing, (is_retained i), (is_leak i), (cu_total cu), (is_section i). split; [exact Hiss|]. split; [exact Hsec|].
    split; [|exact Hleak]. exists path, rows, text. split; [done|]. split; [done|]. by eapply asset_found.
Qed.

(** ** Properties *)

(** C18 (invariant): when the verifier passes, it has changed no file, and the files hold numbers that fit together.  The components of the
    reconciliation sum to its state gap, which is the claims of both shards (of the supply result and of the ledger's summary) less the formula;
    with the pending receipts, on which the reconciliation, the ledger and the receipts agree, it is the claim gap, which is the ledger's
    total less the formula.  The formula is genesis, the rewards before staking and the accumulator corrected by the wrappers' change.  The
    named incident components give the net and the peak subtotals, the exposure and its clean-up, and the December reconstruction.  The historical
    closure, calculated again from its configuration, leads from the recorded deficit over the clean-up's change and the rounding to
    the same gap and claims at the cutoff.  The printed line shows these two gaps and the peak. *)
Theorem reconciliation_closes a w line w' :
  main a w = (Ok line, w') →
  w' = w ∧ ∃ i state_gap claim_gap known_peak combined,
    inputs_at a w i ∧ line = pass_line state_gap claim_gap known_peak combined ∧
    ∃ formula pending shard0 shard1 total max_rate components cross december max_rate_net rounding,
      gap_evidence (in_reconciliation i) (in_supply i) (in_ledger i) (in_receipts i) formula state_gap pending claim_gap shard0 shard1 total ∧
      formula_evidence (in_formula i) formula ∧
      incident_evidence (in_reconciliation i) max_rate components cross december max_rate_net rounding known_peak ∧
      december_evidence (in_december i) december ∧
      closure_evidence w (in_reconciliation i) (in_closure i) (parent (a_closure_input a)) state_gap shard0 shard1 max_rate_net rounding.
Proof.
  intros (-> & i & sg & cg & kp & co & Hi & Hg & _ & ->)%main_passed. split; [done|]. exists i, sg, cg, kp, co. by split_and!.
Qed.


(** ** Witnesses *)
Definition ex_field (k : string) (n : Z) : string * json := (k, JStr (str_of_Z n)).

Definition ex_component (name : string) (n : Z) : json := JObj [("name", JStr name); ex_field "atto" n].

Definition ex_semantics : list (string * json) :=
  [("treasury_destination", JNull); ("available_for_other_use", JBool false); ("old_chain_gross_claim_changed", JBool false);
   ("migration_allocation_reduced", JBool true); ("fixed_erc20_total_supply_changed", JBool false);
   ("composite_policy_summary", JStr "results/2026-09-17/migration-policy-reconciliation.json")].

Definition ex_reconciliation : json :=
  JObj [("components", JArr [ex_component "pre_existing" (-7); ex_component "trace_proven_cross_shard_rollback_leakage" 3;
           ex_component "canonical_state_proven_source_debit_absence" 2;
           ex_component "december_2023_repeated_undelegation_mint" 7;
           ex_component "post_2023_max_rate_net_effect_at_cleanup" 4; ex_component "post_top_max_rate_rounding_drift" 1]);
        ex_field "state_resident_formula_gap_atto" 10; ex_field "supported_pending_receipts_outside_state_atto" 6;
        ex_field "claim_adjusted_formula_gap_atto" 16;
        ("post_2023_max_rate", JObj
           [ex_field "net_state_formula_effect_at_cleanup_atto" 4;
            ex_field "activation_inclusive_peak_duplicated_claim_exposure_atto" 9;
            ex_field "post_checkpoint_peak_duplicated_claim_exposure_atto" 8;
            ex_field "activation_opening_duplicated_claim_exposure_atto" 1;
            ("accounting_interpretation", JObj [("peak_exposure_is_not_second_liquid_payout_total", JBool true)]);
            ex_field "stale_undelegation_liabilities_removed_at_cleanup_atto" 3;
            ex_field "formula_counted_validator_rewards_not_committed_atto" 1;
            ex_field "claim_exposure_cleanup_equation_closure_atto" 0; ex_field "measured_net_effect_through_october_atto" 4]);
        ("known_unauthorized_net_cutoff_component", JObj [ex_field "atto" 16]);
        ("known_unauthorized_peak_claim_inflation", JObj [ex_field "atto" 21]);
        ("pre_existing_net_deficit", JObj [ex_field "net_atto" (-7)]);
        ("historical_treasury_routing_inventory", JObj [ex_field "treasury_reclaim_atto" 4]);
        ("migration_non_issuance_policy", JObj ex_semantics)].

Definition ex_formula : json :=
  JObj [ex_field "genesis_atto" 100; ex_field "pre_staking_rewards_atto" 20; ex_field "base_accumulator_atto" 10;
        ex_field "base_wrapper_rewards_atto" 5; ex_field "cutoff_wrapper_rewards_atto" 8; ex_field "wrapper_reward_delta_atto" 3;
        ex_field "reconstructed_accumulator_atto" 13; ex_field "formula_before_exclusions_atto" 133].

Definition ex_checkpoint (name : string) (s0 s1 acc adj : Z) : json :=
  JObj [("name", JStr name); ("shard0_claims_atto", JInt s0); ("shard1_claims_atto", JInt s1);
        ("block_reward_accumulator_atto", JInt acc); ("adjustments_atto", JObj [("all", JInt adj)])].

Definition ex_history : json :=
  JObj [("genesis_atto", JInt 100); ("pre_staking_rewards_atto", JInt 20);
        ("checkpoints", JArr [ex_checkpoint "post-2023-fix" 90 35 10 2; ex_checkpoint "top-max-rate-cleanup" 92 35 10 0;
                              ex_checkpoint "cutoff" 100 43 13 12])].

Definition ex_retained : string := write_csv
  [["address_hex"; "retained_cap_atto"; "initial_distribution_atto"; "cutoff_balance_atto"; "migration_treatment"; "source_evidence"];
   ["0xAa"; "3"; "3"; "9"; "not_issued"; "evidence/one.json"]; ["0xbb"; "2"; "5"; "2"; "not_issued"; "evidence/one.json"]].

Definition ex_leak : string := write_csv
  [["address_hex"; "retained_cap_atto"; "unbacked_credit_atto"; "cutoff_native_claim_atto"; "prior_non_issuance_atto"; "migration_treatment"];
   ["0xcc"; "4"; "6"; "5"; "1"; "not_issued"]].

Definition ex_summary : json :=
  JObj [("policy", JObj (("migration_treatment", JStr "not_issued") :: ex_semantics));
        ("existing_non_issuance", JObj [ex_field "not_issued_atto" 6]);
        ("historical_hack_retained_initial_addresses", JObj [ex_field "not_issued_atto" 5;
           ("overlap_with_existing_non_issuance_addresses", JInt 0)]);
        ("revert_leak_credited_recipients", JObj [ex_field "not_issued_atto" 4; ("positive_addresses", JInt 1)]);
        ("totals", JObj [ex_field "not_issued_atto" 15; ex_field "gross_cutoff_claim_atto" 149;
           ex_field "remaining_full_claim_after_non_issuance_atto" 134]);
        ("outputs", JObj [("retained_not_issued_csv", JStr "retained.csv"); ("retained_not_issued_csv_sha256", JStr (sha256 ex_retained));
           ("retained_not_issued_rows", JInt 2)]);
        ("sources", JObj [("revert_leak_retention", JObj [("name", JStr "leak.csv"); ("sha256", JStr (sha256 ex_leak))])])].

Definition ex_asset (name text : string) (rows : Z) : json :=
  JObj [("name", JStr name); ("bytes", JInt (Z.of_nat (String.length text))); ("rows", JInt rows); ("sha256", JStr (sha256 text))].

Definition ex_world : world := World (list_to_map
  [("r/reconciliation.json", dumps ex_reconciliation); ("formula.json", dumps ex_formula);
   ("r/actual-supply-cutoff.json", dumps (JObj [ex_field "account_and_staking_claims_atto" 100]));
   ("r/actual-supply-ledger-cutoff-summary.json", dumps (JObj [ex_field "liquid_shard1_atto" 43; ex_field "total_claim_atto" 149;
      ex_field "pending_cross_shard_atto" 6]));
   ("r/cross-shard-supply-cutoff.json", dumps (JObj [ex_field "pending_active_atto" 6]));
   ("closure.json", dumps ex_history);
   ("r/december-2023-undelegation-mint-reconstruction.json", dumps (JObj [ex_field "total_atto" 7;
      ("by_delegator", JArr [JObj [ex_field "atto" 3]; JObj [ex_field "atto" 4]])]));
   ("r/burn-address-audit.json", dumps (JObj [("positive_inaccessible_or_precompile_addresses", JArr [JObj [ex_field "cutoff_atto" 2]]);
      ex_field "positive_inaccessible_total_atto" 2]));
   ("r/staking-precompile-target-audit-summary.json", dumps (JObj [("blocks_scanned", JInt 13697024);
      ("top_level_staking_precompile_calls", JInt 79602); ("unknown_target_transactions", JInt 0)]));
   ("r/treasury-reclaim-inventory-summary.json", dumps (JObj [("totals_atto", JObj [ex_field "treasury_reclaim" 4]);
      ("policy_status", JStr "superseded")]));
   ("n/migration-non-issuance-summary.json", dumps ex_summary);
   ("r/historical-exploit-flow-summary.json", dumps (JObj [("distribution", JObj
      [("initial", JObj [ex_field "held_cap_atto" 3]); ("other", JObj [ex_field "held_cap_atto" 2])])]));
   ("repo/artifacts/historical-retention-snapshot-20260916/retained.csv", ex_retained);
   ("repo/artifacts/historical-retention-snapshot-20260916/evidence/one.json", "{}");
   ("repo/artifacts/revert-leak-retention-20260923/leak.csv", ex_leak);
   ("release.json", dumps (JObj [("assets", JArr [ex_asset "retained.csv" ex_retained 2; ex_asset "leak.csv" ex_leak 1])]))]) None.

Definition ex_args : args := Args "r" "formula.json" "closure.json" "n" "release.json" "repo".

Definition ex_line : string := get EmptyString (main ex_args ex_world).1.

Lemma ex_verify : main ex_args ex_world = (Ok ex_line, (main ex_args ex_world).2).
Proof. apply run_Ok, get_Ok. by vm_compute. Qed.

Example ex_printed : ex_line = "PASS reconciliation: state_gap_atto=10 claim_gap_atto=16 known_peak_claim_inflation_atto=21 not_issued_atto=15".
Proof. by vm_compute. Qed.

Lemma ex_json_at p v j : json_at ex_world p v → (match files ex_world !! p with Some t => loads t | None => Err TypeError end) = Ok j → v = j.
Proof. intros (t & -> & Hl) H. congruence. Qed.

(** The gap of the example's files. *)
Lemma reconciliation_closes_witness : ∃ state_gap claim_gap pending total formula,
  jget_int "state_resident_formula_gap_atto" (get JNull (loads (dumps ex_reconciliation))) = Ok state_gap ∧
  state_gap + pending = claim_gap ∧ total - formula = claim_gap.
Proof.
  destruct (reconciliation_closes ex_args ex_world ex_line _ ex_verify)
    as (_ & i & sg & cg & kp & co & Hi & _ & f & p & s0 & s1 & t & _ & _ & _ & _ & _ & _ & Hg & _).
  exists sg, cg, p, t, f. split; [|split; [apply (ge_gaps _ _ _ _ _ _ _ _ _ _ _ Hg)|apply (ge_claim _ _ _ _ _ _ _ _ _ _ _ Hg)]].
  rewrite <-(ex_json_at _ _ _ (at_reconciliation _ _ _ Hi) (get_Ok JNull (loads (dumps ex_reconciliation)) ltac:(by vm_compute))).
  exact (ge_state_gap _ _ _ _ _ _ _ _ _ _ _ Hg).
Defined.

