(* ===== verification/Pipeline.v ===== *)
(** * The scripts composed

    What one script writes, the next one reads.  [leak_export_accepted]: the files that a run of
    build-revert-leak-retention.py (RevertLeak.v) leaves behind pass every check of
    [load_revert_leak] of build-non-issuance-audit.py (NonIssuance.v), which re-derives each
    withheld amount, compares the totals with the summary and the digest with the file.  The
    CSV goes through Csv.v, the summary through JsonText.v and the digest through Sha256.v. *)
From S2P Require Import Prelude PyStr PyData Sha256 Files Csv Json JsonText Bech32 RevertLeak NonIssuance.

(** ** The summary is text that can be read back *)

(** The texts that the summary of the leaks quotes. *)
Definition quoted_texts (resolve : string → list string) (a : RevertLeak.args) (b : built) : list string :=
  elements (dom (b_by_incident b)) ++ sorted_addresses (lk_credit (b_leaks b)) ++
  (portable_source_name resolve <$> RevertLeak.a_receipt_audit a ++ [a_exploit_transactions a; a_claims a] ++
     a_prior_retention a ++ a_prior_non_issuance a) ++
  [file_name (RevertLeak.a_output_csv a)].

Definition printable (resolve : string → list string) (a : RevertLeak.args) (b : built) : bool :=
  forallb is_ascii (quoted_texts resolve a b).

Lemma printable_elem resolve a b t : printable resolve a b = true → t ∈ quoted_texts resolve a b → is_ascii t = true.
Proof. unfold printable. rewrite forallb_forall. intros H Ht. by apply H, list_elem_of_In. Qed.

Lemma source_entry_ok resolve p w j w' :
  RevertLeak.source_entry resolve p w = (Ok j, w') → is_ascii (portable_source_name resolve p) = true → json_ok j = true.
Proof.
  intros H Hp. unfold RevertLeak.source_entry, RevertLeak.file_sha256 in H. apply io_bind_Ok in H as (d & w1 & Hd & H).
  rewrite file_sha256_at_read in Hd by lia. destruct (files w !! p) as [t|]; [|done]. injection Hd as <- <-.
  apply mret_Ok in H as [_ <-]. json_object; [exact Hp|apply is_ascii_sha256].
Qed.

Lemma source_entries_ok resolve ps w js w' :
  map_io (RevertLeak.source_entry resolve) ps w = (Ok js, w') →
  Forall (λ p, is_ascii (portable_source_name resolve p) = true) ps → json_ok (JArr js) = true.
Proof.
  intros H Hps. cbn [json_ok]. revert w js w' H. induction Hps as [|p ps Hp _ IH]; intros w js w' H; cbn [map_io] in H.
  - by apply mret_Ok in H as [_ <-].
  - apply io_bind_Ok in H as (j & w1 & Hj & H). apply io_bind_Ok in H as (js' & w2 & Hjs & H).
    apply mret_Ok in H as [_ <-]. simpl. apply andb_true_iff. split; [by apply source_entry_ok in Hj|by apply IH in Hjs].
Qed.

Lemma stats_json_ok s : json_ok (stats_json s) = true.
Proof. unfold stats_json. json_object; simpl; auto using is_ascii_str_of_Z, is_ascii_display_one. Qed.

Lemma quoted_elem resolve a b t :
  t ∈ quoted_texts resolve a b ↔ is_Some (b_by_incident b !! t) ∨ t ∈ sorted_addresses (lk_credit (b_leaks b)) ∨
  t ∈ portable_source_name resolve <$> RevertLeak.a_receipt_audit a ++ [a_exploit_transactions a; a_claims a] ++
     a_prior_retention a ++ a_prior_non_issuance a ∨ t = file_name (RevertLeak.a_output_csv a).
Proof. unfold quoted_texts. rewrite !elem_of_app, elem_of_elements, elem_of_dom, list_elem_of_singleton. tauto. Qed.

(** A summary that quotes ASCII texts survives printing. *)
Lemma summary_ok resolve a b w s w' :
  RevertLeak.summary resolve a b w = (Ok s, w') → printable resolve a b = true → json_ok s = true.
Proof.
  intros H Hp. assert (Hq : ∀ t, t ∈ quoted_texts resolve a b → is_ascii t = true) by (intros; by eapply printable_elem).
  assert (Hn : ∀ p, p ∈ RevertLeak.a_receipt_audit a ++ [a_exploit_transactions a; a_claims a] ++
     a_prior_retention a ++ a_prior_non_issuance a → is_ascii (portable_source_name resolve p) = true).
  { intros p Hin. apply Hq, quoted_elem. right; right; left. by apply list_elem_of_fmap_2. }
  setoid_rewrite elem_of_app in Hn. setoid_rewrite elem_of_app in Hn. setoid_rewrite elem_of_app in Hn.
  unfold RevertLeak.summary in H.
  apply io_bind_Ok in H as (x1 & w1 & H1 & H). apply source_entries_ok in H1; [|apply Forall_forall; intros; apply Hn; tauto].
  apply io_bind_Ok in H as (x2 & w2 & H2 & H). apply source_entry_ok in H2; [|apply Hn; right; left; by left].
  apply io_bind_Ok in H as (x3 & w3 & H3 & H). apply source_entry_ok in H3; [|apply Hn; right; left; right; by left].
  apply io_bind_Ok in H as (x4 & w4 & H4 & H). apply source_entries_ok in H4; [|apply Forall_forall; intros; apply Hn; tauto].
  apply io_bind_Ok in H as (x5 & w5 & H5 & H). apply source_entries_ok in H5; [|apply Forall_forall; intros; apply Hn; tauto].
  apply io_bind_Ok in H as (d & w6 & Hd & H). unfold RevertLeak.file_sha256 in Hd. rewrite file_sha256_at_read in Hd by lia.
  destruct (files w5 !! _) as [t|]; [|done]. injection Hd as <- <-. apply mret_Ok in H as [_ <-].
  unfold summary_json. json_object; try done; try apply is_ascii_str_of_Z; try apply is_ascii_display_one.
  - apply json_ok_strings, Forall_forall. intros x [_ Hx]%list_elem_of_filter. apply Hq, quoted_elem. tauto.
  - apply json_ok_obj.
    + apply bool_decide_eq_true. rewrite <-list_fmap_compose. apply NoDup_fst_map_to_list.
    + apply Forall_fmap, Forall_forall. intros [i v] Hi%elem_of_map_to_list. change (is_ascii i && json_ok (stats_json v) = true). rewrite stats_json_ok, andb_true_r.
      apply Hq, quoted_elem. left. by exists v.
  - json_object; done.
  - json_object; [apply Hq, quoted_elem; tauto|apply is_ascii_sha256|done].
Qed.

(** ** The export *)

(** A row of the export follows the rule that is checked again. *)
Lemma exported_row_ok a w b caps amounts c r :
  ran a w b → r ∈ b_rows b → mget caps (rt_address r) + mget amounts (rt_address r) = rt_prior r →
  row_address (RevertLeak.exported_row c r) = rt_address r ∧
  leak_withheld (RevertLeak.exported_row c r) = rt_withheld r ∧
  leak_row_ok caps amounts (RevertLeak.exported_row c r).
Proof.
  intros Hran Hr Hprior. destruct (ran_rows a w b Hran) as (_ & Hrows & _).
  destruct (Hrows r Hr) as ((_ & Hc & _ & _ & _ & Hw & _) & Hnz & Hin).
  assert (Hpos : 0 < rt_withheld r).
  { destruct Hran as [(inc & rows & _ & Hlk) _ _ _]. destruct (kept_credit _ _ _ (rt_address r) Hlk) as [_ Hge].
    rewrite <-Hc in Hge. rewrite Hw in *. unfold withhold in *. lia. }
  assert (Ea : cell_str (RevertLeak.exported_row c r) "address_hex" = Ok (rt_address r))
    by (apply cell_str_Ok; by apply (RevertLeak.exported_lookup c r 1)).
  assert (Ec : cell_int (RevertLeak.exported_row c r) "unbacked_credit_atto" = Ok (rt_credit r)) by by apply (RevertLeak.exported_int c r 3).
  assert (El : cell_int (RevertLeak.exported_row c r) "cutoff_native_claim_atto" = Ok (rt_claim r)) by by apply (RevertLeak.exported_int c r 5).
  assert (Ep : cell_int (RevertLeak.exported_row c r) "prior_non_issuance_atto" = Ok (rt_prior r)) by by apply (RevertLeak.exported_int c r 6).
  assert (Ew : cell_int (RevertLeak.exported_row c r) "retained_cap_atto" = Ok (rt_withheld r)) by by apply (RevertLeak.exported_int c r 7).
  assert (Hx : row_address (RevertLeak.exported_row c r) = rt_address r).
  { unfold row_address. rewrite Ea. simpl. by apply (ran_lower a w b). }
  assert (Hlw : leak_withheld (RevertLeak.exported_row c r) = rt_withheld r) by (unfold leak_withheld; by rewrite Ew).
  split_and!; [done|done|]. unfold leak_row_ok. rewrite Hx, Hprior, Hlw. unfold leak_credit, leak_claim.
  rewrite Ea, Ec, El, Ep, Ew. cbn [get is_ok]. split_and!; try done.
Qed.

(** The values that are checked, found in the summary that was read back. *)
Lemma summary_found resolve a b w s sources digest w2 :
  RevertLeak.summary resolve a b w = (Ok s, w2) → printable resolve a b = true →
  s = summary_json a b sources
        (JObj [("csv", JStr (file_name (RevertLeak.a_output_csv a))); ("csv_sha256", JStr digest);
               ("rows", JInt (Z.of_nat (length (b_rows b))))]) →
  jget_opt "status" (canon s) = Ok (JStr "passed") ∧
  (∃ o, jget "outputs" (canon s) = Ok o ∧ jget "csv_sha256" o = Ok (JStr digest)) ∧
  jget "not_issued_atto" (canon s) = Ok (JStr (str_of_Z (total_withheld b))) ∧
  jget "positive_rows" (canon s) = Ok (JInt (Z.of_nat (length (b_rows b)))).
Proof.
  intros Hs Hp E. pose proof (summary_ok _ _ _ _ _ _ Hs Hp) as Hok. subst s. split_and!.
  - apply jget_jget_opt. by apply (jget_canon "status" _ (JStr "passed")).
  - eexists. split; [by apply (jget_canon "outputs")|].
    apply (jget_canon "csv_sha256" _ (JStr digest)); [|done]. by apply (json_ok_jget "outputs" _ _ Hok).
  - by apply (jget_canon "not_issued_atto" _ (JStr _)).
  - by apply (jget_canon "positive_rows" _ (JInt _)).
Qed.

(** C19 (refinement): the files that a run of the revert-leak script leaves behind pass every check of the
    non-issuance audit, provided its inventories hold, for each exported address, the earlier
    non-issuance that the export was computed from: the audit reads back the total withheld, one
    row per exported address, and the summary that was printed. *)
Theorem leak_export_accepted resolve a w b w' caps amounts :
  RevertLeak.main resolve a w = (Ok b, w') →
  RevertLeak.a_output_csv a ≠ RevertLeak.a_summary_output a → printable resolve a b = true →
  (∀ r, r ∈ b_rows b → mget caps (rt_address r) + mget amounts (rt_address r) = rt_prior r) →
  ∃ s summary,
    load_revert_leak (RevertLeak.a_output_csv a) (RevertLeak.a_summary_output a) caps amounts w' =
      (Ok (s, total_withheld b, summary), w') ∧
    leak_total s = total_withheld b ∧ le_seen s = list_to_set (rt_address <$> b_rows b).
Proof.
  intros (_ & Hran & w2 & s & sources & Hw2 & Hs & Es & Hw' & _)%RevertLeak.main_Ok Hne Hp Hprior.
  set (text := write_csv (rows_table (RevertLeak.a_cutoff_block a) (b_rows b))) in *.
  assert (Hcsv : files w' !! RevertLeak.a_output_csv a = Some text) by (rewrite Hw', lookup_insert_ne, Hw2; by simplify_map_eq).
  assert (Hsum : files w' !! RevertLeak.a_summary_output a = Some (dumps s +:+ newline)) by (rewrite Hw'; by simplify_map_eq).
  destruct (summary_found _ _ _ _ _ _ _ _ Hs Hp Es) as (Hst & (o & Ho & Hd) & Hn & Hpos).
  pose proof (loads_dumps s (summary_ok _ _ _ _ _ _ Hs Hp)) as Hl.
  pose proof (λ r Hr, exported_row_ok a w b caps amounts (RevertLeak.a_cutoff_block a) r Hran Hr (Hprior r Hr)) as Hrow.
  assert (Hrows : dict_rows text = RevertLeak.exported_row (RevertLeak.a_cutoff_block a) <$> b_rows b) by apply rows_table_read.
  assert (Haddr : row_address <$> dict_rows text = rt_address <$> b_rows b).
  { rewrite Hrows, <-list_fmap_compose. apply list_fmap_ext. intros i r Hi%list_elem_of_lookup_2. by apply Hrow. }
  assert (Hnd : NoDup (rt_address <$> b_rows b)) by (apply sorted_NoDup, (ran_rows _ _ _ Hran)).
  destruct (leak_rows_total caps amounts (dict_rows text) no_leak) as [st Hst'];
    [by rewrite Haddr|intros; by apply not_elem_of_empty| |].
  { rewrite Hrows. apply Forall_fmap, Forall_forall. intros r Hr. by apply Hrow. }
  pose proof (leak_rows_Ok _ _ _ _ Hst') as [Hseen _ _ Htot].
  assert (Ht : leak_total st = total_withheld b).
  { rewrite Htot, Hrows, sum_by_fmap. unfold total_withheld. apply sum_by_ext. intros r Hr. by apply Hrow. }
  rewrite Haddr in Hseen. exists st, (canon s). split_and!; [|done|done].
  assert (Hsize : size (le_seen st) = length (b_rows b)) by (rewrite Hseen, size_list_to_set by done; by rewrite length_fmap).
  assert (Hload : load_json (RevertLeak.a_summary_output a) w' = (Ok (canon s), w')).
  { unfold load_json. rewrite (io_bind_eq _ _ _ (dumps s +:+ newline) w'); [unfold lift; by rewrite Hl|]. unfold read. by rewrite Hsum. }
  assert (Hread : read (RevertLeak.a_output_csv a) w' = (Ok text, w')) by (unfold read; by rewrite Hcsv).
  assert (Hdig : NonIssuance.file_sha256 (RevertLeak.a_output_csv a) w' = (Ok (sha256 text), w'))
    by (unfold NonIssuance.file_sha256; rewrite file_sha256_at_read by lia; by rewrite Hcsv).
  assert (Heq : negb (jeq_str (JStr (sha256 text)) (sha256 text)) = false) by (apply negb_false_iff; by apply bool_decide_eq_true).
  assert (Heqn : jeq_str (JStr (str_of_Z (total_withheld b))) (str_of_Z (total_withheld b)) = true) by by apply bool_decide_eq_true.
  unfold load_revert_leak. rewrite (io_bind_eq _ _ _ _ _ Hload).
  rewrite (lift_bind_eq _ _ _ _ Hst), (guard_bind_eq _ _ _ _ eq_refl), (lift_bind_eq _ _ _ _ Ho), (lift_bind_eq _ _ _ _ Hd).
  rewrite (io_bind_eq _ _ _ _ _ Hdig).
  rewrite (guard_bind_eq _ _ _ _ Heq).
  rewrite (io_bind_eq _ _ _ _ _ Hread).
  rewrite (lift_bind_eq _ _ _ _ Hst').
  cbv zeta. rewrite (lift_bind_eq _ _ _ _ Hn), Ht, Heqn, Hpos. simpl.
  rewrite (lift_bind_eq _ _ _ false); [by rewrite guard_bind_eq|]. by rewrite Hsize, Z.eqb_refl.
Qed.

(** ** Witnesses *)
Definition ex_caps : gmap string Z := {[ ex_wallet := 20 ]}.

Definition ex_after : world := (RevertLeak.main RevertLeak.ex_resolve RevertLeak.ex_args RevertLeak.ex_world).2.

Lemma ex_prior r : r ∈ b_rows ex_built → mget ex_caps (rt_address r) + mget ∅ (rt_address r) = rt_prior r.
Proof.
  revert r. apply (Forall_forall (λ r, mget ex_caps (rt_address r) + mget ∅ (rt_address r) = rt_prior r)).
  apply (bool_decide_unpack _). by vm_compute.
Qed.

Lemma leak_export_accepted_witness :
  ∃ s summary, load_revert_leak "out.csv" "out.json" ex_caps ∅ ex_after = (Ok (s, total_withheld ex_built, summary), ex_after) ∧
    leak_total s = total_withheld ex_built ∧ le_seen s = list_to_set (rt_address <$> b_rows ex_built).
Proof.
  exact (leak_export_accepted RevertLeak.ex_resolve RevertLeak.ex_args RevertLeak.ex_world ex_built ex_after ex_caps ∅
    ex_retention_main ltac:(discriminate) ltac:(by vm_compute) ex_prior).
Defined.
