(* ===== verification/Handover.v ===== *)
(** * The verified report and the ledger

    verify-pending-receipts.py (PendingCheck.v) publishes the report of pending receipts with what it checked;
    actual-supply-ledger.py (Ledger.v) reads the published report.  The report is printed with sorted keys and read
    again, so that the objects come back in another order ([canon]); no reader of the report sees it. *)
From S2P Require Import Prelude PyStr PyData Sha256 Files Json JsonText Ledger Batch PendingCheck.

(** ** Reading a printed report *)
Lemma jget_opt_canon k v x : json_ok v = true → jget_opt k v = Ok x → jget_opt k (canon v) = Ok (canon x) ∧ json_ok x = true.
Proof.
  intros Hv H. destruct v as [| | | | |m]; try done. injection H as <-. destruct (assoc k m) as [y|] eqn:E.
  - assert (Hg : jget k (JObj m) = Ok y) by (unfold jget; by rewrite E). split; [|by eapply json_ok_jget].
    apply jget_canon in Hg; [|done]. cbn [canon] in *. unfold jget in Hg. unfold jget_opt. cbn [default]. by apply of_option_Ok in Hg as ->.
  - split; [|done]. cbn [canon jget_opt default]. match goal with |- context [assoc k ?l] => destruct (assoc k l) as [y|] eqn:E' end; [|done]. exfalso.
    apply assoc_Some in E'. rewrite (sort_by_Permutation _ _) in E'. apply list_elem_of_fmap in E' as ([k' z] & [= -> Hyz] & Hin).
    cbn [json_ok] in Hv. apply andb_true_iff in Hv as [Hd%bool_decide_eq_true _]. rewrite (assoc_elem k' z m Hd Hin) in E. discriminate E.
Qed.

Lemma truthy_canon v : truthy (canon v) = truthy v.
Proof.
  destruct v as [| | | |l|m]; try done; [by destruct l|]. cbn [canon truthy]. destruct m as [|kv m]; [done|].
  destruct (sort_by _ _) as [|y l] eqn:E; [|done]. pose proof (sort_by_Permutation (λ a b : string * json, str_leb a.1 b.1) (map (λ kv, (kv.1, canon kv.2)) (kv :: m))) as Hp.
  rewrite E in Hp. by apply Permutation_nil_l in Hp.
Qed.

Lemma jstr_canon v : jstr (canon v) = jstr v.
Proof. by destruct v. Qed.

Lemma jint_canon v : jint (canon v) = jint v.
Proof. by destruct v. Qed.

(** A loop over a list of objects that accepts each also accepts the printed list. *)
Section loops.
Context {S : Type} (f : S → json → result S).
Context (f_canon : ∀ s x s', json_ok x = true → f s x = Ok s' → f s (canon x) = Ok s').
Context (f_text : ∀ s t s', f s (JStr t) ≠ Ok s').

Lemma loop_array s l s' : Forall (λ x, json_ok x = true) l → foldM f s l = Ok s' → foldM f s (map canon l) = Ok s'.
Proof.
  intros Hl. revert s. induction Hl as [|x l Hx _ IH]; intros s H; [done|]. cbn [foldM map] in *.
  apply bind_Ok in H as (s1 & H1 & H). rewrite (f_canon _ _ _ Hx H1). by apply IH.
Qed.

Lemma loop_canon s v l s' :
  json_ok v = true → jiter v = Ok l → foldM f s l = Ok s' → ∃ l', jiter (canon v) = Ok l' ∧ foldM f s l' = Ok s'.
Proof.
  intros Hv Hi H. destruct v as [| | |t|vs|m]; try done.
  - by exists l.
  - injection Hi as <-. exists (map canon vs). split; [done|]. apply loop_array; [|done]. cbn [json_ok] in Hv. apply Forall_forall.
    rewrite forallb_forall in Hv. intros x Hx%list_elem_of_In. by apply Hv.
  - injection Hi as <-. assert (m = []) as ->.
    { destruct m as [|[k y] m]; [done|]. exfalso. cbn [fmap list_fmap foldM] in H.
      apply bind_Ok in H as (s1 & H1 & _). by apply f_text in H1. }
    by exists [].
Qed.

Lemma loop_or_canon k s v l s' :
  json_ok v = true → jiter_or k v = Ok l → foldM f s l = Ok s' → ∃ l', jiter_or k (canon v) = Ok l' ∧ foldM f s l' = Ok s'.
Proof.
  intros Hv Hi H. unfold jiter_or in *. apply bind_Ok in Hi as (x & Hx & Hi). apply jget_opt_canon in Hx as [-> Hx]; [|done].
  cbn [mbind result_bind]. rewrite truthy_canon. destruct (truthy x); [by eapply loop_canon|]. injection Hi as <-. by exists [].
Qed.
End loops.

(** The ledger's reader of the report. *)
Lemma load_receipt_canon s r s' : json_ok r = true → load_receipt s r = Ok s' → load_receipt s (canon r) = Ok s'.
Proof.
  intros Hr H. unfold load_receipt in *. destruct s as [p t]. apply bind_Ok in H as (k & Hk & H). apply bind_Ok in Hk as (kv & Hkv & Hk).
  apply bind_Ok in H as (to & Hto & H). apply bind_Ok in H as (n & Hn & H). apply bind_Ok in Hn as (nv & Hnv & Hn).
  unfold jget_str, jget_int. rewrite (jget_canon _ _ _ Hr Hkv), (jget_canon _ _ _ Hr Hto), (jget_canon _ _ _ Hr Hnv).
  cbn [mbind result_bind]. rewrite (jstr_canon kv), Hk, (jint_canon nv), Hn. cbn [mbind result_bind]. by rewrite jstr_canon.
Qed.

Lemma load_group_canon s g s' : json_ok g = true → load_group s g = Ok s' → load_group s (canon g) = Ok s'.
Proof.
  intros Hg H. unfold load_group in *. apply bind_Ok in H as (l & Hl & H).
  destruct (loop_or_canon load_receipt load_receipt_canon (λ '(p, t) _ _, ltac:(done)) "receipts" s g l s' Hg Hl H) as (l' & -> & H'). exact H'.
Qed.

Lemma load_direction_canon s d s' : json_ok d = true → load_direction s d = Ok s' → load_direction s (canon d) = Ok s'.
Proof.
  intros Hd H. unfold load_direction in *. apply bind_Ok in H as (l & Hl & H).
  destruct (loop_or_canon load_group load_group_canon (λ _ _ _, ltac:(done)) "pending_groups" s d l s' Hd Hl H) as (l' & -> & H'). exact H'.
Qed.

Lemma pending_canon report p : json_ok report = true → pending_of_report report = Ok p → pending_of_report (canon report) = Ok p.
Proof.
  intros Hr H. unfold pending_of_report in *. apply bind_Ok in H as (ds & Hds & H). apply bind_Ok in H as (l & Hl & H).
  apply bind_Ok in H as ([m t] & Hm & H). apply bind_Ok in H as (n & Hn & H). apply bind_Ok in Hn as (nv & Hnv & Hn).
  rewrite (jget_canon _ _ _ Hr Hds). cbn [mbind result_bind].
  destruct (loop_canon load_direction load_direction_canon (λ _ _ _, ltac:(done)) (∅, 0) ds l (m, t) (json_ok_jget _ _ _ Hr Hds) Hl Hm) as (l' & -> & Hm').
  cbn [mbind result_bind]. rewrite Hm'. cbn [mbind result_bind]. unfold jget_int. rewrite (jget_canon _ _ _ Hr Hnv). cbn [mbind result_bind].
  by rewrite jint_canon, Hn.
Qed.

(** ** The published report can be printed *)
Lemma ascii_chars s : is_ascii s = true → Forall (λ t, is_ascii t = true) (chars s).
Proof.
  unfold is_ascii. induction s as [|c s IH]; [constructor|]. cbn [all_chars chars]. intros [Hc Hs]%andb_true_iff. constructor; [|by apply IH].
  cbn [all_chars]. by rewrite Hc.
Qed.

Lemma json_ok_jiter v l : json_ok v = true → jiter v = Ok l → Forall (λ x, json_ok x = true) l.
Proof.
  intros Hv Hi. apply Forall_forall. destruct v as [| | |s|vs|m]; try done; injection Hi as <-; cbn [json_ok] in Hv.
  - intros x (t & -> & Ht)%list_elem_of_fmap. apply (proj1 (Forall_forall _ _) (ascii_chars s Hv) t Ht).
  - rewrite forallb_forall in Hv. intros x Hx%list_elem_of_In. by apply Hv.
  - apply andb_true_iff in Hv as [_ Hv]. rewrite forallb_forall in Hv. intros x ([k y] & -> & Hin%list_elem_of_In)%list_elem_of_fmap.
    apply Hv, andb_true_iff in Hin as [Hk _]. exact Hk.
Qed.

Lemma json_ok_jiter_or k v l : json_ok v = true → jiter_or k v = Ok l → Forall (λ x, json_ok x = true) l.
Proof.
  intros Hv H. unfold jiter_or in H. apply bind_Ok in H as (x & Hx & H). apply jget_opt_canon in Hx as [_ Hx]; [|done].
  destruct (truthy x); [by eapply json_ok_jiter|]. injection H as <-. constructor.
Qed.

Lemma nested_ok k vs ls : Forall (λ x, json_ok x = true) vs → mapR (jiter_or k) vs = Ok ls → Forall (λ x, json_ok x = true) (mjoin (M:=list) ls).
Proof.
  intros Hvs H%mapR_Ok. apply Forall_join. induction H as [|v l vs ls Hl _ IH]; [constructor|]. apply Forall_cons in Hvs as [Hv Hvs].
  constructor; [by eapply json_ok_jiter_or|by apply IH].
Qed.

Lemma receipts_ok original rs : json_ok original = true → receipts_of original = Ok rs → Forall (λ x, json_ok x = true) rs.
Proof.
  intros Ho H. unfold receipts_of in H. apply bind_Ok in H as (ds & Hds & H). apply bind_Ok in H as (l & Hl & H). apply bind_Ok in H as (gs & Hg & H).
  apply bind_Ok in H as (ls & Hls & [= <-]). eapply nested_ok; [|done]. eapply nested_ok; [|done]. eapply json_ok_jiter; [|done]. by eapply json_ok_jget.
Qed.

Lemma json_ok_jset k v o o' : json_ok o = true → json_ok v = true → is_ascii k = true → jset k v o = Ok o' → json_ok o' = true.
Proof.
  intros Ho Hv Hk H. destruct o as [| | | | |m]; try done. injection H as <-. cbn [json_ok] in *. apply andb_true_iff in Ho as [Hd%bool_decide_eq_true Hm].
  rewrite forallb_forall in Hm. apply andb_true_iff. split; [by apply bool_decide_eq_true, assoc_set_NoDup|].
  apply forallb_forall. intros kv [->|Hkv]%list_elem_of_In%elem_of_assoc_set; [by apply andb_true_iff|by apply Hm, list_elem_of_In].
Qed.

Lemma verification_ok checks d1 d2 :
  Forall (λ c, json_ok (ck_hash c) = true) checks → is_ascii d1 = true → is_ascii d2 = true → json_ok (verification_json checks d1 d2) = true.
Proof.
  intros Hc H1 H2. unfold verification_json. json_object; try done. apply forallb_forall. intros x (c & -> & Hin)%list_elem_of_In%list_elem_of_fmap.
  rewrite Forall_forall in Hc. unfold checked_json. json_object; [by apply Hc|by destruct (ck_found c)|by destruct (ck_block c)].
Qed.

(** ** Theorem *)

(** C38 (refinement): the report of pending receipts after its verification, as the ledger reads it: from a report that the ledger would accept (of
    ASCII texts, with distinct keys), the verified report that is published is accepted too, with the very same claims of the
    pending receipts; and each receipt behind these claims was looked up and not found consumed by the cutoff. *)
Theorem verified_report_accepted transport a w checks report printed w' text original claims :
  PendingCheck.main transport a w = (Ok (checks, report, printed), w') →
  files w !! a_input a = Some text → loads text = Ok original → json_ok original = true → pending_of_report original = Ok claims →
  load_pending_receipts (a_output a) w' = (Ok (claims, canon report), w') ∧
  ∃ rs, receipts_of original = Ok rs ∧ Forall2 (unconsumed transport a) rs checks.
Proof.
  intros H Ht Hl Hok Hp. apply main_pending_Ok in H as (itext & stext & original' & rs & Hi & Hl' & Hrs & Hchk & Hr & _ & Hw).
  rewrite Ht in Hi. injection Hi as <-. rewrite Hl in Hl'. injection Hl' as <-. destruct Hr as (r1 & Hr1 & Hr2).
  assert (Hrep : json_ok report = true).
  { eapply json_ok_jset; [| | |exact Hr2]; [eapply json_ok_jset; [exact Hok| | |exact Hr1]; done| |done].
    apply verification_ok; [|apply is_ascii_sha256..]. pose proof (receipts_ok _ _ Hok Hrs) as Hro. clear - Hchk Hro.
    induction Hchk as [|r c rs cs Hc _ IH]; [constructor|]. apply Forall_cons in Hro as [Hr Hro]. constructor; [|by apply IH].
    destruct Hc as (answer & Hh & _). by eapply json_ok_jget. }
  assert (Hsame : ∀ k, k ≠ "cutoff" → k ≠ "cutoff_verification" → jget k report = jget k original).
  { intros k Hk1 Hk2. by rewrite (jset_get _ _ _ _ _ Hr2), decide_False, (jset_get _ _ _ _ _ Hr1), decide_False. }
  split; [|by exists rs]. unfold load_pending_receipts, load_json.
  assert (Hrd : read (a_output a) w' = (Ok (dumps report +:+ newline), w')) by (unfold read; by rewrite Hw, lookup_insert_eq).
  assert (Hload : (text ← read (a_output a); lift (loads text)) w' = (Ok (canon report), w')).
  { rewrite (io_bind_eq _ _ _ _ _ Hrd). unfold lift. by rewrite loads_dumps. }
  rewrite (io_bind_eq _ _ _ _ _ Hload).
  assert (Hpend : pending_of_report (canon report) = Ok claims).
  { apply pending_canon; [done|]. unfold pending_of_report, jget_int in *. by rewrite !Hsame by done. }
  by rewrite (lift_bind_eq _ _ _ _ Hpend).
Qed.

(** ** An example *)
Definition ex_receipt (key hash : string) (amount : Z) : json :=
  JObj [("secure_key", JStr key); ("to", JStr "0x1"); ("amount_atto", JStr (str_of_Z amount)); ("transaction_hash", JStr hash)].

Definition ex_text : string :=
  dumps (JObj [("directions", JArr [JObj [("pending_groups", JArr [JObj [("receipts", JArr [ex_receipt "0xK1" "0xa" 5; ex_receipt "0xk1" "0xb" 7])]])]]);
               ("pending_active_atto", JStr "12")]).

Definition ex_handed_world : world := World (list_to_map [("pending.json", ex_text); ("summary.json", dumps ex_interval)]) None.
Definition ex_handed : list checked * json * json := get ([], JNull, JNull) (PendingCheck.main ex_transport ex_args ex_handed_world).1.
Definition ex_original : json := get JNull (loads ex_text).
Definition ex_pending : pending_claims := get ∅ (pending_of_report ex_original).

Lemma ex_main_handover : PendingCheck.main ex_transport ex_args ex_handed_world =
  (Ok (ex_handed.1.1, ex_handed.1.2, ex_handed.2), (PendingCheck.main ex_transport ex_args ex_handed_world).2).
Proof. rewrite <-!surjective_pairing. apply run_Ok, get_Ok. by vm_compute. Qed.

Example ex_handed_claims : map_to_list ex_pending = [("0xk1", Pending "0x1" 12)].
Proof. by vm_compute. Qed.

Lemma verified_report_accepted_witness :
  json_ok ex_original = true ∧
  load_pending_receipts "checked.json" (PendingCheck.main ex_transport ex_args ex_handed_world).2 =
  (Ok (ex_pending, canon ex_handed.1.2), (PendingCheck.main ex_transport ex_args ex_handed_world).2).
Proof.
  assert (Hok : json_ok ex_original = true) by by vm_compute. split; [exact Hok|].
  refine (proj1 (verified_report_accepted ex_transport ex_args ex_handed_world _ _ _ _ ex_text ex_original ex_pending ex_main_handover _ _ Hok _)).
  - by vm_compute.
  - apply get_Ok. by vm_compute.
  - apply get_Ok. by vm_compute.
Defined.
