(* ===== verification/Snapshots.v ===== *)
(** * Two snapshots compared

    The tables that two runs of historical-staking-rpc.py (Staking.v) leave are the inputs of historical-claims-diff.py
    (ClaimsDiff.v): reading a table back gives the claims of the run that wrote it, so that the differences which
    the comparison reports are differences between what the node lists at the two blocks. *)
From S2P Require Import Prelude PyStr PyData Files Csv Bech32 Validators Staking ClaimsDiff.

(** ** Decoded addresses are in lower case *)
Lemma hex_lower b : Forall is_byte b → lower (hex b) = hex b.
Proof. intros Hb%hex_lower_hex. unfold lower_hex in Hb. apply andb_true_iff in Hb as [_ Hb]. by apply lower_hex_lower. Qed.

Lemma decode_one1_lower s a : decode_one1 s = Ok a → lower a = a.
Proof.
  intros (sep & data & decoded & _ & _ & _ & Hd & _ & _ & Hc & _ & ->)%decode_one1_Ok. rewrite lower_app. f_equal. apply hex_lower.
  apply charset_indices_string in Hd as (_ & Hg & _). unfold convert_bits in Hc. cbv zeta in Hc. apply bind_Ok in Hc as (u & _ & [= <-]).
  apply (inv_groups 5 8 (drop_last6 data)). apply regroup_spec; [lia|lia|]. by apply Forall_take.
Qed.

Lemma claim_of_lower d a x : claim_of d = Ok (a, x) → lower a = a.
Proof.
  unfold claim_of. intros H. apply bind_Ok in H as (v & _ & H). apply bind_Ok in H as (address & Ha & H). inv_ok H. simplify_eq.
  by eapply decode_one1_lower.
Qed.

Lemma listed_lower infos ls : mapR claims_of infos = Ok ls → Forall (λ ac, lower ac.1 = ac.1) (mjoin (M:=list) ls).
Proof.
  intros H%mapR_Ok. apply Forall_join. induction H as [|info l infos ls Hl _ IH]; [constructor|]. constructor; [|exact IH].
  unfold claims_of in Hl. apply bind_Ok in Hl as (v & _ & Hl). apply bind_Ok in Hl as (ds & _ & Hl). apply bind_Ok in Hl as (k & _ & Hl%mapR_Ok).
  clear IH. induction Hl as [|d [a x] k l Hd _ IH]; [constructor|]. constructor; [by eapply claim_of_lower|exact IH].
Qed.

Lemma collect_dom l : dom (collect ∅ l) = list_to_set l.*1.
Proof. rewrite <-(dom_fmap_L active), collect_tally by done. apply dom_tally. Qed.

(** ** Reading a table back *)
Lemma foldl_inserts {A} (l : list (string * A)) :
  NoDup l.*1 → foldl (λ m kv, <[kv.1 := kv.2]> m) (∅ : gmap string A) l = list_to_map l.
Proof.
  induction l as [|[k x] l IH] using rev_ind; intros Hnd; [done|]. rewrite foldl_app, IH; [|rewrite fmap_app in Hnd; by apply NoDup_app in Hnd as (? & _ & _)].
  cbn [foldl fst snd]. rewrite (list_to_map_proper (l ++ [(k, x)]) ((k, x) :: l)); [done|done|by rewrite Permutation_app_comm].
Qed.

Lemma staking_of_table m : (∀ k, k ∈ dom m → lower k = k) → staking_of (Staking.table_text m) = Ok m.
Proof.
  intros Hm. unfold staking_of. rewrite Staking.table_back.
  assert (Hfold : ∀ l m0, Forall (λ ac : string * stake, lower ac.1 = ac.1) l →
    foldM staking_step m0 (Staking.table_row <$> l) = Ok (foldl (λ m kv, <[kv.1 := kv.2]> m) m0 l)).
  { induction l as [|ac l IH]; intros m0 Hl; [done|]. apply Forall_cons in Hl as [Ha Hl]. rewrite fmap_cons. cbn [foldM].
    assert (Hs : staking_step m0 (Staking.table_row ac) = Ok (<[ac.1 := ac.2]> m0)).
    { unfold staking_step. rewrite (table_row_component ac "active_delegation_atto" active), (table_row_component ac "pending_undelegation_atto" pending),
        (table_row_component ac "unclaimed_reward_atto" unclaimed) by set_solver. cbn [mbind result_bind]. rewrite claims_row_address. cbn [mbind result_bind].
      rewrite Ha. by destruct ac.2. }
    rewrite Hs. cbn [mbind result_bind foldl]. by apply IH. }
  assert (Hnd : NoDup (sorted_claims m).*1).
  { unfold sorted_claims. rewrite (sort_by_Permutation _ _). apply NoDup_fst_map_to_list. }
  rewrite Hfold.
  - f_equal. rewrite foldl_inserts by done. rewrite <-(list_to_map_to_list m) at 2. apply list_to_map_proper; [done|apply sort_by_Permutation].
  - apply Forall_forall. intros ac Hac%sorted_claims_elem. apply Hm. by eapply elem_of_dom_2.
Qed.

(** ** Theorem *)

(** What an address has in a list of claims. *)
Definition held (f : stake → Z) (cs : list (string * stake)) (x : string) : Z := sum_by (f ∘ snd) (filter (λ ac, ac.1 = x) cs).

Lemma collect_held k f cs x : (k, f) ∈ components → f (default no_stake (collect ∅ cs !! x)) = held f cs x.
Proof.
  intros Hk. destruct (component_laws k f Hk) as [H0 Hadd]. pose proof (collect_tally f cs H0 Hadd) as Ht.
  assert (Hm : mget (f <$> collect ∅ cs) x = f (default no_stake (collect ∅ cs !! x))) by (unfold mget; rewrite lookup_fmap; by destruct (collect ∅ cs !! x)).
  rewrite <-Hm, Ht, mget_tally, mget_empty. unfold held. lia.
Qed.

Lemma collect_sum k f cs : (k, f) ∈ components → msum (f <$> collect ∅ cs) = sum_by (f ∘ snd) cs.
Proof.
  intros Hk. destruct (component_laws k f Hk) as [H0 Hadd]. by rewrite collect_tally, msum_tally, (msum_empty (K := string)), Z.add_0_l.
Qed.

(** C37 (refinement): two snapshots of the staking claims and their comparison: when both tables come from runs of the snapshot script, the
    comparison reads them without loss, every delegator of either block has a row whose stakes are the sums over its own
    delegations at each block, and the three reported changes of the staking components are the differences
    between the sums over all delegations that the node lists. *)
Theorem snapshots_compared t1 t2 n1 n2 a1 a2 d w0 w1 w2 w3 s1 s2 r1 r2 rows t report :
  Staking.main t1 n1 a1 w0 = (Ok (s1, r1), w1) → Staking.main t2 n2 a2 w1 = (Ok (s2, r2), w2) →
  a_old_staking d = Staking.a_output a1 → a_new_staking d = Staking.a_output a2 →
  ClaimsDiff.main d w2 = (Ok (rows, t, report), w3) →
  ∃ infos1 ls1 infos2 ls2, let old := mjoin (M:=list) ls1 in let new := mjoin (M:=list) ls2 in
    listed t1 (a_block a1) 0 infos1 ∧ mapR claims_of infos1 = Ok ls1 ∧ listed t2 (a_block a2) 0 infos2 ∧ mapR claims_of infos2 = Ok ls2 ∧
    (∀ x, x ∈ old.*1 ++ new.*1 → x ∈ c_address <$> rows) ∧
    (∀ c k f, c ∈ rows → (k, f) ∈ components → f (c_old c) = held f old (c_address c) ∧ f (c_new c) = held f new (c_address c)) ∧
    t_active t = sum_by (active ∘ snd) new - sum_by (active ∘ snd) old ∧
    t_pending t = sum_by (pending ∘ snd) new - sum_by (pending ∘ snd) old ∧
    t_unclaimed t = sum_by (unclaimed ∘ snd) new - sum_by (unclaimed ∘ snd) old.
Proof.
  intros (infos1 & ls1 & Hl1 & Hc1 & Hs1 & _ & _ & _ & Hw1)%staking_run (infos2 & ls2 & Hl2 & Hc2 & Hs2 & _ & _ & Hfree & Hw2)%staking_run Hold Hnew H.
  apply main_run_diff in H as (ot & nt & text & o & n & records & Hot & Ho & Hnt & Hn & _ & _ & Hcmp & _).
  assert (Hread : ∀ infos ls, mapR claims_of infos = Ok ls → staking_of (Staking.table_text (collect ∅ (mjoin (M:=list) ls))) = Ok (collect ∅ (mjoin (M:=list) ls))).
  { intros infos ls Hls%listed_lower. apply staking_of_table. intros k. rewrite collect_dom, elem_of_list_to_set. intros (ac & -> & Hac)%list_elem_of_fmap.
    by apply (proj1 (Forall_forall _ _) Hls). }
  rewrite Hold, Hw2, Hw1 in Hot. rewrite Hw1 in Hfree. rewrite Hnew, Hw2, lookup_insert_eq in Hnt. injection Hnt as <-.
  rewrite lookup_insert_ne, lookup_insert_eq in Hot by (intros E; rewrite E, lookup_insert_eq in Hfree; done). injection Hot as <-.
  rewrite Hs1, (Hread _ _ Hc1) in Ho. injection Ho as <-. rewrite Hs2, (Hread _ _ Hc2) in Hn. injection Hn as <-.
  exists infos1, ls1, infos2, ls2. cbv zeta.
  pose proof (compare_addresses records (collect ∅ (mjoin (M:=list) ls1)) (collect ∅ (mjoin (M:=list) ls2))) as [_ Hdom].
  pose proof (compare_change records (collect ∅ (mjoin (M:=list) ls1)) (collect ∅ (mjoin (M:=list) ls2))) as Hrow.
  pose proof (compare_totals records (collect ∅ (mjoin (M:=list) ls1)) (collect ∅ (mjoin (M:=list) ls2))) as Htot.
  pose proof (sum_stake records (collect ∅ (mjoin (M:=list) ls1)) (collect ∅ (mjoin (M:=list) ls2))) as Hsum.
  rewrite Hcmp in *. cbn [fst snd] in *. subst t. cbn [t_active t_pending t_unclaimed]. split_and!; try done.
  - intros x Hx. apply Hdom. unfold addresses. rewrite !collect_dom. set_solver.
  - intros c k f Hc Hk. rewrite (Hrow c Hc). cbn [c_old c_new change_of c_address]. split; by apply (collect_held k).
  - rewrite Hsum by done. by rewrite !(collect_sum "active_delegation_atto" active) by set_solver.
  - rewrite Hsum by done. by rewrite !(collect_sum "pending_undelegation_atto" pending) by set_solver.
  - rewrite Hsum by done. by rewrite !(collect_sum "unclaimed_reward_atto" unclaimed) by set_solver.
Qed.

(** ** An example *)
Definition ex_later : nat → string → list json → result json := λ attempt method params,
  match params with
  | JInt 0 :: _ => Ok (JObj [("result", JArr [ex_validator [ex_delegation ex_a 90 [7] 4]])])
  | _ => Ok (JObj [("result", JArr [])])
  end.

Definition ex_start : world :=
  World (list_to_map [("diff.csv", write_csv [["secure_key"; "address"; "old_balance_atto"; "new_balance_atto"]; ["k"; "0xee"; "1"; "2"]])]) None.
Definition ex_old_args : Staking.args := Staking.Args "http://node" 100 "old.csv".
Definition ex_new_args : Staking.args := Staking.Args "http://node" 200 "new.csv".
Definition ex_old_run : result (state * json) * world := Staking.main Staking.ex_transport 3 ex_old_args ex_start.
Definition ex_new_run : result (state * json) * world := Staking.main ex_later 2 ex_new_args ex_old_run.2.
Definition ex_compared : result (list change * component_totals * json) * world := ClaimsDiff.main ex_diff_args ex_new_run.2.

Definition ex_old_out : state * json := get (initial, JNull) ex_old_run.1.
Definition ex_new_out : state * json := get (initial, JNull) ex_new_run.1.
Definition ex_compared_out : list change * component_totals * json := get ([], no_totals, JNull) ex_compared.1.

Lemma ex_old_main : Staking.main Staking.ex_transport 3 ex_old_args ex_start = (Ok (ex_old_out.1, ex_old_out.2), ex_old_run.2).
Proof. rewrite <-surjective_pairing. unfold ex_old_out, ex_old_run. apply run_Ok, get_Ok. by vm_compute. Qed.

Lemma ex_new_main : Staking.main ex_later 2 ex_new_args ex_old_run.2 = (Ok (ex_new_out.1, ex_new_out.2), ex_new_run.2).
Proof. rewrite <-surjective_pairing. unfold ex_new_out, ex_new_run. apply run_Ok, get_Ok. by vm_compute. Qed.

Lemma ex_compared_main : ClaimsDiff.main ex_diff_args ex_new_run.2 = (Ok (ex_compared_out.1.1, ex_compared_out.1.2, ex_compared_out.2), ex_compared.2).
Proof. rewrite <-!surjective_pairing. unfold ex_compared_out, ex_compared. apply run_Ok, get_Ok. by vm_compute. Qed.

Example ex_compared_totals : ex_compared_out.1.2 = Totals 1 (-33) (-8) 1 (-39).
Proof. by vm_compute. Qed.

Lemma snapshots_compared_witness :
  ∃ old new, t_active ex_compared_out.1.2 = sum_by (active ∘ snd) new - sum_by (active ∘ snd) old ∧ ∀ x, x ∈ old.*1 ++ new.*1 → x ∈ c_address <$> ex_compared_out.1.1.
Proof.
  destruct (snapshots_compared _ _ _ _ _ _ ex_diff_args _ _ _ _ _ _ _ _ _ _ _ ex_old_main ex_new_main eq_refl eq_refl ex_compared_main)
    as (infos1 & ls1 & infos2 & ls2 & _ & _ & _ & _ & Hx & _ & Ht & _). eexists _, _. exact (conj Ht Hx).
Defined.
